(* ===== verification/_CoqProject ===== *)
-Q . S2P
Prelude.v
GoLib.v
GoText.v
Sha256.v
Json.v
JsonOut.v
GoTime.v
Rfc3339.v
Http.v
JsonCut.v
Jwt.v
Config.v
Prog.v
Traces.v
Rely.v
Asks.v
Github.v
GithubSpec.v
Models.v
Sql.v
Redis.v
World.v
Migrate.v
Startup.v
Tables.v
Typed.v
Store.v
Lifecycle.v
Queue.v
Outcome.v
Scheduler.v
Service.v
Webhook.v
Api.v
Auth.v
Deliveries.v
System.v
JobApi.v
Scenario.v
LogStream.v
Workspace.v
Jobspec.v
Executor.v
Agent.v
Encode.v
Middleware.v
AgentSpec.v
Wire.v
Cluster.v
Machine.v
Grants.v
Origin.v
Operations.v
Polls.v
Honesty.v
ClusterSpec.v
MachineSpec.v
EndToEnd.v
Commands.v
Output.v
Witnesses.v
RunnerWitnesses.v
ClusterWitnesses.v
