(* ===== verification/Prelude.v ===== *)
(** * ForgeRun: a verification development

    ForgeRun (src/) is a self-hosted CI control plane in Go.  GitHub posts
    webhooks to the API (internal/api), which stores a job in PostgreSQL
    (internal/store) and puts its id on a Redis queue (internal/queue).  The
    scheduler (internal/scheduler) takes ids from the queue, picks a runner and
    puts the id in that runner's mailbox.  Runner agents poll the API for their
    mailbox (internal/runner), check out the commit, read its job file
    (internal/jobspec), run it in a container (internal/executor), stream logs
    and report the result.  A reaper in the scheduler process returns the jobs of
    silent runners to the queue.  The API posts commit statuses and mints clone
    tokens through internal/github, and migrates the schema when it starts.

    ** How the program is modelled

    Every Go function that talks to the outside is a program tree ([Prog.Prog])
    of atomic calls: SQL statements, Redis commands, random identifiers, the
    GitHub client.  [run] executes a tree alone, [prog_step] executes its next
    call, so the same definition serves functional theorems and interleavings.
    The database is two finite maps, each SQL statement a function on them
    (file Sql); one statement is one atomic step, and so is the transaction of
    AssignJob.  The environment (file World) decides for each call whether it is
    executed and answered, lost, or executed with its answer lost; a theorem
    that quantifies over worlds quantifies over all such schedules, and [calm]
    says that nothing fails.

    Each process has its own signature of calls: [World.Call] (API and
    scheduler), [AgentCall], [HostCall] (git and files), [DockerCall],
    [StreamCall] (the locks of the log stream), [GhCall], [MigCall], [BootCall],
    [SchedulerCall] and [RunnerCall] (the processes), [WriterCall] (a response
    writer).  Three ways of reasoning about a program are used: by [run], from one
    world to the next; by [post] (file Traces), about every trace whatever the
    replies are, which covers goroutines that share bookkeeping; and by [safe]
    (file Rely) and [honest] (file Asks), in a world that others change between
    calls.

    The parts are composed twice.  System interleaves the processes of the
    control plane call by call; Cluster adds the runners, whose requests are
    served by the routes of the API and answered with the bytes of its responses
    (file Encode).  Machine is the deterministic part of a Cluster: one runner at
    work, executable, each of whose steps is a step of a Cluster.

    Go's maps and unordered SELECTs are enumerated in an unknown order (class
    [RangeOrder]); Redis is a parameter (class [Redis]) known by the documented
    behaviour of its list commands (class [RedisOk]), of which [gmap_redis] is an
    instance.  The scheduler and the API are verified against the interfaces
    [QueueOk] and [SchedulerOk], never against Redis or the placement policy.

    ** The files

    - Prelude: results, machine ranges, list and string lemmas, tactics.
    - GoLib, Sha256, Json: what the code uses of Go's standard library, executable:
      strings, hex, base64, strconv, constant-time comparison, UTF-8, SHA-256 and
      HMAC (with the published test vectors), and the JSON scanner and struct
      decoder of encoding/json.
    - GoText, JsonOut, JsonCut, GoTime, Rfc3339, Http: more of it: splitting,
      replacing, paths and base64; json.Marshal with its round trip through the
      decoder, also when the body is cut at a limit or has more after it;
      reading and writing RFC 3339, with their round trip; requests and responses
      of the HTTP client.
    - Jwt: %q, base64url decoding, RSA signatures, and app.go's token.
    - Config: internal/config, with time.ParseDuration.
    - Prog: program trees, running and stepping, [all_calls], early return.
    - Traces, Rely, Asks: the program logics.
    - Github, GithubSpec: internal/github/client.go and app.go: the retry loop,
      the installation and token caches, key parsing, Configure; and what is
      promised of them.
    - Models: internal/models (statuses, transition tables, records, CanRun).
    - Sql: migrations/*.sql as tables, and the statements of internal/store.
    - Redis: the commands the queue sends and the server's documented behaviour.
    - World: calls, worlds, faults.
    - Migrate: internal/store/migrate.go over a transactional database.
    - Startup: cmd/api/main.go, which composes Config, Migrate and Github.
    - Typed: every column holds a value of its type, and every statement keeps it.
    - Tables: well-formed tables ([db_wf]), how tables may change
      ([db_evolves]), and that every admissible statement respects both.
    - Store: the methods of internal/store/store.go, each with its refinement of
      a functional specification ([Spec], [implements]).
    - Lifecycle: theorems about store methods: what each does to the agreement of
      the two tables, atomicity of AssignJob, exactly-once logs.
    - Queue: internal/queue: the interface, the Redis implementation, the
      two-list specification and the refinement.
    - Outcome: rules that compose store methods and queue operations.
    - Scheduler, Service: internal/scheduler: the placement policy, the
      assignment loop, start-up recovery and the reaper.
    - Webhook: internal/github/webhook.go: signatures and payloads.
    - Api: internal/api: every handler, the middleware and the routes.
    - Auth, Deliveries, JobApi: theorems about authentication and ownership,
      about webhook deliveries, and about what the handlers do to a job.
    - System: requests, schedulers and reapers interleaved call by call, with
      crashes, time and faults; invariants of every reachable state; [play]
      executes a schedule.
    - LogStream: internal/runner/logstream.go: two goroutines, two mutexes, a
      Once.
    - Workspace, Jobspec, Executor: internal/runner/workspace.go,
      internal/jobspec and internal/executor, each with a theorem about all its
      traces.
    - Agent, AgentSpec: internal/runner/agent.go and what holds of every run.
    - Encode: the responses of the API as bytes, and that the agent reads them
      back.
    - Middleware: withLogging and withRecovery over a response writer.
    - Wire, Output: the agent's requests as the server sees them; results and
      log output from the runner to the table.
    - Cluster, ClusterSpec: control plane and runners together, with all faults;
      a job is SUCCESS only if it was built.  Grants, Polls and Honesty carry the
      proof: what each party may rely on, that a polled job is a stored one, and
      that the agent says nothing it does not know.
    - Origin, Operations: every job was delivered with a signature and is fit to be
      built; complete operations, ticks of the reaper included, keep the two tables
      in agreement.
    - Machine, MachineSpec, EndToEnd: a runner and the bookkeeping of its active
      job at work against the control plane: from the mailbox, or from the
      webhook, to the stored outcome; and how a finished job stops.
    - Commands: cmd/scheduler/main.go and cmd/runner/main.go with its flags, the
      loops of Service.Run and the reaper's goroutine, internal/logging.
    - Scenario, Witnesses, RunnerWitnesses, ClusterWitnesses: a concrete
      deployment, schedules of it, and the theorems applied at concrete states.

    ** What the theorems show

    - Safety of the whole system: at most one unfinished job per commit and
      event, every step moves a job at most once along a state machine that is
      spelled out independently of the code, finished jobs never change, logs are
      append-only, rows are consistent, under every interleaving, crash and fault
      (System), and every row comes from a signed delivery (Origin).  Jobs and
      runners agree when no call fails and operations are not interleaved; the
      reaper's operation is its whole tick, since ReapOfflineRunners alone takes a
      runner's job from it before the job is requeued (Operations).
    - Function: what the assignment loop, the reaper, deliveries, results,
      cancellations, heartbeats, listings do on every branch (Service,
      Deliveries, JobApi), that the loop makes progress, and that a finished
      job's runner is told to stop at any later heartbeat.
    - The runner: every accepted job comes to an end with its directory removed,
      its log closed and at most one truthful report (AgentSpec); Close neither
      deadlocks nor loses output (LogStream); a job's container is as confined as
      executor/docker.go says (Executor); clone tokens are redacted and never
      written to the workspace (Workspace).
    - End to end: a job that is SUCCESS was run in a container that exited with 0,
      at its commit, whatever fails (ClusterSpec); a push on a quiet system is
      assigned, fetched, built and stored, and a job that is finished elsewhere
      stops its build (EndToEnd, MachineSpec); what a build writes is what the
      job's log holds, the result the agent encodes is the result the table
      stores, and the job the agent decodes is the one that is stored (Output,
      Wire, MachineSpec).
    - Types: the columns hold values of their SQL types in every reachable state
      (a lemma of System, on Typed), which is why what is sent survives JSON.
    - Processes: the API only serves on the newest schema (Startup); the scheduler
      serves only with its connections, its reaper panics exactly if the heartbeat
      timeout is below two nanoseconds, and flags override settings (Commands); the
      status that is logged is the one that is sent, and a panic is answered 500
      (Middleware).
    - GitHub: at most three attempts; tokens for runners can only read one
      repository, for any interleaving of calls; app tokens are accepted by a
      verifier whose clock is a minute off (GithubSpec, Jwt).
    - Migrations: recorded versions and schema agree at every moment, rolling
      back inverts migrating, and the API only serves on the newest schema
      (Migrate, Startup).
    - Refinement: the Redis queue implements two lists and mailboxes (Queue).
    - Security: HMAC verification is exact, unsigned or oversized deliveries cause
      no call, runner authentication and job ownership hold under every fault (Webhook,
      Auth).
    - Where the code does not do what it means to: theorems that exhibit a lost
      id (Queue, Service), a stranded job (Service, Deliveries), discarded output
      (Lifecycle), a double booking (Scenario), a foreign mailbox (Auth) and a
      result that is too long to be reported (Wire).

    ** Bounds and fuel

    The scanner of Json recurses on fuel; [fuel_for] is proved enough
    ([Json.value_enough]).  Itoa has fuel for twenty digits, more than any int64.
    [serve_loop], [ticker], [heartbeatLoop] and [run_loop] take the number of
    turns as an argument: these loops of the code run for ever, and the theorems
    hold for every number.  The retry loop of the GitHub client has the three
    attempts of the code.  INT columns are 32 bits wide, Go's int 64; both are
    written out.

    ** What is not modelled

    What is logged (only its level is modelled), contexts (a cancelled request is a
    lost call or a crash; where the code looks at a context, its answer is a
    reply), the text of driver errors, connection pools, TLS, and the timeouts of
    HTTP clients and servers other than as lost calls.  An id that PostgreSQL would
    refuse as text is treated as one that does not exist.  Parameters stand for
    what is not the program's: git, Docker, the YAML decoder, PEM and DER, net/url,
    the effect of a migration's SQL on the schema, the zone of the server's clock,
    strconv.Quote where a text is only shown.  Floating point (JOB_CPUS) is a
    parameter too.  In a Cluster the answers of the runner's host, its shared
    bookkeeping and its log buffer included, are arbitrary; they have their own
    state in Machine and LogStream.  Two processes that migrate at the same time
    are left out, and so are Close methods.

    Planned next: the two goroutines of the agent interleaved over its
    bookkeeping; two migrators at once. *)
From stdpp Require Export base tactics option list gmap strings fin_maps sorting.
From Stdlib Require Export ZArith Lia.

(** ** Fallible results

    Go functions of type [(T, error)] are translated to [result T]: the code
    never uses the value when the error is non-nil. *)

Inductive result (E A : Type) : Type :=
| Ok (a : A)
| Err (e : E).
Arguments Ok {E A} a.
Arguments Err {E A} e.

#[export] Instance result_eq_dec {E A} `{EqDecision E, EqDecision A} :
  EqDecision (result E A).
Proof. solve_decision. Defined.

(** The operation succeeded. *)
Definition is_ok {E A} (r : result E A) : bool :=
  match r with Ok _ => true | Err _ => false end.

(** ** Machine ranges *)

(** Go's [int] is 64 bits wide, PostgreSQL's [INT] 32. *)
Definition int64_min : Z := (- 2 ^ 63)%Z.
Definition int64_max : Z := (2 ^ 63 - 1)%Z.
Definition int4_min : Z := (- 2 ^ 31)%Z.
Definition int4_max : Z := (2 ^ 31 - 1)%Z.

Definition int64_ok (z : Z) : bool := (int64_min <=? z)%Z && (z <=? int64_max)%Z.
Definition int4_ok (z : Z) : bool := (int4_min <=? z)%Z && (z <=? int4_max)%Z.

(** ** Tactics *)

(** Break the [match] and [if] the goal or a hypothesis is stuck on, keeping
    the equation, until nothing is left to split. *)
Ltac split_matches :=
  repeat (case_match; simplify_eq/=; try done).

(** Split a conjunction of independent facts and close the trivial ones. *)
Ltac split_facts := repeat split; try done.

(** ** Lists *)

Section lists.
Context {A : Type}.

(** The last element and what precedes it, [None] on the empty list. *)
Definition unsnoc (l : list A) : option (list A * A) :=
  match reverse l with
  | [] => None
  | x :: l' => Some (reverse l', x)
  end.

Lemma unsnoc_None (l : list A) : unsnoc l = None ↔ l = [].
Proof.
  unfold unsnoc. rewrite <-(reverse_nil (A:=A)). rewrite <-(inj_iff reverse l).
  rewrite reverse_nil. by destruct (reverse l).
Qed.

Lemma unsnoc_Some (l l' : list A) x : unsnoc l = Some (l', x) ↔ l = l' ++ [x].
Proof.
  unfold unsnoc. rewrite <-(inj_iff reverse l), reverse_snoc.
  destruct (reverse l) as [|y k]; [done|]. split.
  - intros [= <- ->]. by rewrite reverse_involutive.
  - intros [= -> ->]. by rewrite reverse_involutive.
Qed.

Lemma unsnoc_app (l : list A) x : unsnoc (l ++ [x]) = Some (l, x).
Proof. by apply unsnoc_Some. Qed.

(** Remove the first element equal to [x]. *)
Fixpoint remove_first `{EqDecision A} (x : A) (l : list A) : list A :=
  match l with
  | [] => []
  | y :: l => if decide (x = y) then l else y :: remove_first x l
  end.

Lemma remove_first_not_elem `{EqDecision A} (x : A) l : x ∉ l → remove_first x l = l.
Proof.
  induction l as [|y l IH]; simpl; [done|]. intros [??]%not_elem_of_cons.
  rewrite decide_False by done. f_equal. by apply IH.
Qed.

Lemma remove_first_perm `{EqDecision A} (x : A) l : x ∈ l → l ≡ₚ x :: remove_first x l.
Proof.
  induction l as [|y l IH]; [by intros ?%elem_of_nil|].
  simpl. intros [->|Hx]%elem_of_cons.
  - by rewrite decide_True.
  - case_decide as Hxy; [by subst|]. rewrite (IH Hx) at 1. by apply perm_swap.
Qed.

Lemma remove_first_length `{EqDecision A} (x : A) l : length (remove_first x l) ≤ length l.
Proof. induction l as [|y l IH]; simpl; [done|]. case_decide; simpl; lia. Qed.
End lists.

(** ** Strings *)

Lemma string_length_append (s t : string) :
  String.length (s +:+ t) = String.length s + String.length t.
Proof. induction s as [|c s IH]; [done|]. unfold String.app in *. simpl. by rewrite IH. Qed.

Lemma string_app_inj_r (s1 s2 t : string) : s1 +:+ t = s2 +:+ t → s1 = s2.
Proof.
  revert s2. induction s1 as [|c s1 IH]; intros [|c2 s2] Ht; [done|..].
  - apply (f_equal String.length) in Ht. rewrite !string_length_append in Ht. simpl in Ht. lia.
  - apply (f_equal String.length) in Ht. rewrite !string_length_append in Ht. simpl in Ht. lia.
  - unfold String.app in *. simpl in Ht. injection Ht as -> Ht. f_equal. by apply IH.
Qed.

Lemma string_app_assoc (s1 s2 s3 : string) : (s1 +:+ s2) +:+ s3 = s1 +:+ (s2 +:+ s3).
Proof. induction s1 as [|c s1 IH]; [done|]. unfold String.app in *. simpl. by f_equal. Qed.

Lemma string_app_nil_r (s : string) : s +:+ "" = s.
Proof. induction s as [|c s IH]; [done|]. unfold String.app in *. simpl. by f_equal. Qed.

Lemma string_app_inj_l (s t1 t2 : string) : s +:+ t1 = s +:+ t2 → t1 = t2.
Proof. unfold String.app. induction s as [|c s IH]; simpl; [done|]. intros [= H]. by apply IH. Qed.

Definition concat_strings (cs : list string) : string := foldr (λ c s, c +:+ s) "" cs.

Lemma concat_strings_app cs ds :
  concat_strings (cs ++ ds) = concat_strings cs +:+ concat_strings ds.
Proof.
  induction cs as [|c cs IH]; [done|]. unfold concat_strings in *. simpl.
  by rewrite IH, string_app_assoc.
Qed.

Lemma concat_strings_singleton c : concat_strings [c] = c.
Proof. apply string_app_nil_r. Qed.

(** ** Enumeration order

    Neither a Go map iterated with [range] nor a table scanned without ORDER BY
    has a defined order: it is a parameter, known only to list every entry
    once. *)
Class RangeOrder : Type := {
  range_order {V : Type} : gmap string V → list (string * V);
  range_order_perm {V : Type} (m : gmap string V) : range_order m ≡ₚ map_to_list m
}.

Definition key_order : RangeOrder :=
  {| range_order V := map_to_list; range_order_perm V m := Permutation_refl _ |}.

Lemma elem_of_range_order `{RangeOrder} {V} (m : gmap string V) k v :
  (k, v) ∈ range_order m ↔ m !! k = Some v.
Proof. by rewrite range_order_perm, elem_of_map_to_list. Qed.
