(* ===== verification/GoLib.v ===== *)
(** * What the code uses of Go's standard library: strings, hex, base64, strconv

    A Go string is a sequence of bytes; so is a Rocq [string].  The functions
    have the names of the Go ones; their laws follow. *)
From S2P Require Import Prelude.
From Stdlib Require Import Ascii.

(** ** Bytes *)

Definition byte_val (c : ascii) : Z := Z.of_N (N_of_ascii c).
Definition byte_of (z : Z) : ascii := ascii_of_N (Z.to_N (z mod 256)).

Lemma byte_val_range c : (0 ≤ byte_val c < 256)%Z.
Proof. unfold byte_val. pose proof (N_ascii_bounded c). lia. Qed.

Lemma byte_of_val c : byte_of (byte_val c) = c.
Proof.
  unfold byte_of. rewrite Z.mod_small by apply byte_val_range.
  unfold byte_val. by rewrite N2Z.id, ascii_N_embedding.
Qed.

Lemma byte_val_of z : (0 ≤ z < 256)%Z → byte_val (byte_of z) = z.
Proof.
  intros Hz. unfold byte_of, byte_val. rewrite Z.mod_small by done.
  rewrite N_ascii_embedding by lia. lia.
Qed.

Lemma byte_val_inj c c' : byte_val c = byte_val c' → c = c'.
Proof. intros E. by rewrite <-(byte_of_val c), E, byte_of_val. Qed.

(** The bytes of a string as a list. *)
Abbreviation bytes_of := String.list_ascii_of_string.
Abbreviation of_bytes := String.string_of_list_ascii.

Definition newline : string := String.String "010" EmptyString.

Lemma of_bytes_of s : of_bytes (bytes_of s) = s.
Proof. apply String.string_of_list_ascii_of_string. Qed.
Lemma bytes_of_of l : bytes_of (of_bytes l) = l.
Proof. apply String.list_ascii_of_string_of_list_ascii. Qed.

Lemma bytes_of_app s t : bytes_of (s +:+ t) = bytes_of s ++ bytes_of t.
Proof. unfold String.app. induction s as [|c s IH]; [done|]. simpl. by rewrite IH. Qed.

Lemma length_bytes_of s : length (bytes_of s) = String.length s.
Proof. induction s as [|c s IH]; [done|]. simpl. by rewrite IH. Qed.

Lemma bytes_of_inj s t : bytes_of s = bytes_of t → s = t.
Proof. intros E. by rewrite <-(of_bytes_of s), E, of_bytes_of. Qed.

(** ** Package strings *)

Definition HasPrefix (s prefix : string) : bool := String.prefix prefix s.

Fixpoint string_drop (n : nat) (s : string) : string :=
  match n, s with
  | S n, String.String _ s => string_drop n s
  | _, _ => s
  end.

Definition TrimPrefix (s prefix : string) : string :=
  if HasPrefix s prefix then string_drop (String.length prefix) s else s.

(** [strings.Contains(s, sub)] *)
Fixpoint Contains (s sub : string) : bool :=
  HasPrefix s sub ||
  match s with
  | String.String _ s => Contains s sub
  | EmptyString => false
  end.

Fixpoint contains_byte (cutset : string) (c : ascii) : bool :=
  match cutset with
  | EmptyString => false
  | String.String c' cutset => if ascii_dec c' c then true else contains_byte cutset c
  end.

Fixpoint TrimLeft (s cutset : string) : string :=
  match s with
  | EmptyString => EmptyString
  | String.String c s' => if contains_byte cutset c then TrimLeft s' cutset else s
  end.

Fixpoint TrimRight (s cutset : string) : string :=
  match s with
  | EmptyString => EmptyString
  | String.String c s' =>
      match TrimRight s' cutset with
      | EmptyString => if contains_byte cutset c then EmptyString else String.String c EmptyString
      | s'' => String.String c s''
      end
  end.

(** [strings.Trim(s, cutset)] for an ASCII cutset *)
Definition Trim (s cutset : string) : string := TrimRight (TrimLeft s cutset) cutset.

Lemma HasPrefix_spec s p : HasPrefix s p = true ↔ ∃ t, s = p +:+ t.
Proof.
  unfold HasPrefix, String.app. revert s. induction p as [|c p IH]; intros s.
  - split; [by exists s|]. by destruct s.
  - destruct s as [|c' s]; [split; [done|by intros [t ?]]|]. cbn [String.prefix].
    destruct (ascii_dec c c') as [<-|Hne].
    + rewrite IH. split; intros [t Ht]; exists t; [by rewrite Ht|by injection Ht].
    + split; [done|]. intros [t [= -> _]]. done.
Qed.

Lemma string_drop_length n s : String.length (string_drop n s) ≤ String.length s.
Proof. revert s. induction n as [|n IH]; intros [|c s]; simpl; [lia..|]. specialize (IH s). lia. Qed.

Lemma string_drop_app p t : string_drop (String.length p) (p +:+ t) = t.
Proof. unfold String.app. by induction p. Qed.

Lemma TrimPrefix_app p t : TrimPrefix (p +:+ t) p = t.
Proof.
  unfold TrimPrefix. assert (HasPrefix (p +:+ t) p = true) as -> by (apply HasPrefix_spec; by exists t).
  apply string_drop_app.
Qed.

Lemma Contains_spec s sub : Contains s sub = true ↔ ∃ s1 s2, s = s1 +:+ sub +:+ s2.
Proof.
  unfold String.app. induction s as [|c s IH]; cbn [Contains]; rewrite orb_true_iff, HasPrefix_spec.
  - split.
    + intros [[t Ht]|]; [by exists "", t|done].
    + intros (s1 & s2 & Ht). left. exists s2. destruct s1; [done|done].
  - rewrite IH. split.
    + intros [[t Ht]|(s1 & s2 & ->)]; [by exists "", t|by exists (String.String c s1), s2].
    + intros ([|c1 s1] & s2 & Ht); [left; by exists s2|right].
      exists s1, s2. by injection Ht.
Qed.

Lemma contains_byte_spec cutset c : contains_byte cutset c = true ↔ c ∈ bytes_of cutset.
Proof.
  induction cutset as [|c' cutset IH]; simpl; [set_solver|].
  destruct (ascii_dec c' c) as [->|]; set_solver.
Qed.

Lemma TrimRight_empty s cutset :
  TrimRight s cutset = EmptyString ↔ Forall (λ c, contains_byte cutset c = true) (bytes_of s).
Proof.
  induction s as [|c s IH]; cbn [TrimRight String.list_ascii_of_string]; [done|]. rewrite Forall_cons, <-IH.
  destruct (TrimRight s cutset); [|naive_solver]. destruct (contains_byte cutset c); naive_solver.
Qed.

Lemma TrimLeft_forall s cutset :
  Forall (λ c, contains_byte cutset c = true) (bytes_of (TrimLeft s cutset)) ↔
  Forall (λ c, contains_byte cutset c = true) (bytes_of s).
Proof.
  induction s as [|c s IH]; cbn [TrimLeft String.list_ascii_of_string]; [done|]. rewrite Forall_cons, <-IH.
  destruct (contains_byte cutset c) eqn:E; [naive_solver|]. simpl. rewrite Forall_cons.
  rewrite E. naive_solver.
Qed.

(** Nothing is left exactly when every byte is in the cutset. *)
Lemma Trim_empty s cutset :
  Trim s cutset = EmptyString ↔ Forall (λ c, c ∈ bytes_of cutset) (bytes_of s).
Proof.
  unfold Trim. rewrite TrimRight_empty, TrimLeft_forall.
  apply Forall_proper; [|done]. intros c. apply contains_byte_spec.
Qed.

(** ** Package encoding/hex *)

Definition hextable : string := "0123456789abcdef".

Definition hex_digit (n : Z) : ascii := default "0"%char (String.get (Z.to_nat n) hextable).

(** [hex.EncodeToString] *)
Fixpoint hex_encode (l : list Z) : string :=
  match l with
  | [] => ""
  | b :: l =>
      String.String (hex_digit (Z.shiftr b 4)) (String.String (hex_digit (Z.land b 15)) (hex_encode l))
  end.

(** The value of a digit, upper case or lower case. *)
Definition hex_value (c : ascii) : option Z :=
  let v := byte_val c in
  if (48 <=? v)%Z && (v <=? 57)%Z then Some (v - 48)%Z
  else if (97 <=? v)%Z && (v <=? 102)%Z then Some (v - 87)%Z
  else if (65 <=? v)%Z && (v <=? 70)%Z then Some (v - 55)%Z
  else None.

(** [hex.DecodeString]: [None] is an error (a byte that is not a digit, or an
    odd length). *)
Fixpoint hex_decode (s : string) : option (list Z) :=
  match s with
  | EmptyString => Some []
  | String.String a (String.String b s) =>
      match hex_value a, hex_value b with
      | Some x, Some y =>
          match hex_decode s with
          | Some l => Some (Z.lor (Z.shiftl x 4) y :: l)
          | None => None
          end
      | _, _ => None
      end
  | String.String _ EmptyString => None
  end.

(** [strings.ToLower] on ASCII *)
Definition lower_byte (c : ascii) : ascii :=
  let v := byte_val c in
  if (65 <=? v)%Z && (v <=? 90)%Z then byte_of (v + 32) else c.

Fixpoint lower (s : string) : string :=
  match s with
  | EmptyString => EmptyString
  | String.String c s => String.String (lower_byte c) (lower s)
  end.

Lemma hex_digit_value c x : hex_value c = Some x → (0 ≤ x < 16)%Z ∧ hex_digit x = lower_byte c.
Proof. destruct c as [[] [] [] [] [] [] [] []]; vm_compute; by intros [= <-]. Qed.

Lemma hex_value_digit x : (0 ≤ x < 16)%Z → hex_value (hex_digit x) = Some x.
Proof.
  intros Hx. assert (∃ n, n < 16 ∧ x = Z.of_nat n) as (n & Hn & ->) by (exists (Z.to_nat x); lia).
  do 16 (destruct n as [|n]; [reflexivity|]). lia.
Qed.

Lemma hex_lower_value c : hex_value (lower_byte c) = hex_value c.
Proof. by destruct c as [[] [] [] [] [] [] [] []]. Qed.

Lemma nibbles x y : (0 ≤ x < 16)%Z → (0 ≤ y < 16)%Z →
  Z.shiftr (Z.lor (Z.shiftl x 4) y) 4 = x ∧ Z.land (Z.lor (Z.shiftl x 4) y) 15 = y ∧
  (0 ≤ Z.lor (Z.shiftl x 4) y < 256)%Z.
Proof.
  intros Hx Hy.
  assert (∃ n, n < 16 ∧ x = Z.of_nat n) as (n & Hn & ->) by (exists (Z.to_nat x); lia).
  assert (∃ m, m < 16 ∧ y = Z.of_nat m) as (m & Hm & ->) by (exists (Z.to_nat y); lia).
  clear Hx Hy.
  do 16 (destruct n as [|n];
    [do 16 (destruct m as [|m]; [by vm_compute|]); lia|]). lia.
Qed.

Lemma nibbles_join b : (0 ≤ b < 256)%Z →
  Z.lor (Z.shiftl (Z.shiftr b 4) 4) (Z.land b 15) = b ∧
  (0 ≤ Z.shiftr b 4 < 16)%Z ∧ (0 ≤ Z.land b 15 < 16)%Z.
Proof.
  intros Hb. assert (∃ n, n < 256 ∧ b = Z.of_nat n) as (n & Hn & ->) by (exists (Z.to_nat b); lia).
  clear Hb. do 256 (destruct n as [|n]; [by vm_compute|]). lia.
Qed.

(** Decoding inverts encoding. *)
Lemma hex_decode_encode l : Forall (λ b, 0 ≤ b < 256)%Z l → hex_decode (hex_encode l) = Some l.
Proof.
  induction 1 as [|b l Hb _ IH]; [done|]. cbn [hex_encode hex_decode].
  destruct (nibbles_join b Hb) as (E & H1 & H2). by rewrite !hex_value_digit, IH, E.
Qed.

(** What decodes to [l] is the encoding of [l], in upper or lower case. *)
Lemma hex_decode_Some s l : hex_decode s = Some l → lower s = hex_encode l.
Proof.
  revert s. induction l as [|b l IH]; intros s; destruct s as [|a [|a' s]]; cbn [hex_decode]; try done.
  - intros ?; repeat case_match; congruence.
  - destruct (hex_value a) as [x|] eqn:Ex; [|done]. destruct (hex_value a') as [y|] eqn:Ey; [|done].
    destruct (hex_decode s) as [l'|] eqn:Es; [|done]. intros [= <- ->].
    apply hex_digit_value in Ex as [Hx Ex], Ey as [Hy Ey].
    destruct (nibbles x y Hx Hy) as (E1 & E2 & _). cbn [lower hex_encode].
    by rewrite E1, E2, Ex, Ey, (IH s Es).
Qed.

Lemma hex_decode_lower s : hex_decode (lower s) = hex_decode s.
Proof.
  remember (String.length s) as n eqn:Hn. assert (String.length s ≤ n) as Hle by lia. clear Hn.
  revert s Hle. induction n as [|n IH]; intros [|a [|b s]] Hle; simpl in Hle; try done; try lia.
  cbn [lower hex_decode]. rewrite !hex_lower_value, IH; [done|lia].
Qed.

Lemma hex_decode_iff s l : Forall (λ b, 0 ≤ b < 256)%Z l →
  hex_decode s = Some l ↔ lower s = hex_encode l.
Proof.
  intros Hl. split; [apply hex_decode_Some|]. intros E.
  by rewrite <-hex_decode_lower, E, hex_decode_encode.
Qed.

Lemma length_hex_encode l : String.length (hex_encode l) = 2 * length l.
Proof. induction l as [|b l IH]; [done|]. simpl. rewrite IH. lia. Qed.

(** ** Package crypto/subtle *)

(** [subtle.ConstantTimeCompare(x, y)] and [hmac.Equal]: 0 at once when the
    lengths differ, else the bytes' differences are or-ed together. *)
Fixpoint xor_all (x y : list Z) : Z :=
  match x, y with
  | a :: x, b :: y => Z.lor (Z.lxor a b) (xor_all x y)
  | _, _ => 0
  end.

Definition ConstantTimeCompare (x y : list Z) : Z :=
  if negb (Nat.eqb (length x) (length y)) then 0
  else if (xor_all x y =? 0)%Z then 1 else 0.

Lemma xor_all_zero x y : length x = length y → xor_all x y = 0%Z → x = y.
Proof.
  revert y. induction x as [|a x IH]; intros [|b y] Hl E; simpl in *; try done.
  apply Z.lor_eq_0_iff in E as [E1%Z.lxor_eq E2]. f_equal; [done|]. apply IH; [lia|done].
Qed.

Lemma xor_all_refl x : xor_all x x = 0%Z.
Proof. induction x as [|a x IH]; [done|]. simpl. by rewrite Z.lxor_nilpotent, IH. Qed.

(** Constant time or not, it is equality. *)
Lemma ConstantTimeCompare_spec x y : ConstantTimeCompare x y = 1%Z ↔ x = y.
Proof.
  unfold ConstantTimeCompare. destruct (Nat.eqb_spec (length x) (length y)) as [Hl|Hl]; simpl.
  - destruct (Z.eqb_spec (xor_all x y) 0) as [E|E].
    + split; [intros _; by apply xor_all_zero|done].
    + split; [done|]. intros ->. by rewrite xor_all_refl in E.
  - split; [done|]. by intros ->.
Qed.

(** [[]byte(s)] *)
Definition octets (s : string) : list Z := byte_val <$> bytes_of s.

Lemma octets_inj s t : octets s = octets t → s = t.
Proof.
  intros E. apply bytes_of_inj. unfold octets in E. revert E. generalize (bytes_of t).
  induction (bytes_of s) as [|c l IH]; intros [|c' l'] E; try done.
  injection E as Hc E. f_equal; [by apply byte_val_inj|by apply IH].
Qed.

Lemma octets_range s : Forall (λ b, 0 ≤ b < 256)%Z (octets s).
Proof. unfold octets. apply Forall_fmap, Forall_true. intros c. apply byte_val_range. Qed.

Lemma length_octets s : length (octets s) = String.length s.
Proof. unfold octets. by rewrite length_fmap, length_bytes_of. Qed.

(** ** Package strconv *)

Definition digit_value (c : ascii) : option Z :=
  let v := byte_val c in
  if (48 <=? v)%Z && (v <=? 57)%Z then Some (v - 48)%Z else None.

Fixpoint digits_value (acc : Z) (s : string) : option Z :=
  match s with
  | EmptyString => Some acc
  | String.String c s =>
      match digit_value c with
      | Some d => digits_value (acc * 10 + d) s
      | None => None
      end
  end.

(** [strconv.Atoi], and [strconv.ParseInt(s, 10, 64)]: [None] is an error
    (syntax, or a value that is no int64). *)
Definition Atoi (s : string) : option Z :=
  let '(neg, ds) :=
    match s with
    | String.String "-" s => (true, s)
    | String.String "+" s => (false, s)
    | _ => (false, s)
    end in
  match ds with
  | EmptyString => None
  | _ =>
      match digits_value 0 ds with
      | Some n => let z := if neg then (- n)%Z else n in if int64_ok z then Some z else None
      | None => None
      end
  end.

Definition digit_byte (d : Z) : ascii := byte_of (48 + d).

(** The digits of [n], with enough fuel for any int64. *)
Fixpoint utoa (fuel : nat) (n : Z) (acc : string) : string :=
  match fuel with
  | 0 => acc
  | S fuel =>
      let acc := String.String (digit_byte (n mod 10)) acc in
      if (n <? 10)%Z then acc else utoa fuel (n / 10) acc
  end.

(** [strconv.Itoa] *)
Definition Itoa (z : Z) : string :=
  if (z <? 0)%Z then String.String "-" (utoa 20 (- z) "") else utoa 20 z "".

Lemma Atoi_range s z : Atoi s = Some z → int64_ok z = true.
Proof. unfold Atoi. intros E. repeat case_match; congruence. Qed.

Lemma digit_byte_value d : (0 ≤ d < 10)%Z → digit_value (digit_byte d) = Some d.
Proof.
  intros Hd. unfold digit_value, digit_byte. rewrite byte_val_of by lia.
  rewrite (proj2 (Z.leb_le 48 _)), (proj2 (Z.leb_le _ 57)) by lia. simpl. f_equal. lia.
Qed.

Lemma digits_value_utoa fuel n acc a :
  (0 ≤ n < 10 ^ Z.of_nat fuel)%Z → (0 < fuel) →
  ∃ p, digits_value a (utoa fuel n acc) = digits_value (a * 10 ^ p + n) acc ∧ (0 < p)%Z.
Proof.
  revert n acc a. induction fuel as [|fuel IH]; intros n acc a Hn Hf; [lia|].
  cbn [utoa]. destruct (Z.ltb_spec n 10) as [Hlt|Hge].
  - exists 1%Z. cbn [digits_value]. rewrite digit_byte_value by (apply Z.mod_pos_bound; lia).
    rewrite Z.mod_small by lia. split; [f_equal; lia|lia].
  - assert (0 ≤ n / 10 < 10 ^ Z.of_nat fuel)%Z as Hq.
    { split; [apply Z.div_pos; lia|]. apply Z.div_lt_upper_bound; [lia|].
      rewrite Nat2Z.inj_succ, Z.pow_succ_r in Hn by lia. lia. }
    destruct (IH (n / 10)%Z (String.String (digit_byte (n mod 10)) acc) a) as (p & E & Hp); [done| |].
    { destruct fuel; [simpl in Hq; lia|lia]. }
    exists (p + 1)%Z. rewrite E. cbn [digits_value].
    rewrite digit_byte_value by (apply Z.mod_pos_bound; lia). split; [|lia]. f_equal.
    rewrite Z.pow_add_r, Z.pow_1_r by lia. pose proof (Z.div_mod n 10). lia.
Qed.

Lemma utoa_head fuel n acc :
  (0 ≤ n)%Z → ∃ c s d, utoa (S fuel) n acc = String.String c s ∧ digit_value c = Some d.
Proof.
  revert n acc. induction fuel as [|fuel IH]; intros n acc Hn; cbn [utoa].
  - exists (digit_byte (n mod 10)), acc, (n mod 10)%Z. split; [by case_match|].
    apply digit_byte_value, Z.mod_pos_bound. lia.
  - case_match; [|apply IH, Z.div_pos; lia].
    exists (digit_byte (n mod 10)), acc, (n mod 10)%Z. split; [done|].
    apply digit_byte_value, Z.mod_pos_bound. lia.
Qed.

Lemma digit_no_sign c d : digit_value c = Some d → c ≠ "-"%char ∧ c ≠ "+"%char.
Proof. by destruct c as [[] [] [] [] [] [] [] []]; vm_compute. Qed.

Lemma Atoi_digits s n :
  (∃ c s' d, s = String.String c s' ∧ digit_value c = Some d) →
  digits_value 0 s = Some n → int64_ok n = true → Atoi s = Some n.
Proof.
  intros (c & s' & d & -> & Hd) Hn Hok. apply digit_no_sign in Hd as [H1 H2]. unfold Atoi.
  assert (match String.String c s' with
          | String.String "-" s => (true, s)
          | String.String "+" s => (false, s)
          | _ => (false, String.String c s')
          end = (false, String.String c s')) as ->.
  { by destruct c as [[] [] [] [] [] [] [] []]. }
  by rewrite Hn, Hok.
Qed.

(** Parsing inverts printing on every int64. *)
Lemma Atoi_Itoa z : int64_ok z = true → Atoi (Itoa z) = Some z.
Proof.
  intros Hok. pose proof Hok as Hz. unfold int64_ok, int64_min, int64_max in Hz.
  assert (∀ n, (0 ≤ n < 10 ^ 20)%Z → digits_value 0 (utoa 20 n "") = Some n) as Hd.
  { intros n Hn. destruct (digits_value_utoa 20 n "" 0) as (p & -> & _); [done|lia|done]. }
  unfold Itoa. destruct (Z.ltb_spec z 0) as [Hneg|Hpos].
  - unfold Atoi. rewrite Hd by lia. destruct (utoa_head 19 (- z) "") as (c & s & d & -> & _); [lia|].
    by rewrite Z.opp_involutive, Hok.
  - apply Atoi_digits; [by apply utoa_head|apply Hd; lia|done].
Qed.

Lemma utoa_length fuel n acc : String.length (utoa fuel n acc) ≤ fuel + String.length acc.
Proof.
  revert n acc. induction fuel as [|fuel IH]; intros n acc; simpl; [done|]. case_match; simpl; [lia|].
  etrans; [apply IH|]. simpl. lia.
Qed.

Lemma Itoa_length z : String.length (Itoa z) ≤ 21.
Proof.
  unfold Itoa. pose proof (utoa_length 20 (- z) ""). pose proof (utoa_length 20 z "").
  change (String.length "") with 0 in *. case_match; cbn [String.length]; lia.
Qed.

(** ** Package encoding/base64: [RawURLEncoding.EncodeToString] *)

Definition base64url : string := "ABCDEFGHIJKLMNOPQRSTUVWXYZabcdefghijklmnopqrstuvwxyz0123456789-_".

Definition base64_digit (n : Z) : ascii := default "A"%char (String.get (Z.to_nat n) base64url).

(** Three bytes make four digits; a rest of one or two bytes makes two or
    three, without padding. *)
Fixpoint base64_encode (l : list Z) : string :=
  match l with
  | a :: b :: c :: l =>
      String.String (base64_digit (Z.shiftr a 2))
        (String.String (base64_digit (Z.lor (Z.shiftl (Z.land a 3) 4) (Z.shiftr b 4)))
          (String.String (base64_digit (Z.lor (Z.shiftl (Z.land b 15) 2) (Z.shiftr c 6)))
            (String.String (base64_digit (Z.land c 63)) (base64_encode l))))
  | [a; b] =>
      String.String (base64_digit (Z.shiftr a 2))
        (String.String (base64_digit (Z.lor (Z.shiftl (Z.land a 3) 4) (Z.shiftr b 4)))
          (String.String (base64_digit (Z.shiftl (Z.land b 15) 2)) EmptyString))
  | [a] =>
      String.String (base64_digit (Z.shiftr a 2))
        (String.String (base64_digit (Z.shiftl (Z.land a 3) 4)) EmptyString)
  | [] => EmptyString
  end.

(** ** Package unicode/utf8 *)

Definition between (lo hi : Z) (c : ascii) : bool := (lo <=? byte_val c)%Z && (byte_val c <=? hi)%Z.
Definition cont : ascii → bool := between 0x80 0xBF.

(** The length of the well-formed UTF-8 sequence [s] begins with, 0 if none. *)
Definition utf8_length (s : string) : nat :=
  match s with
  | EmptyString => 0
  | String.String a s1 =>
      if between 0 0x7F a then 1 else
      match s1 with
      | EmptyString => 0
      | String.String b s2 =>
          if between 0xC2 0xDF a && cont b then 2 else
          match s2 with
          | EmptyString => 0
          | String.String c s3 =>
              if ((between 0xE0 0xE0 a && between 0xA0 0xBF b) || (between 0xE1 0xEC a && cont b) ||
                  (between 0xED 0xED a && between 0x80 0x9F b) || (between 0xEE 0xEF a && cont b))
                 && cont c then 3 else
              match s3 with
              | EmptyString => 0
              | String.String d _ =>
                  if ((between 0xF0 0xF0 a && between 0x90 0xBF b) ||
                      (between 0xF1 0xF3 a && cont b) ||
                      (between 0xF4 0xF4 a && between 0x80 0x8F b)) && cont c && cont d then 4 else 0
              end
          end
      end
  end.

Fixpoint string_take (n : nat) (s : string) : string :=
  match n, s with
  | S n, String.String c s => String.String c (string_take n s)
  | _, _ => EmptyString
  end.

Fixpoint valid_utf8_loop (fuel : nat) (s : string) : bool :=
  match fuel, s with
  | _, EmptyString => true
  | 0, _ => false
  | S fuel, _ =>
      match utf8_length s with
      | 0 => false
      | n => valid_utf8_loop fuel (string_drop n s)
      end
  end.

(** [utf8.ValidString] *)
Definition valid_utf8 (s : string) : bool := valid_utf8_loop (String.length s) s.
