(* ===== verification/GoText.v ===== *)
(** * More of Go's standard library: splitting, replacing, paths, base64

    What the runner agent, the GitHub client and the migrations use beyond
    GoLib: strings.Join, Split, ReplaceAll, HasSuffix and TrimSuffix, lexical
    path cleaning (path/filepath on Unix) and base64.StdEncoding. *)
From S2P Require Import Prelude GoLib.
From Stdlib Require Import Ascii.

(** ** Package strings *)

(** [strings.Join(l, sep)] *)
Fixpoint Join (sep : string) (l : list string) : string :=
  match l with
  | [] => EmptyString
  | [s] => s
  | s :: l => s +:+ sep +:+ Join sep l
  end.

(** [strings.Split(s, sep)] for a separator of one byte *)
Fixpoint Split (sep : ascii) (s : string) : list string :=
  match s with
  | EmptyString => [EmptyString]
  | String.String c s =>
      if ascii_dec c sep then EmptyString :: Split sep s
      else match Split sep s with
           | x :: l => String.String c x :: l
           | [] => [String.String c EmptyString]
           end
  end.

Lemma Split_app sep p s :
  Forall (λ c, c ≠ sep) (bytes_of p) → Split sep (p +:+ String.String sep s) = p :: Split sep s.
Proof.
  unfold String.app. induction p as [|c p IH].
  - intros _. cbn [String.append Split]. by destruct (ascii_dec sep sep).
  - intros [Hc Hp]%Forall_cons. cbn [String.append Split]. destruct (ascii_dec c sep); [done|]. by rewrite IH.
Qed.

Lemma Split_none sep p : Forall (λ c, c ≠ sep) (bytes_of p) → Split sep p = [p].
Proof.
  induction p as [|c p IH]; [done|]. intros [Hc Hp]%Forall_cons. cbn [Split].
  destruct (ascii_dec c sep); [done|]. by rewrite IH.
Qed.

Lemma Split_nonempty sep s : Split sep s ≠ [].
Proof. destruct s as [|c s]; simpl; [done|]. destruct (ascii_dec c sep); [done|]. by destruct (Split sep s). Qed.

Lemma Split_sep sep p s : Split sep (p +:+ String.String sep s) = Split sep p ++ Split sep s.
Proof.
  unfold String.app. induction p as [|c p IH]; cbn [String.append Split].
  - by destruct (ascii_dec sep sep).
  - rewrite IH. destruct (ascii_dec c sep); [done|]. pose proof (Split_nonempty sep p).
    by destruct (Split sep p).
Qed.

Lemma Split_one sep s x : Split sep s = [x] → s = x.
Proof.
  revert x. induction s as [|c s IH]; intros x; cbn [Split]; [by intros [= <-]|].
  pose proof (Split_nonempty sep s). destruct (ascii_dec c sep); [by destruct (Split sep s)|].
  destruct (Split sep s) as [|y [|z l]]; [done| |done]. intros [= <-]. by rewrite (IH y).
Qed.

(** [strings.ReplaceAll(s, old, new)] for a non-empty [old]: [skip] bytes still
    belong to the occurrence replaced last. *)
Fixpoint replace_from (old new : string) (skip : nat) (s : string) : string :=
  match s with
  | EmptyString => EmptyString
  | String.String c s' =>
      match skip with
      | S skip => replace_from old new skip s'
      | 0 =>
          if HasPrefix s old then new +:+ replace_from old new (String.length old - 1) s'
          else String.String c (replace_from old new 0 s')
      end
  end.

Definition ReplaceAll (s old new : string) : string := replace_from old new 0 s.

Definition HasSuffix (s suffix : string) : bool :=
  (String.length suffix <=? String.length s)%nat &&
  bool_decide (string_drop (String.length s - String.length suffix) s = suffix).

Definition TrimSuffix (s suffix : string) : string :=
  if HasSuffix s suffix then string_take (String.length s - String.length suffix) s else s.

(** [s[strings.IndexByte(s, sep)+1:]], and [s] itself when [sep] is not in it *)
Fixpoint after_byte (sep : ascii) (s : string) : option string :=
  match s with
  | EmptyString => None
  | String.String c s => if ascii_dec c sep then Some s else after_byte sep s
  end.

(** ** Package path/filepath *)

(** The components of a cleaned path, last first. *)
Definition clean_component (rooted : bool) (stack : list string) (comp : string) : list string :=
  if bool_decide (comp = "") || bool_decide (comp = ".") then stack
  else if bool_decide (comp = "..") then
    match stack with
    | top :: rest => if bool_decide (top = "..") then ".." :: stack else rest
    | [] => if rooted then [] else [".."]
    end
  else comp :: stack.

(** [filepath.Clean] *)
Definition Clean (path : string) : string :=
  let rooted := HasPrefix path "/" in
  let comps := reverse (foldl (clean_component rooted) [] (Split "/" path)) in
  let body := Join "/" comps in
  if rooted then "/" +:+ body else if bool_decide (body = "") then "." else body.

(** [filepath.Join] *)
Definition PathJoin (elems : list string) : string :=
  match filter (λ e, e ≠ "") elems with
  | [] => ""
  | l => Clean (Join "/" l)
  end.

Example Clean_ex :
  Clean "/a//b/./../c/" = "/a/c" ∧ Clean "../../x" = "../../x" ∧ Clean "/.." = "/" ∧ Clean "" = ".".
Proof. vm_compute. split_and!; reflexivity. Qed.

(** ** Package encoding/base64: [StdEncoding] *)

Definition base64std : string := "ABCDEFGHIJKLMNOPQRSTUVWXYZabcdefghijklmnopqrstuvwxyz0123456789+/".

Definition base64std_digit (n : Z) : ascii := default "A"%char (String.get (Z.to_nat n) base64std).

Fixpoint base64std_encode (l : list Z) : string :=
  match l with
  | a :: b :: c :: l =>
      String.String (base64std_digit (Z.shiftr a 2))
        (String.String (base64std_digit (Z.lor (Z.shiftl (Z.land a 3) 4) (Z.shiftr b 4)))
          (String.String (base64std_digit (Z.lor (Z.shiftl (Z.land b 15) 2) (Z.shiftr c 6)))
            (String.String (base64std_digit (Z.land c 63)) (base64std_encode l))))
  | [a; b] =>
      of_bytes [base64std_digit (Z.shiftr a 2);
                base64std_digit (Z.lor (Z.shiftl (Z.land a 3) 4) (Z.shiftr b 4));
                base64std_digit (Z.shiftl (Z.land b 15) 2); "="%char]
  | [a] =>
      of_bytes [base64std_digit (Z.shiftr a 2); base64std_digit (Z.shiftl (Z.land a 3) 4);
                "="%char; "="%char]
  | [] => EmptyString
  end.

Example base64std_ex : base64std_encode (octets "x-access-token:tok") = "eC1hY2Nlc3MtdG9rZW46dG9r".
Proof. vm_compute. reflexivity. Qed.

(** ** Replacing removes every occurrence *)

Lemma replace_skip old new k s :
  replace_from old new k s = replace_from old new 0 (string_drop k s).
Proof. revert s. induction k as [|k IH]; intros [|c s]; try done. simpl. apply IH. Qed.

(** [new] shares no byte with [p]. *)
Definition masks (new p : string) : Prop :=
  new ≠ "" ∧ Forall (λ c, c ∉ bytes_of p) (bytes_of new).

Lemma HasPrefix_cons c s d p :
  HasPrefix (String.String c s) (String.String d p) = true ↔ c = d ∧ HasPrefix s p = true.
Proof. unfold HasPrefix. simpl. destruct (ascii_dec d c); naive_solver. Qed.

Lemma prefix_of_replaced old new p s :
  masks new p → HasPrefix (ReplaceAll s old new) p = true → HasPrefix s p = true.
Proof.
  unfold ReplaceAll. intros [Hne Hm]. revert s Hm. induction p as [|c p IH]; intros s Hm; [by destruct s|].
  destruct s as [|d s]; [done|]. cbn [replace_from]. destruct (HasPrefix _ old).
  - destruct new as [|x new]; [done|]. apply Forall_cons in Hm as [Hx _].
    change (String.String x new +:+ ?o) with (String.String x (new +:+ o)).
    rewrite HasPrefix_cons. intros [-> _]. destruct Hx. by left.
  - rewrite !HasPrefix_cons. intros [-> Hp]. split; [done|]. apply IH; [|done].
    eapply Forall_impl; [exact Hm|]. intros x Hx Hin. apply Hx. by right.
Qed.

Lemma Contains_masked new o p :
  p ≠ "" → Forall (λ c, c ∉ bytes_of p) (bytes_of new) → Contains (new +:+ o) p = Contains o p.
Proof.
  intros Hp Hm. induction new as [|c new IH]; [done|].
  apply Forall_cons in Hm as [Hc Hm]. change (String.String c new +:+ o) with (String.String c (new +:+ o)).
  cbn [Contains]. rewrite IH by done. destruct (HasPrefix _ p) eqn:E; [|done].
  destruct p as [|d p]; [done|]. apply HasPrefix_cons in E as [-> _]. destruct Hc. by left.
Qed.

(** No occurrence is left, nor made by the replacement. *)
Lemma ReplaceAll_removes s old new :
  old ≠ "" → masks new old → Contains (ReplaceAll s old new) old = false.
Proof.
  intros Hold Hm. remember (String.length s) as n eqn:En. assert (String.length s ≤ n) as Hle by lia.
  clear En. revert s Hle. induction n as [|n IH]; intros [|c s] Hle; simpl in Hle; try lia;
    try by destruct old.
  destruct (HasPrefix (String.String c s) old) eqn:E; unfold ReplaceAll; cbn [replace_from]; rewrite E.
  - rewrite Contains_masked by (done || apply Hm). rewrite replace_skip. apply IH.
    pose proof (string_drop_length (String.length old - 1) s). lia.
  - cbn [Contains]. fold (ReplaceAll s old new). rewrite IH by lia. rewrite orb_false_r. apply not_true_iff_false. intros Hp.
    assert (HasPrefix (ReplaceAll (String.String c s) old new) old = true) as Hp'.
    { unfold ReplaceAll. cbn [replace_from]. by rewrite E. }
    apply prefix_of_replaced in Hp'; [congruence|done].
Qed.

Lemma ReplaceAll_absent s old new : Contains s old = false → ReplaceAll s old new = s.
Proof.
  unfold ReplaceAll. induction s as [|c s IH]; [done|]. cbn [Contains replace_from].
  intros [-> H]%orb_false_iff. by rewrite IH.
Qed.
