(* ===== verification/Sha256.v ===== *)
(** * SHA-256 and HMAC-SHA-256 (crypto/sha256, crypto/hmac)

    FIPS 180-4 and RFC 2104 over lists of bytes; words are integers below
    [2^32], with the wrap-around written out.  The examples at the end are the
    published test vectors. *)
From S2P Require Import Prelude GoLib.

Local Open Scope Z_scope.

Definition w32 (x : Z) : Z := Z.land x 0xffffffff.
Definition add32 (x y : Z) : Z := w32 (x + y).
Definition rotr (n x : Z) : Z := w32 (Z.lor (Z.shiftr x n) (Z.shiftl x (32 - n))).
Definition not32 (x : Z) : Z := Z.lxor x 0xffffffff.

Definition Ch (x y z : Z) : Z := Z.lxor (Z.land x y) (Z.land (not32 x) z).
Definition Maj (x y z : Z) : Z := Z.lxor (Z.lxor (Z.land x y) (Z.land x z)) (Z.land y z).
Definition Sigma0 (x : Z) : Z := Z.lxor (Z.lxor (rotr 2 x) (rotr 13 x)) (rotr 22 x).
Definition Sigma1 (x : Z) : Z := Z.lxor (Z.lxor (rotr 6 x) (rotr 11 x)) (rotr 25 x).
Definition sigma0 (x : Z) : Z := Z.lxor (Z.lxor (rotr 7 x) (rotr 18 x)) (Z.shiftr x 3).
Definition sigma1 (x : Z) : Z := Z.lxor (Z.lxor (rotr 17 x) (rotr 19 x)) (Z.shiftr x 10).

(** The constants are the first 32 bits of the fractional parts of the cube
    roots of the first 64 primes (round constants) and of the square roots of
    the first 8 (initial hash), FIPS 180-4, 4.2.2 and 5.3.3. *)
Definition is_prime (n : Z) : bool :=
  forallb (λ d, negb (n mod d =? 0)) (seqZ 2 (n - 2)).
Definition primes : list Z := List.filter is_prime (seqZ 2 310).

(** The largest [r] below [acc + 2^n] with [r^k <= x], bit by bit. *)
Fixpoint root (k : Z) (n : nat) (acc x : Z) : Z :=
  match n with
  | O => acc
  | S n =>
      let r := acc + 2 ^ Z.of_nat n in
      root k n (if r ^ k <=? x then r else acc) x
  end.

Definition fraction_bits (k p : Z) : Z := w32 (root k 40 0 (p * 2 ^ (32 * k))).

Definition round_constants : list Z := Eval vm_compute in map (fraction_bits 3) primes.
Definition initial_hash : list Z := Eval vm_compute in map (fraction_bits 2) (take 8 primes).

(** The message schedule, newest word first: sixteen words of the block, then
    [n] more. *)
Fixpoint schedule (n : nat) (ws : list Z) : list Z :=
  match n with
  | O => ws
  | S n =>
      schedule n (add32 (add32 (sigma1 (nth 1 ws 0)) (nth 6 ws 0))
                        (add32 (sigma0 (nth 14 ws 0)) (nth 15 ws 0)) :: ws)
  end.

Definition round (st : list Z) (kw : Z * Z) : list Z :=
  match st with
  | [a; b; c; d; e; f; g; h] =>
      let t1 := add32 (add32 h (Sigma1 e)) (add32 (Ch e f g) (add32 kw.1 kw.2)) in
      let t2 := add32 (Sigma0 a) (Maj a b c) in
      [add32 t1 t2; a; b; c; add32 d t1; e; f; g]
  | _ => st
  end.

(** One block, as sixteen words. *)
Definition compress (h : list Z) (block : list Z) : list Z :=
  zip_with add32 h
    (foldl round h (zip round_constants (reverse (schedule 48 (reverse block))))).

(** Big-endian words. *)
Fixpoint words_of (l : list Z) : list Z :=
  match l with
  | a :: b :: c :: d :: l =>
      Z.lor (Z.lor (Z.shiftl a 24) (Z.shiftl b 16)) (Z.lor (Z.shiftl c 8) d) :: words_of l
  | _ => []
  end.

Fixpoint be_bytes (n : nat) (x : Z) : list Z :=
  match n with
  | O => []
  | S n => Z.land (Z.shiftr x (8 * Z.of_nat n)) 255 :: be_bytes n x
  end.

Fixpoint blocks (fuel : nat) (ws : list Z) (h : list Z) : list Z :=
  match fuel, ws with
  | S fuel, _ :: _ => blocks fuel (drop 16 ws) (compress h (take 16 ws))
  | _, _ => h
  end.

(** 0x80, zeros up to 56 modulo 64, then the length in bits. *)
Definition pad (msg : list Z) : list Z :=
  let n := length msg in
  msg ++ [128] ++ replicate (Z.to_nat ((55 - Z.of_nat n) mod 64)) 0 ++ be_bytes 8 (8 * Z.of_nat n).

(** [sha256.Sum256] *)
Definition sha256 (msg : list Z) : list Z :=
  let ws := words_of (pad msg) in
  mbind (be_bytes 4) (blocks (length ws) ws initial_hash).

(** [hmac.New(sha256.New, key)]; Write; Sum *)
Definition hmac_sha256 (key msg : list Z) : list Z :=
  let key := if (64 <? Z.of_nat (length key)) then sha256 key else key in
  let key := key ++ replicate (64 - length key)%nat 0 in
  sha256 (map (Z.lxor 0x5c) key ++ sha256 (map (Z.lxor 0x36) key ++ msg)).

(** ** The digest is made of bytes *)

Lemma be_bytes_range n x : Forall (λ b, 0 ≤ b < 256) (be_bytes n x).
Proof.
  induction n as [|n IH]; simpl; [done|]. constructor; [|done].
  change 255 with (Z.ones 8). rewrite Z.land_ones by lia. apply Z.mod_pos_bound. lia.
Qed.

Lemma sha256_range msg : Forall (λ b, 0 ≤ b < 256) (sha256 msg).
Proof.
  unfold sha256. induction (blocks _ _ _) as [|x l IH]; [constructor|].
  rewrite bind_cons. apply Forall_app. split; [apply be_bytes_range|done].
Qed.

Lemma hmac_sha256_range key msg : Forall (λ b, 0 ≤ b < 256) (hmac_sha256 key msg).
Proof. apply sha256_range. Qed.

Lemma length_be_bytes n x : length (be_bytes n x) = n.
Proof. induction n as [|n IH]; simpl; [done|]. by rewrite IH. Qed.

Lemma length_round st kw : length (round st kw) = length st.
Proof. unfold round. by repeat (destruct st as [|? st]; try done). Qed.

Lemma length_blocks fuel ws h : length h = 8%nat → length (blocks fuel ws h) = 8%nat.
Proof.
  revert ws h. induction fuel as [|fuel IH]; intros ws h Hh; [done|]. destruct ws as [|w ws]; [done|].
  cbn [blocks]. apply IH. unfold compress. rewrite length_zip_with.
  assert (∀ l (st : list Z), length (foldl round st l) = length st) as ->; [|lia].
  clear. induction l as [|kw l IH]; intros st; [done|]. simpl. by rewrite IH, length_round.
Qed.

Lemma length_sha256 msg : length (sha256 msg) = 32%nat.
Proof.
  unfold sha256. pose proof (length_blocks (length (words_of (pad msg))) (words_of (pad msg))
    initial_hash eq_refl) as Hl.
  assert (∀ l : list Z, length (mbind (be_bytes 4) l) = 4 * length l)%nat as ->; [|by rewrite Hl].
  induction l as [|x l IH]; [done|]. rewrite bind_cons, length_app, length_be_bytes, IH.
  simpl. lia.
Qed.

(** ** Test vectors *)

(** FIPS 180-4, "abc" *)
Example sha256_abc :
  hex_encode (sha256 (octets "abc")) =
  "ba7816bf8f01cfea414140de5dae2223b00361a396177a9cb410ff61f20015ad"%string.
Proof. vm_compute. reflexivity. Qed.

(** FIPS 180-4, two blocks *)
Example sha256_two_blocks :
  hex_encode (sha256 (octets "abcdbcdecdefdefgefghfghighijhijkijkljklmklmnlmnomnopnopq")) =
  "248d6a61d20638b8e5c026930c3e6039a33ce45964ff2167f6ecedd419db06c1"%string.
Proof. vm_compute. reflexivity. Qed.

(** RFC 4231, test case 2 *)
Example hmac_jefe :
  hex_encode (hmac_sha256 (octets "Jefe") (octets "what do ya want for nothing?")) =
  "5bdcc146bf60754e6a042426089575c75a003f089d2739839dec58b964ec3843"%string.
Proof. vm_compute. reflexivity. Qed.

(** RFC 4231, test case 6: a key longer than a block *)
Example hmac_long_key :
  hex_encode (hmac_sha256 (replicate 131 0xaa)
    (octets "Test Using Larger Than Block-Size Key - Hash Key First")) =
  "60e431591ee0b67f0d8a26aacbf5b77f8e0bc6213728c5140546040f0ee37f54"%string.
Proof. vm_compute. reflexivity. Qed.
