(* ===== verification/Json.v ===== *)
(** * What the code uses of encoding/json: the scanner and the struct decoder

    [value] is the scanner and the literal store of the decoder, on bytes: the
    grammar of RFC 8259 with Go's rules for invalid UTF-8 and lone surrogates
    and its bound on nesting.  [Unmarshal] wants one value and nothing after
    it, [Decode] takes the first value of a stream.  [dec_struct] is how an
    object is stored into a struct: the exact field name first, then any field
    name equal up to case, null leaves the field alone, a value of the wrong
    type is an error that does not stop the decoding. *)
From S2P Require Import Prelude GoLib.
From Stdlib Require Import Ascii.

#[warnings="-register-all"]
Inductive json : Type :=
| JNull
| JBool (b : bool)
| JNum (text : string)
| JStr (s : string)
| JArr (l : list json)
| JObj (l : list (string * json)).

(** ** Lexical elements *)

Definition is_space (c : ascii) : bool :=
  match c with " " => true | "009" => true | "010" => true | "013" => true | _ => false end%char.

Fixpoint skip_space (s : string) : string :=
  match s with
  | String.String c s' => if is_space c then skip_space s' else s
  | EmptyString => EmptyString
  end.

Definition is_hex (c : ascii) : bool := match hex_value c with Some _ => true | None => false end.
Definition is_digit (c : ascii) : bool := match digit_value c with Some _ => true | None => false end.

Definition cons_fst (p : string) (r : option (string * string)) : option (string * string) :=
  match r with Some (s, rest) => Some (p +:+ s, rest) | None => None end.

(** From behind the opening quote to the closing one: the raw text between
    them, and what follows. *)
Definition dquote : ascii := "034".

Definition is_escape (e : ascii) : bool :=
  match e with
  | "b" | "f" | "n" | "r" | "t" | "\" | "/" | "034" => true
  | _ => false
  end%char.

Fixpoint scan_string (s : string) : option (string * string) :=
  match s with
  | EmptyString => None
  | String.String c s =>
      if ascii_dec c dquote then Some (EmptyString, s)
      else if ascii_dec c "\" then
        match s with
        | EmptyString => None
        | String.String e s =>
            if ascii_dec e "u" then
              match s with
              | String.String h1 (String.String h2 (String.String h3 (String.String h4 s))) =>
                  if is_hex h1 && is_hex h2 && is_hex h3 && is_hex h4
                  then cons_fst (of_bytes [c; e; h1; h2; h3; h4]) (scan_string s)
                  else None
              | _ => None
              end
            else if is_escape e then cons_fst (of_bytes [c; e]) (scan_string s)
            else None
        end
      else if (byte_val c <? 32)%Z then None
      else cons_fst (String.String c EmptyString) (scan_string s)
  end.

(** ** Unquoting *)

Definition RuneError : Z := 0xFFFD.

(** [utf8.EncodeRune] *)
Definition encode_rune (r : Z) : string :=
  of_bytes (byte_of <$>
    (if (r <? 0x80)%Z then [r]
     else if (r <? 0x800)%Z then [0xC0 + Z.shiftr r 6; 0x80 + Z.land r 63]
     else if (r <? 0x10000)%Z then
       [0xE0 + Z.shiftr r 12; 0x80 + Z.land (Z.shiftr r 6) 63; 0x80 + Z.land r 63]
     else [0xF0 + Z.shiftr r 18; 0x80 + Z.land (Z.shiftr r 12) 63;
           0x80 + Z.land (Z.shiftr r 6) 63; 0x80 + Z.land r 63])%Z).

(** [getu4]: the value of [\uXXXX] at the head of [s]. *)
Definition getu4 (s : string) : option Z :=
  match s with
  | String.String "\" (String.String "u" (String.String a (String.String b
      (String.String c (String.String d _))))) =>
      match hex_value a, hex_value b, hex_value c, hex_value d with
      | Some a, Some b, Some c, Some d => Some (a * 4096 + b * 256 + c * 16 + d)%Z
      | _, _, _, _ => None
      end
  | _ => None
  end.

(** [utf16.DecodeRune] *)
Definition utf16_decode (r1 r2 : Z) : Z :=
  if ((0xD800 <=? r1) && (r1 <? 0xDC00) && (0xDC00 <=? r2) && (r2 <? 0xE000))%Z
  then ((r1 - 0xD800) * 1024 + (r2 - 0xDC00) + 0x10000)%Z else RuneError.

Definition unescape (e : ascii) : ascii :=
  match e with
  | "b" => "008" | "f" => "012" | "n" => "010" | "r" => "013" | "t" => "009" | c => c
  end%char.

Fixpoint unquote_loop (fuel : nat) (s : string) : string :=
  match fuel with
  | 0 => EmptyString
  | S fuel =>
      match s with
      | EmptyString => EmptyString
      | String.String "\" (String.String "u" _) =>
          match getu4 s with
          | None => EmptyString (* the scanner has checked the digits *)
          | Some r =>
              if ((0xD800 <=? r) && (r <? 0xE000))%Z then
                let dec := utf16_decode r (default 0%Z (getu4 (string_drop 6 s))) in
                if (dec =? RuneError)%Z
                then encode_rune RuneError +:+ unquote_loop fuel (string_drop 6 s)
                else encode_rune dec +:+ unquote_loop fuel (string_drop 12 s)
              else encode_rune r +:+ unquote_loop fuel (string_drop 6 s)
          end
      | String.String "\" (String.String e s) =>
          String.String (unescape e) (unquote_loop fuel s)
      | _ =>
          match utf8_length s with
          | 0 => encode_rune RuneError +:+ unquote_loop fuel (string_drop 1 s)
          | n => string_take n s +:+ unquote_loop fuel (string_drop n s)
          end
      end
  end.

Definition unquote (s : string) : string := unquote_loop (String.length s) s.

(** ** Numbers *)

(** The longest run of digits. *)
Fixpoint span_digits (s : string) : string * string :=
  match s with
  | String.String c s' =>
      if is_digit c then let '(ds, rest) := span_digits s' in (String.String c ds, rest)
      else (EmptyString, s)
  | EmptyString => (EmptyString, EmptyString)
  end.

(** One digit or more. *)
Definition digits1 (s : string) : option (string * string) :=
  match span_digits s with
  | (EmptyString, _) => None
  | r => Some r
  end.

(** The remainder behind the byte [c], if [s] begins with it. *)
Definition strip (c : ascii) (s : string) : option string :=
  match s with
  | String.String c' s' => if ascii_dec c' c then Some s' else None
  | EmptyString => None
  end.

(** A zero, or digits that do not begin with one. *)
Definition int_part (s : string) : option (string * string) :=
  match strip "0" s with
  | Some s => Some ("0", s)
  | None => digits1 s
  end.

Definition frac_part (s : string) : option (string * string) :=
  match strip "." s with
  | Some s => cons_fst "." (digits1 s)
  | None => Some (EmptyString, s)
  end.

Definition exp_digits (s : string) : option (string * string) :=
  match strip "+" s with
  | Some s => cons_fst "+" (digits1 s)
  | None =>
      match strip "-" s with
      | Some s => cons_fst "-" (digits1 s)
      | None => digits1 s
      end
  end.

Definition exp_part (s : string) : option (string * string) :=
  match strip "e" s with
  | Some s => cons_fst "e" (exp_digits s)
  | None =>
      match strip "E" s with
      | Some s => cons_fst "E" (exp_digits s)
      | None => Some (EmptyString, s)
      end
  end.

Definition unsigned (s : string) : option (string * string) :=
  match int_part s with
  | None => None
  | Some (i, s) =>
      match frac_part s with
      | None => None
      | Some (f, s) => cons_fst (i +:+ f) (exp_part s)
      end
  end.

Definition scan_number (s : string) : option (string * string) :=
  match strip "-" s with
  | Some s => cons_fst "-" (unsigned s)
  | None => unsigned s
  end.

(** ** Values *)

(** [maxNestingDepth] *)
Definition max_depth : Z := 10000.

(** The remainder of [s] behind [prefix]. *)
Definition expect (prefix s : string) : option string :=
  if HasPrefix s prefix then Some (string_drop (String.length prefix) s) else None.

(** The remainder behind the next byte, if that is [c]. *)
Definition next_is (c : ascii) (s : string) : option string :=
  match skip_space s with
  | String.String c' s' => if ascii_dec c' c then Some s' else None
  | EmptyString => None
  end.

(** What a value begins with. *)
Inductive start : Type := StObj | StArr | StStr | StTrue | StFalse | StNull | StNum.

Definition start_of (c : ascii) : start :=
  match c with
  | "{" => StObj | "[" => StArr | "034" => StStr
  | "t" => StTrue | "f" => StFalse | "n" => StNull
  | _ => StNum
  end%char.

Definition literal (v : json) (rest : option string) : option (json * string) :=
  match rest with Some s => Some (v, s) | None => None end.

Fixpoint value (fuel : nat) (depth : Z) (s : string) : option (json * string) :=
  match fuel with
  | 0 => None
  | S fuel =>
      match skip_space s with
      | EmptyString => None
      | String.String c s' as s =>
          match start_of c with
          | StObj =>
              if (max_depth <=? depth)%Z then None
              else match next_is "}" s' with
                   | Some s => Some (JObj [], s)
                   | None => members fuel (depth + 1) s' []
                   end
          | StArr =>
              if (max_depth <=? depth)%Z then None
              else match next_is "]" s' with
                   | Some s => Some (JArr [], s)
                   | None => elements fuel (depth + 1) s' []
                   end
          | StStr =>
              match scan_string s' with
              | Some (raw, s) => Some (JStr (unquote raw), s)
              | None => None
              end
          | StTrue => literal (JBool true) (expect "true" s)
          | StFalse => literal (JBool false) (expect "false" s)
          | StNull => literal JNull (expect "null" s)
          | StNum =>
              match scan_number s with Some (t, s) => Some (JNum t, s) | None => None end
          end
      end
  end
with members (fuel : nat) (depth : Z) (s : string) (acc : list (string * json)) :
    option (json * string) :=
  match fuel with
  | 0 => None
  | S fuel =>
      match next_is dquote s with
      | None => None
      | Some s =>
          match scan_string s with
          | None => None
          | Some (raw, s) =>
              match next_is ":" s with
              | None => None
              | Some s =>
                  match value fuel depth s with
                  | None => None
                  | Some (v, s) =>
                      let acc := (unquote raw, v) :: acc in
                      match next_is "," s with
                      | Some s => members fuel depth s acc
                      | None => literal (JObj (reverse acc)) (next_is "}" s)
                      end
                  end
              end
          end
      end
  end
with elements (fuel : nat) (depth : Z) (s : string) (acc : list json) : option (json * string) :=
  match fuel with
  | 0 => None
  | S fuel =>
      match value fuel depth s with
      | None => None
      | Some (v, s) =>
          match next_is "," s with
          | Some s => elements fuel depth s (v :: acc)
          | None => literal (JArr (reverse (v :: acc))) (next_is "]" s)
          end
      end
  end.

(** Enough for any input: see [value_enough]. *)
Definition fuel_for (s : string) : nat := 2 * String.length s + 2.

(** The first value of a stream. *)
Definition first_value (s : string) : option json := fst <$> value (fuel_for s) 0 s.

(** The value that is the whole input. *)
Definition whole_value (s : string) : option json :=
  match value (fuel_for s) 0 s with
  | Some (v, rest) => match skip_space rest with EmptyString => Some v | _ => None end
  | None => None
  end.

(** ** Storing into structs

    A decoder maps the value and the present content of the variable to its new
    content and to whether an [UnmarshalTypeError] was saved. *)
Definition decoder (A : Type) : Type := json → A → A * bool.

Definition dec_string : decoder string := λ v old,
  match v with JStr s => (s, false) | JNull => (old, false) | _ => (old, true) end.

Definition dec_bool : decoder bool := λ v old,
  match v with JBool b => (b, false) | JNull => (old, false) | _ => (old, true) end.

(** [strconv.ParseInt(literal, 10, 64)] *)
Definition dec_int : decoder Z := λ v old,
  match v with
  | JNum t => match Atoi t with Some z => (z, false) | None => (old, true) end
  | JNull => (old, false)
  | _ => (old, true)
  end.

(** A slice: its backing array and its length. *)
Record slice : Type := mkSlice { sl_back : list string; sl_len : nat }.

Definition slice_elems (sl : slice) : list string := take (sl_len sl) (sl_back sl).
Definition nil_slice : slice := mkSlice [] 0.

(** An array is decoded into the elements that are there, and past them into
    fresh ones; [null] leaves an element as it was. *)
Fixpoint dec_elems (l : list json) (back : list string) : list string * bool :=
  match l with
  | [] => (back, false)
  | v :: l =>
      let '(x, e1) := dec_string v (default "" (head back)) in
      let '(back', e2) := dec_elems l (tail back) in (x :: back', e1 || e2)
  end.

Definition dec_strings : decoder slice := λ v old,
  match v with
  | JArr [] => (nil_slice, false)
  | JArr l => let '(back, e) := dec_elems l (sl_back old) in (mkSlice back (length l), e)
  | JNull => (nil_slice, false)
  | _ => (old, true)
  end.

(** [foldName]: upper case, and the two runes outside ASCII that fold into it,
    U+017F and U+212A. *)
Fixpoint foldName (s : string) : string :=
  match s with
  | EmptyString => EmptyString
  | String.String "197" (String.String "191" s) => String.String "S" (foldName s)
  | String.String "226" (String.String "132" (String.String "170" s)) =>
      String.String "K" (foldName s)
  | String.String c s =>
      String.String (if between 97 122 c then byte_of (byte_val c - 32) else c) (foldName s)
  end.

(** The fields of a struct: name, and how the field is stored. *)
Abbreviation fields A := (list (string * decoder A)).

Definition find_field {A} (fs : fields A) (key : string) : option (decoder A) :=
  match list_find (λ f, f.1 = key) fs with
  | Some (_, f) => Some f.2
  | None =>
      match list_find (λ f, foldName f.1 = foldName key) fs with
      | Some (_, f) => Some f.2
      | None => None
      end
  end.

Fixpoint dec_members {A} (fs : fields A) (l : list (string * json)) (old : A) : A * bool :=
  match l with
  | [] => (old, false)
  | (key, v) :: l =>
      let '(a, e1) := match find_field fs key with Some d => d v old | None => (old, false) end in
      let '(a', e2) := dec_members fs l a in (a', e1 || e2)
  end.

Definition dec_struct {A} (fs : fields A) : decoder A := λ v old,
  match v with
  | JObj l => dec_members fs l old
  | JNull => (old, false)
  | _ => (old, true)
  end.

(** A field of a struct, from its getter and setter. *)
Definition field {A B} (get : A → B) (set : B → A → A) (d : decoder B) : decoder A :=
  λ v a, let '(b, e) := d v (get a) in (set b a, e).

(** [json.Unmarshal(body, &zero)]: [None] is any error. *)
Definition Unmarshal {A} (d : decoder A) (zero : A) (body : string) : option A :=
  match whole_value body with
  | None => None
  | Some v => match d v zero with (a, false) => Some a | (_, true) => None end
  end.

(** [json.NewDecoder(http.MaxBytesReader(w, body, n)).Decode(&zero)]: what is in
    the variable afterwards, and whether there was an error. *)
Definition Decode {A} (d : decoder A) (zero : A) (n : Z) (body : string) : A * bool :=
  match first_value (string_take (Z.to_nat n) body) with
  | None => (zero, true)
  | Some v => d v zero
  end.

(** ** Examples *)

Definition quote : string := String.String "034" EmptyString.

Example value_ex :
  first_value ("{" +:+ quote +:+ "a" +:+ quote +:+ ": [1, -2.5e3, true, null], " +:+
    quote +:+ "\u00e9\n" +:+ quote +:+ " : {}}tail") =
  Some (JObj [("a", JArr [JNum "1"; JNum "-2.5e3"; JBool true; JNull]);
    (of_bytes (byte_of <$> [0xC3; 0xA9; 10]%Z), JObj [])]).
Proof. vm_compute. reflexivity. Qed.

(** A surrogate pair, then a lone surrogate, then a byte that is no UTF-8. *)
Example unquote_ex :
  octets (unquote ("\ud83d\ude00\ud83d" +:+ of_bytes [byte_of 255])) =
  [0xF0; 0x9F; 0x98; 0x80; 0xEF; 0xBF; 0xBD; 0xEF; 0xBF; 0xBD]%Z.
Proof. vm_compute. reflexivity. Qed.

Example leading_zero_ex : whole_value "01" = None.
Proof. vm_compute. reflexivity. Qed.

(** ** The scanner never runs out of fuel *)

Abbreviation slen := String.length.

Lemma skip_space_length s : slen (skip_space s) ≤ slen s.
Proof. induction s as [|c s IH]; [done|]. cbn [skip_space]. case_match; simpl; lia. Qed.

Lemma next_is_length c s r : next_is c s = Some r → slen r < slen s.
Proof.
  unfold next_is. pose proof (skip_space_length s). destruct (skip_space s) as [|c' s']; [done|].
  destruct (ascii_dec c' c); [|done]. intros [= <-]. simpl in *. lia.
Qed.

Lemma expect_length p s r : expect p s = Some r → slen r ≤ slen s.
Proof. unfold expect. case_match; [|done]. intros [= <-]. apply string_drop_length. Qed.

Lemma cons_fst_Some p o t r : cons_fst p o = Some (t, r) → ∃ t', o = Some (t', r).
Proof. destruct o as [[t' r']|]; [|done]. intros [= _ <-]. by exists t'. Qed.

Lemma scan_string_length s t r : scan_string s = Some (t, r) → slen r < slen s.
Proof.
  assert (∀ n s t, slen s ≤ n → scan_string s = Some (t, r) → slen r < slen s) as Hn;
    [|by apply (Hn (slen s))].
  clear s t. induction n as [|n IH]; intros s t Hle; (destruct s as [|c s]; [done|]);
    cbn [slen] in Hle; [lia|]. cbn [scan_string slen].
  destruct (ascii_dec c dquote); [intros [= _ <-]; lia|]. destruct (ascii_dec c "\") as [_|_].
  - destruct s as [|e s]; [done|]. cbn [slen] in *. destruct (ascii_dec e "u") as [_|_].
    + destruct s as [|h1 [|h2 [|h3 [|h4 s]]]]; try done. cbn [slen] in *. case_match; [|done].
      intros [t' Ht]%cons_fst_Some. apply IH in Ht; lia.
    + case_match; [|done]. intros [t' Ht]%cons_fst_Some. apply IH in Ht; lia.
  - case_match; [done|]. intros [t' Ht]%cons_fst_Some. apply IH in Ht; lia.
Qed.

Lemma span_digits_length s : slen (span_digits s).2 ≤ slen s.
Proof.
  induction s as [|c s IH]; [done|]. cbn [span_digits slen]. case_match; [|done].
  destruct (span_digits s). simpl in *. lia.
Qed.

Lemma digits1_length s t r : digits1 s = Some (t, r) → slen r ≤ slen s.
Proof.
  unfold digits1. pose proof (span_digits_length s). destruct (span_digits s) as [[|c t'] r'];
    [done|]. by intros [= _ <-].
Qed.

Lemma strip_length c s r : strip c s = Some r → slen r ≤ slen s.
Proof.
  destruct s as [|c' s]; [done|]. cbn [strip]. destruct (ascii_dec c' c) as [_|_]; [|done].
  intros [= <-]. simpl. lia.
Qed.

(** Walk through a part of a number, collecting the length facts. *)
Ltac scan_lengths :=
  repeat (case_match; simplify_eq);
  repeat match goal with
    | H : cons_fst _ _ = Some _ |- _ => apply cons_fst_Some in H as [? H]
    | H : strip _ _ = Some _ |- _ => apply strip_length in H
    | H : digits1 _ = Some _ |- _ => apply digits1_length in H
    end; try (intros [? ?%digits1_length]%cons_fst_Some); try (intros ?%digits1_length);
  try (intros [= _ <-]); lia.

Lemma int_part_length s t r : int_part s = Some (t, r) → slen r ≤ slen s.
Proof. unfold int_part. scan_lengths. Qed.
Lemma frac_part_length s t r : frac_part s = Some (t, r) → slen r ≤ slen s.
Proof. unfold frac_part. scan_lengths. Qed.
Lemma exp_digits_length s t r : exp_digits s = Some (t, r) → slen r ≤ slen s.
Proof. unfold exp_digits. scan_lengths. Qed.
Lemma exp_part_length s t r : exp_part s = Some (t, r) → slen r ≤ slen s.
Proof.
  unfold exp_part. destruct (strip "e" s) eqn:E1; [|destruct (strip "E" s) eqn:E2].
  - intros [? ?%exp_digits_length]%cons_fst_Some. apply strip_length in E1. lia.
  - intros [? ?%exp_digits_length]%cons_fst_Some. apply strip_length in E2. lia.
  - by intros [= _ <-].
Qed.
Lemma unsigned_length s t r : unsigned s = Some (t, r) → slen r ≤ slen s.
Proof.
  unfold unsigned. destruct (int_part s) as [[i s1]|] eqn:E1; [|done].
  destruct (frac_part s1) as [[f s2]|] eqn:E2; [|done].
  intros [? ?%exp_part_length]%cons_fst_Some.
  apply int_part_length in E1. apply frac_part_length in E2. lia.
Qed.
Lemma scan_number_length s t r : scan_number s = Some (t, r) → slen r ≤ slen s.
Proof.
  unfold scan_number. destruct (strip "-" s) eqn:E; [|apply unsigned_length].
  intros [? ?%unsigned_length]%cons_fst_Some. apply strip_length in E. lia.
Qed.

Lemma literal_Some v o v' r : literal v o = Some (v', r) → o = Some r.
Proof. destruct o; [|done]. by intros [= _ <-]. Qed.

(** What is left is no longer than the input. *)
Lemma value_length fuel :
  (∀ d s v r, value fuel d s = Some (v, r) → slen r ≤ slen s) ∧
  (∀ d s acc v r, members fuel d s acc = Some (v, r) → slen r ≤ slen s) ∧
  (∀ d s acc v r, elements fuel d s acc = Some (v, r) → slen r ≤ slen s).
Proof.
  induction fuel as [|fuel (IHv & IHm & IHe)]; [done|]. split_and!.
  - intros d s v r. cbn [value]. pose proof (skip_space_length s) as Hs.
    destruct (skip_space s) as [|c s']; [done|]. cbn [slen] in Hs.
    destruct (start_of c).
    + case_match; [done|]. destruct (next_is "}" s') eqn:E.
      * intros [= _ <-]. apply next_is_length in E. lia.
      * intros E2%IHm. lia.
    + case_match; [done|]. destruct (next_is "]" s') eqn:E.
      * intros [= _ <-]. apply next_is_length in E. lia.
      * intros E2%IHe. lia.
    + destruct (scan_string s') as [[raw s2]|] eqn:E; [|done]. intros [= _ <-].
      apply scan_string_length in E. lia.
    + intros E%literal_Some%expect_length. cbn [slen] in E. lia.
    + intros E%literal_Some%expect_length. cbn [slen] in E. lia.
    + intros E%literal_Some%expect_length. cbn [slen] in E. lia.
    + destruct (scan_number _) as [[raw s2]|] eqn:E; [|done]. intros [= _ <-].
      apply scan_number_length in E. cbn [slen] in E. lia.
  - intros d s acc v r. cbn [members].
    destruct (next_is dquote s) as [s1|] eqn:E1; [|done]. apply next_is_length in E1.
    destruct (scan_string s1) as [[raw s2]|] eqn:E2; [|done]. apply scan_string_length in E2.
    destruct (next_is ":" s2) as [s3|] eqn:E3; [|done]. apply next_is_length in E3.
    destruct (value fuel d s3) as [[x s4]|] eqn:E4; [|done]. apply IHv in E4.
    destruct (next_is "," s4) as [s5|] eqn:E5.
    + apply next_is_length in E5. intros E6%IHm. lia.
    + intros E6%literal_Some%next_is_length. lia.
  - intros d s acc v r. cbn [elements].
    destruct (value fuel d s) as [[x s1]|] eqn:E1; [|done]. apply IHv in E1.
    destruct (next_is "," s1) as [s2|] eqn:E2.
    + apply next_is_length in E2. intros E3%IHe. lia.
    + intros E3%literal_Some%next_is_length. lia.
Qed.

(** Any two fuels that suffice for the input agree. *)
Lemma value_fuel f1 f2 :
  (∀ d s, 2 * slen s + 1 ≤ f1 → 2 * slen s + 1 ≤ f2 → value f1 d s = value f2 d s) ∧
  (∀ d s acc, 2 * slen s + 1 ≤ f1 → 2 * slen s + 1 ≤ f2 → members f1 d s acc = members f2 d s acc) ∧
  (∀ d s acc, 2 * slen s + 2 ≤ f1 → 2 * slen s + 2 ≤ f2 → elements f1 d s acc = elements f2 d s acc).
Proof.
  revert f2. induction f1 as [|f1 IH]; intros f2; [split_and!; intros; lia|].
  destruct f2 as [|f2]; [split_and!; intros; lia|].
  destruct (IH f2) as (IHv & IHm & IHe). pose proof (value_length f2) as (Lv & _ & _).
  split_and!.
  - intros d s H1 H2. cbn [value]. pose proof (skip_space_length s) as Hs.
    destruct (skip_space s) as [|c s']; [done|]. cbn [slen] in Hs.
    destruct (start_of c); try done; (case_match; [done|]); (case_match; [done|]).
    + apply IHm; lia.
    + apply IHe; lia.
  - intros d s acc H1 H2. cbn [members].
    destruct (next_is dquote s) as [s1|] eqn:E1; [|done]. apply next_is_length in E1.
    destruct (scan_string s1) as [[raw s2]|] eqn:E2; [|done]. apply scan_string_length in E2.
    destruct (next_is ":" s2) as [s3|] eqn:E3; [|done]. apply next_is_length in E3.
    rewrite IHv by lia. destruct (value f2 d s3) as [[x s4]|] eqn:E4; [|done]. apply Lv in E4.
    destruct (next_is "," s4) as [s5|] eqn:E5; [|done]. apply next_is_length in E5. apply IHm; lia.
  - intros d s acc H1 H2. cbn [elements].
    rewrite IHv by lia. destruct (value f2 d s) as [[x s1]|] eqn:E1; [|done]. apply Lv in E1.
    destruct (next_is "," s1) as [s2|] eqn:E2; [|done]. apply next_is_length in E2. apply IHe; lia.
Qed.

(** The fuel the decoders pass is enough: more changes nothing. *)
Lemma value_enough fuel d s : fuel_for s ≤ fuel → value fuel d s = value (fuel_for s) d s.
Proof. intros Hf. unfold fuel_for in *. apply value_fuel; lia. Qed.
