(* ===== verification/JsonOut.v ===== *)
(** * json.Marshal (encoding/json), and that the decoder reads it back

    What the runner agent and the GitHub client send: objects, arrays, strings
    and integers, without white space.  [escape] is the string encoder with
    HTML escaping, which is what Marshal uses; bytes that are no UTF-8 become
    U+FFFD ([sanitize]).  [whole_value_Marshal] is the round trip. *)
From S2P Require Import Prelude GoLib GoText Json.
From Stdlib Require Import Ascii.

(** ** Strings *)

(** One byte below 0x80. *)
Definition escape_byte (c : ascii) : string :=
  match c with
  | "034"%char | "\"%char => of_bytes ["\"%char; c]
  | "008"%char => "\b"
  | "012"%char => "\f"
  | "010"%char => "\n"
  | "013"%char => "\r"
  | "009"%char => "\t"
  | _ =>
      if bool_decide (c ∈ bytes_of "<>&") || (byte_val c <? 32)%Z
      then "\u00" +:+ hex_encode [byte_val c]
      else String.String c EmptyString
  end.

(** U+2028 and U+2029 *)
Definition line_separator : string := of_bytes (byte_of <$> [0xE2; 0x80; 0xA8]%Z).
Definition paragraph_separator : string := of_bytes (byte_of <$> [0xE2; 0x80; 0xA9]%Z).

Definition escape_rune (r : string) : string :=
  match r with
  | String.String c EmptyString => escape_byte c
  | _ => if decide (r = line_separator) then "\u2028"
         else if decide (r = paragraph_separator) then "\u2029" else r
  end.

(** Rune by rune; [bad] stands for a byte that begins no rune. *)
Fixpoint by_runes (f : string → string) (bad : string) (fuel : nat) (s : string) : string :=
  match fuel, s with
  | 0, _ | _, EmptyString => EmptyString
  | S fuel, _ =>
      match utf8_length s with
      | 0 => bad +:+ by_runes f bad fuel (string_drop 1 s)
      | n => f (string_take n s) +:+ by_runes f bad fuel (string_drop n s)
      end
  end.

Definition escape (s : string) : string := by_runes escape_rune "\ufffd" (String.length s) s.
Definition sanitize (s : string) : string :=
  by_runes id (encode_rune RuneError) (String.length s) s.

Definition quoted (s : string) : string := quote +:+ escape s +:+ quote.

(** ** Values *)

Fixpoint Marshal (v : json) : string :=
  match v with
  | JNull => "null"
  | JBool b => if b then "true" else "false"
  | JNum t => t
  | JStr s => quoted s
  | JArr l => "[" +:+ Join "," (map Marshal l) +:+ "]"
  | JObj l => "{" +:+ Join "," (map (λ '(k, v), quoted k +:+ ":" +:+ Marshal v) l) +:+ "}"
  end.

(** What is read back. *)
Fixpoint clean (v : json) : json :=
  match v with
  | JStr s => JStr (sanitize s)
  | JArr l => JArr (map clean l)
  | JObj l => JObj (map (λ '(k, v), (sanitize k, clean v)) l)
  | v => v
  end.

(** Numbers are integers, and nothing is nested deeper than [n]. *)
Fixpoint fits (n : nat) (v : json) {struct v} : Prop :=
  match v with
  | JNum t => ∃ z, int64_ok z = true ∧ t = Itoa z
  | JArr l => match n with 0 => False | S n => foldr (λ v P, fits n v ∧ P) True l end
  | JObj l => match n with 0 => False | S n => foldr (λ '(_, v) P, fits n v ∧ P) True l end
  | _ => True
  end.

Example Marshal_ex :
  Marshal (JObj [("a", JArr [JStr ("<" +:+ of_bytes ["010"; byte_of 255]%char); JNum (Itoa (-7))])]) =
  "{" +:+ quote +:+ "a" +:+ quote +:+ ":[" +:+ quote +:+ "\u003c\n\ufffd" +:+ quote +:+ ",-7]}".
Proof. vm_compute. reflexivity. Qed.

(** ** Runes *)

Lemma take_drop_string n s : string_take n s +:+ string_drop n s = s.
Proof.
  revert s. induction n as [|n IH]; intros [|c s]; [done..|]. unfold String.app in *. simpl.
  by rewrite IH.
Qed.

(** The bytes of a rune of more than one byte. *)
Definition high (c : ascii) : bool := (128 <=? byte_val c)%Z.

Lemma between_high lo hi c : (128 ≤ lo)%Z → between lo hi c = true → high c = true.
Proof. unfold between, high. intros ? [??]%andb_true_iff. lia. Qed.

(** The first rune of [s] takes [n] bytes: one below 0x80, or several above;
    and that does not depend on what follows. *)
Inductive rune_head : string → nat → Prop :=
| rune_ascii c s : (byte_val c < 128)%Z → rune_head (String.String c s) 1
| rune_high r s :
    1 < slen r → Forall (λ c, high c = true) (bytes_of r) →
    (∀ t, utf8_length (r +:+ t) = slen r) → rune_head (r +:+ s) (slen r).

Lemma utf8_length_ascii c s : (byte_val c < 128)%Z → utf8_length (String.String c s) = 1.
Proof.
  intros Hc. unfold utf8_length, between. pose proof (byte_val_range c).
  by rewrite (proj2 (Z.leb_le 0 _)), (proj2 (Z.leb_le _ 127)) by lia.
Qed.

Ltac high_bytes :=
  simpl; rewrite !Forall_cons, Forall_nil; unfold cont in *;
  split_and!; try done; (eapply between_high; [|eassumption]; lia).

Lemma utf8_length_head s : utf8_length s ≠ 0 → rune_head s (utf8_length s).
Proof.
  unfold utf8_length. destruct s as [|a s]; [done|]. destruct (between 0 0x7F a) eqn:Ha.
  { unfold between in Ha. apply andb_true_iff in Ha as [_ Ha]. intros _. apply rune_ascii. lia. }
  destruct s as [|b s]; [done|]. destruct (between 0xC2 0xDF a && cont b) eqn:Hb.
  { intros _. apply andb_true_iff in Hb as [H1 H2].
    apply (rune_high (of_bytes [a; b])); [simpl; lia| |intros t; simpl; by rewrite Ha, H1, H2].
    by high_bytes. }
  destruct s as [|c s]; [done|].
  destruct (((between 0xE0 0xE0 a && between 0xA0 0xBF b) || (between 0xE1 0xEC a && cont b) ||
    (between 0xED 0xED a && between 0x80 0x9F b) || (between 0xEE 0xEF a && cont b)) && cont c) eqn:Hc.
  { intros _. apply (rune_high (of_bytes [a; b; c])); [simpl; lia| |].
    - apply andb_true_iff in Hc as [Hc H3].
      repeat (apply orb_true_iff in Hc as [Hc|Hc]); apply andb_true_iff in Hc as [H1 H2];
        by high_bytes.
    - intros t. unfold of_bytes, String.app. unfold utf8_length. by rewrite Ha, Hb, Hc. }
  destruct s as [|d s]; [done|].
  destruct (((between 0xF0 0xF0 a && between 0x90 0xBF b) || (between 0xF1 0xF3 a && cont b) ||
    (between 0xF4 0xF4 a && between 0x80 0x8F b)) && cont c && cont d) eqn:Hd; [|done].
  intros _. apply (rune_high (of_bytes [a; b; c; d])); [simpl; lia| |].
  - apply andb_true_iff in Hd as [Hd H4]. apply andb_true_iff in Hd as [Hd H3].
    repeat (apply orb_true_iff in Hd as [Hd|Hd]); apply andb_true_iff in Hd as [H1 H2];
      by high_bytes.
  - intros t. unfold of_bytes, String.app. unfold utf8_length. by rewrite Ha, Hb, Hc, Hd.
Qed.

Lemma string_take_short n p s : n ≤ slen p → string_take n (p +:+ s) = string_take n p.
Proof.
  revert n. induction p as [|c p IH]; intros [|n] Hn; simpl in *; try done; try lia.
  unfold String.app in *. simpl. by rewrite IH by lia.
Qed.

Lemma string_take_long n p s : slen p ≤ n → string_take n (p +:+ s) = p +:+ string_take (n - slen p) s.
Proof.
  revert n. induction p as [|c p IH]; intros n Hn; simpl in *; [by rewrite Nat.sub_0_r|].
  destruct n as [|n]; [lia|]. unfold String.app in *. simpl. by rewrite IH by lia.
Qed.

Lemma string_take_app r s : string_take (slen r) (r +:+ s) = r.
Proof. unfold String.app. induction r as [|c r IH]; simpl; [by destruct s|]. by rewrite IH. Qed.

Lemma string_drop_shorter n c s : slen (string_drop (S n) (String.String c s)) ≤ slen s.
Proof. apply (string_drop_length n s). Qed.

(** A string is a sequence of runes and of bytes that begin none. *)
Lemma runes_ind (P : string → Prop) :
  P EmptyString →
  (∀ c s, (byte_val c < 128)%Z → P s → P (String.String c s)) →
  (∀ r s, 1 < slen r → Forall (λ c, high c = true) (bytes_of r) →
          (∀ t, utf8_length (r +:+ t) = slen r) → P s → P (r +:+ s)) →
  (∀ c s, utf8_length (String.String c s) = 0 → P s → P (String.String c s)) →
  ∀ s, P s.
Proof.
  intros H0 Ha Hh Hb s. remember (slen s) as n eqn:En. assert (slen s ≤ n) as Hle by lia. clear En.
  revert s Hle. induction n as [|n IH]; intros [|c s] Hle; simpl in Hle; [done|lia|done|].
  destruct (decide (utf8_length (String.String c s) = 0)) as [E|E].
  { apply Hb; [done|]. apply IH. lia. }
  pose proof (utf8_length_head _ E) as Hr. inversion Hr as [c' s' Hc E1|r s' Hlen Hall Hloc E1].
  - subst. apply Ha; [done|]. apply IH. lia.
  - apply Hh; try done. apply IH. apply (f_equal slen) in E1.
    rewrite string_length_append in E1. simpl in E1. lia.
Qed.

Section by_runes.
Context (f : string → string) (bad : string).

Lemma by_runes_fuel fuel s : slen s ≤ fuel → by_runes f bad fuel s = by_runes f bad (slen s) s.
Proof.
  remember (slen s) as n eqn:En. assert (slen s ≤ n) as Hle by lia. clear En.
  revert fuel s Hle. induction n as [|n IH]; intros [|fuel] [|c s] Hle Hf; simpl in Hle; try done; try lia.
  cbn [by_runes].
  assert (∀ k, by_runes f bad fuel (string_drop (S k) (String.String c s)) =
               by_runes f bad n (string_drop (S k) (String.String c s))) as Heq.
  { intros k. apply IH; [|lia]. pose proof (string_drop_shorter k c s). lia. }
  destruct (utf8_length _); by rewrite Heq.
Qed.

Abbreviation R s := (by_runes f bad (slen s) s).

Lemma by_runes_ascii c s :
  (byte_val c < 128)%Z → R (String.String c s) = f (String.String c EmptyString) +:+ R s.
Proof. intros Hc. cbn [by_runes slen]. by rewrite utf8_length_ascii. Qed.

Lemma by_runes_bad c s : utf8_length (String.String c s) = 0 → R (String.String c s) = bad +:+ R s.
Proof. intros Hc. cbn [by_runes slen]. by rewrite Hc. Qed.

Lemma by_runes_high r s :
  1 < slen r → (∀ t, utf8_length (r +:+ t) = slen r) → R (r +:+ s) = f r +:+ R s.
Proof.
  intros Hlen Hr. specialize (Hr s). pose proof (string_take_app r s) as Ht.
  pose proof (string_drop_app r s) as Hd. destruct r as [|c r]; [simpl in Hlen; lia|].
  change (String.String c r +:+ s) with (String.String c (r +:+ s)) in *.
  cbn [by_runes slen]. rewrite Hr. cbn [slen] in *. rewrite Ht, Hd. f_equal.
  apply by_runes_fuel. rewrite string_length_append. lia.
Qed.
End by_runes.

(** ** Reading a string back *)

(** A piece of encoded text: the scanner goes over it but does not stop in it,
    and it stands for [s]. *)
Definition encodes (piece s : string) : Prop :=
  0 < slen piece ∧
  (∀ n, n < slen piece → scan_string (string_take n piece) = None) ∧
  (∀ t, scan_string (piece +:+ t) = cons_fst piece (scan_string t)) ∧
  (∀ fuel t, unquote_loop (S fuel) (piece +:+ t) = s +:+ unquote_loop fuel t).

Lemma cons_fst_app p q o : cons_fst p (cons_fst q o) = cons_fst (p +:+ q) o.
Proof. destruct o as [[s t]|]; [|done]. simpl. by rewrite string_app_assoc. Qed.

Lemma high_not_special c :
  high c = true → c ≠ dquote ∧ c ≠ "\"%char ∧ (byte_val c <? 32)%Z = false.
Proof.
  unfold high. intros Hc. assert (128 ≤ byte_val c)%Z as Hv by lia.
  split_and!; [intros ->; by vm_compute in Hv..|]. lia.
Qed.

Lemma Forall_bytes_take (P : ascii → Prop) n s :
  Forall P (bytes_of s) → Forall P (bytes_of (string_take n s)).
Proof.
  revert n. induction s as [|c s IH]; intros [|n]; [done|done|by constructor|].
  intros [Hc Hs]%Forall_cons. constructor; [done|by apply IH].
Qed.

Lemma scan_string_high r t :
  Forall (λ c, high c = true) (bytes_of r) → scan_string (r +:+ t) = cons_fst r (scan_string t).
Proof.
  unfold String.app. induction r as [|c r IH]; [intros _; by destruct (scan_string t) as [[]|]|].
  intros [Hc Hr]%Forall_cons. destruct (high_not_special c Hc) as (H1 & H2 & H3).
  cbn [scan_string String.append]. destruct (ascii_dec c dquote); [done|].
  destruct (ascii_dec c "\"); [done|]. rewrite H3, IH by done. apply (cons_fst_app (String.String c "")).
Qed.

(** Every proper prefix of a concrete piece. *)
Ltac cut_cases :=
  let n := fresh "n" in let Hn := fresh "Hn" in
  intros n Hn; simpl in Hn;
  repeat first [exfalso; lia | destruct n as [|n]; [reflexivity|]].

Lemma encodes_ascii c :
  (byte_val c < 128)%Z → encodes (escape_byte c) (String.String c EmptyString).
Proof.
  destruct c as [b1 b2 b3 b4 b5 b6 b7 b8]. destruct b8.
  { intros Hc. exfalso. revert Hc. by destruct b1, b2, b3, b4, b5, b6, b7. }
  intros _. destruct b1, b2, b3, b4, b5, b6, b7;
    (split_and!; [vm_compute; lia|cut_cases
                 |by intros t; reflexivity|by intros fuel t; reflexivity]).
Qed.

Lemma encodes_bad : encodes "\ufffd" (encode_rune RuneError).
Proof.
  split_and!; [simpl; lia|cut_cases|reflexivity|reflexivity].
Qed.

Lemma unquote_plain fuel c s :
  c ≠ "\"%char →
  unquote_loop (S fuel) (String.String c s) =
  match utf8_length (String.String c s) with
  | 0 => encode_rune RuneError +:+ unquote_loop fuel (string_drop 1 (String.String c s))
  | n => string_take n (String.String c s) +:+ unquote_loop fuel (string_drop n (String.String c s))
  end.
Proof.
  destruct c as [b1 b2 b3 b4 b5 b6 b7 b8].
  destruct b1, b2, b3, b4, b5, b6, b7, b8; intros Hc; reflexivity || by destruct Hc.
Qed.

Lemma encodes_high r :
  1 < slen r → Forall (λ c, high c = true) (bytes_of r) →
  (∀ t, utf8_length (r +:+ t) = slen r) → encodes (escape_rune r) r.
Proof.
  intros Hlen Hr Hloc. unfold escape_rune. destruct r as [|c [|d r]]; [simpl in Hlen; lia..|].
  destruct (decide _) as [->|_];
    [by split_and!; [simpl; lia|cut_cases|..]|].
  destruct (decide _) as [->|_];
    [by split_and!; [simpl; lia|cut_cases|..]|].
  split_and!; [simpl; lia| | |].
  - intros n _. rewrite <-(string_app_nil_r (string_take n _)), scan_string_high; [done|].
    by apply Forall_bytes_take.
  - intros t. by apply scan_string_high.
  - intros fuel t. apply Forall_cons in Hr as [Hc _]. destruct (high_not_special c Hc) as (_ & Hb & _).
    pose proof (string_take_app (String.String c (String.String d r)) t) as Ht.
    pose proof (string_drop_app (String.String c (String.String d r)) t) as Hd.
    specialize (Hloc t). change (String.String c (String.String d r) +:+ t)
      with (String.String c (String.String d r +:+ t)) in *.
    rewrite unquote_plain, Hloc by done. cbn [slen] in *. by rewrite Ht, Hd.
Qed.

(** The text between the quotes is read back whole; cut off, it is no string. *)
Definition reads_back (s : string) : Prop :=
  (∀ n, scan_string (string_take n (escape s)) = None) ∧
  (∀ t, scan_string (escape s +:+ String.String dquote t) = Some (escape s, t)) ∧
  (∀ fuel, slen (escape s) ≤ fuel → unquote_loop fuel (escape s) = sanitize s).

Lemma reads_back_piece piece u s s' :
  encodes piece u → escape s' = piece +:+ escape s → sanitize s' = u +:+ sanitize s →
  reads_back s → reads_back s'.
Proof.
  intros (Hp & Hcut & Hs & Hu) He Hc (IHcut & IHs & IHu). split_and!.
  - intros n. rewrite He. destruct (decide (n < slen piece)) as [Hn|Hn].
    + rewrite string_take_short by lia. by apply Hcut.
    + by rewrite string_take_long, Hs, IHcut by lia.
  - intros t. by rewrite He, string_app_assoc, Hs, IHs.
  - rewrite He, Hc, string_length_append. intros [|fuel] Hf; [lia|].
    rewrite Hu, IHu by lia. done.
Qed.

Lemma string_reads_back s : reads_back s.
Proof.
  induction s as [|c s Hc IH|r s Hlen Hr Hloc IH|c s Hc IH] using runes_ind.
  - split_and!; [by intros []|done|by intros []].
  - eapply reads_back_piece; [by apply encodes_ascii|by apply by_runes_ascii|by apply by_runes_ascii|done].
  - eapply reads_back_piece; [by apply encodes_high|by apply by_runes_high|by apply by_runes_high|done].
  - eapply reads_back_piece; [apply encodes_bad|by apply by_runes_bad|by apply by_runes_bad|done].
Qed.

Lemma scan_quoted s t :
  scan_string (escape s +:+ quote +:+ t) = Some (escape s, t).
Proof. apply (string_reads_back s). Qed.

(** A string that is cut off before its closing quote is no string. *)
Lemma scan_cut s n : scan_string (string_take n (escape s)) = None.
Proof. apply (string_reads_back s). Qed.

Lemma unquote_escape s : unquote (escape s) = sanitize s.
Proof. by apply string_reads_back. Qed.

(** Valid UTF-8 is not changed. *)
Lemma sanitize_valid s : valid_utf8 s = true → sanitize s = s.
Proof.
  unfold valid_utf8, sanitize. remember (slen s) as n eqn:En.
  assert (slen s ≤ n) as Hle by lia. clear En. revert s Hle.
  induction n as [|n IH]; intros [|c s] Hle Hv; simpl in Hle; try done; try lia.
  cbn [valid_utf8_loop by_runes] in *. destruct (utf8_length _) as [|k]; [done|].
  rewrite IH; [apply take_drop_string| |done]. pose proof (string_drop_shorter k c s). lia.
Qed.

(** ** Numbers *)

Definition all_digits (s : string) : Prop := Forall (λ c, is_digit c = true) (bytes_of s).

Lemma is_digit_byte d : (0 ≤ d < 10)%Z → is_digit (digit_byte d) = true.
Proof. intros Hd. unfold is_digit. by rewrite digit_byte_value. Qed.

Lemma digit_byte_zero d : (0 ≤ d < 10)%Z → digit_byte d = "0"%char → d = 0%Z.
Proof.
  intros Hd E. pose proof (digit_byte_value d Hd) as Hv. rewrite E in Hv. vm_compute in Hv.
  congruence.
Qed.

Lemma utoa_shape fuel n acc :
  (0 ≤ n < 10 ^ Z.of_nat fuel)%Z → 0 < fuel →
  ∃ c ds, utoa fuel n acc = String.String c (ds +:+ acc) ∧ all_digits (String.String c ds) ∧
          (c = "0"%char → n = 0%Z ∧ ds = "").
Proof.
  revert n acc. induction fuel as [|fuel IH]; intros n acc Hn Hf; [lia|]. cbn [utoa].
  assert (is_digit (digit_byte (n mod 10)) = true) as Hd by (apply is_digit_byte, Z.mod_pos_bound; lia).
  destruct (Z.ltb_spec n 10) as [Hlt|Hge].
  - exists (digit_byte (n mod 10)), "". split_and!; [done|by repeat constructor|].
    rewrite Z.mod_small by lia. intros E%digit_byte_zero; [done|lia].
  - assert (0 ≤ n / 10 < 10 ^ Z.of_nat fuel)%Z as Hq.
    { split; [apply Z.div_pos; lia|]. apply Z.div_lt_upper_bound; [lia|].
      rewrite Nat2Z.inj_succ, Z.pow_succ_r in Hn by lia. lia. }
    assert (1 ≤ n / 10)%Z by (apply Z.div_le_lower_bound; lia).
    destruct (IH (n / 10)%Z (String.String (digit_byte (n mod 10)) acc)) as (c & ds & -> & Hall & Hz);
      [done|destruct fuel; [simpl in Hq|]; lia|].
    exists c, (ds +:+ String.String (digit_byte (n mod 10)) ""). split_and!.
    + by rewrite string_app_assoc.
    + unfold all_digits in *. cbn [String.list_ascii_of_string] in *. rewrite bytes_of_app.
      apply Forall_cons in Hall as [??]. by repeat (constructor || apply Forall_app_2).
    + intros [? _]%Hz. lia.
Qed.

(** The text of a number ends where [t] begins. *)
Definition ends (t : string) : Prop :=
  match t with String.String c _ => c ∈ [","; "]"; "}"]%char | EmptyString => True end.

Lemma span_digits_app ds t : all_digits ds → ends t → span_digits (ds +:+ t) = (ds, t).
Proof.
  unfold String.app. intros Hds Ht. induction ds as [|c ds IH].
  - destruct t as [|c t]; [done|]. simpl in *. by set_unfold; destruct Ht as [->|[->|[->|[]]]].
  - apply Forall_cons in Hds as [Hc Hds]. cbn [span_digits String.append]. by rewrite Hc, IH.
Qed.

Lemma no_frac_no_exp t : ends t → frac_part t = Some ("", t) ∧ exp_part t = Some ("", t).
Proof.
  destruct t as [|c t]; [done|]. simpl. intros Ht.
  by set_unfold; destruct Ht as [->|[->|[->|[]]]].
Qed.

Lemma unsigned_utoa n t :
  (0 ≤ n < 10 ^ 20)%Z → ends t → unsigned (utoa 20 n "" +:+ t) = Some (utoa 20 n "", t).
Proof.
  intros Hn Ht. destruct (utoa_shape 20 n "") as (c & ds & -> & Hall & Hz); [done|lia|].
  rewrite string_app_nil_r.
  assert (int_part (String.String c ds +:+ t) = Some (String.String c ds, t)) as Hi.
  { unfold int_part. destruct (decide (c = "0"%char)) as [->|Hc]; [by destruct (Hz eq_refl) as [_ ->]|].
    simpl. destruct (ascii_dec c "0"); [done|]. unfold digits1.
    by rewrite (span_digits_app (String.String c ds)). }
  unfold unsigned. rewrite Hi. destruct (no_frac_no_exp t Ht) as [-> ->]. simpl.
  by rewrite !string_app_nil_r.
Qed.

Lemma scan_number_Itoa z t :
  int64_ok z = true → ends t → scan_number (Itoa z +:+ t) = Some (Itoa z, t).
Proof.
  unfold int64_ok, int64_min, int64_max. intros Hz Ht. unfold Itoa, scan_number.
  destruct (Z.ltb_spec z 0) as [Hneg|Hpos].
  - change (String.String "-" ?s +:+ t) with (String.String "-" (s +:+ t)). cbn [strip].
    destruct (ascii_dec "-" "-"); [|done]. rewrite unsigned_utoa; [done|lia|done].
  - destruct (utoa_shape 20 z "") as (c & ds & E & Hall & _); [lia|lia|].
    assert (strip "-" (utoa 20 z "" +:+ t) = None) as ->; [|apply unsigned_utoa; [lia|done]].
    rewrite E. simpl. destruct (ascii_dec c "-") as [->|]; [|done].
    by apply Forall_cons in Hall as [? _].
Qed.

(** ** Values *)

Fixpoint json_ind' (P : json → Prop)
    (Hnull : P JNull) (Hbool : ∀ b, P (JBool b)) (Hnum : ∀ t, P (JNum t)) (Hstr : ∀ s, P (JStr s))
    (Harr : ∀ l, Forall P l → P (JArr l)) (Hobj : ∀ l, Forall (λ kv, P kv.2) l → P (JObj l))
    (v : json) : P v :=
  let rec := json_ind' P Hnull Hbool Hnum Hstr Harr Hobj in
  match v with
  | JNull => Hnull
  | JBool b => Hbool b
  | JNum t => Hnum t
  | JStr s => Hstr s
  | JArr l => Harr l (list_ind (Forall P) (Forall_nil_2 P) (λ v l, Forall_cons_2 P v l (rec v)) l)
  | JObj l => Hobj l (list_ind (Forall (λ kv, P kv.2)) (Forall_nil_2 _)
                        (λ kv l, Forall_cons_2 _ kv l (rec kv.2)) l)
  end.

Lemma fits_list n l : foldr (λ v P, fits n v ∧ P) True l ↔ Forall (fits n) l.
Proof. induction l as [|v l IH]; simpl; [done|]. by rewrite Forall_cons, IH. Qed.

Lemma fits_members n (l : list (string * json)) :
  foldr (λ '(_, v) P, fits n v ∧ P) True l ↔ Forall (λ kv, fits n kv.2) l.
Proof. induction l as [|[k v] l IH]; simpl; [done|]. by rewrite Forall_cons, IH. Qed.

(** With enough fuel the scanner reads [v] back and stops at [t]. *)
Definition parses (n : nat) (v : json) : Prop :=
  ∀ d t, fits n v → (0 ≤ d)%Z → (d + Z.of_nat n ≤ max_depth)%Z → ends t →
    ∃ f0, ∀ fuel, f0 ≤ fuel → value fuel d (Marshal v +:+ t) = Some (clean v, t).

Lemma number_head z : int64_ok z = true →
  ∃ c s, Itoa z = String.String c s ∧ is_space c = false ∧ start_of c = StNum.
Proof.
  unfold int64_ok, int64_min, int64_max. intros Hz. unfold Itoa.
  destruct (Z.ltb_spec z 0) as [Hneg|Hpos]; [by eexists _, _|].
  destruct (utoa_shape 20 z "") as (c & ds & -> & Hall & _); [lia|lia|].
  eexists _, _. split; [done|]. apply Forall_cons in Hall as [Hc _]. clear -Hc.
  by destruct c as [[] [] [] [] [] [] [] []].
Qed.

Lemma parses_number n t : parses n (JNum t).
Proof.
  intros d r (z & Hz & ->) _ _ Hr. exists 1. intros [|fuel] Hf; [lia|]. cbn [Marshal value clean].
  destruct (number_head z Hz) as (c & s & E & Hc & Hst).
  pose proof (scan_number_Itoa z r Hz Hr) as Hscan. rewrite E in *.
  change (String.String c s +:+ r) with (String.String c (s +:+ r)) in *. cbn [skip_space].
  by rewrite Hc, Hst, Hscan.
Qed.

Lemma parses_string n s : parses n (JStr s).
Proof.
  intros d t _ _ _ _. exists 1. intros [|fuel] Hf; [lia|].
  change (Marshal (JStr s) +:+ t) with (String.String dquote ((escape s +:+ quote) +:+ t)).
  rewrite string_app_assoc. cbn [value skip_space is_space dquote start_of].
  by rewrite scan_quoted, unquote_escape.
Qed.

Lemma next_is_head c s : is_space c = false → next_is c (String.String c s) = Some s.
Proof. intros Hc. unfold next_is. cbn [skip_space]. rewrite Hc. by destruct (ascii_dec c c). Qed.

Lemma next_is_other c c' s : is_space c' = false → c' ≠ c → next_is c (String.String c' s) = None.
Proof. intros Hc Hne. unfold next_is. cbn [skip_space]. rewrite Hc. by destruct (ascii_dec c' c). Qed.

(** The elements of an array, one at least. *)
Lemma parses_elements n l d t :
  Forall (parses n) l → Forall (fits n) l → l ≠ [] → (0 ≤ d)%Z → (d + Z.of_nat n ≤ max_depth)%Z →
  ∃ f0, ∀ fuel acc, f0 ≤ fuel →
    elements fuel d (Join "," (map Marshal l) +:+ String.String "]" t) acc =
    Some (JArr (reverse acc ++ map clean l), t).
Proof.
  intros Hp Hf Hne Hd Hn. induction l as [|v l IH]; [done|].
  apply Forall_cons in Hp as [Hv Hp], Hf as [Hfv Hf]. destruct l as [|v' l].
  - destruct (Hv d (String.String "]" t)) as [f0 H0]; try done; [by set_unfold; auto|].
    exists (S f0). intros [|fuel] acc Hle; [lia|]. cbn [elements map Join].
    rewrite H0 by lia. simpl. by rewrite reverse_cons.
  - destruct IH as [f1 H1]; try done.
    set (rest := Join "," (map Marshal (v' :: l)) +:+ String.String "]" t) in *.
    destruct (Hv d (String.String "," rest)) as [f0 H0]; try done; [by set_unfold; auto|].
    exists (S (f0 `max` f1)). intros [|fuel] acc Hle; [lia|].
    change (Join "," (map Marshal (v :: v' :: l))) with
      (Marshal v +:+ "," +:+ Join "," (map Marshal (v' :: l))).
    rewrite !string_app_assoc. fold rest. cbn [elements].
    change ("," +:+ rest) with (String.String "," rest).
    rewrite H0, next_is_head, H1 by (done || lia).
    by rewrite reverse_cons, <-app_assoc.
Qed.

(** The members of an object, one at least. *)
Lemma parses_members n l d t :
  Forall (λ kv, parses n kv.2) l → Forall (λ kv, fits n kv.2) l → l ≠ [] →
  (0 ≤ d)%Z → (d + Z.of_nat n ≤ max_depth)%Z →
  ∃ f0, ∀ fuel acc, f0 ≤ fuel →
    members fuel d (Join "," (map (λ '(k, v), quoted k +:+ ":" +:+ Marshal v) l) +:+
                    String.String "}" t) acc =
    Some (JObj (reverse acc ++ map (λ '(k, v), (sanitize k, clean v)) l), t).
Proof.
  intros Hp Hf Hne Hd Hn. induction l as [|[k v] l IH]; [done|].
  apply Forall_cons in Hp as [Hv Hp], Hf as [Hfv Hf]. simpl in Hv, Hfv.
  assert (∀ s, (quoted k +:+ ":" +:+ Marshal v) +:+ s =
    String.String dquote (escape k +:+ quote +:+ String.String ":" (Marshal v +:+ s))) as Hq.
  { intros s. unfold quoted. by rewrite !string_app_assoc. }
  destruct l as [|kv l].
  - destruct (Hv d (String.String "}" t)) as [f0 H0]; try done; [by set_unfold; auto|].
    exists (S f0). intros [|fuel] acc Hle; [lia|]. cbn [members map Join]. rewrite Hq.
    rewrite next_is_head, scan_quoted, next_is_head, H0 by (done || lia).
    rewrite next_is_other, next_is_head, unquote_escape by done. simpl. by rewrite reverse_cons.
  - destruct IH as [f1 H1]; try done.
    set (rest := Join "," (map (λ '(k, v), quoted k +:+ ":" +:+ Marshal v) (kv :: l)) +:+
                 String.String "}" t) in *.
    destruct (Hv d (String.String "," rest)) as [f0 H0]; try done; [by set_unfold; auto|].
    exists (S (f0 `max` f1)). intros [|fuel] acc Hle; [lia|].
    change (Join "," (map _ ((k, v) :: kv :: l))) with
      ((quoted k +:+ ":" +:+ Marshal v) +:+ "," +:+
       Join "," (map (λ '(k, v), quoted k +:+ ":" +:+ Marshal v) (kv :: l))).
    rewrite (string_app_assoc _ ("," +:+ _)), Hq, (string_app_assoc ","). fold rest. cbn [members].
    change ("," +:+ rest) with (String.String "," rest).
    rewrite next_is_head, scan_quoted, next_is_head, H0 by (done || lia).
    rewrite next_is_head, H1, unquote_escape by (done || lia). by rewrite reverse_cons, <-app_assoc.
Qed.

Lemma expect_app p t : expect p (p +:+ t) = Some t.
Proof.
  unfold expect. assert (HasPrefix (p +:+ t) p = true) as -> by (apply HasPrefix_spec; by exists t).
  by rewrite string_drop_app.
Qed.

(** A list that can be read is not closed before its first item. *)
Lemma elements_closed s r fuel d acc : next_is "]" s = Some r → elements fuel d s acc = None.
Proof.
  unfold next_is. intros Hs. destruct fuel as [|[|fuel]]; [done..|]. cbn [elements value].
  destruct (skip_space s) as [|c s']; [done|]. by destruct (ascii_dec c "]") as [->|].
Qed.

Lemma members_closed s r fuel d acc : next_is "}" s = Some r → members fuel d s acc = None.
Proof.
  unfold next_is. intros Hs. destruct fuel as [|fuel]; [done|]. cbn [members]. unfold next_is.
  destruct (skip_space s) as [|c s']; [done|]. by destruct (ascii_dec c "}") as [->|].
Qed.

Lemma value_parses n v : parses n v.
Proof.
  revert n. induction v as [|b|x|s|l IH|l IH] using json_ind'; intros n.
  - intros d t _ _ _ _. exists 1. intros [|fuel] Hf; [lia|].
    exact (f_equal (literal JNull) (expect_app "null" t)).
  - intros d t _ _ _ _. exists 1. intros [|fuel] Hf; [lia|]. destruct b.
    + exact (f_equal (literal (JBool true)) (expect_app "true" t)).
    + exact (f_equal (literal (JBool false)) (expect_app "false" t)).
  - apply parses_number.
  - apply parses_string.
  - intros d t Hf Hd Hn Ht. destruct n as [|n]; [done|]. simpl in Hf. apply fits_list in Hf.
    destruct (decide (l = [])) as [->|Hne].
    { exists 1. intros [|fuel] Hle; [lia|]. simpl.
      by rewrite (proj2 (Z.leb_gt max_depth d)) by lia. }
    destruct (parses_elements n l (d + 1) t) as [f0 H0]; try done; [|lia|lia|].
    { eapply Forall_impl; [exact IH|]. naive_solver. }
    exists (S f0). intros [|fuel] Hle; [lia|].
    change (Marshal (JArr l) +:+ t) with
      (String.String "[" ((Join "," (map Marshal l) +:+ "]") +:+ t)).
    rewrite string_app_assoc. cbn [value skip_space is_space start_of].
    rewrite (proj2 (Z.leb_gt max_depth d)) by lia.
    change ("]" +:+ t) with (String.String "]" t).
    destruct (next_is "]" _) as [r|] eqn:E; [|by apply H0; lia].
    pose proof (H0 fuel [] ltac:(lia)) as Hel. by erewrite elements_closed in Hel.
  - intros d t Hf Hd Hn Ht. destruct n as [|n]; [done|]. simpl in Hf. apply fits_members in Hf.
    destruct (decide (l = [])) as [->|Hne].
    { exists 1. intros [|fuel] Hle; [lia|]. simpl.
      by rewrite (proj2 (Z.leb_gt max_depth d)) by lia. }
    destruct (parses_members n l (d + 1) t) as [f0 H0]; try done; [|lia|lia|].
    { eapply Forall_impl; [exact IH|]. naive_solver. }
    exists (S f0). intros [|fuel] Hle; [lia|].
    change (Marshal (JObj l) +:+ t) with (String.String "{"
      ((Join "," (map (λ '(k, v), quoted k +:+ ":" +:+ Marshal v) l) +:+ "}") +:+ t)).
    rewrite string_app_assoc. cbn [value skip_space is_space start_of].
    rewrite (proj2 (Z.leb_gt max_depth d)) by lia.
    change ("}" +:+ t) with (String.String "}" t).
    destruct (next_is "}" _) as [r|] eqn:E; [|by apply H0; lia].
    pose proof (H0 fuel [] ltac:(lia)) as Hel. by erewrite members_closed in Hel.
Qed.

(** Whatever Marshal writes, the scanner reads back, whole and as a prefix of a
    stream. *)
Lemma value_Marshal n v t :
  fits n v → (Z.of_nat n ≤ max_depth)%Z → ends t →
  value (fuel_for (Marshal v +:+ t)) 0%Z (Marshal v +:+ t) = Some (clean v, t).
Proof.
  intros Hf Hn Ht. destruct (value_parses n v 0%Z t Hf) as [f0 H0]; [lia|lia|done|].
  rewrite <-(value_enough (f0 `max` fuel_for (Marshal v +:+ t))) by lia. apply H0. lia.
Qed.

Lemma whole_value_Marshal n v :
  fits n v → (Z.of_nat n ≤ max_depth)%Z → whole_value (Marshal v) = Some (clean v).
Proof.
  intros Hf Hn. pose proof (value_Marshal n v "" Hf Hn I) as Hv. rewrite string_app_nil_r in Hv.
  unfold whole_value. by rewrite Hv.
Qed.

Lemma first_value_Marshal n v :
  fits n v → (Z.of_nat n ≤ max_depth)%Z → first_value (Marshal v) = Some (clean v).
Proof.
  intros Hf Hn. pose proof (value_Marshal n v "" Hf Hn I) as Hv. rewrite string_app_nil_r in Hv.
  unfold first_value. by rewrite Hv.
Qed.
