(* ===== verification/GoTime.v ===== *)
(** * Timestamps (package time): RFC 3339, as encoding/json reads them

    A [time.Time] is its instant, in nanoseconds since 1970.  [ParseRFC3339] is
    the strict parser of Time.UnmarshalJSON. *)
From S2P Require Import Prelude GoLib Json.
From Stdlib Require Import Ascii.

Local Open Scope Z_scope.

(** Days since 1970-01-01 of a date of the Gregorian calendar. *)
Definition days_from_civil (y m d : Z) : Z :=
  let y := if m <=? 2 then y - 1 else y in
  let era := y / 400 in
  let yoe := y - era * 400 in
  let doy := (153 * (if m <=? 2 then m + 9 else m - 3) + 2) / 5 + d - 1 in
  let doe := yoe * 365 + yoe / 4 - yoe / 100 + doy in
  era * 146097 + doe - 719468.

Definition is_leap (y : Z) : bool := (y mod 4 =? 0) && (negb (y mod 100 =? 0) || (y mod 400 =? 0)).

Definition daysIn (m y : Z) : Z :=
  if m =? 2 then (if is_leap y then 29 else 28)
  else if bool_decide (m ∈ [4; 6; 9; 11]) then 30 else 31.

(** [parseUint(s, min, max)]: all digits, in range. *)
Definition parseUint (s : string) (lo hi : Z) : option Z :=
  match digits_value 0 s with
  | Some n => if (lo <=? n) && (n <=? hi) then Some n else None
  | None => None
  end.

(** [s[i:j]] *)
Definition sub (i j : nat) (s : string) : string := string_take (j - i) (string_drop i s).

(** ".123": nanoseconds; digits past the ninth are dropped. *)
Definition frac_nanos (digits : string) : Z :=
  let ds := string_take 9 digits in
  match digits_value 0 ds with
  | Some n => n * 10 ^ (9 - Z.of_nat (String.length ds))
  | None => 0
  end.

(** Seconds east of UTC. *)
Definition parse_zone (s : string) : option Z :=
  if decide (s = "Z") then Some 0
  else if decide (String.length s = 6%nat) then
    match parseUint (sub 1 3 s) 0 23, parseUint (sub 4 6 s) 0 59 with
    | Some hh, Some mm =>
        if negb (bool_decide (sub 3 4 s = ":")) then None
        else if decide (sub 0 1 s = "-") then Some (- (hh * 60 + mm) * 60)
        else if decide (sub 0 1 s = "+") then Some ((hh * 60 + mm) * 60)
        else None
    | _, _ => None
    end
  else None.

Definition ParseRFC3339 (s : string) : option Z :=
  year ← parseUint (sub 0 4 s) 0 9999;
  month ← parseUint (sub 5 7 s) 1 12;
  day ← parseUint (sub 8 10 s) 1 (daysIn month year);
  hour ← parseUint (sub 11 13 s) 0 23;
  min ← parseUint (sub 14 16 s) 0 59;
  sec ← parseUint (sub 17 19 s) 0 59;
  if (String.length s <? 19)%nat ||
     negb (bool_decide ((sub 4 5 s, sub 7 8 s, sub 10 11 s, sub 13 14 s, sub 16 17 s) =
                        ("-", "-", "T", ":", ":")))
  then None
  else
    let rest := string_drop 19 s in
    let '(nanos, rest) :=
      match rest with
      | String.String "." r =>
          match span_digits r with
          | (EmptyString, _) => (0, rest)
          | (ds, r) => (frac_nanos ds, r)
          end
      | _ => (0, rest)
      end in
    zone ← parse_zone rest;
    Some ((((days_from_civil year month day * 24 + hour) * 60 + min) * 60 + sec - zone) * 1000000000
          + nanos).

Example rfc3339_ex :
  ParseRFC3339 "1970-01-02T00:00:00.5Z" = Some (86400 * 1000000000 + 500000000) ∧
  ParseRFC3339 "2024-02-29T12:00:00+02:00" = Some (1709200800 * 1000000000) ∧
  ParseRFC3339 "2023-02-29T12:00:00Z" = None ∧ ParseRFC3339 "2023-01-01T1:00:00Z" = None ∧
  ParseRFC3339 "2023-01-01T01:00:00" = None.
Proof. vm_compute. split_and!; reflexivity. Qed.

(** Decoding into a [time.Time], and into a [*time.Time]; null is no error. *)
Definition dec_time : decoder Z := λ v old,
  match v with
  | JStr s => match ParseRFC3339 s with Some t => (t, false) | None => (old, true) end
  | JNull => (old, false)
  | _ => (old, true)
  end.

Definition dec_pointer {A} (zero : A) (d : decoder A) : decoder (option A) := λ v old,
  match v with
  | JNull => (None, false)
  | _ => let '(a, e) := d v (default zero old) in (Some a, e)
  end.
