(* ===== verification/Rfc3339.v ===== *)
(** * Time.MarshalJSON (package time), and that Time.UnmarshalJSON inverts it

    An instant is in nanoseconds since 1970.  [civil_from_days] is the date of a
    day, [MarshalRFC3339] the text in a zone that is [offset] seconds east of
    UTC: an error outside the years 0 to 9999, or when the zone is a day or more
    away.  [rfc3339_reads_back] is the round trip with GoTime's strict parser. *)
From S2P Require Import Prelude GoLib Json GoTime.
From Stdlib Require Import Ascii.

Local Open Scope Z_scope.

(** ** Dates *)

(** Years are counted from March, so that a leap day is the last of its year:
    cycles of 400, 100 and 4 years, the last century and the last year of a
    cycle being a day longer. *)
Definition civil_from_days (days : Z) : Z * Z * Z :=
  let z := days + 719468 in
  let era := z / 146097 in
  let doe := z mod 146097 in
  let c := Z.min (doe / 36524) 3 in
  let doc := doe - c * 36524 in
  let q := doc / 1461 in
  let doq := doc mod 1461 in
  let yq := Z.min (doq / 365) 3 in
  let doy := doq - yq * 365 in
  let mp := (5 * doy + 2) / 153 in
  let d := doy - (153 * mp + 2) / 5 + 1 in
  let m := if mp <? 10 then mp + 3 else mp - 9 in
  (era * 400 + c * 100 + q * 4 + yq + (if m <=? 2 then 1 else 0), m, d).

(** ** Text *)

(** [appendInt] with a width, for what fits in it *)
Definition pad2 (n : Z) : string :=
  String.String (digit_byte (n / 10)) (String.String (digit_byte (n mod 10)) EmptyString).
Definition pad4 (n : Z) : string := pad2 (n / 100) +:+ pad2 (n mod 100).

(** [appendNano]: [k] digits of a fraction, the zeros at the end left out *)
Fixpoint frac_digits (k : nat) (n : Z) : string :=
  match k with
  | O => EmptyString
  | S k =>
      if n =? 0 then EmptyString
      else String.String (digit_byte (n / 10 ^ Z.of_nat k)) (frac_digits k (n mod 10 ^ Z.of_nat k))
  end.

Definition format_frac (nanos : Z) : string :=
  if nanos =? 0 then EmptyString else "." +:+ frac_digits 9 nanos.

(** ["Z07:00"] *)
Definition format_zone (offset : Z) : string :=
  if offset =? 0 then "Z"
  else
    let zone := Z.quot offset 60 in
    (if zone <? 0 then "-" else "+") +:+ pad2 (Z.abs zone / 60) +:+ ":" +:+ pad2 (Z.abs zone mod 60).

Definition nanos_per_day : Z := 86400 * 1000000000.

Definition MarshalRFC3339 (offset t : Z) : option string :=
  let local := t + offset * 1000000000 in
  let '(y, m, d) := civil_from_days (local / nanos_per_day) in
  let secs := local mod nanos_per_day / 1000000000 in
  if (y <? 0) || (9999 <? y) || (24 * 60 <=? Z.abs (Z.quot offset 60)) then None
  else Some (pad4 y +:+ "-" +:+ pad2 m +:+ "-" +:+ pad2 d +:+ "T" +:+
             pad2 (secs / 3600) +:+ ":" +:+ pad2 (secs / 60 mod 60) +:+ ":" +:+ pad2 (secs mod 60) +:+
             format_frac (local mod 1000000000) +:+ format_zone offset).

Example marshal_ex :
  MarshalRFC3339 7200 (1709200800 * 1000000000 + 120000) = Some "2024-02-29T12:00:00.00012+02:00" ∧
  MarshalRFC3339 0 (-1) = Some "1969-12-31T23:59:59.999999999Z" ∧
  MarshalRFC3339 (-12600) 0 = Some "1969-12-31T20:30:00-03:30" ∧
  MarshalRFC3339 0 (253402300800 * 1000000000) = None.
Proof. vm_compute. by split_and!. Qed.

(** ** The date of a day is a date, and has that day *)

Section date.
Context (days : Z).

Lemma civil_cases :
  ∃ era c q yq doy,
    days + 719468 = era * 146097 + c * 36524 + q * 1461 + yq * 365 + doy ∧
    0 <= c <= 3 ∧ 0 <= q <= 24 ∧ 0 <= yq <= 3 ∧ 0 <= doy <= 365 ∧
    (doy = 365 → yq = 3 ∧ (q = 24 → c = 3)) ∧
    let mp := (5 * doy + 2) / 153 in
    let m := if mp <? 10 then mp + 3 else mp - 9 in
    civil_from_days days =
      (era * 400 + c * 100 + q * 4 + yq + (if m <=? 2 then 1 else 0), m, doy - (153 * mp + 2) / 5 + 1).
Proof.
  unfold civil_from_days. set (z := days + 719468).
  pose proof (Z.div_mod z 146097 ltac:(lia)). pose proof (Z.mod_pos_bound z 146097 ltac:(lia)).
  set (doe := z mod 146097) in *. set (c := Z.min (doe / 36524) 3).
  assert (0 <= c <= 3 ∧ 0 <= doe - c * 36524 <= 36524 ∧ (doe - c * 36524 = 36524 → c = 3)) as Hc.
  { pose proof (Z.div_mod doe 36524 ltac:(lia)). pose proof (Z.mod_pos_bound doe 36524 ltac:(lia)). lia. }
  set (doc := doe - c * 36524) in *.
  pose proof (Z.div_mod doc 1461 ltac:(lia)). pose proof (Z.mod_pos_bound doc 1461 ltac:(lia)).
  set (doq := doc mod 1461) in *. set (yq := Z.min (doq / 365) 3).
  assert (0 <= yq <= 3 ∧ 0 <= doq - yq * 365 <= 365 ∧ (doq - yq * 365 = 365 → yq = 3 ∧ doq = 1460)) as Hy.
  { pose proof (Z.div_mod doq 365 ltac:(lia)). pose proof (Z.mod_pos_bound doq 365 ltac:(lia)). lia. }
  exists (z / 146097), c, (doc / 1461), yq, (doq - yq * 365). split_and!; [lia..| |done].
  intros ?. lia.
Qed.

Lemma civil_bounds : let '(y, m, d) := civil_from_days days in 1 <= m <= 12 ∧ 1 <= d <= daysIn m y.
Proof.
  destruct civil_cases as (era & c & q & yq & doy & _ & Hc & Hq & Hy & Hd & Hleap & E).
  cbv zeta in E. rewrite E. set (mp := (5 * doy + 2) / 153) in *.
  assert (0 <= mp <= 11 ∧ 153 * mp <= 5 * doy + 2 < 153 * mp + 153) as [Hm Hr].
  { unfold mp. Z.to_euclidean_division_equations; lia. }
  clear E. unfold daysIn.
  assert (mp = 0 ∨ mp = 1 ∨ mp = 2 ∨ mp = 3 ∨ mp = 4 ∨ mp = 5 ∨ mp = 6 ∨ mp = 7 ∨ mp = 8 ∨ mp = 9 ∨
          mp = 10 ∨ mp = 11) as Hcase by lia.
  destruct (decide (mp = 11)) as [E|Hne].
  - rewrite E in *. simpl. assert (doy - (153 * 11 + 2) / 5 + 1 = doy - 336) as -> by (change ((153 * 11 + 2) / 5) with 337; lia).
    split; [lia|]. unfold is_leap. set (y := era * 400 + c * 100 + q * 4 + yq + 1).
    destruct (decide (doy = 365)) as [Hl|Hl].
    + destruct (Hleap Hl) as [Hyq Hq'].
      assert (y mod 4 = 0) as -> by (apply Z.mod_divide; [lia|]; exists (era * 100 + c * 25 + q + 1); lia).
      destruct (decide (q = 24)) as [Hq24|Hq24].
      * specialize (Hq' Hq24).
        assert (y mod 400 = 0) as -> by (apply Z.mod_divide; [lia|]; exists (era + 1); lia).
        rewrite orb_true_r. simpl. lia.
      * assert (y mod 100 ≠ 0) as Hy100%Z.eqb_neq.
        { intros [k Hk]%Z.mod_divide; lia. }
        rewrite Hy100. simpl. lia.
    + case_match; lia.
  - clear Hleap. repeat destruct Hcase as [Hcase|Hcase]; rewrite Hcase in *; try done;
      simpl;
      match goal with |- context [?a / 5] => let v := eval vm_compute in (a / 5) in change (a / 5) with v end;
      lia.
Qed.

Lemma days_from_civil_civil :
  let '(y, m, d) := civil_from_days days in days_from_civil y m d = days.
Proof.
  destruct civil_cases as (era & c & q & yq & doy & E0 & Hc & Hq & Hy & Hd & _ & E).
  cbv zeta in E. rewrite E. set (mp := (5 * doy + 2) / 153) in *.
  assert (0 <= mp <= 11) as Hm by (unfold mp; Z.to_euclidean_division_equations; lia).
  clear E. unfold days_from_civil. set (dd := doy - (153 * mp + 2) / 5 + 1).
  set (Y := era * 400 + c * 100 + q * 4 + yq).
  assert ((if (if mp <? 10 then mp + 3 else mp - 9) <=? 2
           then Y + (if (if mp <? 10 then mp + 3 else mp - 9) <=? 2 then 1 else 0) - 1
           else Y + (if (if mp <? 10 then mp + 3 else mp - 9) <=? 2 then 1 else 0)) = Y) as ->.
  { repeat case_match; lia. }
  assert ((if (if mp <? 10 then mp + 3 else mp - 9) <=? 2
           then (if mp <? 10 then mp + 3 else mp - 9) + 9
           else (if mp <? 10 then mp + 3 else mp - 9) - 3) = mp) as ->.
  { destruct (Z.ltb_spec mp 10); [destruct (Z.leb_spec (mp + 3) 2)|destruct (Z.leb_spec (mp - 9) 2)]; lia. }
  assert (Y / 400 = era) as -> by (unfold Y; Z.to_euclidean_division_equations; lia).
  assert (Y - era * 400 = c * 100 + q * 4 + yq) as -> by (unfold Y; lia).
  assert ((c * 100 + q * 4 + yq) / 4 = c * 25 + q) as -> by (Z.to_euclidean_division_equations; lia).
  assert ((c * 100 + q * 4 + yq) / 100 = c) as -> by (Z.to_euclidean_division_equations; lia).
  unfold dd. lia.
Qed.
End date.

(** ** The text is read back *)

Lemma parseUint_pad2 n lo hi : 0 <= n < 100 → lo <= n <= hi → parseUint (pad2 n) lo hi = Some n.
Proof.
  intros Hn Hr. unfold parseUint, pad2. cbn [digits_value].
  rewrite !digit_byte_value by (Z.to_euclidean_division_equations; lia).
  assert ((0 * 10 + n / 10) * 10 + n mod 10 = n) as -> by (pose proof (Z.div_mod n 10); lia).
  by rewrite (proj2 (Z.leb_le lo n)), (proj2 (Z.leb_le n hi)) by lia.
Qed.

Lemma parseUint_pad4 n : 0 <= n <= 9999 → parseUint (pad4 n) 0 9999 = Some n.
Proof.
  intros Hn. unfold parseUint, pad4, pad2, String.app. cbn [String.append digits_value].
  rewrite !digit_byte_value by (Z.to_euclidean_division_equations; lia).
  assert ((((0 * 10 + n / 100 / 10) * 10 + (n / 100) mod 10) * 10 + n mod 100 / 10) * 10 +
          (n mod 100) mod 10 = n) as -> by (Z.to_euclidean_division_equations; lia).
  by rewrite (proj2 (Z.leb_le 0 n)), (proj2 (Z.leb_le n 9999)) by lia.
Qed.

Lemma frac_digits_value k n acc :
  0 <= n < 10 ^ Z.of_nat k →
  ∃ v, digits_value acc (frac_digits k n) = Some v ∧
       (String.length (frac_digits k n) <= k)%nat ∧
       v * 10 ^ (Z.of_nat k - Z.of_nat (String.length (frac_digits k n))) = acc * 10 ^ Z.of_nat k + n.
Proof.
  revert n acc. induction k as [|k IH]; intros n acc Hn.
  { exists acc. simpl in *. split_and!; [done|done|]. lia. }
  cbn [frac_digits]. destruct (Z.eqb_spec n 0) as [->|Hz].
  { exists acc. split_and!; [done|simpl; lia|]. simpl String.length. rewrite Z.sub_0_r. lia. }
  cbn [digits_value String.length]. rewrite Nat2Z.inj_succ, Z.pow_succ_r in Hn by lia.
  pose proof (Z.pow_pos_nonneg 10 (Z.of_nat k) ltac:(lia) ltac:(lia)) as Hp.
  pose proof (Z.div_mod n (10 ^ Z.of_nat k) ltac:(lia)) as Hd.
  pose proof (Z.mod_pos_bound n (10 ^ Z.of_nat k) Hp) as Hm.
  rewrite digit_byte_value.
  2: { split; [apply Z.div_pos; lia|]. apply Z.div_lt_upper_bound; lia. }
  destruct (IH (n mod 10 ^ Z.of_nat k) (acc * 10 + n / 10 ^ Z.of_nat k) Hm) as (v & Hv & Hl & E).
  exists v. split_and!; [done|lia|]. rewrite Nat2Z.inj_succ, Nat2Z.inj_succ.
  replace (Z.succ (Z.of_nat k) - Z.succ _) with (Z.of_nat k - Z.of_nat (String.length (frac_digits k (n mod 10 ^ Z.of_nat k)))) by lia.
  rewrite E, Z.pow_succ_r by lia. lia.
Qed.

Lemma frac_digits_digits k n :
  0 <= n < 10 ^ Z.of_nat k → Forall (λ c, is_digit c = true) (bytes_of (frac_digits k n)).
Proof.
  revert n. induction k as [|k IH]; intros n Hn; [constructor|]. cbn [frac_digits].
  destruct (Z.eqb_spec n 0); [constructor|]. rewrite Nat2Z.inj_succ, Z.pow_succ_r in Hn by lia.
  pose proof (Z.pow_pos_nonneg 10 (Z.of_nat k) ltac:(lia) ltac:(lia)) as Hp.
  constructor; [|by apply IH, Z.mod_pos_bound].
  unfold is_digit. rewrite digit_byte_value; [done|].
  split; [apply Z.div_pos; lia|]. apply Z.div_lt_upper_bound; lia.
Qed.

(** What follows a fraction: a zone. *)
Definition zone_head (s : string) : Prop :=
  match s with String.String c _ => is_digit c = false ∧ c ≠ "."%char | EmptyString => False end.

Lemma format_zone_head offset : zone_head (format_zone offset).
Proof.
  unfold format_zone, String.app. destruct (offset =? 0); [done|]. by destruct (Z.quot offset 60 <? 0).
Qed.

Lemma span_digits_zone ds s :
  Forall (λ c, is_digit c = true) (bytes_of ds) → zone_head s → span_digits (ds +:+ s) = (ds, s).
Proof.
  unfold String.app. intros Hds Hs. induction ds as [|c ds IH].
  - destruct s as [|c s]; [done|]. destruct Hs as [Hc _]. simpl. by rewrite Hc.
  - apply Forall_cons in Hds as [Hc Hds]. simpl. by rewrite Hc, IH.
Qed.

Lemma parse_zone_signed (neg : bool) h m :
  0 <= h < 24 → 0 <= m < 60 →
  parse_zone ((if neg then "-" else "+") +:+ pad2 h +:+ ":" +:+ pad2 m) =
  Some ((if neg then -1 else 1) * ((h * 60 + m) * 60)).
Proof.
  intros Hh Hm. pose proof (parseUint_pad2 h 0 23) as Eh. pose proof (parseUint_pad2 m 0 59) as Em.
  unfold parse_zone. rewrite decide_False by by destruct neg. rewrite decide_True by by destruct neg.
  assert (∀ s, sub 1 3 ((if neg then "-" else "+") +:+ pad2 h +:+ s) = pad2 h) as -> by by destruct neg.
  assert (sub 4 6 ((if neg then "-" else "+") +:+ pad2 h +:+ ":" +:+ pad2 m) = pad2 m) as -> by by destruct neg.
  assert (sub 3 4 ((if neg then "-" else "+") +:+ pad2 h +:+ ":" +:+ pad2 m) = ":") as -> by by destruct neg.
  assert (sub 0 1 ((if neg then "-" else "+") +:+ pad2 h +:+ ":" +:+ pad2 m) = if neg then "-" else "+") as ->
    by by destruct neg.
  rewrite Eh, Em by lia. destruct neg; [rewrite decide_True by done|]; simpl; f_equal; lia.
Qed.

Lemma parse_zone_format offset :
  (60 | offset) → Z.abs (Z.quot offset 60) < 24 * 60 → parse_zone (format_zone offset) = Some offset.
Proof.
  intros [m ->] Hm. unfold format_zone. rewrite Z.quot_mul in * by lia.
  destruct (Z.eqb_spec (m * 60) 0) as [->|Hz]; [done|].
  pose proof (Z.div_mod (Z.abs m) 60 ltac:(lia)). pose proof (Z.mod_pos_bound (Z.abs m) 60 ltac:(lia)).
  rewrite parse_zone_signed; [|Z.to_euclidean_division_equations; lia|done].
  f_equal. destruct (Z.ltb_spec m 0); lia.
Qed.

(** ["." digits zone], or the zone alone *)
Definition read_frac (rest : string) : Z * string :=
  match rest with
  | String.String "." r =>
      match span_digits r with
      | (EmptyString, _) => (0, rest)
      | (ds, r) => (frac_nanos ds, r)
      end
  | _ => (0, rest)
  end.

Lemma string_take_short_id n s : (String.length s <= n)%nat → string_take n s = s.
Proof. revert n. induction s as [|c s IH]; intros [|n] Hn; simpl in *; try done; [lia|]. by rewrite IH by lia. Qed.

Lemma read_frac_format nanos s :
  0 <= nanos < 10 ^ 9 → zone_head s → read_frac (format_frac nanos +:+ s) = (nanos, s).
Proof.
  intros Hn Hs. unfold format_frac. destruct (Z.eqb_spec nanos 0) as [->|Hz].
  - destruct s as [|c s]; [done|]. destruct Hs as [_ Hc]. unfold read_frac, String.app. simpl.
    destruct c as [[] [] [] [] [] [] [] []]; done.
  - rewrite string_app_assoc.
    change (read_frac ("." +:+ (frac_digits 9 nanos +:+ s))) with
      (match span_digits (frac_digits 9 nanos +:+ s) with
       | (EmptyString, _) => (0, "." +:+ (frac_digits 9 nanos +:+ s))
       | (ds, r) => (frac_nanos ds, r) end).
    rewrite span_digits_zone by (done || by apply frac_digits_digits).
    destruct (frac_digits_value 9 nanos 0) as (v & Hv & Hl & E); [done|].
    destruct (frac_digits 9 nanos) as [|c ds] eqn:Ef.
    { exfalso. cbn [frac_digits] in Ef. by destruct (Z.eqb_spec nanos 0). }
    f_equal. unfold frac_nanos. rewrite string_take_short_id by done. rewrite Hv.
    change 9 with (Z.of_nat 9). rewrite E. lia.
Qed.

(** A clock reading, put back together. *)
Lemma clock_value (secs : Z) :
  0 <= secs < 86400 → (secs / 3600 * 60 + secs / 60 mod 60) * 60 + secs mod 60 = secs.
Proof. intros. Z.to_euclidean_division_equations; lia. Qed.

Lemma ParseRFC3339_text y m d hh mi ss frac :
  0 <= y <= 9999 → 1 <= m <= 12 → 1 <= d <= daysIn m y →
  0 <= hh <= 23 → 0 <= mi <= 59 → 0 <= ss <= 59 →
  ParseRFC3339 (pad4 y +:+ "-" +:+ pad2 m +:+ "-" +:+ pad2 d +:+ "T" +:+
                pad2 hh +:+ ":" +:+ pad2 mi +:+ ":" +:+ pad2 ss +:+ frac) =
  let '(nanos, zone) := read_frac frac in
  zone ← parse_zone zone;
  Some ((((days_from_civil y m d * 24 + hh) * 60 + mi) * 60 + ss - zone) * 1000000000 + nanos).
Proof.
  intros Hy Hm Hd Hh Hmi Hs. assert (daysIn m y <= 31) as Hdays by (unfold daysIn; repeat case_match; lia).
  unfold ParseRFC3339. set (s := pad4 y +:+ _).
  change (sub 0 4 s) with (pad4 y). change (sub 5 7 s) with (pad2 m). change (sub 8 10 s) with (pad2 d).
  change (sub 11 13 s) with (pad2 hh). change (sub 14 16 s) with (pad2 mi). change (sub 17 19 s) with (pad2 ss).
  change (sub 4 5 s, sub 7 8 s, sub 10 11 s, sub 13 14 s, sub 16 17 s) with ("-", "-", "T", ":", ":").
  change (string_drop 19 s) with frac.
  rewrite parseUint_pad4 by lia. cbn [mbind option_bind].
  rewrite !parseUint_pad2 by lia. cbn [mbind option_bind].
  rewrite parseUint_pad2 by lia. cbn [mbind option_bind]. done.
Qed.

(** A time that can be written is read back as it was, in any zone of whole
    minutes. *)
Lemma rfc3339_reads_back offset t s :
  (60 | offset) → MarshalRFC3339 offset t = Some s → ParseRFC3339 s = Some t.
Proof.
  intros Hoff. unfold MarshalRFC3339. set (local := t + offset * 1000000000).
  pose proof (civil_bounds (local / nanos_per_day)) as Hb.
  pose proof (days_from_civil_civil (local / nanos_per_day)) as Hday.
  destruct (civil_from_days (local / nanos_per_day)) as [[y m] d]. destruct Hb as [Hm Hd].
  destruct ((y <? 0) || (9999 <? y) || (24 * 60 <=? Z.abs (Z.quot offset 60))) eqn:Hok; [done|].
  apply orb_false_iff in Hok as [[Hy1 Hy2]%orb_false_iff Hz]. intros [= <-].
  set (secs := local mod nanos_per_day / 1000000000).
  assert (0 <= secs < 86400) as Hsecs.
  { unfold secs, nanos_per_day. Z.to_euclidean_division_equations; lia. }
  rewrite ParseRFC3339_text by (done || lia || (Z.to_euclidean_division_equations; lia)).
  rewrite read_frac_format; [|by apply Z.mod_pos_bound|apply format_zone_head].
  rewrite parse_zone_format by (done || lia). cbn [mbind option_bind]. f_equal. rewrite Hday.
  assert ((local / nanos_per_day * 24 + secs / 3600) * 60 + secs / 60 mod 60 =
          local / nanos_per_day * 1440 + (secs / 3600 * 60 + secs / 60 mod 60)) as -> by lia.
  assert ((local / nanos_per_day * 1440 + (secs / 3600 * 60 + secs / 60 mod 60)) * 60 + secs mod 60 =
          local / nanos_per_day * 86400 + secs) as -> by (pose proof (clock_value secs Hsecs); lia).
  unfold secs, nanos_per_day in *. clear -Hsecs.
  pose proof (Z.div_mod local (86400 * 1000000000) ltac:(lia)).
  assert ((local mod (86400 * 1000000000)) mod 1000000000 = local mod 1000000000) as Hmod.
  { rewrite (Z.mul_comm 86400), Z.rem_mul_r by lia. rewrite Z.mul_comm, Z.mod_add by lia. by apply Z.mod_mod. }
  pose proof (Z.div_mod (local mod (86400 * 1000000000)) 1000000000 ltac:(lia)).
  unfold local in *. lia.
Qed.
