(* ===== verification/Http.v ===== *)
(** * The client side of net/http

    The requests the runner agent and the GitHub client send, and what they do
    with a reply. *)
From S2P Require Import Prelude GoLib Json.

Record HttpRequest : Type := mkHttp {
  hq_Method : string;
  hq_URL : string;
  hq_Headers : list (string * string);
  hq_Body : option string;
  hq_Detached : bool  (* sent under [context.WithoutCancel] *)
}.

#[export] Instance HttpRequest_eq_dec : EqDecision HttpRequest.
Proof. solve_decision. Defined.

Definition header_get (hs : list (string * string)) (key : string) : string :=
  match list_find (λ h, h.1 = key) hs with Some (_, h) => h.2 | None => "" end.

Definition POST : string := "POST".
Definition GET : string := "GET".

(** [json.NewDecoder(resp.Body).Decode(&out)] *)
Definition DecodeReply {A} (d : decoder A) (zero : A) (body : string) : A * bool :=
  Decode d zero (Z.of_nat (String.length body)) body.

(** [io.ReadAll(io.LimitReader(resp.Body, 512))] *)
Definition excerpt (body : string) : string := string_take 512 body.

(** [http.Response]: status code, header, and what can be read of the body. *)
Record HttpResponse : Type := mkHttpResponse {
  hr_Code : Z;
  hr_Header : string → string;
  hr_Body : string
}.
