(* ===== verification/JsonCut.v ===== *)
(** * What a cut-off document decodes to: nothing

    A server that reads a bounded part of a body decodes a prefix of what was
    sent.  A value the scanner finds at the start of a text is found there
    whatever follows ([value_extends]; a number must not touch the end), so no
    strict prefix of an object is an object ([object_cut]). *)
From S2P Require Import Prelude GoLib GoText Json JsonOut.
From Stdlib Require Import Ascii.

(** ** The parts of the scanner *)

Section extends.
Context (t : string).

Lemma string_cons_app c (s : string) : String.String c s +:+ t = String.String c (s +:+ t).
Proof. done. Qed.

Lemma skip_space_app s : skip_space s ≠ EmptyString → skip_space (s +:+ t) = skip_space s +:+ t.
Proof.
  induction s as [|c s IH]; [done|]. rewrite string_cons_app. cbn [skip_space].
  destruct (is_space c); [apply IH|done].
Qed.

Lemma next_is_found c s r : next_is c s = Some r → skip_space s ≠ EmptyString.
Proof. unfold next_is. by destruct (skip_space s). Qed.

Lemma next_is_app c s r : next_is c s = Some r → next_is c (s +:+ t) = Some (r +:+ t).
Proof.
  intros Hn. unfold next_is. rewrite skip_space_app by by eapply next_is_found. revert Hn. unfold next_is.
  destruct (skip_space s) as [|c' s']; [done|]. rewrite string_cons_app.
  destruct (ascii_dec c' c); [|done]. by intros [= ->].
Qed.

Lemma next_is_not_app c s : skip_space s ≠ EmptyString → next_is c s = None → next_is c (s +:+ t) = None.
Proof.
  intros Hs. unfold next_is. rewrite skip_space_app by done. destruct (skip_space s) as [|c' s']; [done|].
  rewrite string_cons_app. by destruct (ascii_dec c' c).
Qed.

Lemma expect_extends p s r : expect p s = Some r → expect p (s +:+ t) = Some (r +:+ t).
Proof.
  unfold expect. destruct (HasPrefix s p) eqn:Hp; [|done]. apply HasPrefix_spec in Hp as [u ->].
  rewrite string_drop_app. intros [= <-].
  assert (HasPrefix ((p +:+ u) +:+ t) p = true) as ->.
  { apply HasPrefix_spec. exists (u +:+ t). by rewrite string_app_assoc. }
  by rewrite string_app_assoc, string_drop_app.
Qed.

Lemma cons_fst_app_snd p o a r o' :
  (∀ a', o = Some (a', r) → o' = Some (a', r +:+ t)) →
  cons_fst p o = Some (a, r) → cons_fst p o' = Some (a, r +:+ t).
Proof. intros Ho. destruct o as [[a' r']|]; [|done]. intros [= <- ->]. by rewrite (Ho a'). Qed.

Lemma scan_string_app s a r : scan_string s = Some (a, r) → scan_string (s +:+ t) = Some (a, r +:+ t).
Proof.
  assert (∀ n s a, slen s ≤ n → scan_string s = Some (a, r) → scan_string (s +:+ t) = Some (a, r +:+ t)) as Hn;
    [|by apply (Hn (slen s))].
  clear s a. induction n as [|n IH]; intros s a Hle; (destruct s as [|c s]; [done|]);
    cbn [slen] in Hle; [lia|]. rewrite string_cons_app. cbn [scan_string].
  destruct (ascii_dec c dquote); [by intros [= <- <-]|]. destruct (ascii_dec c "\") as [_|_].
  - destruct s as [|e s]; [done|]. cbn [slen] in Hle. rewrite string_cons_app.
    destruct (ascii_dec e "u") as [_|_].
    + destruct s as [|h1 [|h2 [|h3 [|h4 s]]]]; try done. cbn [slen] in Hle. rewrite !string_cons_app.
      case_match; [|done]. apply cons_fst_app_snd. intros a'. apply IH. lia.
    + case_match; [|done]. apply cons_fst_app_snd. intros a'. apply IH. lia.
  - case_match; [done|]. apply cons_fst_app_snd. intros a'. apply IH. lia.
Qed.

(** ** Numbers *)

Lemma span_digits_extends s ds r :
  span_digits s = (ds, r) → r ≠ EmptyString → span_digits (s +:+ t) = (ds, r +:+ t).
Proof.
  revert ds. induction s as [|c s IH]; intros ds; [by intros [= <- <-]|]. rewrite string_cons_app.
  cbn [span_digits]. destruct (is_digit c); [|by intros [= <- <-]].
  destruct (span_digits s) as [ds' r'] eqn:E. intros [= <- <-] Hr. by rewrite (IH ds').
Qed.

Lemma digits1_app s a r : digits1 s = Some (a, r) → r ≠ EmptyString → digits1 (s +:+ t) = Some (a, r +:+ t).
Proof.
  unfold digits1. destruct (span_digits s) as [[|c ds] r'] eqn:E; [done|]. intros [= <- <-] Hr.
  by rewrite (span_digits_extends s (String.String c ds) r').
Qed.

Lemma strip_app c s r : strip c s = Some r → strip c (s +:+ t) = Some (r +:+ t).
Proof.
  destruct s as [|c' s]; [done|]. rewrite string_cons_app. cbn [strip].
  destruct (ascii_dec c' c); [|done]. by intros [= ->].
Qed.

Lemma strip_not_app c s : s ≠ EmptyString → strip c s = None → strip c (s +:+ t) = None.
Proof. destruct s as [|c' s]; [done|]. rewrite string_cons_app. cbn [strip]. by destruct (ascii_dec c' c). Qed.

Lemma nonempty_length (s r : string) : slen r ≤ slen s → r ≠ EmptyString → s ≠ EmptyString.
Proof. destruct s, r; simpl; (done || lia). Qed.

Lemma int_part_app s a r : int_part s = Some (a, r) → r ≠ EmptyString → int_part (s +:+ t) = Some (a, r +:+ t).
Proof.
  intros Hs Hr. pose proof (nonempty_length s r (int_part_length _ _ _ Hs) Hr) as Hne.
  revert Hs. unfold int_part. destruct (strip "0" s) eqn:E.
  - rewrite (strip_app _ _ _ E). by intros [= <- ->].
  - rewrite strip_not_app by done. intros Hs. by apply digits1_app.
Qed.

Lemma frac_part_app s a r : frac_part s = Some (a, r) → r ≠ EmptyString → frac_part (s +:+ t) = Some (a, r +:+ t).
Proof.
  intros Hs Hr. pose proof (nonempty_length s r (frac_part_length _ _ _ Hs) Hr) as Hne.
  revert Hs. unfold frac_part. destruct (strip "." s) eqn:E.
  - rewrite (strip_app _ _ _ E). apply cons_fst_app_snd. intros a' Ha. by apply digits1_app.
  - rewrite strip_not_app by done. by intros [= <- ->].
Qed.

Lemma exp_digits_app s a r : exp_digits s = Some (a, r) → r ≠ EmptyString → exp_digits (s +:+ t) = Some (a, r +:+ t).
Proof.
  intros Hs Hr. pose proof (nonempty_length s r (exp_digits_length _ _ _ Hs) Hr) as Hne.
  revert Hs. unfold exp_digits. destruct (strip "+" s) eqn:E1; [|destruct (strip "-" s) eqn:E2].
  - rewrite (strip_app _ _ _ E1). apply cons_fst_app_snd. intros a' Ha. by apply digits1_app.
  - rewrite (strip_not_app _ _ Hne E1), (strip_app _ _ _ E2). apply cons_fst_app_snd.
    intros a' Ha. by apply digits1_app.
  - rewrite !strip_not_app by done. intros Ha. by apply digits1_app.
Qed.

Lemma exp_part_app s a r : exp_part s = Some (a, r) → r ≠ EmptyString → exp_part (s +:+ t) = Some (a, r +:+ t).
Proof.
  intros Hs Hr. pose proof (nonempty_length s r (exp_part_length _ _ _ Hs) Hr) as Hne.
  revert Hs. unfold exp_part. destruct (strip "e" s) eqn:E1; [|destruct (strip "E" s) eqn:E2].
  - rewrite (strip_app _ _ _ E1). apply cons_fst_app_snd. intros a' Ha. by apply exp_digits_app.
  - rewrite (strip_not_app _ _ Hne E1), (strip_app _ _ _ E2). apply cons_fst_app_snd.
    intros a' Ha. by apply exp_digits_app.
  - rewrite !strip_not_app by done. by intros [= <- ->].
Qed.

Lemma unsigned_app s a r : unsigned s = Some (a, r) → r ≠ EmptyString → unsigned (s +:+ t) = Some (a, r +:+ t).
Proof.
  unfold unsigned. intros Hs Hr. destruct (int_part s) as [[i s1]|] eqn:E1; [|done].
  destruct (frac_part s1) as [[f s2]|] eqn:E2; [|done].
  pose proof Hs as [? H2%exp_part_length]%cons_fst_Some. pose proof (frac_part_length _ _ _ E2).
  pose proof (nonempty_length s2 r H2 Hr). rewrite (int_part_app s i s1) by (done || by eapply nonempty_length).
  rewrite (frac_part_app s1 f s2) by done. revert Hs. apply cons_fst_app_snd. intros a' Ha. by apply exp_part_app.
Qed.

Lemma scan_number_app s a r :
  scan_number s = Some (a, r) → r ≠ EmptyString → scan_number (s +:+ t) = Some (a, r +:+ t).
Proof.
  intros Hs Hr. pose proof (nonempty_length s r (scan_number_length _ _ _ Hs) Hr) as Hne.
  revert Hs. unfold scan_number. destruct (strip "-" s) eqn:E.
  - rewrite (strip_app _ _ _ E). apply cons_fst_app_snd. intros a' Ha. by apply unsigned_app.
  - rewrite strip_not_app by done. intros Ha. by apply unsigned_app.
Qed.

(** ** Values *)

Lemma literal_app v o o' v' r :
  (∀ r, o = Some r → o' = Some (r +:+ t)) → literal v o = Some (v', r) → literal v o' = Some (v', r +:+ t).
Proof. intros Ho. destruct o as [r'|]; [|done]. intros [= <- <-]. by rewrite (Ho r'). Qed.

Lemma value_starts fuel d s v r : value fuel d s = Some (v, r) → skip_space s ≠ EmptyString.
Proof. destruct fuel; [done|]. cbn [value]. by destruct (skip_space s). Qed.

(** The value does not end with the input, or shows its end itself. *)
Definition closed (v : json) (r : string) : Prop :=
  r ≠ EmptyString ∨ match v with JNum _ => False | _ => True end.

Lemma next_is_closed c v s r : next_is c s = Some r → closed v s.
Proof. intros Hn%next_is_found. left. by intros ->. Qed.

Lemma value_extends fuel :
  (∀ d s v r, value fuel d s = Some (v, r) → closed v r → value fuel d (s +:+ t) = Some (v, r +:+ t)) ∧
  (∀ d s acc v r, members fuel d s acc = Some (v, r) → members fuel d (s +:+ t) acc = Some (v, r +:+ t)) ∧
  (∀ d s acc v r, elements fuel d s acc = Some (v, r) → elements fuel d (s +:+ t) acc = Some (v, r +:+ t)).
Proof.
  induction fuel as [|fuel (IHv & IHm & IHe)]; [done|]. split_and!.
  - intros d s v r Hv Hc. pose proof (value_starts _ _ _ _ _ Hv) as Hs. revert Hv. cbn [value].
    rewrite skip_space_app by done. destruct (skip_space s) as [|c s']; [done|]. rewrite string_cons_app.
    destruct (start_of c).
    + case_match; [done|]. destruct (next_is "}" s') as [s1|] eqn:E.
      * rewrite (next_is_app _ _ _ E). by intros [= <- <-].
      * intros Hm. rewrite next_is_not_app, (IHm _ _ _ _ _ Hm); [done| |done].
        destruct fuel; [done|]. cbn [members] in Hm. destruct (next_is dquote s') eqn:Hq; [|done].
        by eapply next_is_found.
    + case_match; [done|]. destruct (next_is "]" s') as [s1|] eqn:E.
      * rewrite (next_is_app _ _ _ E). by intros [= <- <-].
      * intros Hm. rewrite next_is_not_app, (IHe _ _ _ _ _ Hm); [done| |done].
        destruct fuel; [done|]. cbn [elements] in Hm.
        destruct (value fuel _ s') as [[]|] eqn:Hq; [|done]. by eapply value_starts.
    + destruct (scan_string s') as [[raw s2]|] eqn:E; [|done]. rewrite (scan_string_app _ _ _ E).
      by intros [= <- <-].
    + apply literal_app. intros r'. apply (expect_extends _ (String.String c s')).
    + apply literal_app. intros r'. apply (expect_extends _ (String.String c s')).
    + apply literal_app. intros r'. apply (expect_extends _ (String.String c s')).
    + destruct (scan_number _) as [[raw s2]|] eqn:E; [|done]. intros [= <- <-].
      destruct Hc as [Hc|[]]. by rewrite <-string_cons_app, (scan_number_app _ _ _ E).
  - intros d s acc v r. cbn [members].
    destruct (next_is dquote s) as [s1|] eqn:E1; [|done]. rewrite (next_is_app _ _ _ E1).
    destruct (scan_string s1) as [[raw s2]|] eqn:E2; [|done]. rewrite (scan_string_app _ _ _ E2).
    destruct (next_is ":" s2) as [s3|] eqn:E3; [|done]. rewrite (next_is_app _ _ _ E3).
    destruct (value fuel d s3) as [[x s4]|] eqn:E4; [|done].
    destruct (next_is "," s4) as [s5|] eqn:E5; [|destruct (next_is "}" s4) as [s5|] eqn:E6; [|done]].
    + rewrite (IHv _ _ _ _ E4 (next_is_closed _ _ _ _ E5)), (next_is_app _ _ _ E5). apply IHm.
    + rewrite (IHv _ _ _ _ E4 (next_is_closed _ _ _ _ E6)), next_is_not_app, (next_is_app _ _ _ E6)
        by (done || by eapply next_is_found).
      by intros [= <- <-].
  - intros d s acc v r. cbn [elements].
    destruct (value fuel d s) as [[x s1]|] eqn:E1; [|done].
    destruct (next_is "," s1) as [s2|] eqn:E2; [|destruct (next_is "]" s1) as [s2|] eqn:E3; [|done]].
    + rewrite (IHv _ _ _ _ E1 (next_is_closed _ _ _ _ E2)), (next_is_app _ _ _ E2). apply IHe.
    + rewrite (IHv _ _ _ _ E1 (next_is_closed _ _ _ _ E3)), next_is_not_app, (next_is_app _ _ _ E3)
        by (done || by eapply next_is_found).
      by intros [= <- <-].
Qed.
End extends.

(** ** Objects *)

Lemma members_object fuel d s acc v r : members fuel d s acc = Some (v, r) → ∃ l, v = JObj l.
Proof.
  revert d s acc. induction fuel as [|fuel IH]; intros d s acc; [done|]. cbn [members].
  repeat (case_match; try done); [eauto|]. unfold literal. case_match; [|done]. intros [= <- <-]. by eexists.
Qed.

(** What is found at the start of a prefix of an object is the object. *)
Lemma object_cut n l k v :
  fits n (JObj l) → (Z.of_nat n ≤ max_depth)%Z →
  first_value (string_take k (Marshal (JObj l))) = Some v → v = clean (JObj l).
Proof.
  intros Hf Hn. unfold first_value. set (b := Marshal (JObj l)). set (p := string_take k b).
  destruct (value (fuel_for p) 0 p) as [[w r]|] eqn:E; [|done]. intros [= <-].
  assert (closed w r) as Hc.
  { assert (p = EmptyString ∨ ∃ q, p = String.String "{" q) as [Hp|[q Hp]].
    { unfold p, b. destruct k; [by left|right]. by eexists. }
    - by rewrite Hp in E.
    - right. rewrite Hp in E. unfold fuel_for in E.
      destruct (2 * slen (String.String "{" q) + 2) as [|f]; [done|]. cbn in E.
      destruct (next_is "}" q); [by injection E as <- _|].
      by apply members_object in E as [l' ->]. }
  assert (value (fuel_for b) 0 b = Some (w, r +:+ string_drop k b)) as Eb.
  { rewrite <-(value_enough (fuel_for p + fuel_for b)) by lia.
    rewrite <-(take_drop_string k b) at 2. apply value_extends; [|done].
    rewrite (value_enough _ 0 p) by lia. done. }
  pose proof (value_Marshal n (JObj l) "" Hf Hn I) as Hv. rewrite string_app_nil_r in Hv. fold b in Hv.
  rewrite Hv in Eb. by injection Eb as <- _.
Qed.
