(* ===== verification/Jwt.v ===== *)
(** * The app's JSON Web Token (internal/github/app.go: appJWT, encodeSegment)

    RS256 from the ground up: strconv.Quote, base64url, SHA-256 (file Sha256)
    and the RSASSA-PKCS1-v1_5 signature of crypto/rsa.  [accepts] is the other
    side: what GitHub documents it checks of such a token.  [app_jwt_accepted]
    shows that a token that was signed is accepted, by any clock that is at most
    a minute off. *)
From S2P Require Import Prelude GoLib GoText Sha256 Json JsonOut.
From Stdlib Require Import Ascii.
From Stdlib Require Zpow_facts.

(** ** strconv.Quote, the verb %q

    [IsPrint] decides the runes above 0x7f, given by their bytes. *)
Section quote.
Context (IsPrint : string → bool).

(** The value of the well-formed sequence [r]. *)
Definition rune_value (r : string) : Z :=
  match byte_val <$> bytes_of r with
  | [a] => a
  | [a; b] => Z.lor (Z.shiftl (Z.land a 31) 6) (Z.land b 63)
  | [a; b; c] => Z.lor (Z.shiftl (Z.land a 15) 12) (Z.lor (Z.shiftl (Z.land b 63) 6) (Z.land c 63))
  | [a; b; c; d] =>
      Z.lor (Z.shiftl (Z.land a 7) 18)
        (Z.lor (Z.shiftl (Z.land b 63) 12) (Z.lor (Z.shiftl (Z.land c 63) 6) (Z.land d 63)))
  | _ => 0
  end.

Definition quote_byte (c : ascii) : string :=
  match c with
  | "034"%char | "\"%char => of_bytes ["\"%char; c]
  | "007"%char => "\a"
  | "008"%char => "\b"
  | "012"%char => "\f"
  | "010"%char => "\n"
  | "013"%char => "\r"
  | "009"%char => "\t"
  | "011"%char => "\v"
  | _ => if between 0x20 0x7E c then String.String c EmptyString else "\x" +:+ hex_encode [byte_val c]
  end.

Definition quote_rune (r : string) : string :=
  match r with
  | String.String c EmptyString => quote_byte c
  | _ =>
      if IsPrint r then r
      else if (rune_value r <? 0x10000)%Z then "\u" +:+ hex_encode (be_bytes 2 (rune_value r))
      else "\U" +:+ hex_encode (be_bytes 4 (rune_value r))
  end.

Fixpoint quote_loop (fuel : nat) (s : string) : string :=
  match fuel, s with
  | S fuel, String.String c s' =>
      match utf8_length s with
      | 0 => "\x" +:+ hex_encode [byte_val c] +:+ quote_loop fuel s'
      | n => quote_rune (string_take n s) +:+ quote_loop fuel (string_drop n s)
      end
  | _, _ => EmptyString
  end.

Definition Quote (s : string) : string := quote +:+ quote_loop (String.length s) s +:+ quote.

(** Printable ASCII that neither Go nor JSON escapes: then %q is JSON. *)
Definition verbatim (c : ascii) : bool :=
  between 0x20 0x7E c && negb (bool_decide (c ∈ dquote :: bytes_of "\<>&")).

Lemma verbatim_bytes c :
  verbatim c = true →
  (byte_val c < 128)%Z ∧ quote_byte c = String.String c "" ∧ escape_byte c = String.String c "".
Proof. destruct c as [[] [] [] [] [] [] [] []]; vm_compute; try done; by split_and!. Qed.

Lemma Quote_verbatim s : Forall (λ c, verbatim c = true) (bytes_of s) → Quote s = quoted s.
Proof.
  unfold Quote, quoted. intros Hs. f_equal. f_equal. unfold escape.
  induction s as [|c s IH]; [done|]. apply Forall_cons in Hs as [Hc Hs].
  apply verbatim_bytes in Hc as (Hc & Hq & He).
  rewrite by_runes_ascii by done. cbn [String.length quote_loop].
  rewrite utf8_length_ascii by done. cbn [string_take string_drop escape_rune quote_rune].
  by rewrite Hq, He, IH.
Qed.
End quote.

Example Quote_ex :
  Quote (λ _, true) ("a" +:+ quote +:+ of_bytes [byte_of 10; byte_of 127; byte_of 255]) =
  quote +:+ "a\" +:+ quote +:+ "\n\x7f\xff" +:+ quote.
Proof. reflexivity. Qed.

(** ** base64.RawURLEncoding *)

Definition encodeSegment (b : list Z) : string := base64_encode b.

(** Decoding, for the other side. *)
Definition base64_value (c : ascii) : option Z :=
  if between 65 90 c then Some (byte_val c - 65)%Z
  else if between 97 122 c then Some (byte_val c - 71)%Z
  else if between 48 57 c then Some (byte_val c + 4)%Z
  else if decide (c = "-"%char) then Some 62%Z
  else if decide (c = "_"%char) then Some 63%Z else None.

Fixpoint base64_bytes (ds : list Z) : option (list Z) :=
  match ds with
  | [] => Some []
  | [x; y] => Some [x * 4 + y / 16]%Z
  | [x; y; z] => Some [x * 4 + y / 16; y mod 16 * 16 + z / 4]%Z
  | x :: y :: z :: u :: ds =>
      l ← base64_bytes ds;
      Some ((x * 4 + y / 16) :: (y mod 16 * 16 + z / 4) :: (z mod 4 * 64 + u) :: l)%Z
  | _ => None
  end.

Definition base64_decode (s : string) : option (list Z) :=
  ds ← mapM base64_value (bytes_of s); base64_bytes ds.

Lemma small_cases (n : nat) (P : Z → Prop) `{!∀ z, Decision (P z)} x :
  forallb (λ i, bool_decide (P (Z.of_nat i))) (seq 0 n) = true → (0 ≤ x < Z.of_nat n)%Z → P x.
Proof.
  intros Hall Hx. rewrite forallb_forall in Hall. rewrite <-(Z2Nat.id x) by lia.
  eapply bool_decide_eq_true, Hall, in_seq. lia.
Qed.

Lemma base64_digit_value x : (0 ≤ x < 64)%Z → base64_value (base64_digit x) = Some x.
Proof. by apply (small_cases 64 (λ x, base64_value (base64_digit x) = Some x)). Qed.

Lemma base64_plain x : (0 ≤ x < 64)%Z → base64_digit x ≠ "."%char.
Proof. intros Hx E. apply base64_digit_value in Hx. by rewrite E in Hx. Qed.

(** A shift by [k] bits leaves room for a number below [2^k]. *)
Lemma lor_shiftl x y k : (0 ≤ k)%Z → (0 ≤ y < 2 ^ k)%Z → Z.lor (Z.shiftl x k) y = (x * 2 ^ k + y)%Z.
Proof.
  intros Hk Hy. rewrite <-Z.shiftl_mul_pow2, <-Z.add_lor_land by done.
  assert (Z.land (Z.shiftl x k) y = 0%Z) as ->; [|lia]. apply Z.bits_inj'. intros n Hn.
  rewrite Z.land_spec, Z.bits_0. destruct (Z.lt_ge_cases n k).
  - by rewrite Z.shiftl_spec_low.
  - replace y with (y mod 2 ^ k)%Z by (by apply Z.mod_small).
    rewrite Z.mod_pow2_bits_high by lia. apply andb_false_r.
Qed.

Lemma land_ones_mod x k : (0 ≤ k)%Z → Z.land x (2 ^ k - 1) = (x mod 2 ^ k)%Z.
Proof. intros Hk. by rewrite <-Z.land_ones, Z.ones_equiv, Z.sub_1_r by done. Qed.

(** The digits, without bit operations. *)
Fixpoint digits (l : list Z) : list Z :=
  match l with
  | [] => []
  | [a] => [a / 4; a mod 4 * 16]
  | [a; b] => [a / 4; a mod 4 * 16 + b / 16; b mod 16 * 4]
  | a :: b :: c :: l => a / 4 :: a mod 4 * 16 + b / 16 :: b mod 16 * 4 + c / 64 :: c mod 64 :: digits l
  end%Z.

Lemma triples_ind (P : list Z → Prop) :
  P [] → (∀ a, P [a]) → (∀ a b, P [a; b]) → (∀ a b c l, P l → P (a :: b :: c :: l)) → ∀ l, P l.
Proof.
  intros H0 H1 H2 H3. fix IH 1. intros [|a [|b [|c l]]]; [done..|]. apply H3, IH.
Qed.

Lemma base64_encode_digits l :
  Forall (λ b, 0 ≤ b < 256)%Z l → base64_encode l = of_bytes (base64_digit <$> digits l).
Proof.
  assert (∀ a, Z.land a 3 = a mod 4)%Z as H3 by (intros; by apply (land_ones_mod _ 2)).
  assert (∀ a, Z.land a 15 = a mod 16)%Z as H15 by (intros; by apply (land_ones_mod _ 4)).
  assert (∀ a, Z.land a 63 = a mod 64)%Z as H63 by (intros; by apply (land_ones_mod _ 6)).
  assert (∀ k x y, 0 ≤ k ≤ 8 → 0 ≤ y < 256 →
    Z.lor (Z.shiftl x k) (Z.shiftr y (8 - k)) = x * 2 ^ k + y / 2 ^ (8 - k))%Z as L.
  { intros k x y Hk Hy. rewrite Z.shiftr_div_pow2, lor_shiftl; try lia.
    split; [apply Z.div_pos; lia|apply Z.div_lt_upper_bound; [lia|]].
    rewrite <-Z.pow_add_r by lia. replace (8 - k + k)%Z with 8%Z by lia. lia. }
  pose proof (L 4%Z) as L4. pose proof (L 2%Z) as L2. simpl in L4, L2. clear L.
  induction l as [|a|a b|a b c l IH] using triples_ind; intros Hl; [done|..];
    repeat (apply Forall_cons in Hl as [? Hl]); cbn [base64_encode digits];
    rewrite ?L4, ?L2, ?H3, ?H15, ?H63, ?IH by (done || lia);
    rewrite ?Z.shiftr_div_pow2, ?Z.shiftl_mul_pow2 by done; reflexivity.
Qed.

Lemma digits_range l :
  Forall (λ b, 0 ≤ b < 256)%Z l → Forall (λ d, 0 ≤ d < 64)%Z (digits l).
Proof.
  induction l as [|a|a b|a b c l IH] using triples_ind; intros Hl;
    repeat (apply Forall_cons in Hl as [? Hl]); cbn [digits];
    repeat (apply Forall_cons; split); try done; try (by apply IH); 
    Z.to_euclidean_division_equations; lia.
Qed.

Lemma base64_bytes_digits l : Forall (λ b, 0 ≤ b < 256)%Z l → base64_bytes (digits l) = Some l.
Proof.
  induction l as [|a|a b|a b c l IH] using triples_ind; intros Hl;
    repeat (apply Forall_cons in Hl as [? Hl]); cbn [digits base64_bytes]; [done|..];
    rewrite ?IH by done; simpl; repeat f_equal; Z.to_euclidean_division_equations; lia.
Qed.

(** Decoding inverts encoding, and what is encoded contains no point. *)
Lemma base64_decode_encode l :
  Forall (λ b, 0 ≤ b < 256)%Z l → base64_decode (base64_encode l) = Some l.
Proof.
  intros Hl. unfold base64_decode. rewrite base64_encode_digits, bytes_of_of by done.
  assert (mapM base64_value (base64_digit <$> digits l) = Some (digits l)) as ->.
  { apply mapM_Some. apply Forall2_fmap_l, Forall_Forall2_diag.
    eapply Forall_impl; [by apply digits_range|]. apply base64_digit_value. }
  by apply base64_bytes_digits.
Qed.

Lemma base64_no_point l :
  Forall (λ b, 0 ≤ b < 256)%Z l → Forall (λ c, c ≠ "."%char) (bytes_of (base64_encode l)).
Proof.
  intros Hl. rewrite base64_encode_digits, bytes_of_of by done. apply Forall_fmap.
  eapply Forall_impl; [by apply digits_range|]. apply base64_plain.
Qed.

(** ** RSASSA-PKCS1-v1_5 with SHA-256 (crypto/rsa) *)

(** [rsa.PrivateKey]: modulus, public and private exponent. *)
Record PrivateKey : Type := mkKey { pk_N : Z; pk_E : Z; pk_D : Z }.

Definition be_value (l : list Z) : Z := foldl (λ acc b, acc * 256 + b)%Z 0%Z l.

(** The length of the modulus in bytes. *)
Definition key_size (N : Z) : nat := Z.to_nat (Z.log2 N / 8 + 1).

(** DigestInfo of SHA-256. *)
Definition sha256_prefix : list Z :=
  [0x30; 0x31; 0x30; 0x0d; 0x06; 0x09; 0x60; 0x86; 0x48; 0x01; 0x65; 0x03; 0x04; 0x02; 0x01; 0x05;
   0x00; 0x04; 0x20]%Z.

(** EMSA-PKCS1-v1_5 *)
Definition encoded_message (N : Z) (digest : list Z) : Z :=
  be_value ([0; 1]%Z ++ replicate (key_size N - 54) 255%Z ++ [0]%Z ++ sha256_prefix ++ digest).

Inductive sign_error : Type := ErrInsecureKey | ErrInternal.

(** [rsa.SignPKCS1v15]: keys below 1024 bits are refused, and the signature is
    checked before it is returned. *)
Definition SignPKCS1v15 (key : PrivateKey) (digest : list Z) : result sign_error (list Z) :=
  if (Z.log2 (pk_N key) + 1 <? 1024)%Z then Err ErrInsecureKey
  else
    let em := encoded_message (pk_N key) digest in
    let s := Zpow_facts.Zpow_mod em (pk_D key) (pk_N key) in
    if (Zpow_facts.Zpow_mod s (pk_E key) (pk_N key) =? em)%Z then Ok (be_bytes (key_size (pk_N key)) s)
    else Err ErrInternal.

(** [rsa.VerifyPKCS1v15] *)
Definition VerifyPKCS1v15 (N E : Z) (digest sig : list Z) : bool :=
  bool_decide (length sig = key_size N) && (be_value sig <? N)%Z &&
  (Zpow_facts.Zpow_mod (be_value sig) E N =? encoded_message N digest)%Z.

Lemma be_value_snoc l b : be_value (l ++ [b]) = (be_value l * 256 + b)%Z.
Proof. unfold be_value. by rewrite foldl_app. Qed.

Lemma be_value_acc acc l : foldl (λ acc b, acc * 256 + b)%Z acc l = (acc * 256 ^ Z.of_nat (length l) + be_value l)%Z.
Proof.
  revert acc. unfold be_value. induction l as [|b l IH]; intros acc; simpl; [lia|].
  rewrite IH, (IH (0 * 256 + b)%Z), Nat2Z.inj_succ, Z.pow_succ_r by lia. lia.
Qed.

Lemma be_value_bytes n x : (0 ≤ x < 256 ^ Z.of_nat n)%Z → be_value (be_bytes n x) = x.
Proof.
  intros Hx. enough (be_value (be_bytes n x) = x mod 256 ^ Z.of_nat n)%Z as ->
    by by apply Z.mod_small.
  clear Hx. induction n as [|n IH]; [by rewrite Z.mod_1_r|].
  unfold be_value. cbn [be_bytes foldl]. rewrite be_value_acc, IH, length_be_bytes. simpl.
  rewrite (land_ones_mod _ 8), Z.shiftr_div_pow2 by lia.
  rewrite Nat2Z.inj_succ, Z.pow_succ_r, (Z.mul_comm 256) by lia.
  rewrite Z.rem_mul_r by lia. rewrite Z.pow_mul_r by lia. change (2 ^ 8)%Z with 256%Z. lia.
Qed.

Lemma key_size_bound N : (0 < N)%Z → (N < 256 ^ Z.of_nat (key_size N))%Z.
Proof.
  intros HN. pose proof (Z.log2_nonneg N) as H0. pose proof (Z.log2_spec N HN) as [_ Hl].
  eapply Z.lt_le_trans; [exact Hl|]. change 256%Z with (2 ^ 8)%Z. rewrite <-Z.pow_mul_r by lia.
  apply Z.pow_le_mono_r; [lia|]. unfold key_size. rewrite Z2Nat.id by (Z.to_euclidean_division_equations; lia).
  Z.to_euclidean_division_equations; lia.
Qed.

Lemma be_value_range l :
  Forall (λ b, 0 ≤ b < 256)%Z l → (0 ≤ be_value l < 256 ^ Z.of_nat (length l))%Z.
Proof.
  induction l as [|b l IH] using rev_ind; [done|]. intros [Hl Hb]%Forall_app.
  rewrite be_value_snoc, length_app, Nat.add_1_r, Nat2Z.inj_succ, Z.pow_succ_r by lia.
  apply Forall_cons in Hb as [Hb _]. specialize (IH Hl). lia.
Qed.

(** The encoded message begins with a zero byte: it is below the modulus. *)
Lemma encoded_message_range N digest :
  (512 ≤ Z.log2 N)%Z → Forall (λ b, 0 ≤ b < 256)%Z digest → length digest = 32 →
  (0 ≤ encoded_message N digest < N)%Z.
Proof.
  intros HN Hd Hlen. set (l := [1]%Z ++ replicate (key_size N - 54) 255%Z ++ [0]%Z ++ sha256_prefix ++ digest).
  assert (encoded_message N digest = be_value l) as -> by done.
  assert (Forall (λ b, 0 ≤ b < 256)%Z l) as Hl.
  { unfold l. rewrite !Forall_app. split_and!; try done; [by repeat constructor|by apply Forall_replicate|
      by repeat constructor|unfold sha256_prefix; by repeat (constructor; [lia|])]. }
  assert (Z.of_nat (length l) = Z.log2 N / 8)%Z as Hk.
  { unfold l. rewrite !length_app, length_replicate, Hlen. unfold key_size, sha256_prefix. cbn [length].
    assert (64 ≤ Z.log2 N / 8)%Z by (apply Z.div_le_lower_bound; lia). lia. }
  pose proof (be_value_range l Hl) as [H0 H1]. split; [done|]. rewrite Hk in H1.
  eapply Z.lt_le_trans; [exact H1|]. destruct (Z.lt_ge_cases 0 N) as [Hpos|Hneg];
    [|rewrite Z.log2_nonpos in HN by lia; lia].
  etrans; [|apply (Z.log2_spec N Hpos)]. change 256%Z with (2 ^ 8)%Z.
  rewrite <-Z.pow_mul_r by (Z.to_euclidean_division_equations; lia).
  apply Z.pow_le_mono_r; [lia|]. Z.to_euclidean_division_equations; lia.
Qed.

(** A working key: large enough, and the exponents undo each other. *)
Definition key_ok (key : PrivateKey) : Prop :=
  (1024 ≤ Z.log2 (pk_N key) + 1)%Z ∧
  ∀ m, (0 ≤ m < pk_N key)%Z →
    Zpow_facts.Zpow_mod (Zpow_facts.Zpow_mod m (pk_D key) (pk_N key)) (pk_E key) (pk_N key) = m.

Lemma key_ok_signs key digest :
  key_ok key → Forall (λ b, 0 ≤ b < 256)%Z digest → length digest = 32 →
  ∃ sig, SignPKCS1v15 key digest = Ok sig.
Proof.
  intros [Hsize Hinv] Hd Hlen. unfold SignPKCS1v15. rewrite (proj2 (Z.ltb_ge _ _)) by lia.
  rewrite Hinv, Z.eqb_refl by (apply encoded_message_range; (done || lia)). by eexists.
Qed.

(** What is signed verifies under the public half of the key. *)
Lemma Sign_Verify key digest sig :
  SignPKCS1v15 key digest = Ok sig → VerifyPKCS1v15 (pk_N key) (pk_E key) digest sig = true.
Proof.
  unfold SignPKCS1v15, VerifyPKCS1v15. case_match eqn:Hsize; [done|]. case_match eqn:Hs; [|done].
  intros [= <-]. assert (0 < pk_N key)%Z as HN.
  { destruct (Z.lt_ge_cases 0 (pk_N key)) as [|Hn]; [done|]. by rewrite Z.log2_nonpos in Hsize. }
  set (s := Zpow_facts.Zpow_mod _ (pk_D key) _) in *.
  assert (0 ≤ s < pk_N key)%Z as Hr.
  { unfold s. rewrite Zpow_facts.Zpow_mod_correct by lia. by apply Z.mod_pos_bound. }
  rewrite be_value_bytes by (pose proof (key_size_bound _ HN); lia).
  rewrite length_be_bytes, bool_decide_true, Hs by done. simpl.
  rewrite andb_true_r. lia.
Qed.

Lemma Sign_range key digest sig : SignPKCS1v15 key digest = Ok sig → Forall (λ b, 0 ≤ b < 256)%Z sig.
Proof. unfold SignPKCS1v15. repeat case_match; try done. intros [= <-]. apply be_bytes_range. Qed.

(** ** The token *)

Section jwt.
Context (IsPrint : string → bool).

Definition member (name value : string) : string := quote +:+ name +:+ quote +:+ ":" +:+ value.

Definition jwt_header : string :=
  "{" +:+ member "alg" (quote +:+ "RS256" +:+ quote) +:+ "," +:+
  member "typ" (quote +:+ "JWT" +:+ quote) +:+ "}".

(** [t.Unix()] *)
Definition Unix (t : Z) : Z := (t / 1000000000)%Z.

Definition jwt_claims (appID : string) (now : Z) : string :=
  "{" +:+ member "iat" (Itoa (Unix (now - 60 * 1000000000))) +:+ "," +:+
  member "exp" (Itoa (Unix (now + 9 * 60 * 1000000000))) +:+ "," +:+
  member "iss" (Quote IsPrint appID) +:+ "}".

Definition appJWT (key : PrivateKey) (appID : string) (now : Z) : result sign_error string :=
  let signing := encodeSegment (octets jwt_header) +:+ "." +:+
                 encodeSegment (octets (jwt_claims appID now)) in
  match SignPKCS1v15 key (sha256 (octets signing)) with
  | Err e => Err e
  | Ok sig => Ok (signing +:+ "." +:+ encodeSegment sig)
  end.
End jwt.

(** ** The other side *)

Definition of_octets (l : list Z) : string := of_bytes (byte_of <$> l).

Definition json_member (v : json) (key : string) : option json :=
  match v with JObj l => snd <$> (snd <$> list_find (λ p, p.1 = key) l) | _ => None end.

Definition json_str (v : option json) : option string := match v with Some (JStr s) => Some s | _ => None end.
Definition json_int (v : option json) : option Z := match v with Some (JNum t) => Atoi t | _ => None end.

(** GitHub's rules for an app's token: three segments; RS256; issued by the app,
    not in the future; expiring at most ten minutes from now, and not yet; and
    signed with the app's key.  [now] is GitHub's clock, in seconds. *)
Definition accepts (N E : Z) (appID : string) (now : Z) (jwt : string) : bool :=
  match Split "."%char jwt with
  | [h; c; s] =>
      match base64_decode h, base64_decode c, base64_decode s with
      | Some h', Some c', Some sig =>
          match whole_value (of_octets h'), whole_value (of_octets c') with
          | Some header, Some claims =>
              match json_int (json_member claims "iat"), json_int (json_member claims "exp") with
              | Some iat, Some exp =>
                  bool_decide (json_str (json_member header "alg") = Some "RS256") &&
                  bool_decide (json_str (json_member claims "iss") = Some appID) &&
                  (iat <=? now)%Z && (now <? exp)%Z && (exp <=? now + 600)%Z &&
                  VerifyPKCS1v15 N E (sha256 (octets (h +:+ "." +:+ c))) sig
              | _, _ => false
              end
          | _, _ => false
          end
      | _, _, _ => false
      end
  | _ => false
  end.

Section accepted.
Context (IsPrint : string → bool) (appID : string) (now : Z).
Context (Hid : Forall (λ c, verbatim c = true) (bytes_of appID)) (Hnow : int64_ok now = true).

Definition claims_value (iat exp : Z) : json :=
  JObj [("iat", JNum (Itoa iat)); ("exp", JNum (Itoa exp)); ("iss", JStr appID)].

Lemma sanitize_verbatim s : Forall (λ c, verbatim c = true) (bytes_of s) → sanitize s = s.
Proof.
  unfold sanitize. induction s as [|c s IH]; [done|]. intros [Hc Hs]%Forall_cons.
  apply verbatim_bytes in Hc as (Hc & _). rewrite by_runes_ascii by done. by rewrite IH.
Qed.

Lemma claims_read iat exp :
  int64_ok iat = true → int64_ok exp = true →
  whole_value (Marshal (claims_value iat exp)) = Some (claims_value iat exp).
Proof.
  intros H1 H2. rewrite (whole_value_Marshal 1); [|simpl; by eauto 10|done].
  unfold claims_value. cbn [clean map]. by rewrite (sanitize_verbatim appID).
Qed.

Lemma unix_bounds :
  let iat := Unix (now - 60 * 1000000000) in let exp := Unix (now + 9 * 60 * 1000000000) in
  iat = (Unix now - 60)%Z ∧ exp = (Unix now + 540)%Z ∧ int64_ok iat = true ∧ int64_ok exp = true.
Proof.
  unfold Unix, int64_ok, int64_min, int64_max in *. cbv zeta.
  Z.to_euclidean_division_equations; lia.
Qed.

Lemma of_octets_octets s : of_octets (octets s) = s.
Proof.
  unfold of_octets, octets. rewrite <-list_fmap_compose.
  rewrite (list_fmap_ext _ id) by (intros; apply byte_of_val). by rewrite list_fmap_id, of_bytes_of.
Qed.

Lemma claims_decode :
  whole_value (of_octets (octets (jwt_claims IsPrint appID now))) =
  Some (claims_value (Unix now - 60) (Unix now + 540)).
Proof.
  destruct unix_bounds as (E1 & E2 & H1 & H2). rewrite of_octets_octets. unfold jwt_claims, member.
  rewrite E1 in *. rewrite E2 in *. rewrite Quote_verbatim by done. rewrite <-claims_read by done.
  f_equal. unfold claims_value. cbn [Marshal map Join]. unfold quoted. rewrite !string_app_assoc.
  reflexivity.
Qed.

Lemma claims_checked now' :
  (Unix now - 60 ≤ now' ≤ Unix now + 60)%Z →
  let v := claims_value (Unix now - 60) (Unix now + 540) in
  json_int (json_member v "iat") = Some (Unix now - 60)%Z ∧
  json_int (json_member v "exp") = Some (Unix now + 540)%Z ∧
  json_str (json_member v "iss") = Some appID ∧
  (Unix now - 60 <=? now')%Z && (now' <? Unix now + 540)%Z && (Unix now + 540 <=? now' + 600)%Z = true.
Proof.
  intros Hskew. destruct unix_bounds as (E1 & E2 & H1 & H2). cbv zeta. rewrite E1 in H1. rewrite E2 in H2.
  split_and!; [exact (Atoi_Itoa _ H1)|exact (Atoi_Itoa _ H2)|done|lia].
Qed.

Lemma three_segments h c sg :
  Forall (λ b, 0 ≤ b < 256)%Z h → Forall (λ b, 0 ≤ b < 256)%Z c → Forall (λ b, 0 ≤ b < 256)%Z sg →
  Split "."%char ((base64_encode h +:+ "." +:+ base64_encode c) +:+ "." +:+ base64_encode sg) =
  [base64_encode h; base64_encode c; base64_encode sg].
Proof.
  intros Hh%base64_no_point Hc%base64_no_point Hs%base64_no_point.
  assert (∀ x y z : string, (x +:+ "." +:+ y) +:+ "." +:+ z =
    x +:+ String.String "." (y +:+ String.String "." z)) as -> by (intros; by rewrite !string_app_assoc).
  by rewrite !Split_app, Split_none.
Qed.

(** C26. The app's token round trips.  With a working key [appJWT] always
    produces a token.  A token it produces splits into its three segments; the
    decoded header and claims are the JSON that was encoded; the signature
    verifies under the public key; and GitHub's rules - issued by this app, not
    in the future, expiring within ten minutes - hold by GitHub's clock as long
    as the two clocks are at most a minute apart, which is what the backdated
    [iat] is for. *)
Theorem appJWT_accepted (key : PrivateKey) (now' : Z)
    (Hskew : (Unix now - 60 ≤ now' ≤ Unix now + 60)%Z) :
  (key_ok key → ∃ jwt, appJWT IsPrint key appID now = Ok jwt) ∧
  ∀ jwt, appJWT IsPrint key appID now = Ok jwt → accepts (pk_N key) (pk_E key) appID now' jwt = true.
Proof.
  split.
  { intros Hk. unfold appJWT.
    match goal with |- context [sha256 ?m] =>
      destruct (key_ok_signs key (sha256 m)) as [sig ->];
        [done|apply sha256_range|apply length_sha256|by eexists] end. }
  intros jwt Hjwt.
  unfold appJWT in Hjwt. destruct (SignPKCS1v15 _ _) as [sig|] eqn:Hs; [|done].
  pose proof (Sign_range _ _ _ Hs) as Hsig. apply Sign_Verify in Hs.
  match type of Hjwt with Ok ?x = _ => assert (x = jwt) as <- by congruence end.
  unfold encodeSegment, accepts in *. rewrite three_segments by first [exact Hsig|apply octets_range].
  rewrite !base64_decode_encode by first [exact Hsig|apply octets_range].
  rewrite claims_decode, of_octets_octets.
  destruct (claims_checked now' Hskew) as (-> & -> & -> & Htime).
  assert (whole_value jwt_header = Some (JObj [("alg", JStr "RS256"); ("typ", JStr "JWT")])) as -> by done.
  rewrite !bool_decide_true by done. simpl. by rewrite Htime.
Qed.
End accepted.
