(* ===== verification/Prog.v ===== *)
(** * Programs over atomic calls

    Every handler, store method and loop body of ForgeRun is a finite tree of
    calls to its environment: SQL statements, Redis commands, random
    identifiers, the GitHub client.  [Prog E A] is that tree.  One definition
    of a handler then has two readings:

    - [run] executes it alone, from one world to the next (functional
      behaviour, every branch);
    - [prog_step] executes its next call only, so several handlers can be
      interleaved call by call (file System).

    [all_calls P p] says that every call [p] can make, whatever the replies
    were, satisfies [P]: it is how a guard in the code is turned into a fact
    about the statements that reach the database. *)
From S2P Require Import Prelude.

Inductive Prog (E : Type → Type) (A : Type) : Type :=
| Ret (a : A)
| Vis {X : Type} (e : E X) (k : X → Prog E A).
Arguments Ret {E A} a.
Arguments Vis {E A X} e k.

Fixpoint prog_bind {E A B} (f : A → Prog E B) (p : Prog E A) : Prog E B :=
  match p with
  | Ret a => f a
  | Vis e k => Vis e (λ x, prog_bind f (k x))
  end.

#[export] Instance prog_mret E : MRet (Prog E) := λ A, Ret.
#[export] Instance prog_mbind E : MBind (Prog E) := λ A B, prog_bind.

(** Make one call and return its reply. *)
Definition call {E : Type → Type} {X} (e : E X) : Prog E X := Vis e Ret.

(** ** Running a program alone

    A handler of calls answers one call and updates the world. *)
Section run.
Context {E : Type → Type} {W : Type} (h : ∀ X, E X → W → X * W).
Arguments h {X} _ _.

Fixpoint run {A} (p : Prog E A) (w : W) : A * W :=
  match p with
  | Ret a => (a, w)
  | Vis e k => let '(x, w') := h e w in run (k x) w'
  end.

(** Execute the first call only. *)
Definition prog_step {A} (p : Prog E A) (w : W) : Prog E A * W :=
  match p with
  | Ret a => (Ret a, w)
  | Vis e k => let '(x, w') := h e w in (k x, w')
  end.

(** [n] steps without interference. *)
Fixpoint prog_steps {A} (n : nat) (p : Prog E A) (w : W) : Prog E A * W :=
  match n with
  | 0 => (p, w)
  | S n => let '(p', w') := prog_step p w in prog_steps n p' w'
  end.

Lemma run_ret {A} (a : A) w : run (mret a) w = (a, w).
Proof. done. Qed.

Lemma run_call {X} (e : E X) w : run (call e) w = h e w.
Proof. simpl. by destruct (h e w). Qed.

Lemma run_bind {A B} (p : Prog E A) (f : A → Prog E B) w :
  run (p ≫= f) w = let '(a, w') := run p w in run (f a) w'.
Proof.
  revert w. induction p as [a|X e k IH]; intros w; [done|].
  simpl. destruct (h e w) as [x w']. apply IH.
Qed.

(** The small-step reading reaches the result of the big-step one. *)
Lemma run_steps {A} (p : Prog E A) w :
  ∃ n, prog_steps n p w = (Ret (run p w).1, (run p w).2).
Proof.
  revert w. induction p as [a|X e k IH]; intros w; [by exists 0|].
  destruct (h e w) as [x w'] eqn:Eh. destruct (IH x w') as [n Hn].
  exists (S n). simpl. by rewrite Eh, Hn.
Qed.
End run.
Arguments run {E W} h {A} !p w /.
Arguments prog_step {E W} h {A} !p w /.

(** ** Observational equality: the same runs, whatever answers the calls *)

#[export] Instance prog_Equiv {E A} : Equiv (Prog E A) :=
  λ p q, ∀ (W : Type) (h : ∀ X, E X → W → X * W) w, run h p w = run h q w.

#[export] Instance prog_equivalence {E A} : Equivalence (≡@{Prog E A}).
Proof.
  split.
  - by intros p W h w.
  - intros p q H W h w. by rewrite (H W h w).
  - intros p q r H1 H2 W h w. by rewrite (H1 W h w), (H2 W h w).
Qed.

#[export] Instance prog_bind_proper {E A B} :
  Proper (pointwise_relation A (≡) ==> (≡) ==> (≡)) (@mbind (Prog E) _ A B).
Proof.
  intros f g Hfg p q Hpq W h w. rewrite !run_bind, (Hpq W h w).
  destruct (run h q w). apply Hfg.
Qed.

Lemma prog_bind_ret_r {E A} (p : Prog E A) : (p ≫= mret) ≡ p.
Proof. intros W h w. rewrite run_bind. by destruct (run h p w). Qed.

Lemma prog_bind_assoc {E A B C} (p : Prog E A) (f : A → Prog E B) (g : B → Prog E C) :
  ((p ≫= f) ≫= g) ≡ (p ≫= λ a, f a ≫= g).
Proof.
  intros W h w. rewrite !run_bind. destruct (run h p w). by rewrite run_bind.
Qed.

(** ** Every call a program can make *)

Section all_calls.
Context {E : Type → Type} (P : ∀ X, E X → Prop).

Fixpoint all_calls {A} (p : Prog E A) : Prop :=
  match p with
  | Ret _ => True
  | Vis e k => P _ e ∧ ∀ x, all_calls (k x)
  end.

Lemma all_calls_ret {A} (a : A) : all_calls (mret a).
Proof. done. Qed.

Lemma all_calls_call {X} (e : E X) : P _ e → all_calls (call e).
Proof. done. Qed.

Lemma all_calls_bind {A B} (p : Prog E A) (f : A → Prog E B) :
  all_calls p → (∀ a, all_calls (f a)) → all_calls (p ≫= f).
Proof.
  intros Hp Hf. induction p as [a|X e k IH]; simpl in *; [apply Hf|].
  destruct Hp as [He Hk]. split; [done|]. intros x. by apply IH.
Qed.

(** A relation every admissible call respects is respected by the run. *)
Lemma run_all_calls {W A} (h : ∀ X, E X → W → X * W) (R : relation W)
    `{!PreOrder R} (p : Prog E A) w :
  (∀ X (e : E X) w, P _ e → R w (h _ e w).2) →
  all_calls p → R w (run h p w).2.
Proof.
  intros HR. revert w. induction p as [a|X e k IH]; intros w; simpl; [done|].
  intros [He Hk]. specialize (HR _ e w He). destruct (h _ e w) as [x w'].
  etrans; [exact HR|]. by apply IH.
Qed.
End all_calls.

Lemma all_calls_impl {E A} (P Q : ∀ X, E X → Prop) (p : Prog E A) :
  (∀ X (e : E X), P _ e → Q _ e) → all_calls P p → all_calls Q p.
Proof.
  intros H. induction p as [a|X e k IH]; [done|]. intros [??]. split; naive_solver.
Qed.

(** ** Early return on error

    [x ←? p; q] is [x, err := p; if err != nil { return err }; q]. *)
Definition try_bind {E Er A B} (p : Prog E (result Er A))
    (f : A → Prog E (result Er B)) : Prog E (result Er B) :=
  r ← p; match r with Ok a => f a | Err e => mret (Err e) end.

Declare Scope prog_scope.
Delimit Scope prog_scope with prog.
Notation "x ←? y ; z" := (try_bind y (λ x, z))
  (at level 20, y at level 100, z at level 200, only parsing) : prog_scope.
#[global] Open Scope prog_scope.

Lemma all_calls_try_bind {E Er A B} (P : ∀ X, E X → Prop) (p : Prog E (result Er A))
    (f : A → Prog E (result Er B)) :
  all_calls P p → (∀ a, all_calls P (f a)) → all_calls P (try_bind p f).
Proof. intros Hp Hf. apply all_calls_bind; [done|]. by intros []. Qed.

Lemma run_try_bind {E Er A B W} (h : ∀ X, E X → W → X * W) (p : Prog E (result Er A))
    (f : A → Prog E (result Er B)) w :
  run h (try_bind p f) w =
  match run h p w with
  | (Ok a, w') => run h (f a) w'
  | (Err e, w') => (Err e, w')
  end.
Proof. unfold try_bind. rewrite run_bind. by destruct (run h p w) as [[] ?]. Qed.

(** ** Automation

    [go_run] pushes [run] through binds; [go_calls] walks a program and leaves
    the admissibility of each call, which it tries to close. *)
Create HintDb calls.

Ltac go_run := repeat (rewrite run_try_bind || rewrite run_bind || rewrite run_ret); simpl.

Ltac go_calls :=
  repeat match goal with
    | |- all_calls _ (try_bind _ _) => apply all_calls_try_bind; [|intros ?]
    | |- all_calls _ (mbind _ _) => apply all_calls_bind; [|intros ?]
    | |- all_calls _ (mret _) => exact I
    | |- all_calls _ (Ret _) => exact I
    | |- all_calls _ (call _) => apply all_calls_call
    | |- all_calls _ (match ?x with _ => _ end) => destruct x eqn:?
    | |- all_calls _ (let '(_, _) := ?x in _) => destruct x eqn:?
    | |- all_calls _ _ => progress (eauto with calls nocore)
    end.
