(* ===== verification/Traces.v ===== *)
(** * What a program does, whatever it is answered

    [post p tr Q]: started after the calls [tr], [p] ends with a result and a
    trace in [Q], whatever the environment answers to each of its calls.  A
    trace keeps every call with its reply, so [Q] can speak about which calls
    were made, in which order, and about what the program knew when it made
    them.  The rules are those of a program logic; [post_run] ties it to [run]. *)
From S2P Require Import Prelude Prog.

(** A call and its reply. *)
Definition event (E : Type → Type) : Type := {X : Type & (E X * X)%type}.
Definition ev {E : Type → Type} {X} (e : E X) (x : X) : event E := existT X (e, x).

Section post.
Context {E : Type → Type}.

Fixpoint post {A} (p : Prog E A) (tr : list (event E)) (Q : A → list (event E) → Prop) : Prop :=
  match p with
  | Ret a => Q a tr
  | Vis e k => ∀ x, post (k x) (tr ++ [ev e x]) Q
  end.

Lemma post_ret {A} (a : A) tr (Q : A → list (event E) → Prop) : Q a tr → post (mret a) tr Q.
Proof. done. Qed.

Lemma post_call {X} (e : E X) tr (Q : X → list (event E) → Prop) :
  (∀ x, Q x (tr ++ [ev e x])) → post (call e) tr Q.
Proof. done. Qed.

Lemma post_bind {A B} (p : Prog E A) (f : A → Prog E B) tr Q :
  post p tr (λ a tr', post (f a) tr' Q) → post (p ≫= f) tr Q.
Proof. revert tr. induction p as [a|X e k IH]; intros tr; [done|]. intros H x. by apply IH. Qed.

Lemma post_mono {A} (p : Prog E A) tr (Q Q' : A → list (event E) → Prop) :
  post p tr Q → (∀ a tr', Q a tr' → Q' a tr') → post p tr Q'.
Proof.
  intros Hp HQ. revert tr Hp. induction p as [a|X e k IH]; intros tr Hp; [by apply HQ|].
  intros x. apply IH, Hp.
Qed.

Lemma post_and {A} (p : Prog E A) tr (Q Q' : A → list (event E) → Prop) :
  post p tr Q → post p tr Q' → post p tr (λ a tr', Q a tr' ∧ Q' a tr').
Proof.
  revert tr. induction p as [a|X e k IH]; intros tr H H'; [done|]. intros x. by apply IH.
Qed.

(** What happened before only precedes what happens now. *)
Lemma post_frame {A} (p : Prog E A) tr tr0 (Q : A → list (event E) → Prop) :
  post p tr (λ a tr', Q a (tr0 ++ tr')) → post p (tr0 ++ tr) Q.
Proof.
  revert tr. induction p as [a|X e k IH]; intros tr; [done|]. intros H x.
  rewrite <-app_assoc. apply IH, H.
Qed.

Lemma post_from_start {A} (p : Prog E A) tr (Q : A → list (event E) → Prop) :
  post p [] (λ a tr', Q a (tr ++ tr')) → post p tr Q.
Proof. intros H. rewrite <-(app_nil_r tr). by apply post_frame. Qed.

Lemma post_bind_start {A B} (p : Prog E A) (f : A → Prog E B) P tr Q :
  post p [] P → (∀ a tr', P a tr' → post (f a) (tr ++ tr') Q) → post (p ≫= f) tr Q.
Proof.
  intros Hp Hf. apply post_bind, post_from_start. eapply post_mono; [exact Hp|]. exact Hf.
Qed.

Lemma post_try {Er A B} (p : Prog E (result Er A)) (f : A → Prog E (result Er B)) tr Q :
  post p tr (λ r tr', match r with Ok a => post (f a) tr' Q | Err e => Q (Err e) tr' end) →
  post (try_bind p f) tr Q.
Proof. intros H. apply post_bind. eapply post_mono; [exact H|]. by intros []. Qed.

(** ** Soundness *)

Section run.
Context {W : Type} (h : ∀ X, E X → W → X * W).

(** [run], keeping the trace. *)
Fixpoint run_trace {A} (p : Prog E A) (w : W) : A * list (event E) * W :=
  match p with
  | Ret a => (a, [], w)
  | Vis e k =>
      let '(x, w1) := h _ e w in
      let '(a, tr, w2) := run_trace (k x) w1 in (a, ev e x :: tr, w2)
  end.

Lemma run_trace_run {A} (p : Prog E A) w :
  ((run_trace p w).1.1, (run_trace p w).2) = run h p w.
Proof.
  revert w. induction p as [a|X e k IH]; intros w; [done|]. simpl. destruct (h X e w) as [x w1].
  rewrite <-IH. by destruct (run_trace (k x) w1) as [[??]?].
Qed.

Lemma post_run {A} (p : Prog E A) tr (Q : A → list (event E) → Prop) w :
  post p tr Q → let '(a, tr', _) := run_trace p w in Q a (tr ++ tr').
Proof.
  revert tr w. induction p as [a|X e k IH]; intros tr w; simpl; [by rewrite app_nil_r|].
  intros H. destruct (h X e w) as [x w1]. specialize (IH x _ w1 (H x)).
  destruct (run_trace (k x) w1) as [[a tr'] w2]. by rewrite <-app_assoc in IH.
Qed.
End run.
End post.

(** ** Programs over a part of the calls *)

(** The calls of [E], made as calls of [F]. *)
Fixpoint lift {E F : Type → Type} (f : ∀ X, E X → F X) {A} (p : Prog E A) : Prog F A :=
  match p with
  | Ret a => Ret a
  | Vis e k => Vis (f _ e) (λ x, lift f (k x))
  end.

Definition lift_event {E F : Type → Type} (f : ∀ X, E X → F X) (v : event E) : event F :=
  match v with existT X (e, x) => ev (f X e) x end.

Lemma post_lift {E F : Type → Type} (f : ∀ X, E X → F X) {A} (p : Prog E A) tr tr0
    (Q : A → list (event F) → Prop) :
  post p tr (λ a tr', Q a (tr0 ++ map (lift_event f) tr')) →
  post (lift f p) (tr0 ++ map (lift_event f) tr) Q.
Proof.
  revert tr. induction p as [a|X e k IH]; intros tr; [done|]. intros H x.
  specialize (IH x (tr ++ [ev e x]) (H x)). rewrite map_app, app_assoc in IH. exact IH.
Qed.

(** ** Automation: walk a program, introducing the replies *)

Ltac go_post :=
  repeat match goal with
    | |- post (try_bind _ _) _ _ => apply post_try
    | |- post (mbind _ _) _ _ => apply post_bind
    | |- post (mret _) _ _ => apply post_ret
    | |- post (Ret _) _ _ => apply post_ret
    | |- post (call _) _ _ => apply post_call; intros ?
    | |- post (match ?x with _ => _ end) _ _ => destruct x eqn:?
    | |- (λ _, _) _ _ => cbv beta
    | |- match (match ?x with _ => _ end) with Ok _ => _ | Err _ => _ end => destruct x eqn:?
    | |- match ?x with Ok _ => post _ _ _ | Err _ => _ end => destruct x eqn:?
    end.
