(* ===== verification/Rely.v ===== *)
(** * Programs among others: rely and guarantee

    Goroutines that share state behind a mutex run their calls one at a time, in
    any order.  [safe p w Q]: started in [w], whatever the others do between its
    calls, [p] only makes calls that keep the invariant, and ends in [Q].
    [threads_invariant] is the theorem for the whole: threads are started at any
    time and interleaved call by call. *)
From S2P Require Import Prelude Prog.

Section rely.
Context {E : Type → Type} {W : Type} (h : ∀ X, E X → W → X * W).
(** What others may do to the world, what is promised to them, and what always
    holds. *)
Context (others mine : relation W) (inv : W → Prop).

(** A call that keeps the invariant and the promise. *)
Definition keeps {X} (e : E X) (w : W) : Prop := inv (h _ e w).2 ∧ mine w (h _ e w).2.

Fixpoint safe {A} (p : Prog E A) (w : W) (Q : A → W → Prop) : Prop :=
  ∀ w', others w w' → inv w' →
  match p with
  | Ret a => Q a w'
  | Vis e k => keeps e w' ∧ safe (k (h _ e w').1) (h _ e w').2 Q
  end.

Context `{!PreOrder others}.

Lemma safe_later {A} (p : Prog E A) w w' Q : others w w' → safe p w Q → safe p w' Q.
Proof. intros Hw Hp. destruct p; intros w'' Hw' Hi; apply (Hp w''); (done || by trans w'). Qed.

Lemma safe_ret {A} (a : A) w (Q : A → W → Prop) :
  (∀ w', others w w' → inv w' → Q a w') → safe (mret a) w Q.
Proof. done. Qed.

Lemma safe_call {X} (e : E X) w (Q : X → W → Prop) :
  (∀ w', others w w' → inv w' → keeps e w' ∧
     ∀ w'', others (h _ e w').2 w'' → inv w'' → Q (h _ e w').1 w'') →
  safe (call e) w Q.
Proof. intros H w' Hw Hi. destruct (H w' Hw Hi) as [Hk HQ]. by split. Qed.

Lemma safe_weaken {A} (p : Prog E A) w (Q Q' : A → W → Prop) :
  safe p w Q → (∀ a w', inv w' → Q a w' → Q' a w') → safe p w Q'.
Proof.
  revert w. induction p as [a|X e k IH]; intros w Hp HQ w' Hw Hi.
  - apply HQ; [done|]. by apply Hp.
  - destruct (Hp w' Hw Hi) as [Hk Hs]. split; [done|]. by apply IH.
Qed.

Lemma safe_bind {A B} (p : Prog E A) (f : A → Prog E B) w Q :
  safe p w (λ a w', safe (f a) w' Q) → safe (p ≫= f) w Q.
Proof.
  revert w. induction p as [a|X e k IH]; intros w Hp.
  - change (safe (f a) w Q).
    assert (∀ w', others w w' → inv w' → safe (f a) w' Q) as H by (intros; by apply Hp). clear Hp.
    destruct (f a); intros w' Hw Hi; by apply (H w' Hw Hi w').
  - intros w' Hw Hi. destruct (Hp w' Hw Hi) as [Hk Hs]. split; [done|]. by apply IH.
Qed.

Lemma safe_try {Er A B} (p : Prog E (result Er A)) (f : A → Prog E (result Er B)) w Q :
  safe p w (λ r w', match r with Ok a => safe (f a) w' Q | Err e => safe (mret (Err e)) w' Q end) →
  safe (try_bind p f) w Q.
Proof. intros H. apply safe_bind. eapply safe_weaken; [exact H|]. by intros []. Qed.

(** Alone, the invariant holds after every call. *)
Lemma safe_steps {A} (p : Prog E A) w Q n : safe p w Q → inv w → inv (prog_steps h n p w).2.
Proof.
  revert p w. induction n as [|n IH]; intros p w Hp Hi; [done|]. simpl.
  destruct p as [a|X e k]; simpl; [by apply IH|].
  destruct (Hp w) as [[Hk _] Hs]; [done..|]. destruct (h X e w) as [x w']. by apply IH.
Qed.

Lemma safe_run {A} (p : Prog E A) w Q : safe p w Q → inv w → Q (run h p w).1 (run h p w).2.
Proof.
  revert w. induction p as [a|X e k IH]; intros w Hp Hi; simpl; [by apply Hp|].
  destruct (Hp w) as [[Hk _] Hs]; [done..|]. destruct (h X e w) as [x w']. by apply IH.
Qed.

(** *** When what is promised is what others rely on *)

Context (Hmine : ∀ w w', mine w w' → others w w').

Lemma safe_mono {A} (p : Prog E A) w (Q Q' : A → W → Prop) :
  safe p w Q → (∀ a w', others w w' → inv w' → Q a w' → Q' a w') → safe p w Q'.
Proof.
  revert w. induction p as [a|X e k IH]; intros w Hp HQ w' Hw Hi.
  - apply HQ; [done..|]. by apply Hp.
  - destruct (Hp w' Hw Hi) as [[Hk Ho%Hmine] Hs]. split; [by destruct (Hp w' Hw Hi)|].
    apply IH; [done|]. intros a w'' Hw'' ?. apply HQ; [|done]. trans w'; [done|]. by etrans.
Qed.

(** ** Threads *)

Section threads.
Context {T A : Type} (prog : T → Prog E A) (env : relation W).

Record thread : Type := mkThread { th_task : T; th_start : W; th_prog : Prog E A }.

Inductive threads_step : list thread * W → list thread * W → Prop :=
| step_spawn ts w t : threads_step (ts, w) (ts ++ [mkThread t w (prog t)], w)
| step_run ts w i th :
    ts !! i = Some th →
    threads_step (ts, w)
      (<[i := mkThread (th_task th) (th_start th) (prog_step h (th_prog th) w).1]> ts,
       (prog_step h (th_prog th) w).2)
| step_env ts w w' : env w w' → threads_step (ts, w) (ts, w').

Context (Q : T → W → A → W → Prop).
Context (Htask : ∀ t w, inv w → safe (prog t) w (Q t w)).
Context (Henv : ∀ w w', env w w' → inv w → inv w' ∧ others w w').

Definition threads_ok (s : list thread * W) : Prop :=
  inv s.2 ∧ Forall (λ th, safe (th_prog th) s.2 (Q (th_task th) (th_start th))) s.1.

Lemma threads_later ts w w' :
  others w w' → Forall (λ th, safe (th_prog th) w (Q (th_task th) (th_start th))) ts →
  Forall (λ th, safe (th_prog th) w' (Q (th_task th) (th_start th))) ts.
Proof. intros Hw Hts. eapply Forall_impl; [done|]. intros th. by apply safe_later. Qed.

Lemma threads_preserved s s' : threads_step s s' → threads_ok s → threads_ok s'.
Proof.
  intros Hs [Hi Hts]. inv Hs; simpl in *.
  - split; [done|]. apply Forall_app. split; [done|]. apply Forall_singleton. by apply Htask.
  - rename select (_ !! _ = Some _) into Hth. pose proof (Forall_lookup_1 _ _ _ _ Hts Hth) as Hp.
    destruct th as [t w0 [a|X e k]]; simpl in *.
    + split; [done|]. apply Forall_insert; [done|]. simpl. exact Hp.
    + destruct (Hp w) as [[Hk Ho%Hmine] Hs]; [done..|]. destruct (h X e w) as [x w'] eqn:Eh. simpl in *.
      split; [done|]. apply Forall_insert; [|done]. by eapply threads_later.
  - destruct (Henv w w') as [Hi' Ho]; [done..|]. split; [done|]. by eapply threads_later.
Qed.

Lemma threads_invariant w0 ts w :
  inv w0 → rtc threads_step ([], w0) (ts, w) → threads_ok (ts, w).
Proof.
  intros Hi Hr. remember ([], w0) as s0 eqn:Es.
  assert (threads_ok s0) as H0 by (subst; split; [done|constructor]).
  clear Es. revert H0. induction Hr; [done|]. eauto using threads_preserved.
Qed.
End threads.
End rely.
