(* ===== verification/Asks.v ===== *)
(** * Programs that are answered by others

    A client does not know what it will be answered, but it may rely on what is
    true of every answer.  [honest p f Q]: started when the facts are [f] - facts
    only ever grow ([later]) - the program [p] only makes the calls it [may]
    make, provided each reply is one that [answers] the call, and ends in [Q].
    It is to replies what Rely is to shared state: the rules are the same. *)
From S2P Require Import Prelude Prog.

Section asks.
Context {E : Type → Type} {F : Type} (later : relation F) `{!PreOrder later}.
Context (may : ∀ X, E X → F → Prop) (answers : ∀ X, E X → X → F → Prop).

Fixpoint honest {A} (p : Prog E A) (f : F) (Q : A → F → Prop) : Prop :=
  ∀ f1, later f f1 →
  match p with
  | Ret a => Q a f1
  | Vis e k => may _ e f1 ∧ ∀ x f2, later f1 f2 → answers _ e x f2 → honest (k x) f2 Q
  end.

Lemma honest_later {A} (p : Prog E A) f f1 Q : later f f1 → honest p f Q → honest p f1 Q.
Proof. intros Hf Hp. destruct p; intros f2 Hf2; apply (Hp f2); by trans f1. Qed.

Lemma honest_ret {A} (a : A) f (Q : A → F → Prop) : (∀ f1, later f f1 → Q a f1) → honest (mret a) f Q.
Proof. done. Qed.

Lemma honest_call {X} (e : E X) f (Q : X → F → Prop) :
  (∀ f1, later f f1 → may _ e f1 ∧
     ∀ x f2 f3, later f1 f2 → answers _ e x f2 → later f2 f3 → Q x f3) →
  honest (call e) f Q.
Proof. intros H f1 Hf. destruct (H f1 Hf) as [Hm HQ]. split; [done|]. intros x f2 H1 Ha f3 H2. by eapply HQ. Qed.

Lemma honest_mono {A} (p : Prog E A) f (Q Q' : A → F → Prop) :
  honest p f Q → (∀ a f1, Q a f1 → Q' a f1) → honest p f Q'.
Proof.
  intros Hp HQ. revert f Hp. induction p as [a|X e k IH]; intros f Hp f1 Hf.
  - by apply HQ, Hp.
  - destruct (Hp f1 Hf) as [Hm Hk]. split; [done|]. intros x f2 H1 Ha. by apply IH, Hk.
Qed.

Lemma honest_bind {A B} (p : Prog E A) (g : A → Prog E B) f Q :
  honest p f (λ a f1, honest (g a) f1 Q) → honest (p ≫= g) f Q.
Proof.
  revert f. induction p as [a|X e k IH]; intros f Hp.
  - change (honest (g a) f Q). assert (∀ f1, later f f1 → honest (g a) f1 Q) as Hg by exact Hp. clear Hp.
    destruct (g a); intros f1 Hf; by apply (Hg f1 Hf f1).
  - intros f1 Hf. destruct (Hp f1 Hf) as [Hm Hk]. split; [done|]. intros x f2 H1 Ha. by apply IH, Hk.
Qed.

(** A program whose calls may always be made. *)
Lemma honest_since (P : ∀ X, E X → Prop) {A} (p : Prog E A) f :
  (∀ X (e : E X) f, P _ e → may _ e f) → all_calls P p → honest p f (λ _ f1, later f f1).
Proof.
  intros HP. assert (∀ f0, later f0 f → all_calls P p → honest p f (λ _ f1, later f0 f1)) as H; [|by apply H].
  revert f. induction p as [a|X e k IH]; intros f f0 Hf0 Hp f1 Hf; [by trans f|].
  destruct Hp as [He Hk]. split; [by apply HP|]. intros x f2 H2 _. apply IH; [|done]. trans f1; [by trans f|done].
Qed.
End asks.
