(* ===== verification/Github.v ===== *)
(** * The GitHub client (internal/github/client.go and app.go)

    The programs are trees over [GhCall]: HTTP, the clock, the backoff, and the
    two maps of an AppClient, each access to which is one critical section of its
    mutex.  The state behind the calls is [GhWorld]; the network is a function of
    the exchanges so far, so a theorem about all worlds is one about all networks.
    [url_Parse] is net/url's verdict on a URL, the error if it refuses one; the
    PEM and DER readers are parameters too.  Error texts are data. *)
From S2P Require Import Prelude GoLib GoText Sha256 Json JsonOut GoTime Http Jwt Prog.
From Stdlib Require Import Ascii.

Local Open Scope Z_scope.

Record cachedToken : Type := mkCached { ct_value : string; ct_expires : Z }.

Abbreviation GhReply := (result string HttpResponse).

Inductive GhCall : Type → Type :=
| Do (req : HttpRequest) : GhCall GhReply          (* [hc.Do(req)] *)
| Backoff (delay : Z) : GhCall bool                (* the select: was it ctx.Done()? *)
| Now : GhCall Z
| LookupToken (key : string) : GhCall (option cachedToken)
| StoreToken (key : string) (t : cachedToken) : GhCall unit
| LookupInstall (repo : string) : GhCall (option Z)
| StoreInstall (repo : string) (id : Z) : GhCall unit.

(** ** Errors *)

Inductive attempt_error : Type :=
| ErrTransport (text : string)
| ErrReturned (code : Z) (msg : string).

Inductive gh_error : Type :=
| ErrBuild (text : string)
| ErrContext
| ErrAttempts (last : option attempt_error)
| ErrResponse (code : Z) (msg : string)
| ErrRateLimit (reset : Z) (msg : string)
| ErrDecode
| ErrSign (e : sign_error)
| ErrEmptyToken
| ErrNotInstalled (repo : string)
| ErrInstallationToken (repo : string) (e : gh_error).

(** ** Requests *)

Section github.
Context (url_Parse : string → option string) (IsPrint : string → bool).

Definition newRequest (method url : string) (body : option string) : result string HttpRequest :=
  match url_Parse url with
  | Some text => Err text
  | None =>
      Ok (mkHttp method url
            ([("Accept", "application/vnd.github+json"); ("X-GitHub-Api-Version", "2022-11-28")] ++
             (if body is Some _ then [("Content-Type", "application/json")] else []))
            body false)
  end.

(** [req.Header.Set("Authorization", "Bearer "+token)], on a fresh request *)
Definition authorize (token : string) (req : HttpRequest) : HttpRequest :=
  mkHttp (hq_Method req) (hq_URL req) (hq_Headers req ++ [("Authorization", "Bearer " +:+ token)])
    (hq_Body req) (hq_Detached req).

Definition authorized (method url : string) (body : option string) (token : string) :
    result string HttpRequest :=
  match newRequest method url body with Ok req => Ok (authorize token req) | Err e => Err e end.

(** ** Sending *)

Definition attempts : nat := 3.

(** The status is one to try again on. *)
Definition retryable (code : Z) : bool := negb ((code <? 500) && negb (code =? 429)).

(** The iterations of the loop from [attempt] on; [newReq] is called in each. *)
Fixpoint send_loop (remaining attempt : nat) (lastErr : option attempt_error)
    (newReq : result string HttpRequest) : Prog GhCall (result gh_error HttpResponse) :=
  match remaining with
  | O => mret (Err (ErrAttempts lastErr))
  | S remaining =>
      done ← (if (0 <? attempt)%nat then call (Backoff (Z.of_nat attempt * 500000000)) else mret false);
      if (done : bool) then mret (Err ErrContext)
      else
        match newReq with
        | Err text => mret (Err (ErrBuild text))
        | Ok req =>
            reply ← call (Do req);
            match reply with
            | Err text => send_loop remaining (S attempt) (Some (ErrTransport text)) newReq
            | Ok resp =>
                if retryable (hr_Code resp)
                then send_loop remaining (S attempt)
                       (Some (ErrReturned (hr_Code resp) (excerpt (hr_Body resp)))) newReq
                else mret (Ok resp)
            end
        end
  end.

Definition send (newReq : result string HttpRequest) : Prog GhCall (result gh_error HttpResponse) :=
  send_loop attempts 0 None newReq.

(** The value [strconv.ParseInt(s, 10, 64)] returns, error or not. *)
Fixpoint parseUint_value (acc : Z) (s : string) : Z :=
  match s with
  | EmptyString => acc
  | String.String c s =>
      match digit_value c with
      | None => 0
      | Some d => if 2 ^ 64 - 1 <? acc * 10 + d then 2 ^ 64 - 1 else parseUint_value (acc * 10 + d) s
      end
  end.

Definition ParseInt_value (s : string) : Z :=
  let clamp neg n := if (neg : bool) then - Z.min n (2 ^ 63) else Z.min n (2 ^ 63 - 1) in
  match s with
  | EmptyString => 0
  | String.String "-" s => clamp true (parseUint_value 0 s)
  | String.String "+" s => clamp false (parseUint_value 0 s)
  | _ => clamp false (parseUint_value 0 s)
  end.

Definition checkResponse (resp : HttpResponse) : result gh_error unit :=
  if 300 <=? hr_Code resp then
    let msg := excerpt (hr_Body resp) in
    if bool_decide (hr_Header resp "X-RateLimit-Remaining" = "0")
    then Err (ErrRateLimit (ParseInt_value (hr_Header resp "X-RateLimit-Reset")) msg)
    else Err (ErrResponse (hr_Code resp) msg)
  else Ok tt.

Definition truncate (s : string) (n : nat) : string :=
  if (String.length s <=? n)%nat then s else string_take n s.

(** [json.Marshal] of the map: keys in order *)
Definition status_body (state description targetURL : string) : string :=
  Marshal (JObj [("context", JStr "forgerun"); ("description", JStr (truncate description 140));
                 ("state", JStr state); ("target_url", JStr targetURL)]).

Definition statuses_url (base repo sha : string) : string :=
  base +:+ "/repos/" +:+ repo +:+ "/statuses/" +:+ sha.

Definition postStatus (base token repo sha state description targetURL : string) :
    Prog GhCall (result gh_error unit) :=
  resp ←? send (authorized POST (statuses_url base repo sha)
                  (Some (status_body state description targetURL)) token);
  mret (checkResponse resp).

(** ** The App client *)

Record AppClient : Type := mkApp { ac_appID : string; ac_key : PrivateKey; ac_base : string }.

Definition controlPlanePerms : list (string * string) := [("contents", "read"); ("statuses", "write")].
Definition clonePerms : list (string * string) := [("contents", "read")].

(** [c.call] up to the decoding into [out] *)
Definition call_api {A} (method url jwt : string) (body : option string) (d : decoder A) (zero : A) :
    Prog GhCall (result gh_error A) :=
  resp ←? send (authorized method url body jwt);
  mret match checkResponse resp with
       | Err e => Err e
       | Ok _ =>
           match DecodeReply d zero (hr_Body resp) with
           | (out, false) => Ok out
           | (_, true) => Err ErrDecode
           end
       end.

Section app.
Context (c : AppClient).

Definition app_jwt : Prog GhCall (result gh_error string) :=
  now ← call Now;
  mret match appJWT IsPrint (ac_key c) (ac_appID c) now with Ok jwt => Ok jwt | Err e => Err (ErrSign e) end.

Definition install_fields : fields Z := [("id", field id (λ x _, x) dec_int)].

Definition installation_url (repo : string) : string :=
  ac_base c +:+ "/repos/" +:+ repo +:+ "/installation".

Definition installationID (repo : string) : Prog GhCall (result gh_error Z) :=
  cached ← call (LookupInstall repo);
  match cached with
  | Some id => mret (Ok id)
  | None =>
      jwt ←? app_jwt;
      id ←? call_api GET (installation_url repo) jwt None (dec_struct install_fields) 0;
      if id =? 0 then mret (Err (ErrNotInstalled repo))
      else
        _ ← call (StoreInstall repo id);
        mret (Ok id)
  end.

(** The reply to a request for an installation token. *)
Record token_reply : Type := mkTokenReply { to_Token : string; to_ExpiresAt : Z }.

(** The zero [time.Time]: midnight of January 1, year 1. *)
Definition zero_time : Z := -62135596800 * 1000000000.

Definition token_fields : fields token_reply :=
  [("token", field to_Token (λ x o, mkTokenReply x (to_ExpiresAt o)) dec_string);
   ("expires_at", field to_ExpiresAt (λ x o, mkTokenReply (to_Token o) x) dec_time)].

(** What follows the first slash. *)
Definition repo_name (repo : string) : string := default repo (after_byte "/"%char repo).

Definition token_body (repo : string) (perms : list (string * string)) : string :=
  Marshal (JObj [("permissions", JObj (map (λ '(k, v), (k, JStr v)) perms));
                 ("repositories", JArr [JStr (repo_name repo)])]).

Definition tokens_url (installID : Z) : string :=
  ac_base c +:+ "/app/installations/" +:+ Itoa installID +:+ "/access_tokens".

Definition early : Z := 2 * 60 * 1000000000.

(** What follows a miss in the pool. *)
Definition mint_token (repo cacheKey : string) (perms : list (string * string)) :
    Prog GhCall (result gh_error string) :=
  installID ←? installationID repo;
  jwt ←? app_jwt;
  out ←? call_api POST (tokens_url installID) jwt (Some (token_body repo perms))
           (dec_struct token_fields) (mkTokenReply "" zero_time);
  if bool_decide (to_Token out = "") then mret (Err ErrEmptyToken)
  else
    _ ← call (StoreToken cacheKey (mkCached (to_Token out) (to_ExpiresAt out - early)));
    mret (Ok (to_Token out)).

Definition token (repo cacheKey : string) (perms : list (string * string)) :
    Prog GhCall (result gh_error string) :=
  cached ← call (LookupToken cacheKey);
  match cached with
  | Some t =>
      now ← call Now;
      if now <? ct_expires t then mret (Ok (ct_value t)) else mint_token repo cacheKey perms
  | None => mint_token repo cacheKey perms
  end.

Definition AppClient_SetStatus (repo sha state description targetURL : string) :
    Prog GhCall (result gh_error unit) :=
  r ← token repo ("status:" +:+ repo) controlPlanePerms;
  match r with
  | Err e => mret (Err (ErrInstallationToken repo e))
  | Ok token => postStatus (ac_base c) token repo sha state description targetURL
  end.

Definition AppClient_CloneToken (repo : string) : Prog GhCall (result gh_error string) :=
  token repo ("clone:" +:+ repo) clonePerms.
End app.

(** ** The three implementations of Client *)

Inductive Client : Type :=
| App (c : AppClient)
| HTTPClient (token base : string)
| NoopClient.

Definition SetStatus (c : Client) (repo sha state description targetURL : string) :
    Prog GhCall (result gh_error unit) :=
  match c with
  | App c => AppClient_SetStatus c repo sha state description targetURL
  | HTTPClient token base => postStatus base token repo sha state description targetURL
  | NoopClient => mret (Ok tt)
  end.

Definition CloneToken (c : Client) (repo : string) : Prog GhCall (result gh_error string) :=
  match c with
  | App c => AppClient_CloneToken c repo
  | HTTPClient _ _ | NoopClient => mret (Ok "")
  end.
End github.

(** ** Configuration *)

Definition api_github : string := "https://api.github.com".

Inductive config_error : Type :=
| ErrNotPEM
| ErrParseKey (text : string)
| ErrNotRSA
| ErrNoAppID
| ErrReadKey (text : string).

Section configure.
Context (pem_Decode : string → option string) (ParsePKCS1 : string → option PrivateKey).
(** An RSA key, another kind of key, or an error. *)
Context (ParsePKCS8 : string → result string (option PrivateKey)).
Context (ReadFile : string → result string string).

Definition parsePrivateKey (data : string) : result config_error PrivateKey :=
  match pem_Decode data with
  | None => Err ErrNotPEM
  | Some block =>
      match ParsePKCS1 block with
      | Some key => Ok key
      | None =>
          match ParsePKCS8 block with
          | Err text => Err (ErrParseKey text)
          | Ok None => Err ErrNotRSA
          | Ok (Some key) => Ok key
          end
      end
  end.

Definition NewApp (appID privateKeyPEM : string) : result config_error AppClient :=
  match parsePrivateKey privateKeyPEM with
  | Err e => Err e
  | Ok key => if bool_decide (appID = "") then Err ErrNoAppID else Ok (mkApp appID key api_github)
  end.

Record Options : Type := mkOptions {
  opt_AppID : string;
  opt_PrivateKeyPEM : string;
  opt_PrivateKeyPath : string;
  opt_Token : string
}.

Definition New (token : string) : Client := HTTPClient token api_github.

Definition Configure (o : Options) : result config_error (Client * string) :=
  match (if bool_decide (opt_PrivateKeyPEM o = "") && negb (bool_decide (opt_PrivateKeyPath o = ""))
         then match ReadFile (opt_PrivateKeyPath o) with
              | Err text => Err (ErrReadKey text)
              | Ok data => Ok data
              end
         else Ok (opt_PrivateKeyPEM o)) with
  | Err e => Err e
  | Ok keyPEM =>
      if negb (bool_decide (opt_AppID o = "")) && negb (bool_decide (keyPEM = ""))
      then match NewApp (opt_AppID o) keyPEM with
           | Err e => Err e
           | Ok app => Ok (App app, "github-app")
           end
      else if negb (bool_decide (opt_Token o = "")) then Ok (New (opt_Token o), "personal-access-token")
      else Ok (NoopClient, "disabled")
  end.
End configure.

(** ** The world *)

Record GhWorld : Type := mkGh {
  gw_installs : gmap string Z;
  gw_pool : gmap string cachedToken;
  gw_now : Z;
  gw_log : list (HttpRequest * GhReply);                      (* every exchange, in order *)
  gw_net : list (HttpRequest * GhReply) → HttpRequest → GhReply;
  gw_done : list (HttpRequest * GhReply) → bool               (* is the context cancelled now? *)
}.

Definition gh_handle (X : Type) (e : GhCall X) (w : GhWorld) : X * GhWorld :=
  match e in GhCall X return X * GhWorld with
  | Do req =>
      let r := gw_net w (gw_log w) req in
      (r, mkGh (gw_installs w) (gw_pool w) (gw_now w) (gw_log w ++ [(req, r)]) (gw_net w) (gw_done w))
  | Backoff d =>
      (gw_done w (gw_log w),
       mkGh (gw_installs w) (gw_pool w) (gw_now w + d) (gw_log w) (gw_net w) (gw_done w))
  | Now => (gw_now w, w)
  | LookupToken key => (gw_pool w !! key, w)
  | StoreToken key t =>
      (tt, mkGh (gw_installs w) (<[key := t]> (gw_pool w)) (gw_now w) (gw_log w) (gw_net w) (gw_done w))
  | LookupInstall repo => (gw_installs w !! repo, w)
  | StoreInstall repo id =>
      (tt, mkGh (<[repo := id]> (gw_installs w)) (gw_pool w) (gw_now w) (gw_log w) (gw_net w) (gw_done w))
  end.

(** A client that was just created. *)
Definition fresh_client (w : GhWorld) : Prop := gw_installs w = ∅ ∧ gw_pool w = ∅.
