(* ===== verification/GithubSpec.v ===== *)
(** * What the GitHub client promises (theorems about internal/github)

    [send_correct]: the retry loop.  [clone_token_is_scoped]: what a runner is
    handed, for any number of clients' calls running at the same time and any
    network. *)
From S2P Require Import Prelude GoLib GoText Sha256 Json JsonOut GoTime Http Jwt Prog Traces Rely Github.

(** ** Retrying *)

(** An outcome to try again on, as the error that is kept of it. *)
Definition failed (r : GhReply) : bool :=
  match r with Err _ => true | Ok resp => retryable (hr_Code resp) end.

Definition error_of (r : GhReply) : attempt_error :=
  match r with
  | Err text => ErrTransport text
  | Ok resp => ErrReturned (hr_Code resp) (excerpt (hr_Body resp))
  end.

Section send.
Context (req : HttpRequest).

(** A pause of half a second times the attempt, except before the first. *)
Definition pause (attempt : nat) (done : bool) : list (event GhCall) :=
  if (0 <? attempt)%nat then [ev (Backoff (Z.of_nat attempt * 500000000)) done] else [].

Fixpoint tries (attempt : nat) (replies : list GhReply) : list (event GhCall) :=
  match replies with
  | [] => []
  | r :: replies => pause attempt false ++ ev (Do req) r :: tries (S attempt) replies
  end.

Inductive sent (n attempt : nat) (lastErr : option attempt_error) :
    result gh_error HttpResponse → list (event GhCall) → Prop :=
| sent_reply fails resp :
    Forall (λ r, failed r = true) fails → length fails < n → failed (Ok resp) = false →
    sent n attempt lastErr (Ok resp) (tries attempt (fails ++ [Ok resp]))
| sent_cancelled fails :
    Forall (λ r, failed r = true) fails → length fails < n → 0 < attempt + length fails →
    sent n attempt lastErr (Err ErrContext)
      (tries attempt fails ++ pause (attempt + length fails) true)
| sent_gave_up fails :
    Forall (λ r, failed r = true) fails → length fails = n →
    sent n attempt lastErr (Err (ErrAttempts (foldl (λ _ r, Some (error_of r)) lastErr fails)))
      (tries attempt fails).

Lemma sent_again n attempt lastErr r res tr :
  failed r = true → sent n (S attempt) (Some (error_of r)) res tr →
  sent (S n) attempt lastErr res (pause attempt false ++ ev (Do req) r :: tr).
Proof.
  intros Hr Hs. inv Hs.
  - by apply (sent_reply _ _ _ (r :: fails)); [constructor|simpl; lia|].
  - pose proof (sent_cancelled (S n) attempt lastErr (r :: fails)) as Hc. simpl in Hc.
    rewrite Nat.add_succ_r, <-app_assoc in Hc. apply Hc; [by constructor|lia..].
  - by apply (sent_gave_up _ _ _ (r :: fails)); [constructor|].
Qed.

Lemma send_loop_sent n attempt lastErr :
  post (send_loop n attempt lastErr (Ok req)) [] (sent n attempt lastErr).
Proof.
  revert attempt lastErr. induction n as [|n IH]; intros attempt lastErr.
  { apply post_ret. by apply (sent_gave_up _ _ _ []). }
  cbn [send_loop]. apply (post_bind_start _ _ (λ done tr, tr = pause attempt done ∧ (done = true → 0 < attempt))).
  { unfold pause. destruct (0 <? attempt)%nat eqn:Ha; [|by apply post_ret].
    apply post_call. intros done. split; [done|]. by apply Nat.ltb_lt in Ha. }
  intros done tr [-> Hd]. simpl. destruct done.
  { apply post_ret. pose proof (sent_cancelled (S n) attempt lastErr []) as H0. simpl in H0.
    rewrite Nat.add_0_r in H0. apply H0; [done|lia|by apply Hd]. }
  intros r. cbv beta.
  assert (failed r = true → post (send_loop n (S attempt) (Some (error_of r)) (Ok req))
    (pause attempt false ++ [ev (Do req) r]) (sent (S n) attempt lastErr)) as Hagain.
  { intros Hr. apply post_from_start. eapply post_mono; [apply IH|]. intros res tr Hs.
    rewrite <-app_assoc. by apply sent_again. }
  destruct r as [resp|text]; [|by apply Hagain].
  destruct (retryable (hr_Code resp)) eqn:Hr; [by apply Hagain|].
  apply post_ret. by apply (sent_reply _ _ _ []); [|simpl; lia|].
Qed.

(** C27. The retry loop of the GitHub client, whatever the network answers: the
    same request is sent at most three times, with half a second and then a
    second in between; the first reply that is neither a transport error, a 5xx
    nor a 429 is the result; a cancelled context ends it during a pause; and
    after three failures the last one is reported.  It always ends. *)
Theorem send_correct : post (send (Ok req)) [] (sent 3 0 None).
Proof. apply send_loop_sent. Qed.
End send.

(** ** Least privilege *)

Section scope.
Context (url_Parse : string → option string) (IsPrint : string → bool) (c : AppClient).

Abbreviation log := (list (HttpRequest * GhReply)).

(** A request the app made as itself. *)
Definition app_request (method url : string) (body : option string) (req : HttpRequest) : Prop :=
  ∃ now jwt, appJWT IsPrint (ac_key c) (ac_appID c) now = Ok jwt ∧
             authorized url_Parse method url body jwt = Ok req.

(** The reply to [req], which was sent after the first [n] exchanges, is [out]. *)
Definition replied {A} (d : decoder A) (zero : A) (n : nat) (l : log) (req : HttpRequest) (out : A) : Prop :=
  ∃ resp, (req, Ok resp) ∈ drop n l ∧ (hr_Code resp < 300)%Z ∧ DecodeReply d zero (hr_Body resp) = (out, false).

(** GitHub named [id] as the installation that covers [repo]. *)
Definition located (l : log) (repo : string) (id : Z) : Prop :=
  ∃ req, app_request GET (installation_url c repo) None req ∧
         replied (dec_struct install_fields) 0%Z 0 l req id.

(** A request for a token of that installation, for [repo] alone and with these
    permissions. *)
Definition mint_request (l : log) (repo : string) (perms : list (string * string)) (req : HttpRequest) : Prop :=
  ∃ id, located l repo id ∧ app_request POST (tokens_url c id) (Some (token_body repo perms)) req.

(** GitHub answered one, after the first [n] exchanges, with [t]. *)
Definition minted (n : nat) (l : log) (repo : string) (perms : list (string * string)) (t : cachedToken) : Prop :=
  ∃ req expires, mint_request l repo perms req ∧
    replied (dec_struct token_fields) (mkTokenReply "" zero_time) n l req (mkTokenReply (ct_value t) expires) ∧
    ct_expires t = (expires - early)%Z.

(** A status posted with a token minted for that. *)
Definition status_request (l : log) (req : HttpRequest) : Prop :=
  ∃ repo sha state description targetURL t, minted 0 l repo controlPlanePerms t ∧
    authorized url_Parse POST (statuses_url (ac_base c) repo sha)
      (Some (status_body state description targetURL)) (ct_value t) = Ok req.

(** Everything the client has reason to send. *)
Definition legitimate (l : log) (req : HttpRequest) : Prop :=
  (∃ repo, app_request GET (installation_url c repo) None req) ∨
  (∃ repo perms, perms ∈ [clonePerms; controlPlanePerms] ∧ mint_request l repo perms req) ∨
  status_request l req.

(** What a key of the pool stands for. *)
Definition pool_key (key repo : string) (perms : list (string * string)) : Prop :=
  (key = "clone:" +:+ repo ∧ perms = clonePerms) ∨ (key = "status:" +:+ repo ∧ perms = controlPlanePerms).

Record gh_inv (w : GhWorld) : Prop := {
  inv_installs repo id : gw_installs w !! repo = Some id → located (gw_log w) repo id;
  inv_pool key t : gw_pool w !! key = Some t →
    ∃ repo perms, pool_key key repo perms ∧ minted 0 (gw_log w) repo perms t;
  inv_log req r : (req, r) ∈ gw_log w → legitimate (gw_log w) req
}.

Definition gh_others (w w' : GhWorld) : Prop :=
  gw_log w `prefix_of` gw_log w' ∧ (gw_now w ≤ gw_now w')%Z.

#[global] Instance gh_others_preorder : PreOrder gh_others.
Proof.
  split; [done|]. intros w1 w2 w3 [H1 H2] [H3 H4]. split; [by etrans|lia].
Qed.

(** *** What was said stays said *)

Lemma replied_mono {A} (d : decoder A) zero n m l l' req out :
  m ≤ n → l `prefix_of` l' → replied d zero n l req out → replied d zero m l' req out.
Proof.
  intros Hn [x ->] (resp & Hin & Hrest). exists resp. split; [|done].
  apply list_elem_of_lookup in Hin as [i Hi]. rewrite lookup_drop in Hi. apply list_elem_of_lookup.
  exists (n + i - m). rewrite lookup_drop. replace (m + (n + i - m)) with (n + i) by lia.
  by apply lookup_app_l_Some.
Qed.

Lemma located_mono l l' repo id : l `prefix_of` l' → located l repo id → located l' repo id.
Proof. intros Hl (req & Ha & Hr). exists req. split; [done|]. by eapply replied_mono. Qed.

Lemma mint_request_mono l l' repo perms req :
  l `prefix_of` l' → mint_request l repo perms req → mint_request l' repo perms req.
Proof. intros Hl (id & Hi & Hr). exists id. split; [by eapply located_mono|done]. Qed.

Lemma minted_mono n m l l' repo perms t :
  m ≤ n → l `prefix_of` l' → minted n l repo perms t → minted m l' repo perms t.
Proof.
  intros Hn Hl (req & e & Hm & Hr & He). exists req, e.
  split_and!; [by eapply mint_request_mono|by eapply replied_mono|done].
Qed.

Lemma legitimate_mono l l' req : l `prefix_of` l' → legitimate l req → legitimate l' req.
Proof.
  intros Hl [H|[(repo & perms & Hp & Hm)|Hs]]; [by left| |].
  - right; left. exists repo, perms. split; [done|]. by eapply mint_request_mono.
  - do 2 right. destruct Hs as (repo & sha & st & d & u & t & Hm & Ha).
    exists repo, sha, st, d, u, t. split; [by eapply minted_mono|done].
Qed.

(** *** Each call keeps the invariant *)

Abbreviation keeps_gh := (keeps gh_handle gh_others gh_inv).
Abbreviation safe_gh := (safe gh_handle gh_others gh_others gh_inv).

Lemma keeps_Do req w : gh_inv w → legitimate (gw_log w) req → keeps_gh (Do req) w.
Proof.
  intros [Hi Hp Hl] Hreq. split; simpl; [|split; simpl; [by apply prefix_app_r|lia]].
  assert (∀ r, gw_log w `prefix_of` gw_log w ++ [(req, r)]) as Hpre by (intros; by apply prefix_app_r).
  split; simpl.
  - intros repo id Hid. eapply located_mono; [apply Hpre|by apply Hi].
  - intros key t Ht. destruct (Hp key t Ht) as (repo & perms & Hk & Hm). exists repo, perms.
    split; [done|]. eapply minted_mono; [|apply Hpre|done]. lia.
  - intros req' r' Hin. apply elem_of_app in Hin as [Hin|Hin].
    + eapply legitimate_mono; [apply Hpre|by eapply Hl].
    + apply list_elem_of_singleton in Hin as [= -> ->]. by eapply legitimate_mono; [apply Hpre|].
Qed.

(** A call that reads, or only lets time pass. *)
Lemma keeps_read {X} (e : GhCall X) w :
  gh_inv w → gw_log (gh_handle X e w).2 = gw_log w → gw_installs (gh_handle X e w).2 = gw_installs w →
  gw_pool (gh_handle X e w).2 = gw_pool w → (gw_now w ≤ gw_now (gh_handle X e w).2)%Z → keeps_gh e w.
Proof.
  intros [Hi Hp Hl] E1 E2 E3 Hnow. split; [|split; [by rewrite E1|done]].
  split; rewrite ?E1, ?E2, ?E3; done.
Qed.

Lemma keeps_StoreInstall repo id w :
  gh_inv w → located (gw_log w) repo id → keeps_gh (StoreInstall repo id) w.
Proof.
  intros [Hi Hp Hl] Hloc. split; [|split; simpl; done]. split; simpl; [|done..].
  intros repo' id'. rewrite lookup_insert. case_decide; [naive_solver|apply Hi].
Qed.

Lemma keeps_StoreToken key t repo perms w :
  gh_inv w → pool_key key repo perms → minted 0 (gw_log w) repo perms t → keeps_gh (StoreToken key t) w.
Proof.
  intros [Hi Hp Hl] Hk Hm. split; [|split; simpl; done]. split; simpl; [done| |done].
  intros key' t'. rewrite lookup_insert. case_decide; [naive_solver|apply Hp].
Qed.

(** *** The programs *)

Lemma log_extends w w' req r :
  gh_others (gh_handle _ (Do req) w).2 w' → r = (gh_handle _ (Do req) w).1 →
  ∀ n, n ≤ length (gw_log w) → (req, r) ∈ drop n (gw_log w').
Proof.
  intros [[x Hx] _] -> n Hn. rewrite Hx. simpl. rewrite <-app_assoc, drop_app_le by done.
  apply elem_of_app. right. by left.
Qed.

(** A request that is legitimate is sent, and its reply is in the log. *)
Lemma safe_send n w newReq :
  (∀ req, newReq = Ok req → legitimate (gw_log w) req) → n ≤ length (gw_log w) →
  safe_gh (send newReq) w (λ res w', ∀ resp, res = Ok resp →
    ∃ req, newReq = Ok req ∧ (req, Ok resp) ∈ drop n (gw_log w')).
Proof.
  intros Hreq Hn. unfold send. generalize attempts 0 (@None attempt_error). intros k.
  revert w Hreq Hn. induction k as [|k IH]; intros w Hreq Hn attempt lastErr; [by intros w' _ _|].
  cbn [send_loop]. apply safe_bind; [apply _|].
  apply (safe_mono _ _ _ _ (λ w w' H, H) _ _ (λ _ _, True)); [case_match; [|by intros ?]|].
  { intros w1 Hw1 Hi1. split; [|by intros ?]. apply keeps_read; try done. simpl. lia. }
  intros done w1 [Hl1 Ht1] Hi1 _. destruct done; [by intros ?|].
  destruct newReq as [req|text]; [|by intros ?].
  intros w2 [Hl2 Ht2] Hi2. cbv beta.
  assert (gw_log w `prefix_of` gw_log w2) as Hl by by etrans.
  assert (length (gw_log w) ≤ length (gw_log w2)) as Hlen by by apply prefix_length.
  split; [apply keeps_Do; [done|]; by eapply legitimate_mono, Hreq|].
  unfold mbind, prog_mbind. cbn [prog_bind call].
  set (r := (gh_handle _ (Do req) w2).1). set (w3 := (gh_handle _ (Do req) w2).2).
  assert (∀ at' le, safe_gh (send_loop k at' le (Ok req)) w3 (λ res w', ∀ resp, res = Ok resp →
    ∃ req0, (Ok req : result string _) = Ok req0 ∧ (req0, Ok resp) ∈ drop n (gw_log w'))) as Hagain.
  { intros at' le. apply IH.
    - intros req0 [= <-]. eapply legitimate_mono; [|by apply Hreq]. simpl. by apply prefix_app_r.
    - simpl. rewrite length_app. lia. }
  destruct r as [resp|text] eqn:Er; [|apply Hagain]. destruct (retryable (hr_Code resp)); [apply Hagain|].
  intros w4 Hw4 _ resp' [= <-]. exists req. split; [done|].
  eapply (log_extends w2); [done|by symmetry|lia].
Qed.

Lemma app_request_authorized method url body now jwt req :
  appJWT IsPrint (ac_key c) (ac_appID c) now = Ok jwt →
  authorized url_Parse method url body jwt = Ok req → app_request method url body req.
Proof. intros ??. by exists now, jwt. Qed.

Lemma safe_app_jwt w :
  safe_gh (app_jwt IsPrint c) w (λ res _, ∀ jwt, res = Ok jwt →
    ∃ now, appJWT IsPrint (ac_key c) (ac_appID c) now = Ok jwt).
Proof.
  intros w1 Hw Hi. split; [by apply keeps_read|]. intros w2 _ _. simpl.
  destruct (appJWT _ _ _ _) eqn:E; [|done]. intros jwt' [= <-]. by exists (gw_now w1).
Qed.

Lemma safe_call_api {A} method url jwt body (d : decoder A) zero n w :
  (∀ req, authorized url_Parse method url body jwt = Ok req → legitimate (gw_log w) req) →
  n ≤ length (gw_log w) →
  safe_gh (call_api url_Parse method url jwt body d zero) w (λ res w', ∀ out, res = Ok out →
    ∃ req, authorized url_Parse method url body jwt = Ok req ∧ replied d zero n (gw_log w') req out).
Proof.
  intros Hreq Hn. unfold call_api. apply safe_try; [apply _|].
  eapply safe_mono; [apply _|done|by apply (safe_send n)|].
  intros [resp|e] w1 _ _ Hs; [|by intros ?]. intros w2 [Hl _] _. 
  destruct (Hs resp eq_refl) as (req & Hq & Hin). unfold checkResponse.
  destruct (300 <=? hr_Code resp)%Z eqn:Hc; [intros out; case_bool_decide; discriminate|].
  destruct (DecodeReply d zero (hr_Body resp)) as [out []] eqn:Hd; [by intros ?|].
  intros out' [= <-]. exists req. split; [done|].
  apply (replied_mono d zero n n (gw_log w1)); [done|exact Hl|]. exists resp. split_and!; [done|lia|done].
Qed.

Lemma safe_installationID repo w :
  safe_gh (installationID url_Parse IsPrint c repo) w (λ res w', ∀ id, res = Ok id → located (gw_log w') repo id).
Proof.
  unfold installationID. intros w1 Hw1 Hi1. split; [by apply keeps_read|]. simpl.
  destruct (gw_installs w1 !! repo) as [id|] eqn:Hid.
  { intros w2 [Hl _] _ id' [= <-]. eapply located_mono; [exact Hl|by apply Hi1]. }
  apply safe_try; [apply _|]. eapply safe_mono; [apply _|done|apply safe_app_jwt|].
  intros [jwt|e] w2 _ _ Hj; [|by intros ?]. destruct (Hj jwt eq_refl) as [now Hnow].
  apply safe_try; [apply _|]. eapply safe_mono; [apply _|done|apply (safe_call_api _ _ _ _ _ _ 0)|]; [|lia|].
  { intros req Hr. left. exists repo. by eapply app_request_authorized. }
  intros [id|e] w3 _ _ Hc; [|by intros ?]. destruct (Hc id eq_refl) as (req & Hr & Hrep).
  assert (located (gw_log w3) repo id) as Hloc.
  { exists req. split; [by eapply app_request_authorized|done]. }
  destruct (id =? 0)%Z; [by intros ?|]. intros w4 [Hl4 _] Hi4. split.
  - apply keeps_StoreInstall; [done|]. by eapply located_mono.
  - intros w5 [Hl5 _] _ id' [= <-]. eapply located_mono; [exact Hl5|]. by eapply located_mono.
Qed.

(** The token is good: GitHub issued it during the call, or it came from the
    pool and had not expired when it was looked up. *)
Definition good_token (w w' : GhWorld) (repo : string) (perms : list (string * string)) (v : string) : Prop :=
  ∃ t, ct_value t = v ∧
    (minted (length (gw_log w)) (gw_log w') repo perms t ∨
     minted 0 (gw_log w') repo perms t ∧
     ∃ now, (gw_now w ≤ now ≤ gw_now w')%Z ∧ (now < ct_expires t)%Z).

Lemma good_token_later w w' w'' repo perms v :
  gh_others w' w'' → good_token w w' repo perms v → good_token w w'' repo perms v.
Proof.
  intros [Hl Ht] (t & Hv & [Hm|[Hm (now & Hnow & He)]]); exists t; (split; [done|]).
  - left. by eapply minted_mono.
  - right. split; [by eapply minted_mono|]. exists now. split; [lia|done].
Qed.

Lemma pool_key_inj key repo repo' perms perms' :
  pool_key key repo perms → pool_key key repo' perms' → repo' = repo ∧ perms' = perms.
Proof. intros [[-> ->]|[-> ->]] [[E ->]|[E ->]]; by injection E. Qed.

Lemma pool_key_perms key repo perms : pool_key key repo perms → perms ∈ [clonePerms; controlPlanePerms].
Proof. intros [[_ ->]|[_ ->]]; set_solver. Qed.

Lemma safe_mint_token repo key perms w0 w :
  pool_key key repo perms → gh_others w0 w →
  safe_gh (mint_token url_Parse IsPrint c repo key perms) w
    (λ res w', ∀ v, res = Ok v → good_token w0 w' repo perms v).
Proof.
  intros Hk [Hl0 _]. unfold mint_token.
  apply safe_try; [apply _|]. eapply safe_mono; [apply _|done|apply safe_installationID|].
  intros [id|e] w1 [Hl1 _] _ Hloc; [|by intros ?]. specialize (Hloc id eq_refl).
  apply safe_try; [apply _|]. eapply safe_mono; [apply _|done|apply safe_app_jwt|].
  intros [jwt|e] w2 [Hl2 _] _ Hj; [|by intros ?]. destruct (Hj jwt eq_refl) as [now Hnow].
  assert (∀ req, authorized url_Parse POST (tokens_url c id) (Some (token_body repo perms)) jwt = Ok req →
    mint_request (gw_log w2) repo perms req) as Hmr.
  { intros req Hr. exists id. split; [by eapply located_mono|]. by eapply app_request_authorized. }
  apply safe_try; [apply _|].
  eapply safe_mono; [apply _|done|apply (safe_call_api _ _ _ _ _ _ (length (gw_log w0)))|].
  { intros req Hr. right; left. exists repo, perms. split; [by eapply pool_key_perms|by apply Hmr]. }
  { apply prefix_length. etrans; [exact Hl0|]. by etrans. }
  intros [[v expires]|e] w3 [Hl3 _] _ Hc; [|by intros ?].
  destruct (Hc _ eq_refl) as (req & Hr & Hrep). set (t := mkCached v (expires - early)).
  assert (minted (length (gw_log w0)) (gw_log w3) repo perms t) as Hm.
  { exists req, expires. split_and!; [|done..]. eapply mint_request_mono; [exact Hl3|by apply Hmr]. }
  simpl. case_bool_decide; [by intros ?|]. intros w4 [Hl4 _] Hi4. split.
  - eapply keeps_StoreToken; [done..|]. eapply minted_mono; [|exact Hl4|done]. lia.
  - intros w5 [Hl5 _] _ v' [= <-]. exists t. split; [done|]. left.
    eapply minted_mono; [done|exact Hl5|]. by eapply minted_mono.
Qed.

Lemma safe_token repo key perms w :
  pool_key key repo perms →
  safe_gh (token url_Parse IsPrint c repo key perms) w
    (λ res w', ∀ v, res = Ok v → good_token w w' repo perms v).
Proof.
  intros Hk. unfold token. intros w1 Hw1 Hi1. split; [by apply keeps_read|]. simpl.
  destruct (gw_pool w1 !! key) as [t|] eqn:Ht; [|by apply safe_mint_token].
  intros w2 Hw2 Hi2. split; [by apply keeps_read|]. simpl.
  assert (gh_others w w2) as Hw by by etrans.
  destruct (gw_now w2 <? ct_expires t)%Z eqn:He; [|by apply safe_mint_token].
  intros w3 [Hl3 Ht3] _ v [= <-]. exists t. split; [done|]. right.
  destruct (inv_pool _ Hi1 key t Ht) as (repo' & perms' & Hk' & Hm).
  destruct (pool_key_inj _ _ _ _ _ Hk Hk') as [-> ->]. split.
  - eapply minted_mono; [done| |done]. etrans; [apply Hw2|done].
  - exists (gw_now w2). destruct Hw. lia.
Qed.

Lemma good_token_minted w w' repo perms v :
  good_token w w' repo perms v → ∃ t, ct_value t = v ∧ minted 0 (gw_log w') repo perms t.
Proof.
  intros (t & Hv & [Hm|[Hm _]]); exists t; (split; [done|]); [|done]. eapply minted_mono; [|done..]. lia.
Qed.

Lemma safe_SetStatus repo sha state description targetURL w :
  safe_gh (AppClient_SetStatus url_Parse IsPrint c repo sha state description targetURL) w (λ _ _, True).
Proof.
  unfold AppClient_SetStatus. apply safe_bind; [apply _|].
  eapply safe_mono; [apply _|done|apply (safe_token repo _ controlPlanePerms); by right|].
  intros [v|e] w1 _ _ Hv; [|by intros ?]. destruct (good_token_minted _ _ _ _ _ (Hv v eq_refl)) as (t & <- & Hm).
  unfold postStatus. apply safe_try; [apply _|].
  eapply safe_mono; [apply _|done|apply (safe_send 0); [|lia]|by intros []].
  intros req Hr. do 2 right. by exists repo, sha, state, description, targetURL, t.
Qed.

(** *** The whole client *)

(** What the server's handlers ask of the client. *)
Inductive gh_task : Type :=
| CloneTask (repo : string)
| StatusTask (repo sha state description targetURL : string).

Definition run_task (t : gh_task) : Prog GhCall (result gh_error string) :=
  match t with
  | CloneTask repo => CloneToken url_Parse IsPrint (App c) repo
  | StatusTask repo sha state description targetURL =>
      r ← SetStatus url_Parse IsPrint (App c) repo sha state description targetURL;
      mret match r with Ok _ => Ok "" | Err e => Err e end
  end.

Definition task_post (t : gh_task) (w : GhWorld) (r : result gh_error string) (w' : GhWorld) : Prop :=
  match t with
  | CloneTask repo => ∀ v, r = Ok v → good_token w w' repo clonePerms v
  | StatusTask _ _ _ _ _ => True
  end.

Lemma safe_task t w : safe_gh (run_task t) w (task_post t w).
Proof.
  destruct t as [repo|repo sha state description targetURL].
  - apply safe_token. by left.
  - apply safe_bind; [apply _|]. eapply safe_mono; [apply _|done|apply safe_SetStatus|]. by intros [] ? _ _ _ ?.
Qed.

(** Time passes between calls. *)
Definition clock (w w' : GhWorld) : Prop :=
  ∃ d, (0 ≤ d)%Z ∧
       w' = mkGh (gw_installs w) (gw_pool w) (gw_now w + d) (gw_log w) (gw_net w) (gw_done w).

(** The client from its creation: tasks start at any time and their calls
    interleave. *)
Definition client_reaches (w0 : GhWorld) : list (thread (A := result gh_error string)) * GhWorld → Prop :=
  rtc (threads_step gh_handle run_task clock) ([], w0).

Lemma client_sound w0 ts w :
  fresh_client w0 → gw_log w0 = [] → client_reaches w0 (ts, w) →
  threads_ok gh_handle gh_others gh_others gh_inv task_post (ts, w).
Proof.
  intros [Hi Hp] Hl Hr. eapply threads_invariant; [apply _|done|..|exact Hr].
  - intros t w' _. apply safe_task.
  - intros w1 w2 (d & Hd & ->) [? ? ?]. split; [by split|]. split; simpl; [done|lia].
  - split; [by rewrite Hi|by rewrite Hp|rewrite Hl; by intros ? ? ?%not_elem_of_nil].
Qed.

(** C18. Least privilege, for any number of clone-token and commit-status calls
    interleaved in any way and whatever GitHub answers.  (1) A clone token that
    is handed out is the answer to a request, signed by the app, for a token
    restricted to that one repository with [contents: read] and nothing else -
    never the token that can write statuses - and it was minted during the call,
    or had not reached two minutes before its expiry when it was taken from the
    cache.  (2) Every request the client ever sends is a lookup of an
    installation, a request for a token with one of the two permission sets, or
    a status posted with a token minted for statuses on that repository. *)
Theorem clone_token_is_scoped (w0 w : GhWorld) (ts : list thread)
    (Hfresh : fresh_client w0) (Hlog : gw_log w0 = []) (Hreach : client_reaches w0 (ts, w)) :
  (∀ i th repo v, ts !! i = Some th → th_task th = CloneTask repo → th_prog th = Ret (Ok v) →
     good_token (th_start th) w repo clonePerms v) ∧
  (∀ req r, (req, r) ∈ gw_log w → legitimate (gw_log w) req).
Proof.
  destruct (client_sound w0 ts w Hfresh Hlog Hreach) as [Hi Hts]. split; [|apply Hi].
  intros i th repo v Hth Ht Hp. pose proof (Forall_lookup_1 _ _ _ _ Hts Hth) as Hs. simpl in Hs.
  rewrite Ht, Hp in Hs. by apply (Hs w).
Qed.
End scope.
