(* ===== verification/Models.v ===== *)
(** * Jobs, runners and their state machines (internal/models)

    [Job] and [Runner] are the structs of job.go and runner.go; the two
    transition tables are the map literals of those files, read through the
    same loops. Times are integers (microseconds, what PostgreSQL stores). *)
From S2P Require Import Prelude.
From Stdlib Require Import Ascii.

(** ** Job states *)

Inductive JobStatus : Type :=
| JobQueued | JobAssigned | JobRunning | JobSuccess | JobFailed | JobCancelled.

#[export] Instance JobStatus_eq_dec : EqDecision JobStatus.
Proof. solve_decision. Defined.

(** The text of a status, as stored in the [status] column and sent in JSON. *)
Definition job_status_string (s : JobStatus) : string :=
  match s with
  | JobQueued => "QUEUED"
  | JobAssigned => "ASSIGNED"
  | JobRunning => "RUNNING"
  | JobSuccess => "SUCCESS"
  | JobFailed => "FAILED"
  | JobCancelled => "CANCELLED"
  end.

(** [jobTransitions]: the whole job state machine. *)
Definition jobTransitions (s : JobStatus) : list JobStatus :=
  match s with
  | JobQueued => [JobAssigned; JobCancelled]
  | JobAssigned => [JobRunning; JobQueued; JobFailed; JobCancelled]
  | JobRunning => [JobSuccess; JobFailed; JobCancelled; JobQueued]
  | JobSuccess => []
  | JobFailed => []
  | JobCancelled => []
  end.

(** [for _, allowed := range l { if allowed == next { return true } }; return false] *)
Fixpoint range_has {A} `{EqDecision A} (next : A) (l : list A) : bool :=
  match l with
  | [] => false
  | allowed :: l => if decide (allowed = next) then true else range_has next l
  end.

Definition CanTransitionTo (s next : JobStatus) : bool :=
  range_has next (jobTransitions s).

Definition Terminal (s : JobStatus) : bool := length (jobTransitions s) =? 0.

Definition all_statuses : list JobStatus :=
  [JobQueued; JobAssigned; JobRunning; JobSuccess; JobFailed; JobCancelled].

(** [ParseJobStatus]: the switch over the six constants; the error carries the
    rejected text. *)
Definition ParseJobStatus (s : string) : result string JobStatus :=
  match list_find (λ st, job_status_string st = s) all_statuses with
  | Some (_, st) => Ok st
  | None => Err s
  end.

(** ** Runner states *)

Inductive RunnerStatus : Type :=
| RunnerIdle | RunnerBusy | RunnerOffline | RunnerDraining.

#[export] Instance RunnerStatus_eq_dec : EqDecision RunnerStatus.
Proof. solve_decision. Defined.

Definition runnerTransitions (s : RunnerStatus) : list RunnerStatus :=
  match s with
  | RunnerIdle => [RunnerBusy; RunnerOffline; RunnerDraining]
  | RunnerBusy => [RunnerIdle; RunnerOffline; RunnerDraining]
  | RunnerDraining => [RunnerOffline; RunnerIdle]
  | RunnerOffline => [RunnerIdle]
  end.

Definition RunnerCanTransitionTo (s next : RunnerStatus) : bool :=
  range_has next (runnerTransitions s).

(** ** Records *)

Record Job : Type := mkJob {
  j_ID : string;
  j_Repository : string;
  j_CloneURL : string;
  j_CommitSHA : string;
  j_Branch : string;
  j_EventType : string;
  j_ConfigRef : string;
  j_Labels : list string;
  j_Status : JobStatus;
  j_RunnerID : option string;
  j_Attempts : Z;
  j_ExitCode : option Z;
  j_Error : string;
  j_CreatedAt : Z;
  j_StartedAt : option Z;
  j_CompletedAt : option Z
}.

Record Runner : Type := mkRunner {
  r_ID : string;
  r_Name : string;
  r_Status : RunnerStatus;
  r_Labels : option (list string); (* [None] is a nil slice *)
  r_Architecture : string;
  r_OS : string;
  r_CurrentJobID : option string;
  r_LastHeartbeat : Z;
  r_LastAssigned : option Z;
  r_CreatedAt : Z
}.

#[export] Instance Job_eq_dec : EqDecision Job.
Proof. solve_decision. Defined.
#[export] Instance Runner_eq_dec : EqDecision Runner.
Proof. solve_decision. Defined.

(** [CanRun]: build the set of the runner's labels, then look every required
    label up in it ([have[need]] is [false] for an absent key). *)
Definition label_set (labels : list string) : gmap string bool :=
  foldl (λ have l, <[l := true]> have) ∅ labels.

Fixpoint have_all (have : gmap string bool) (required : list string) : bool :=
  match required with
  | [] => true
  | need :: required =>
      if default false (have !! need) then have_all have required else false
  end.

Definition CanRun (r : Runner) (required : list string) : bool :=
  have_all (label_set (default [] (r_Labels r))) required.

(** ** Facts about the state machines *)

Create HintDb models.

Lemma range_has_true {A} `{EqDecision A} (x : A) l : range_has x l = true ↔ x ∈ l.
Proof.
  induction l as [|y l IH]; simpl; [by rewrite elem_of_nil|].
  rewrite elem_of_cons. case_decide as Hd; naive_solver.
Qed.

Lemma all_statuses_complete s : s ∈ all_statuses.
Proof. destruct s; set_solver. Qed.

Lemma job_status_string_inj s s' : job_status_string s = job_status_string s' → s = s'.
Proof. by destruct s, s'. Qed.

(** [ParseJobStatus] inverts the text of a status, and rejects every other. *)
Lemma ParseJobStatus_ok s st : ParseJobStatus s = Ok st ↔ s = job_status_string st.
Proof.
  unfold ParseJobStatus. destruct (list_find _ _) as [[i st']|] eqn:E.
  - apply list_find_Some in E as (_ & <- & _). split; [by intros [= ->]|].
    intros ->%job_status_string_inj. done.
  - split; [done|]. intros ->. eapply list_find_None in E.
    rewrite Forall_forall in E. by destruct (E st (all_statuses_complete st)).
Qed.

(** Reachability in the job state machine. *)
Definition job_moves : relation JobStatus := λ s s', CanTransitionTo s s' = true.
Definition job_path : relation JobStatus := rtc job_moves.

Lemma Terminal_no_moves s s' : Terminal s = true → CanTransitionTo s s' = false.
Proof. by destruct s. Qed.

Lemma job_path_terminal s s' : Terminal s = true → job_path s s' → s' = s.
Proof.
  intros Ht [->|(s1 & H1 & _)]%rtc_inv; [done|].
  unfold job_moves in H1. by rewrite Terminal_no_moves in H1.
Qed.

(** The state machine as it is meant: a job is assigned, started and finished,
    in this order; it may be sent back to the queue or fail while a runner has
    it, and be cancelled until it is finished. *)
Inductive job_step : relation JobStatus :=
| step_assign : job_step JobQueued JobAssigned
| step_start : job_step JobAssigned JobRunning
| step_succeed : job_step JobRunning JobSuccess
| step_fail s : s = JobAssigned ∨ s = JobRunning → job_step s JobFailed
| step_requeue s : s = JobAssigned ∨ s = JobRunning → job_step s JobQueued
| step_cancel s : s = JobQueued ∨ s = JobAssigned ∨ s = JobRunning → job_step s JobCancelled.

Lemma CanTransitionTo_step s s' : CanTransitionTo s s' = true ↔ job_step s s'.
Proof.
  split.
  - destruct s, s'; intros H; try discriminate H; constructor; auto.
  - intros []; naive_solver.
Qed.

Lemma job_moves_irrefl s : CanTransitionTo s s = false.
Proof. by destruct s. Qed.

(** ** Facts about labels *)

Lemma label_set_lookup labels l :
  default false (label_set labels !! l) = true ↔ l ∈ labels.
Proof.
  unfold label_set.
  assert (∀ have : gmap string bool,
    default false (foldl (λ have l, <[l := true]> have) have labels !! l) = true ↔
    default false (have !! l) = true ∨ l ∈ labels) as ->; [|set_solver].
  induction labels as [|x labels IH]; intros have; simpl; [set_solver|].
  rewrite IH, elem_of_cons. destruct (decide (x = l)) as [->|].
  - rewrite lookup_insert_eq. naive_solver.
  - rewrite lookup_insert_ne by done. naive_solver.
Qed.

Lemma CanRun_true r required : CanRun r required = true ↔ ∀ l, l ∈ required → l ∈ default [] (r_Labels r).
Proof.
  unfold CanRun. induction required as [|need required IH]; simpl; [set_solver|].
  pose proof (label_set_lookup (default [] (r_Labels r)) need) as Hn.
  destruct (default false (label_set (default [] (r_Labels r)) !! need)); [rewrite IH|]; set_solver.
Qed.
