(* ===== verification/Sql.v ===== *)
(** * The database: tables and the SQL statements of internal/store

    [JobRow] and [RunnerRow] are the rows of the two tables of migrations/
    0001_init.sql and 0002_log_sequence.sql; each definition [sql_*] is one
    statement of store.go, as a function from the tables to its reply and the
    tables after it.  A statement is atomic.  The transaction of [AssignJob] is
    one atomic step too: its first UPDATE locks the job row and its second the
    runner row, so no other writer runs between them.

    A reply is [SqlUnique] for a unique violation (23505) and [SqlFail] for
    any other error; both leave the tables as they were.  Failures of the
    connection itself are not here: see World. *)
From S2P Require Import Prelude GoLib Models.

Inductive sqlres (X : Type) : Type :=
| SqlOk (x : X)
| SqlUnique
| SqlFail.
Arguments SqlOk {X} x.
Arguments SqlUnique {X}.
Arguments SqlFail {X}.

(** ** Tables *)

Record JobRow : Type := mkJobRow {
  jr_job : Job;
  jr_logs : string;
  jr_log_seq : Z
}.

Record RunnerRow : Type := mkRunnerRow {
  rr_runner : Runner;
  rr_token_hash : string
}.

Record DB : Type := mkDB {
  db_jobs : gmap string JobRow;
  db_runners : gmap string RunnerRow;
  db_now : Z
}.

Definition set_jobs (jobs : gmap string JobRow) (db : DB) : DB :=
  mkDB jobs (db_runners db) (db_now db).
Definition set_runners (runners : gmap string RunnerRow) (db : DB) : DB :=
  mkDB (db_jobs db) runners (db_now db).

(** A TEXT value: UTF-8 without the byte 0.  Any other parameter is refused. *)
Definition text_ok (s : string) : bool := negb (contains_byte s (byte_of 0)) && valid_utf8 s.

(** ** The partial unique index [jobs_active_unique] *)

(** [WHERE status IN ('QUEUED', 'ASSIGNED', 'RUNNING')] *)
Definition active (s : JobStatus) : bool :=
  match s with
  | JobQueued | JobAssigned | JobRunning => true
  | JobSuccess | JobFailed | JobCancelled => false
  end.

(** [(repository, commit_sha, event_type)] *)
Definition index_key (j : Job) : string * string * string :=
  (j_Repository j, j_CommitSHA j, j_EventType j).

Definition index_clash (id : string) (j : Job) (id' : string) (row' : JobRow) : Prop :=
  id' ≠ id ∧ active (j_Status (jr_job row')) = true ∧ index_key (jr_job row') = index_key j.

#[export] Instance index_clash_dec id j id' row' : Decision (index_clash id j id' row').
Proof. unfold index_clash. apply _. Defined.

(** May job [j] be stored under [id] next to the other rows? *)
Definition index_ok (jobs : gmap string JobRow) (id : string) (j : Job) : bool :=
  negb (active (j_Status j)) ||
  bool_decide (map_Forall (λ id' row', ¬ index_clash id j id' row') jobs).

(** ** Statements on jobs *)

(** The row [INSERT INTO jobs] makes: the columns it does not name take the
    defaults of the schema. *)
Definition fresh_job_row (now : Z) (j : Job) : JobRow :=
  mkJobRow
    (mkJob (j_ID j) (j_Repository j) (j_CloneURL j) (j_CommitSHA j) (j_Branch j)
       (j_EventType j) (j_ConfigRef j) (j_Labels j) (j_Status j)
       None 0 None "" now None None)
    "" 0.

(** The text parameters of the INSERT. *)
Definition job_text_ok (j : Job) : bool :=
  forallb text_ok ([j_ID j; j_Repository j; j_CloneURL j; j_CommitSHA j; j_Branch j; j_EventType j;
                    j_ConfigRef j] ++ j_Labels j).

Definition sql_insert_job (j : Job) (db : DB) : sqlres unit * DB :=
  if negb (job_text_ok j) then (SqlFail, db) else
  match db_jobs db !! j_ID j with
  | Some _ => (SqlUnique, db) (* PRIMARY KEY *)
  | None =>
      if index_ok (db_jobs db) (j_ID j) j
      then (SqlOk tt, set_jobs (<[j_ID j := fresh_job_row (db_now db) j]> (db_jobs db)) db)
      else (SqlUnique, db)
  end.

Definition sql_select_job (id : string) (db : DB) : sqlres (option Job) * DB :=
  (SqlOk (jr_job <$> db_jobs db !! id), db).

(** [ORDER BY created_at DESC LIMIT $1] *)
Definition created_desc (j j' : Job) : Prop := (j_CreatedAt j' ≤ j_CreatedAt j)%Z.
#[export] Instance created_desc_dec j j' : Decision (created_desc j j').
Proof. unfold created_desc. apply _. Defined.

Definition sql_select_jobs `{RangeOrder} (limit : Z) (db : DB) : sqlres (list Job) * DB :=
  if (limit <? 0)%Z then (SqlFail, db)
  else (SqlOk (take (Z.to_nat limit)
          (merge_sort created_desc ((jr_job ∘ snd) <$> range_order (db_jobs db)))), db).

(** The [extra] assignments [transition] is called with. *)
Inductive SetClause : Type :=
| SetStarted                                  (* , started_at = now() *)
| SetCompleted (exitCode : Z) (errMsg : string)
                     (* , completed_at = now(), exit_code = $4, error = $5 *)
| SetRequeued                 (* , runner_id = NULL, started_at = NULL *)
| SetCancelled.                               (* , completed_at = now() *)

(** [SET status = $1 extra] on one row. *)
Definition apply_set (now : Z) (to : JobStatus) (extra : SetClause) (j : Job) : Job :=
  let mk runner exit err started completed :=
    mkJob (j_ID j) (j_Repository j) (j_CloneURL j) (j_CommitSHA j) (j_Branch j)
      (j_EventType j) (j_ConfigRef j) (j_Labels j) to runner (j_Attempts j) exit err
      (j_CreatedAt j) started completed in
  match extra with
  | SetStarted => mk (j_RunnerID j) (j_ExitCode j) (j_Error j) (Some now) (j_CompletedAt j)
  | SetCompleted exitCode errMsg =>
      mk (j_RunnerID j) (Some exitCode) errMsg (j_StartedAt j) (Some now)
  | SetRequeued => mk None (j_ExitCode j) (j_Error j) None (j_CompletedAt j)
  | SetCancelled => mk (j_RunnerID j) (j_ExitCode j) (j_Error j) (j_StartedAt j) (Some now)
  end.

(** [exit_code] is an INT and [error] a TEXT: other values are refused. *)
Definition set_clause_ok (extra : SetClause) : bool :=
  match extra with
  | SetCompleted exitCode errMsg => int4_ok exitCode && text_ok errMsg
  | _ => true
  end.

(** [UPDATE jobs SET status = $1 extra WHERE id = $2 AND status = $3] *)
Definition sql_update_status (to : JobStatus) (extra : SetClause) (id : string)
    (from : JobStatus) (db : DB) : sqlres nat * DB :=
  if negb (set_clause_ok extra) then (SqlFail, db) else
  match db_jobs db !! id with
  | Some row =>
      if decide (j_Status (jr_job row) = from) then
        let j' := apply_set (db_now db) to extra (jr_job row) in
        if index_ok (db_jobs db) id j'
        then (SqlOk 1, set_jobs (<[id := mkJobRow j' (jr_logs row) (jr_log_seq row)]> (db_jobs db)) db)
        else (SqlUnique, db)
      else (SqlOk 0, db)
  | None => (SqlOk 0, db)
  end.

(** [UPDATE jobs SET logs = logs || $3, log_seq = $2 WHERE id = $1 AND $2 > log_seq] *)
Definition sql_append_logs (id : string) (seq : Z) (chunk : string) (db : DB) : sqlres nat * DB :=
  if negb (int4_ok seq && text_ok chunk) then (SqlFail, db) else
  match db_jobs db !! id with
  | Some row =>
      if (jr_log_seq row <? seq)%Z
      then (SqlOk 1, set_jobs (<[id := mkJobRow (jr_job row) (jr_logs row +:+ chunk) seq]> (db_jobs db)) db)
      else (SqlOk 0, db)
  | None => (SqlOk 0, db)
  end.

Definition sql_select_log_seq (id : string) (db : DB) : sqlres (option Z) * DB :=
  (SqlOk (jr_log_seq <$> db_jobs db !! id), db).

Definition sql_select_logs (id : string) (db : DB) : sqlres (option string) * DB :=
  (SqlOk (jr_logs <$> db_jobs db !! id), db).

(** ** Statements on runners *)

(** [SET status, current_job_id, last_heartbeat, last_assigned_at] on one row. *)
Definition set_runner (status : RunnerStatus) (job : option string) (heartbeat : Z)
    (assigned : option Z) (row : RunnerRow) : RunnerRow :=
  let r := rr_runner row in
  mkRunnerRow
    (mkRunner (r_ID r) (r_Name r) status (r_Labels r) (r_Architecture r) (r_OS r)
       job heartbeat assigned (r_CreatedAt r))
    (rr_token_hash row).

(** The text parameters of the INSERT; [labels] is NOT NULL and a nil slice is
    sent as NULL. *)
Definition runner_text_ok (r : Runner) (tokenHash : string) : bool :=
  match r_Labels r with
  | None => false
  | Some labels =>
      forallb text_ok ([r_ID r; r_Name r; tokenHash; r_Architecture r; r_OS r] ++ labels)
  end.

Definition sql_insert_runner (r : Runner) (tokenHash : string) (db : DB) : sqlres unit * DB :=
  if negb (runner_text_ok r tokenHash) then (SqlFail, db) else
  match db_runners db !! r_ID r with
  | Some _ => (SqlUnique, db)
  | None =>
      (SqlOk tt, set_runners (<[r_ID r :=
         mkRunnerRow (mkRunner (r_ID r) (r_Name r) RunnerIdle (r_Labels r) (r_Architecture r)
           (r_OS r) None (db_now db) None (db_now db)) tokenHash]> (db_runners db)) db)
  end.

Definition sql_select_runner (id : string) (db : DB) : sqlres (option Runner) * DB :=
  (SqlOk (rr_runner <$> db_runners db !! id), db).

Definition sql_select_token_hash (id : string) (db : DB) : sqlres (option string) * DB :=
  (SqlOk (rr_token_hash <$> db_runners db !! id), db).

Definition runner_created_desc (r r' : Runner) : Prop := (r_CreatedAt r' ≤ r_CreatedAt r)%Z.
#[export] Instance runner_created_desc_dec r r' : Decision (runner_created_desc r r').
Proof. unfold runner_created_desc. apply _. Defined.

Definition sql_select_runners `{RangeOrder} (db : DB) : sqlres (list Runner) * DB :=
  (SqlOk (merge_sort runner_created_desc ((rr_runner ∘ snd) <$> range_order (db_runners db))), db).

(** [SET last_heartbeat = now(), status = CASE WHEN status = 'OFFLINE' THEN 'IDLE' ELSE status END] *)
Definition beat (now : Z) (row : RunnerRow) : RunnerRow :=
  let r := rr_runner row in
  set_runner (match r_Status r with RunnerOffline => RunnerIdle | s => s end)
    (r_CurrentJobID r) now (r_LastAssigned r) row.

Definition sql_heartbeat (id : string) (db : DB) : sqlres nat * DB :=
  match db_runners db !! id with
  | Some row => (SqlOk 1, set_runners (<[id := beat (db_now db) row]> (db_runners db)) db)
  | None => (SqlOk 0, db)
  end.

(** [now() - $1::interval] for an interval of whole seconds *)
Definition cutoff (now secs : Z) : Z := (now - secs * 1000000)%Z.

(** [ORDER BY last_assigned_at ASC NULLS FIRST] *)
Definition assigned_nulls_first (r r' : Runner) : Prop :=
  match r_LastAssigned r, r_LastAssigned r' with
  | None, _ => True
  | Some _, None => False
  | Some t, Some t' => (t ≤ t')%Z
  end.
#[export] Instance assigned_nulls_first_dec r r' : Decision (assigned_nulls_first r r').
Proof. unfold assigned_nulls_first. repeat case_match; apply _. Defined.

(** [WHERE status = 'IDLE' AND last_heartbeat > now() - $1::interval] *)
Definition is_idle_live (now secs : Z) (r : Runner) : Prop :=
  r_Status r = RunnerIdle ∧ (cutoff now secs < r_LastHeartbeat r)%Z.
#[export] Instance is_idle_live_dec now secs r : Decision (is_idle_live now secs r).
Proof. unfold is_idle_live. apply _. Defined.

Definition sql_idle_runners `{RangeOrder} (secs : Z) (db : DB) : sqlres (list Runner) * DB :=
  (SqlOk (merge_sort assigned_nulls_first
     (filter (is_idle_live (db_now db) secs) ((rr_runner ∘ snd) <$> range_order (db_runners db)))), db).

(** [UPDATE runners SET status = 'IDLE', current_job_id = NULL WHERE id = $1 AND status = 'BUSY'] *)
Definition release (row : RunnerRow) : RunnerRow :=
  set_runner RunnerIdle None (r_LastHeartbeat (rr_runner row)) (r_LastAssigned (rr_runner row)) row.

Definition sql_release_runner (id : string) (db : DB) : sqlres nat * DB :=
  match db_runners db !! id with
  | Some row =>
      if decide (r_Status (rr_runner row) = RunnerBusy)
      then (SqlOk 1, set_runners (<[id := release row]> (db_runners db)) db)
      else (SqlOk 0, db)
  | None => (SqlOk 0, db)
  end.

(** [WHERE status <> 'OFFLINE' AND last_heartbeat < now() - $1::interval] *)
Definition is_stale (now secs : Z) (row : RunnerRow) : Prop :=
  r_Status (rr_runner row) ≠ RunnerOffline ∧ (r_LastHeartbeat (rr_runner row) < cutoff now secs)%Z.
#[export] Instance is_stale_dec now secs row : Decision (is_stale now secs row).
Proof. unfold is_stale. apply _. Defined.

(** [SET status = 'OFFLINE', current_job_id = NULL] *)
Definition knock_out (row : RunnerRow) : RunnerRow :=
  set_runner RunnerOffline None (r_LastHeartbeat (rr_runner row)) (r_LastAssigned (rr_runner row)) row.

(** The rows of the CTE [stale]: [id, COALESCE(current_job_id, '')]. *)
Definition stale_rows (secs : Z) (db : DB) : gmap string string :=
  (λ row, default "" (r_CurrentJobID (rr_runner row))) <$>
    filter (λ kv, is_stale (db_now db) secs kv.2) (db_runners db).

Definition sql_reap_runners `{RangeOrder} (secs : Z) (db : DB) : sqlres (list (string * string)) * DB :=
  (SqlOk (range_order (stale_rows secs db)),
   set_runners ((λ row, if decide (is_stale (db_now db) secs row) then knock_out row else row)
                  <$> db_runners db) db).

(** ** The transaction of [AssignJob] *)

Inductive TxOutcome : Type :=
| TxCommitted
| TxJobChanged
| TxRunnerNotIdle.

(** [UPDATE jobs SET status = 'ASSIGNED', runner_id = $1, attempts = attempts + 1
    WHERE id = $2 AND status = $3]: the foreign key wants the runner to exist,
    the column wants [attempts + 1] to fit. *)
Definition tx_assign_job (runnerID jobID : string) (from : JobStatus) (db : DB) : sqlres nat * DB :=
  match db_jobs db !! jobID with
  | Some row =>
      let j := jr_job row in
      if decide (j_Status j = from) then
        let j' := mkJob (j_ID j) (j_Repository j) (j_CloneURL j) (j_CommitSHA j) (j_Branch j)
          (j_EventType j) (j_ConfigRef j) (j_Labels j) JobAssigned (Some runnerID)
          (j_Attempts j + 1) (j_ExitCode j) (j_Error j) (j_CreatedAt j) (j_StartedAt j)
          (j_CompletedAt j) in
        if negb (int4_ok (j_Attempts j + 1)) then (SqlFail, db)
        else if negb (index_ok (db_jobs db) jobID j') then (SqlUnique, db)
        else if bool_decide (is_Some (db_runners db !! runnerID))
        then (SqlOk 1, set_jobs (<[jobID := mkJobRow j' (jr_logs row) (jr_log_seq row)]> (db_jobs db)) db)
        else (SqlFail, db)
      else (SqlOk 0, db)
  | None => (SqlOk 0, db)
  end.

(** [UPDATE runners SET status = 'BUSY', current_job_id = $1, last_assigned_at = now()
    WHERE id = $2 AND status = 'IDLE'] *)
Definition tx_busy_runner (jobID runnerID : string) (db : DB) : sqlres nat * DB :=
  match db_runners db !! runnerID with
  | Some row =>
      if decide (r_Status (rr_runner row) = RunnerIdle)
      then (SqlOk 1, set_runners (<[runnerID :=
              set_runner RunnerBusy (Some jobID) (r_LastHeartbeat (rr_runner row))
                (Some (db_now db)) row]> (db_runners db)) db)
      else (SqlOk 0, db)
  | None => (SqlOk 0, db)
  end.

(** Begin ... Commit: every early return of the Go code runs the deferred
    [tx.Rollback], that is, returns the tables the transaction began with. *)
Definition sql_assign_tx (runnerID jobID : string) (from : JobStatus) (db : DB) :
    sqlres TxOutcome * DB :=
  match tx_assign_job runnerID jobID from db with
  | (SqlOk 0, _) => (SqlOk TxJobChanged, db)
  | (SqlOk (S _), db1) =>
      match tx_busy_runner jobID runnerID db1 with
      | (SqlOk 0, _) => (SqlOk TxRunnerNotIdle, db)
      | (SqlOk (S _), db2) => (SqlOk TxCommitted, db2)
      | (_, _) => (SqlFail, db)
      end
  | (_, _) => (SqlFail, db)
  end.

(** ** The statements, as calls *)

Inductive SqlStmt : Type → Type :=
| InsertJob (j : Job) : SqlStmt unit
| SelectJob (id : string) : SqlStmt (option Job)
| SelectJobs (limit : Z) : SqlStmt (list Job)
| UpdateStatus (to : JobStatus) (extra : SetClause) (id : string) (from : JobStatus) : SqlStmt nat
| AssignTx (runnerID jobID : string) (from : JobStatus) : SqlStmt TxOutcome
| UpdateLogs (id : string) (seq : Z) (chunk : string) : SqlStmt nat
| SelectLogSeq (id : string) : SqlStmt (option Z)
| SelectLogs (id : string) : SqlStmt (option string)
| InsertRunner (r : Runner) (tokenHash : string) : SqlStmt unit
| SelectRunner (id : string) : SqlStmt (option Runner)
| SelectTokenHash (id : string) : SqlStmt (option string)
| SelectRunners : SqlStmt (list Runner)
| UpdateHeartbeat (id : string) : SqlStmt nat
| SelectIdle (secs : Z) : SqlStmt (list Runner)
| ReleaseRunner (id : string) : SqlStmt nat
| ReapRunners (secs : Z) : SqlStmt (list (string * string))
| PingDb : SqlStmt unit.

Definition exec_sql `{RangeOrder} {X} (s : SqlStmt X) (db : DB) : sqlres X * DB :=
  match s in SqlStmt X return sqlres X * DB with
  | InsertJob j => sql_insert_job j db
  | SelectJob id => sql_select_job id db
  | SelectJobs limit => sql_select_jobs limit db
  | UpdateStatus to extra id from => sql_update_status to extra id from db
  | AssignTx runnerID jobID from => sql_assign_tx runnerID jobID from db
  | UpdateLogs id seq chunk => sql_append_logs id seq chunk db
  | SelectLogSeq id => sql_select_log_seq id db
  | SelectLogs id => sql_select_logs id db
  | InsertRunner r tokenHash => sql_insert_runner r tokenHash db
  | SelectRunner id => sql_select_runner id db
  | SelectTokenHash id => sql_select_token_hash id db
  | SelectRunners => sql_select_runners db
  | UpdateHeartbeat id => sql_heartbeat id db
  | SelectIdle secs => sql_idle_runners secs db
  | ReleaseRunner id => sql_release_runner id db
  | ReapRunners secs => sql_reap_runners secs db
  | PingDb => (SqlOk tt, db)
  end.
