(* ===== verification/Redis.v ===== *)
(** * The Redis server the queue talks to

    Redis is a service, not code of the repository: its state [R] and the way
    it executes a command are parameters (class [Redis]).  What the queue
    relies on is the documented behaviour of six list commands, written once
    as [redis_doc] on the list stored at each key, and required of the server
    by [RedisOk].  [gmap_redis] is a server that has it. *)
From S2P Require Import Prelude.

(** The commands internal/queue/redis.go issues.  [BLMove] is called with
    "right" "left", [LRem] with count 1, [LRange] with 0 -1; the key of a list
    that becomes empty disappears, so an absent key reads as the empty list. *)
Inductive RedisCmd : Type → Type :=
| LPush (key v : string) : RedisCmd unit
| BLMove (src dst : string) : RedisCmd (option string)
| LRem (key v : string) : RedisCmd unit
| LRange (key : string) : RedisCmd (list string)
| Expire (key : string) : RedisCmd unit
| BRPop (key : string) : RedisCmd (option string)
| PingRedis : RedisCmd unit.

(** The lists, head = left end. *)
Abbreviation lists := (string → list string).

Definition upd (ls : lists) (key : string) (l : list string) : lists :=
  λ k, if decide (k = key) then l else ls k.

(** The documented reply and effect of each command.  A blocking command that
    finds nothing until its timeout replies nil. *)
Definition redis_doc {X} (c : RedisCmd X) (ls : lists) : X * lists :=
  match c in RedisCmd X return X * lists with
  | LPush key v => (tt, upd ls key (v :: ls key))
  | BLMove src dst =>
      match unsnoc (ls src) with
      | None => (None, ls)
      | Some (l, v) => (Some v, let ls' := upd ls src l in upd ls' dst (v :: ls' dst))
      end
  | LRem key v => (tt, upd ls key (remove_first v (ls key)))
  | LRange key => (ls key, ls)
  | Expire key => (tt, ls)
  | BRPop key =>
      match unsnoc (ls key) with
      | None => (None, ls)
      | Some (l, v) => (Some v, upd ls key l)
      end
  | PingRedis => (tt, ls)
  end.

Class Redis (R : Type) : Type := {
  exec_redis {X : Type} : RedisCmd X → R → X * R;
  redis_lists : R → lists;
  (** what the server does on its own when a time-to-live runs out *)
  redis_expired : string → R → R
}.

Class RedisOk (R : Type) `{Redis R} : Prop := {
  redis_reply {X} (c : RedisCmd X) (r : R) :
    (exec_redis c r).1 = (redis_doc c (redis_lists r)).1;
  redis_effect {X} (c : RedisCmd X) (r : R) key :
    redis_lists (exec_redis c r).2 key = (redis_doc c (redis_lists r)).2 key;
  redis_expiry key (r : R) key' :
    redis_lists (redis_expired key r) key' = if decide (key' = key) then [] else redis_lists r key'
}.

(** ** A server with the documented behaviour *)

Definition gmap_lists (m : gmap string (list string)) : lists := λ key, default [] (m !! key).

Definition gmap_set (key : string) (l : list string) (m : gmap string (list string)) :
    gmap string (list string) :=
  match l with [] => delete key m | _ => <[key := l]> m end.

#[local] Arguments gmap_set : simpl never.

Definition gmap_exec {X} (c : RedisCmd X) (m : gmap string (list string)) :
    X * gmap string (list string) :=
  let get := gmap_lists m in
  match c in RedisCmd X return X * gmap string (list string) with
  | LPush key v => (tt, gmap_set key (v :: get key) m)
  | BLMove src dst =>
      match unsnoc (get src) with
      | None => (None, m)
      | Some (l, v) => (Some v, let m' := gmap_set src l m in gmap_set dst (v :: gmap_lists m' dst) m')
      end
  | LRem key v => (tt, gmap_set key (remove_first v (get key)) m)
  | LRange key => (get key, m)
  | Expire key => (tt, m)
  | BRPop key =>
      match unsnoc (get key) with
      | None => (None, m)
      | Some (l, v) => (Some v, gmap_set key l m)
      end
  | PingRedis => (tt, m)
  end.

Definition gmap_redis : Redis (gmap string (list string)) :=
  {| exec_redis X := gmap_exec; redis_lists := gmap_lists; redis_expired key := delete key |}.

Lemma gmap_set_lists key l m key' :
  gmap_lists (gmap_set key l m) key' = upd (gmap_lists m) key l key'.
Proof.
  unfold gmap_lists, gmap_set, upd. case_decide as Hd; [subst key'|].
  - destruct l; [by rewrite lookup_delete_eq | by rewrite lookup_insert_eq].
  - destruct l; [by rewrite lookup_delete_ne | by rewrite lookup_insert_ne].
Qed.

Lemma upd_ext ls ls' key l l' :
  (∀ k, ls k = ls' k) → l = l' → ∀ k, upd ls key l k = upd ls' key l' k.
Proof. intros H -> k. unfold upd. by case_decide. Qed.

Lemma gmap_redis_ok : @RedisOk _ gmap_redis.
Proof.
  split; unfold exec_redis, redis_lists, redis_expired; simpl.
  - intros X [] m; simpl; try done; by repeat case_match.
  - intros X c m k. destruct c as [key v|src dst|key v|key|key|key|]; simpl;
      rewrite ?gmap_set_lists; try done.
    + destruct (unsnoc (gmap_lists m src)) as [[l v]|]; [|done]. simpl. rewrite gmap_set_lists.
      apply upd_ext; [intros; apply gmap_set_lists|by rewrite gmap_set_lists].
    + destruct (unsnoc (gmap_lists m key)) as [[l v]|]; [|done]. simpl. by rewrite gmap_set_lists.
  - intros k m k'. unfold gmap_lists. case_decide as Hd; [subst|].
    + by rewrite lookup_delete_eq.
    + by rewrite lookup_delete_ne.
Qed.
