(* ===== verification/World.v ===== *)
(** * The world of the control plane, and the calls its programs make

    The API and the scheduler share a database and a Redis server and keep no
    state of their own between two calls, so the world is those two plus what
    the environment will answer: identifiers from [uuid.NewString], bytes from
    [crypto/rand], clone tokens from the GitHub client, and the faults of the
    connections.

    A fault decides the fate of one SQL statement or Redis command: it is
    executed and answered, lost on the way (error, no effect), or executed and
    its answer lost (error, with the effect).  A caller cannot tell the last
    two apart, and a theorem that quantifies over the world quantifies over
    every schedule of faults. *)
From S2P Require Import Prelude Prog Models Sql Redis.

Inductive fault : Type :=
| FNone
| FLost
| FReplyLost.

(** The arguments of one [github.Client.SetStatus] call. *)
Record StatusPost : Type := mkStatusPost {
  sp_repo : string;
  sp_sha : string;
  sp_state : string;
  sp_description : string;
  sp_target : string
}.

(** ** Calls *)

Inductive Call : Type → Type :=
| Sql {X} (s : SqlStmt X) : Call (sqlres X)
| Rds {X} (c : RedisCmd X) : Call (option X) (* [None]: an error *)
| NewUUID : Call string
| RandRead : Call (option string) (* 32 bytes, or an error *)
| MintCloneToken (repo : string) : Call (string * bool) (* token, failed *)
| CtxErr : Call bool (* [r.Context().Err() != nil] *)
| GoReport (p : StatusPost) : Call unit. (* [go s.report(...)] *)

(** ** Worlds *)

Record World (R : Type) : Type := mkWorld {
  w_db : DB;
  w_redis : R;
  w_faults : list fault;
  w_uuids : list string;
  w_rand : list (option string);
  w_tokens : list (string * bool);
  w_ctx : list bool;
  w_reports : list StatusPost
}.
Arguments mkWorld {R}.
Arguments w_db {R}. Arguments w_redis {R}. Arguments w_faults {R}. Arguments w_uuids {R}.
Arguments w_rand {R}. Arguments w_tokens {R}. Arguments w_ctx {R}. Arguments w_reports {R}.

Section world.
Context `{RangeOrder} {R : Type} `{Redis R}.

Definition set_db (db : DB) (w : World R) : World R :=
  mkWorld db (w_redis w) (w_faults w) (w_uuids w) (w_rand w) (w_tokens w) (w_ctx w) (w_reports w).
Definition set_redis (r : R) (w : World R) : World R :=
  mkWorld (w_db w) r (w_faults w) (w_uuids w) (w_rand w) (w_tokens w) (w_ctx w) (w_reports w).
Definition set_faults (fs : list fault) (w : World R) : World R :=
  mkWorld (w_db w) (w_redis w) fs (w_uuids w) (w_rand w) (w_tokens w) (w_ctx w) (w_reports w).

(** The fate of the next connection use; an exhausted schedule is calm. *)
Definition next_fault (w : World R) : fault * World R :=
  match w_faults w with
  | [] => (FNone, w)
  | f :: fs => (f, set_faults fs w)
  end.

Definition do_sql {X} (s : SqlStmt X) (w : World R) : sqlres X * World R :=
  let '(f, w) := next_fault w in
  let '(x, db) := exec_sql s (w_db w) in
  match f with
  | FNone => (x, set_db db w)
  | FLost => (SqlFail, w)
  | FReplyLost => (SqlFail, set_db db w)
  end.

Definition do_redis {X} (c : RedisCmd X) (w : World R) : option X * World R :=
  let '(f, w) := next_fault w in
  let '(x, r) := exec_redis c (w_redis w) in
  match f with
  | FNone => (Some x, set_redis r w)
  | FLost => (None, w)
  | FReplyLost => (None, set_redis r w)
  end.

Definition handle (X : Type) (c : Call X) (w : World R) : X * World R :=
  match c in Call X return X * World R with
  | Sql s => do_sql s w
  | Rds c => do_redis c w
  | NewUUID =>
      (default "" (head (w_uuids w)),
       mkWorld (w_db w) (w_redis w) (w_faults w) (tail (w_uuids w)) (w_rand w) (w_tokens w)
         (w_ctx w) (w_reports w))
  | RandRead =>
      (default None (head (w_rand w)),
       mkWorld (w_db w) (w_redis w) (w_faults w) (w_uuids w) (tail (w_rand w)) (w_tokens w)
         (w_ctx w) (w_reports w))
  | MintCloneToken _ =>
      (default ("", false) (head (w_tokens w)),
       mkWorld (w_db w) (w_redis w) (w_faults w) (w_uuids w) (w_rand w) (tail (w_tokens w))
         (w_ctx w) (w_reports w))
  | CtxErr =>
      (default false (head (w_ctx w)),
       mkWorld (w_db w) (w_redis w) (w_faults w) (w_uuids w) (w_rand w) (w_tokens w)
         (tail (w_ctx w)) (w_reports w))
  | GoReport p =>
      (tt, mkWorld (w_db w) (w_redis w) (w_faults w) (w_uuids w) (w_rand w) (w_tokens w)
             (w_ctx w) (w_reports w ++ [p]))
  end.

(** Execute a program alone. *)
Abbreviation exec p w := (run handle p w).

(** No fault is scheduled. *)
Definition calm (w : World R) : Prop := w_faults w = [].

(** ** Facts *)

Lemma set_db_id w : set_db (w_db w) w = w.
Proof. by destruct w. Qed.
Lemma set_redis_id w : set_redis (w_redis w) w = w.
Proof. by destruct w. Qed.

Lemma calm_set_db db w : calm w → calm (set_db db w).
Proof. done. Qed.
Lemma calm_set_redis r w : calm w → calm (set_redis r w).
Proof. done. Qed.

Lemma do_sql_calm {X} (s : SqlStmt X) w :
  calm w →
  do_sql s w = ((exec_sql s (w_db w)).1, set_db (exec_sql s (w_db w)).2 w).
Proof.
  intros Hc. unfold do_sql, next_fault. rewrite Hc. by destruct (exec_sql s (w_db w)).
Qed.

Lemma do_redis_calm {X} (c : RedisCmd X) w :
  calm w →
  do_redis c w = (Some (exec_redis c (w_redis w)).1, set_redis (exec_redis c (w_redis w)).2 w).
Proof.
  intros Hc. unfold do_redis, next_fault. rewrite Hc. by destruct (exec_redis c (w_redis w)).
Qed.

(** Whatever the fault, a statement has its whole effect or none. *)
Lemma do_sql_db {X} (s : SqlStmt X) w :
  w_db (do_sql s w).2 = w_db w ∨ w_db (do_sql s w).2 = (exec_sql s (w_db w)).2.
Proof.
  unfold do_sql, next_fault. destruct (w_faults w) as [|[] fs]; simpl;
    destruct (exec_sql s (w_db w)); simpl; auto.
Qed.

(** Either the answer is that of the statement, with its effect, or it is an
    error, with the effect or without. *)
Lemma do_sql_cases {X} (s : SqlStmt X) w :
  (do_sql s w).1 = (exec_sql s (w_db w)).1 ∧ w_db (do_sql s w).2 = (exec_sql s (w_db w)).2 ∨
  (do_sql s w).1 = SqlFail ∧
    (w_db (do_sql s w).2 = w_db w ∨ w_db (do_sql s w).2 = (exec_sql s (w_db w)).2).
Proof.
  unfold do_sql, next_fault. destruct (w_faults w) as [|[] fs]; simpl;
    destruct (exec_sql s (w_db w)); simpl; auto.
Qed.

Lemma do_sql_redis {X} (s : SqlStmt X) w : w_redis (do_sql s w).2 = w_redis w.
Proof.
  unfold do_sql, next_fault. destruct (w_faults w) as [|[] fs]; simpl;
    by destruct (exec_sql s (w_db w)).
Qed.

Lemma do_redis_cases {X} (c : RedisCmd X) w :
  (do_redis c w).1 = Some (exec_redis c (w_redis w)).1 ∧
    w_redis (do_redis c w).2 = (exec_redis c (w_redis w)).2 ∨
  (do_redis c w).1 = None ∧
    (w_redis (do_redis c w).2 = w_redis w ∨
     w_redis (do_redis c w).2 = (exec_redis c (w_redis w)).2).
Proof.
  unfold do_redis, next_fault. destruct (w_faults w) as [|[] fs]; simpl;
    destruct (exec_redis c (w_redis w)); simpl; auto.
Qed.

Lemma do_redis_redis {X} (c : RedisCmd X) w :
  w_redis (do_redis c w).2 = w_redis w ∨
  w_redis (do_redis c w).2 = (exec_redis c (w_redis w)).2.
Proof.
  unfold do_redis, next_fault. destruct (w_faults w) as [|[] fs]; simpl;
    destruct (exec_redis c (w_redis w)); simpl; auto.
Qed.

Lemma do_redis_db {X} (c : RedisCmd X) w : w_db (do_redis c w).2 = w_db w.
Proof.
  unfold do_redis, next_fault. destruct (w_faults w) as [|[] fs]; simpl;
    by destruct (exec_redis c (w_redis w)).
Qed.

(** A relation on tables that the admissible statements respect is respected
    by every call and so by every program whose statements are admissible. *)
Definition sql_only (P : ∀ X, SqlStmt X → Prop) : ∀ X, Call X → Prop :=
  λ X c, match c with Sql s => P _ s | _ => True end.

Lemma handle_db (P : ∀ X, SqlStmt X → Prop) (T : relation DB) `{!Reflexive T} :
  (∀ X (s : SqlStmt X) db, P _ s → T db (exec_sql s db).2) →
  ∀ X (c : Call X) w, sql_only P _ c → T (w_db w) (w_db (handle _ c w).2).
Proof.
  intros HT X c w Hc. destruct c as [X s|X c| | | | |]; simpl; try done.
  - destruct (do_sql_db s w) as [->| ->]; [done|]. by apply HT.
  - by rewrite do_redis_db.
Qed.
End world.

Abbreviation exec p w := (run handle p w).

#[export] Hint Resolve calm_set_db calm_set_redis : core.
