(* ===== verification/Migrate.v ===== *)
(** * Schema migrations (internal/store/migrate.go, migrations/)

    The database here is the bookkeeping table and the rest of the schema.  What
    a migration's SQL does to the schema is PostgreSQL's business: [exec_body]
    is a parameter, [None] where the statement fails.  [order_desc] is the
    database's ORDER BY version DESC, which follows its collation.  A transaction
    works on a copy that Commit publishes.  Every statement may be lost, or its
    reply may be.  Migrations run at start-up, on one connection. *)
From S2P Require Import Prelude GoLib GoText Prog Rely World.

Inductive MigCall : Type → Type :=
| CreateTable : MigCall (result string unit)
| SelectApplied (version : string) : MigCall (result string bool)
| SelectVersions (limit : option Z) : MigCall (result string (list string))
| Begin : MigCall (result string unit)
| ExecBody (body : string) : MigCall (result string unit)
| InsertVersion (version : string) : MigCall (result string unit)
| DeleteVersion (version : string) : MigCall (result string unit)
| Commit : MigCall (result string unit)
| Rollback_ : MigCall unit.

Inductive mig_error : Type :=
| ErrTable (text : string)
| ErrSql (text : string)
| ErrApply (direction version text : string)
| ErrReadFile (name : string)
| ErrNoDown (version : string).

Section migrate.
(** The embedded directory: names and contents. *)
Context (FS : list (string * string)).

Definition ReadFile (name : string) : option string := snd <$> (snd <$> list_find (λ f, f.1 = name) FS).

(** [sort.Strings] compares bytes. *)
Definition bytes_le (s t : string) : Prop := String.leb s t = true.
#[export] Instance bytes_le_dec s t : Decision (bytes_le s t).
Proof. unfold bytes_le. apply _. Defined.

Definition Glob : list string := filter (λ f, HasSuffix f ".sql" = true) (map fst FS).

Definition upMigrations : list string :=
  merge_sort bytes_le (filter (λ f, HasSuffix f ".down.sql" = false) Glob).

Definition ensureMigrationsTable : Prog MigCall (result mig_error unit) :=
  r ← call CreateTable;
  mret match r with Ok _ => Ok tt | Err text => Err (ErrTable text) end.

Definition sql {A} (r : result string A) : result mig_error A :=
  match r with Ok a => Ok a | Err text => Err (ErrSql text) end.

(** Between Begin and the deferred Rollback. *)
Definition migration_tx (version body : string) (up : bool) : Prog MigCall (result mig_error unit) :=
  r ← call (ExecBody body);
  match r with
  | Err text => mret (Err (ErrApply (if up then "migration" else "rollback") version text))
  | Ok _ =>
      r ← call (if up then InsertVersion version else DeleteVersion version);
      match r with
      | Err text => mret (Err (ErrSql text))
      | Ok _ => r ← call Commit; mret (sql r)
      end
  end.

Definition runMigration (version body : string) (up : bool) : Prog MigCall (result mig_error unit) :=
  r ← call Begin;
  match r with
  | Err text => mret (Err (ErrSql text))
  | Ok _ =>
      res ← migration_tx version body up;
      _ ← call Rollback_;
      mret res
  end.

Fixpoint migrate_loop (files : list string) : Prog MigCall (result mig_error unit) :=
  match files with
  | [] => mret (Ok tt)
  | name :: files =>
      r ← call (SelectApplied name);
      match r with
      | Err text => mret (Err (ErrSql text))
      | Ok true => migrate_loop files
      | Ok false =>
          match ReadFile name with
          | None => mret (Err (ErrReadFile name))
          | Some body => _ ←? runMigration name body true; migrate_loop files
          end
      end
  end.

Definition Migrate : Prog MigCall (result mig_error unit) :=
  _ ←? ensureMigrationsTable; migrate_loop upMigrations.

Definition down_name (version : string) : string := TrimSuffix version ".sql" +:+ ".down.sql".

Fixpoint rollback_loop (versions : list string) : Prog MigCall (result mig_error unit) :=
  match versions with
  | [] => mret (Ok tt)
  | version :: versions =>
      match ReadFile (down_name version) with
      | None => mret (Err (ErrNoDown version))
      | Some body => _ ←? runMigration version body false; rollback_loop versions
      end
  end.

Definition Rollback (steps : Z) : Prog MigCall (result mig_error unit) :=
  _ ←? ensureMigrationsTable;
  r ← call (SelectVersions (Some steps));
  match r with
  | Err text => mret (Err (ErrSql text))
  | Ok versions => rollback_loop versions
  end.

Definition AppliedMigrations : Prog MigCall (result mig_error (list string)) :=
  _ ←? ensureMigrationsTable;
  r ← call (SelectVersions None);
  mret (sql r).

(** ** The database *)

Context {S : Type} (exec_body : string → S → option S) (order_desc : gset string → list string).

Record MigDB : Type := mkMigDB {
  md_versions : option (gset string);   (* None: no table schema_migrations *)
  md_schema : S
}.

Record MigWorld : Type := mkMig {
  mw_db : MigDB;
  mw_tx : option MigDB;
  mw_faults : list fault
}.

(** A statement outside a transaction. *)
Definition on_db {A} (f : MigDB → result string A * MigDB) (w : MigWorld) : result string A * MigWorld :=
  let '(a, db) := f (mw_db w) in
  let fs := tail (mw_faults w) in
  match head (mw_faults w) with
  | None | Some FNone => (a, mkMig db (mw_tx w) fs)
  | Some FLost => (Err "connection lost", mkMig (mw_db w) (mw_tx w) fs)
  | Some FReplyLost => (Err "connection lost", mkMig db (mw_tx w) fs)
  end.

(** A statement of the open transaction. *)
Definition on_tx {A} (f : MigDB → result string A * MigDB) (w : MigWorld) : result string A * MigWorld :=
  match mw_tx w with
  | None => (Err "tx is closed", w)
  | Some db =>
      let '(a, db) := f db in
      let fs := tail (mw_faults w) in
      match head (mw_faults w) with
      | None | Some FNone => (a, mkMig (mw_db w) (Some db) fs)
      | Some _ => (Err "connection lost", mkMig (mw_db w) None fs)
      end
  end.

Definition with_table {A} (f : gset string → result string A) (db : MigDB) : result string A * MigDB :=
  (match md_versions db with Some vs => f vs | None => Err "relation does not exist" end, db).

Definition run_body (body : string) (db : MigDB) : result string unit * MigDB :=
  match exec_body body (md_schema db) with
  | Some s => (Ok tt, mkMigDB (md_versions db) s)
  | None => (Err "statement failed", db)
  end.

Definition insert_version (v : string) (db : MigDB) : result string unit * MigDB :=
  match md_versions db with
  | None => (Err "relation does not exist", db)
  | Some vs =>
      if bool_decide (v ∈ vs) then (Err "duplicate key", db)
      else (Ok tt, mkMigDB (Some ({[v]} ∪ vs)) (md_schema db))
  end.

Definition delete_version (v : string) (db : MigDB) : result string unit * MigDB :=
  match md_versions db with
  | None => (Err "relation does not exist", db)
  | Some vs => (Ok tt, mkMigDB (Some (vs ∖ {[v]})) (md_schema db))
  end.

Definition mig_handle (X : Type) (c : MigCall X) (w : MigWorld) : X * MigWorld :=
  match c in MigCall X return X * MigWorld with
  | CreateTable => on_db (λ db, (Ok tt, mkMigDB (Some (default ∅ (md_versions db))) (md_schema db))) w
  | SelectApplied v => on_db (with_table (λ vs, Ok (bool_decide (v ∈ vs)))) w
  | SelectVersions limit =>
      on_db (with_table (λ vs,
        match limit with
        | None => Ok (order_desc vs)
        | Some n => if (n <? 0)%Z then Err "LIMIT must not be negative"
                    else Ok (take (Z.to_nat n) (order_desc vs))
        end)) w
  | Begin => on_db (λ db, (Ok tt, db)) (mkMig (mw_db w) (Some (mw_db w)) (mw_faults w))
  | ExecBody body =>
      on_tx (run_body body) w
  | InsertVersion v => on_tx (insert_version v) w
  | DeleteVersion v => on_tx (delete_version v) w
  | Commit =>
      match mw_tx w with
      | None => (Err "tx is closed", w)
      | Some db =>
          let fs := tail (mw_faults w) in
          match head (mw_faults w) with
          | None | Some FNone => (Ok tt, mkMig db None fs)
          | Some FLost => (Err "connection lost", mkMig (mw_db w) None fs)
          | Some FReplyLost => (Err "connection lost", mkMig db None fs)
          end
      end
  | Rollback_ => (tt, mkMig (mw_db w) None (mw_faults w))
  end.
End migrate.

(** ** What is applied, and what the schema is, always agree *)

Section agreement.
Context (FS : list (string * string)) {S : Type} (exec_body : string → S → option S).
Context (order_desc : gset string → list string) (s0 : S).

Abbreviation ups := (upMigrations FS).
Abbreviation handle_mig := (mig_handle exec_body order_desc).

(** The schema after these migrations. *)
Fixpoint replay (vs : list string) (s : S) : option S :=
  match vs with
  | [] => Some s
  | v :: vs => body ← ReadFile FS v; s' ← exec_body body s; replay vs s'
  end.

(** Exactly the first [n] migrations are recorded, and exactly they were run. *)
Record at_version (n : nat) (db : MigDB (S := S)) : Prop := {
  at_length : n ≤ length ups;
  at_table : md_versions db = Some (list_to_set (take n ups)) ∨ (n = 0 ∧ md_versions db = None);
  at_schema : replay (take n ups) s0 = Some (md_schema db)
}.

(** The names of a directory are distinct. *)
Context (Hnames : NoDup (map fst FS)).

Lemma ups_NoDup : NoDup ups.
Proof.
  unfold upMigrations, Glob. rewrite merge_sort_Permutation. by do 2 apply NoDup_filter.
Qed.

Lemma ups_readable v : v ∈ ups → is_Some (ReadFile FS v).
Proof.
  unfold upMigrations, Glob, ReadFile. rewrite merge_sort_Permutation, !list_elem_of_filter.
  intros (_ & _ & (f & -> & Hf)%list_elem_of_fmap).
  destruct (list_find_elem_of (λ g, g.1 = f.1) FS f) as [[i g] ->]; [done..|]. by eexists.
Qed.

Lemma replay_app vs vs' s : replay (vs ++ vs') s = replay vs s ≫= replay vs'.
Proof.
  revert s. induction vs as [|v vs IH]; intros s; [done|]. simpl.
  destruct (ReadFile FS v) as [body|]; [|done]. simpl. destruct (exec_body body s); [|done]. simpl. apply IH.
Qed.

Lemma replay_next m v :
  ups !! m = Some v →
  replay (take (Datatypes.S m) ups) s0 =
  replay (take m ups) s0 ≫= λ s, body ← ReadFile FS v; exec_body body s.
Proof.
  intros Hv. rewrite (take_S_r _ _ v), replay_app by done.
  destruct (replay (take m ups) s0) as [s|]; [|done]. simpl.
  destruct (ReadFile FS v) as [body|]; [|done]. simpl. by destruct (exec_body body s).
Qed.

Lemma replay_prefix m n : m ≤ n → is_Some (replay (take n ups) s0) → is_Some (replay (take m ups) s0).
Proof.
  intros Hm. rewrite <-(take_drop m (take n ups)), take_take, Nat.min_l, replay_app by done.
  destruct (replay (take m ups) s0) eqn:E; [by eexists|]. by intros [??].
Qed.

Lemma at_create n db :
  at_version n db → at_version n (mkMigDB (Some (default ∅ (md_versions db))) (md_schema db)).
Proof. intros [Hl Ht Hs]. split; simpl; [done| |done]. left. by destruct Ht as [->|[-> ->]]. Qed.

Lemma applied_lookup m i v : ups !! i = Some v → (v ∈ (list_to_set (take m ups) : gset string) ↔ i < m).
Proof.
  intros Hv. rewrite elem_of_list_to_set, list_elem_of_lookup. split.
  - intros [j [Hj Hlt]%lookup_take_Some]. by rewrite (NoDup_lookup _ _ _ _ ups_NoDup Hv Hj).
  - intros Hi. exists i. by apply lookup_take_Some.
Qed.

Lemma at_next m v body db vs s' :
  at_version m db → ups !! m = Some v → ReadFile FS v = Some body →
  exec_body body (md_schema db) = Some s' → md_versions db = Some vs →
  (v ∉ vs) ∧ at_version (Datatypes.S m) (mkMigDB (Some ({[v]} ∪ vs)) s').
Proof.
  intros [Hl Ht Hs] Hv Hb He Hvs. destruct Ht as [Ht|[_ Ht]]; [|congruence].
  assert (vs = list_to_set (take m ups)) as -> by congruence. split.
  { rewrite (applied_lookup m m) by done. lia. }
  split; simpl.
  - by apply lookup_lt_Some in Hv.
  - left. f_equal. rewrite (take_S_r _ _ v) by done. rewrite list_to_set_app_L. set_solver.
  - rewrite (replay_next m v), Hs by done. simpl. by rewrite Hb.
Qed.

(** *** Every call keeps some version, within bounds *)

(** The committed database is at a version that [P] allows. *)
Definition mig_inv (P : nat → Prop) (w : MigWorld (S := S)) : Prop := ∃ n, P n ∧ at_version n (mw_db w).

(** Nobody else is connected. *)
Abbreviation safe_mig P := (safe handle_mig eq (λ _ _, True) (mig_inv P)).

(** A call that commits nothing. *)
Lemma keeps_db P {X} (c : MigCall X) w :
  mig_inv P w → mw_db (handle_mig X c w).2 = mw_db w → keeps handle_mig (λ _ _, True) (mig_inv P) c w.
Proof. intros (n & HP & Hn) Hdb. split; [|done]. exists n. by rewrite Hdb. Qed.

Lemma on_db_same {A} (f : MigDB (S := S) → result string A * MigDB) w :
  (∀ db, (f db).2 = db) →
  mw_db (on_db f w).2 = mw_db w ∧ mw_faults (on_db f w).2 = tail (mw_faults w) ∧
  (mw_faults w = [] → (on_db f w).1 = (f (mw_db w)).1).
Proof.
  intros Hf. unfold on_db. pose proof (Hf (mw_db w)) as Hw. destruct (f (mw_db w)) as [a db]. simpl in Hw.
  subst db. destruct (mw_faults w) as [|[] fs]; by simpl.
Qed.

Lemma on_db_true {A} (f : MigDB (S := S) → result string A * MigDB) w a :
  (∀ db, (f db).2 = db) → (on_db f w).1 = Ok a → (f (mw_db w)).1 = Ok a.
Proof.
  intros Hf. unfold on_db. destruct (f (mw_db w)) as [a' db]. by destruct (mw_faults w) as [|[] fs].
Qed.

Lemma on_tx_db {A} (f : MigDB (S := S) → result string A * MigDB) w : mw_db (on_tx f w).2 = mw_db w.
Proof.
  unfold on_tx. destruct (mw_tx w) as [db|]; [|done]. destruct (f db) as [a db'].
  by destruct (mw_faults w) as [|[] fs].
Qed.

(** A statement of a transaction either did what it does or failed; when nothing
    fails on the way it did. *)
Lemma on_tx_cases {A} (f : MigDB (S := S) → result string A * MigDB) w db :
  mw_tx w = Some db →
  (∃ text, (on_tx f w).1 = Err text) ∧ (mw_faults w ≠ [] ∨ ∃ text, (f db).1 = Err text) ∨
  on_tx f w = ((f db).1, mkMig (mw_db w) (Some (f db).2) (tail (mw_faults w))) ∧ ∃ a, (f db).1 = Ok a.
Proof.
  intros Ht. unfold on_tx. rewrite Ht. destruct (f db) as [[a|text] db'].
  - destruct (mw_faults w) as [|[] fs]; simpl; [right|right|left|left]; (split; [|by eauto]); by eauto.
  - left. destruct (mw_faults w) as [|[] fs]; simpl; (split; [|by eauto]); by eauto.
Qed.

Lemma on_tx_calm {A} (f : MigDB (S := S) → result string A * MigDB) w :
  mw_faults w = [] → mw_faults (on_tx f w).2 = [].
Proof. unfold on_tx. intros Hf. rewrite Hf. destruct (mw_tx w); [|done]. by destruct (f _). Qed.

Definition note_version (up : bool) (v : string) : MigDB (S := S) → result string unit * MigDB :=
  if up then insert_version v else delete_version v.

Lemma note_call (up : bool) v w :
  handle_mig (result string unit) (if up then InsertVersion v else DeleteVersion v) w = on_tx (note_version up v) w.
Proof. by destruct up. Qed.

(** A migration that was run and noted, as one step to version [t]. *)
Definition leads_to (t : nat) (up : bool) (v body : string) (db : MigDB (S := S)) : Prop :=
  ∀ s', exec_body body (md_schema db) = Some s' →
    ∃ db', note_version up v (mkMigDB (md_versions db) s') = (Ok tt, db') ∧ at_version t db'.

(** What is known of a step that ended with [r]. *)
Definition stepped (t : nat) (body : string) (w : MigWorld (S := S)) (r : result mig_error unit)
    (w' : MigWorld (S := S)) : Prop :=
  (r = Ok tt → at_version t (mw_db w')) ∧
  (mw_faults w = [] → mw_faults w' = [] ∧
     (is_Some (exec_body body (md_schema (mw_db w))) → r = Ok tt)).

Lemma safe_Commit P t w db :
  mig_inv P w → P t → mw_tx w = Some db → at_version t db →
  safe_mig P (call Commit) w (λ r w', (r = Ok tt → at_version t (mw_db w')) ∧
    (mw_faults w = [] → mw_faults w' = [] ∧ r = Ok tt)).
Proof.
  intros (n & HP & Hn) Ht Htx Hdb.
  assert (∀ fs, mig_inv P (mkMig db None fs)) as Hnew by (intros; by exists t).
  assert (∀ fs, mig_inv P (mkMig (mw_db w) None fs)) as Hold by (intros; by exists n).
  intros w' <- _. unfold keeps. simpl. rewrite Htx.
  destruct (mw_faults w) as [|[] fs]; simpl; (split; [by auto|]); intros w'' <- _; naive_solver.
Qed.

Lemma safe_migration_tx P t v body up w :
  mig_inv P w → P t → mw_tx w = Some (mw_db w) → leads_to t up v body (mw_db w) →
  safe_mig P (migration_tx v body up) w (stepped t body w).
Proof.
  intros Hi HP Htx Hlead. unfold migration_tx. intros w' <- _. split.
  { apply keeps_db; [done|]. apply on_tx_db. }
  change (handle_mig _ (ExecBody body) w) with (on_tx (run_body exec_body body) w).
  pose proof (on_tx_calm (run_body exec_body body) w) as Hcalm. unfold leads_to, run_body in *.
  destruct (on_tx_cases (run_body exec_body body) w _ Htx) as [[[text E] Hwhy]|[E [a Ha]]];
    unfold run_body in *.
  { destruct (on_tx _ w) as [r w1]. simpl in *. subst r. intros w2 <- _. split; [done|].
    intros Hf. split; [by apply Hcalm|]. intros [s' Hs']. rewrite Hs' in Hwhy. naive_solver. }
  rewrite E. destruct (exec_body body (md_schema (mw_db w))) as [s'|] eqn:Hs'; [|done].
  destruct (Hlead s' eq_refl) as (db' & Hnote & Hat). simpl in Ha |- *. clear E Ha a Hlead.
  set (w1 := mkMig (mw_db w) (Some (mkMigDB (md_versions (mw_db w)) s')) (tail (mw_faults w))).
  intros w' <- _. unfold keeps. rewrite note_call. split.
  { split; [|done]. destruct Hi as (n & HPn & Hn). exists n. by rewrite on_tx_db. }
  destruct (on_tx_cases (note_version up v) w1 _ eq_refl) as [[[text E] Hwhy]|[E _]].
  { pose proof (on_tx_calm (note_version up v) w1) as Hc. destruct (on_tx _ w1) as [r w2]. simpl in *. subst r.
    intros w3 <- _. split; [done|]. intros Hf. rewrite Hf in *. split; [by apply Hc|].
    rewrite Hnote in Hwhy. naive_solver. }
  rewrite E, Hnote. cbn [fst snd]. set (w2 := mkMig _ _ _).
  change (safe_mig P (call Commit ≫= λ x, mret (sql x)) w2 (stepped t body w)). apply safe_bind; [apply _|].
  eapply safe_weaken; [apply (safe_Commit P t w2 db'); [|done..]|].
  { destruct Hi as (n & HPn & Hn). by exists n. }
  intros r w3 _ [Hok Hc] w4 <- _. split; [destruct r as [[]|]; naive_solver|].
  intros Hf. destruct Hc as [Hc ->]; [by simpl; rewrite Hf|]. done.
Qed.

Lemma safe_runMigration P t v body up w :
  mig_inv P w → P t → leads_to t up v body (mw_db w) →
  safe_mig P (runMigration v body up) w (stepped t body w).
Proof.
  intros Hi HP Hlead. unfold runMigration. intros w' <- _.
  set (w0 := mkMig (mw_db w) (Some (mw_db w)) (mw_faults w)).
  change (handle_mig _ Begin w) with (on_db (λ db, (Ok tt, db)) w0).
  destruct (on_db_same (A := unit) (λ db, (Ok tt, db)) w0) as (Hdb & Hf & Hok); [done|].
  split; [by apply keeps_db|]. 
  assert (mw_tx (on_db (A := unit) (λ db, (Ok tt, db)) w0).2 = Some (mw_db w)) as Htx.
  { unfold on_db. by destruct (mw_faults w0) as [|[] fs]. }
  destruct (on_db _ w0) as [[[]|text] w1]; simpl in Hdb, Hf, Hok, Htx |- *.
  2: { intros w2 <- _. split; [done|]. intros Hw. by specialize (Hok Hw). }
  change (safe_mig P (migration_tx v body up ≫= λ res, call Rollback_ ≫= λ _, mret res) w1 (stepped t body w)).
  apply safe_bind; [apply _|]. eapply safe_weaken; [apply (safe_migration_tx P t v body up w1)|].
  - destruct Hi as (n & HPn & Hn). exists n. by rewrite Hdb.
  - done.
  - by rewrite Htx, Hdb.
  - by rewrite Hdb.
  - intros r w2 _ [Hr Hc] w3 <- Hi3. split; [by apply keeps_db|]. intros w4 <- _. split; [done|].
    intros Hw. destruct Hc as [Hc Hd]; [by rewrite Hf, Hw|]. split; [done|]. by rewrite Hdb in Hd.
Qed.

(** A query answers from the table, or fails. *)
Lemma safe_query P {A} (c : MigCall (result string A)) (f : gset string → result string A) w vs :
  handle_mig _ c w = on_db (with_table f) w → mig_inv P w → md_versions (mw_db w) = Some vs →
  safe_mig P (call c) w (λ r w', mw_db w' = mw_db w ∧ (∀ a, r = Ok a → f vs = Ok a) ∧
    (mw_faults w = [] → mw_faults w' = [] ∧ r = f vs)).
Proof.
  intros Hh Hi Hvs. destruct (on_db_same (with_table f) w) as (Hdb & Hf & Hok); [done|].
  pose proof (on_db_true (with_table f) w) as Htrue.
  intros w' <- _. unfold keeps. rewrite Hh. split.
  { split; [|done]. destruct Hi as (n & HP & Hn). exists n. by rewrite Hdb. }
  intros w' <- _. unfold with_table in *. rewrite Hvs in *. simpl in *. split; [done|]. split.
  - intros a Ha. by apply Htrue in Ha.
  - intros Hw. rewrite Hf, Hw, Hok by done. done.
Qed.

(** *** Migrating *)

Lemma up_leads_to m v body db :
  at_version m db → ups !! m = Some v → ReadFile FS v = Some body → is_Some (md_versions db) →
  leads_to (Datatypes.S m) true v body db.
Proof.
  intros Hat Hv Hb [vs Hvs] s' Hs'.
  destruct (at_next m v body db vs s' Hat Hv Hb Hs' Hvs) as [Hnew Hat']. eexists. split; [|exact Hat'].
  unfold note_version, insert_version. simpl. rewrite Hvs. by rewrite bool_decide_false.
Qed.

Lemma replay_body i v body db :
  ups !! i = Some v → ReadFile FS v = Some body → replay (take i ups) s0 = Some (md_schema db) →
  is_Some (replay (take (Datatypes.S i) ups) s0) → is_Some (exec_body body (md_schema db)).
Proof. intros Hv Hb Hr. rewrite (replay_next i v), Hr by done. simpl. by rewrite Hb. Qed.

(** The loop, from the file with index [i] on: all before it are applied. *)
Lemma safe_migrate_loop n i m w :
  n ≤ m → i ≤ m → at_version m (mw_db w) → is_Some (md_versions (mw_db w)) →
  safe_mig (λ k, n ≤ k) (migrate_loop FS (drop i ups)) w (λ r w',
    (r = Ok tt → at_version (length ups) (mw_db w')) ∧
    (mw_faults w = [] → is_Some (replay ups s0) → r = Ok tt)).
Proof.
  intros Hn Hi Hat Htab. remember (length ups - i) as fuel eqn:Hfuel.
  revert i m w Hn Hi Hat Htab Hfuel. induction fuel as [|fuel IH]; intros i m w Hn Hi Hat Htab Hfuel.
  { assert (length ups ≤ i) as Hlen by lia. rewrite drop_ge by done. intros w' <- _. split; [|done].
    intros _. pose proof (at_length _ _ Hat). by replace (length ups) with m by lia. }
  destruct (lookup_lt_is_Some_2 ups i) as [v Hv]; [lia|].
  destruct Htab as [vs Hvs]. assert (vs = list_to_set (take m ups)) as Evs.
  { destruct (at_table _ _ Hat) as [E|[_ E]]; congruence. }
  assert (mig_inv (λ k, n ≤ k) w) as Hinv by by exists m.
  rewrite (drop_S _ v) by done. cbn [migrate_loop]. apply safe_bind; [apply _|].
  eapply safe_weaken; [by apply (safe_query _ (SelectApplied v) (λ vs, Ok (bool_decide (v ∈ vs))) w vs)|].
  intros r w1 Hinv1 (Hdb & Hval & Hcalm). destruct r as [applied|text].
  2: { intros w2 <- _. split; [done|]. intros Hw. by destruct (Hcalm Hw) as [_ ?]. }
  specialize (Hval applied eq_refl). injection Hval as <-. rewrite <-Hdb in Hat, Hvs.
  assert (mw_faults w = [] → mw_faults w1 = []) as Hc1 by (intros Hw; by apply Hcalm).
  case_bool_decide as Hin.
  { rewrite Evs, (applied_lookup m i) in Hin by done.
    eapply safe_weaken; [apply (IH (Datatypes.S i) m w1); [lia|lia|done|by eexists|lia]|].
    intros r w2 _ [H1 H2]. split; [done|]. intros Hw. by apply H2, Hc1. }
  rewrite Evs, (applied_lookup m i) in Hin by done. assert (m = i) as -> by lia.
  destruct (ups_readable v) as [body Hbody]; [by eapply list_elem_of_lookup_2|]. rewrite Hbody.
  assert (Datatypes.S i ≤ length ups) as Hlen by by apply lookup_lt_Some in Hv.
  apply safe_try; [apply _|].
  eapply safe_weaken; [apply (safe_runMigration _ (Datatypes.S i)); [done|lia|]|].
  { by eapply up_leads_to. }
  intros r w2 _ [Hr Hc2]. destruct r as [[]|e].
  - specialize (Hr eq_refl).
    eapply safe_weaken; [apply (IH (Datatypes.S i) (Datatypes.S i) w2); try lia; [done|]|].
    { destruct (at_table _ _ Hr) as [->|[? _]]; [by eexists|lia]. }
    intros r w3 _ [H1 H2]. split; [done|]. intros Hw. by apply H2, Hc2, Hc1.
  - intros w3 <- _. split; [done|]. intros Hw Hall. destruct (Hc2 (Hc1 Hw)) as [_ Hd].
    apply Hd. eapply (replay_body i v); [done|done|by apply Hat|]. apply (replay_prefix _ (length ups)); [done|by rewrite firstn_all].
Qed.

(** The table exists afterwards, at the version it was at. *)
Lemma safe_ensure P n w :
  P n → at_version n (mw_db w) →
  safe_mig P ensureMigrationsTable w (λ r w', at_version n (mw_db w') ∧
    (r = Ok tt → is_Some (md_versions (mw_db w'))) ∧ (mw_faults w = [] → mw_faults w' = [] ∧ r = Ok tt)).
Proof.
  intros HP Hat. pose proof (at_create n _ Hat) as Hat'.
  assert (∀ db tx fs, at_version n db → mig_inv P (mkMig db tx fs)) as Hinv by (intros; by exists n).
  unfold ensureMigrationsTable. intros w' <- _. unfold keeps. simpl. unfold on_db.
  destruct (mw_faults w) as [|[] fs]; simpl; (split; [by auto|]); intros w'' <- _; simpl;
    (split; [done|]); split; try done; by eexists.
Qed.

Lemma safe_Migrate n w :
  at_version n (mw_db w) →
  safe_mig (λ k, n ≤ k) (Migrate FS) w (λ r w',
    (r = Ok tt → at_version (length ups) (mw_db w')) ∧
    (mw_faults w = [] → is_Some (replay ups s0) → r = Ok tt)).
Proof.
  intros Hat. unfold Migrate. apply safe_try; [apply _|].
  eapply safe_weaken; [by apply (safe_ensure _ n)|].
  intros [[]|e] w1 _ (Hat1 & Htab & Hc).
  - rewrite <-(drop_0 ups). eapply safe_weaken; [apply (safe_migrate_loop n 0 n w1); auto with lia|].
    intros r w2 _ [H1 H2]. rewrite drop_0 in *. split; [done|]. intros Hw. by apply H2, Hc.
  - intros w2 <- _. split; [done|]. intros Hw. by destruct (Hc Hw) as [_ ?].
Qed.

(** C23. Migrations.  At every moment of a run of Migrate, whatever statement is
    lost or has its reply lost, the versions recorded in schema_migrations are
    exactly a prefix of the migrations in file name order, the schema is exactly
    what running that prefix once produces, and the prefix never shrinks.  If
    Migrate reports success, all of them are applied; when nothing fails, it
    does.  (Whatever is already applied is not run again.) *)
Theorem Migrate_correct (n : nat) (w : MigWorld)
    (Hat : at_version n (mw_db w)) :
  (∀ k, ∃ m, n ≤ m ∧ at_version m (mw_db (prog_steps handle_mig k (Migrate FS) w).2)) ∧
  ((run handle_mig (Migrate FS) w).1 = Ok tt →
     at_version (length ups) (mw_db (run handle_mig (Migrate FS) w).2)) ∧
  (mw_faults w = [] → is_Some (replay ups s0) → (run handle_mig (Migrate FS) w).1 = Ok tt).
Proof.
  assert (mig_inv (λ k, n ≤ k) w) as Hinv by by exists n.
  pose proof (safe_Migrate n w Hat) as Hsafe. split.
  - intros k. exact (safe_steps _ _ _ _ _ _ _ k Hsafe Hinv).
  - exact (safe_run _ _ _ _ _ _ _ Hsafe Hinv).
Qed.

(** What is listed is what is applied. *)
Lemma safe_AppliedMigrations P n w :
  P n → at_version n (mw_db w) →
  safe_mig P AppliedMigrations w (λ r _, ∀ vs, r = Ok vs → vs = order_desc (list_to_set (take n ups))).
Proof.
  intros HP Hat. unfold AppliedMigrations. apply safe_try; [apply _|].
  eapply safe_weaken; [by apply (safe_ensure _ n)|].
  intros [[]|e] w1 Hi1 (Hat1 & Htab & _); [|by intros ?]. destruct (Htab eq_refl) as [vs Hvs].
  assert (vs = list_to_set (take n ups)) as Evs.
  { destruct (at_table _ _ Hat1) as [E|[_ E]]; congruence. }
  apply safe_bind; [apply _|].
  eapply safe_weaken; [by apply (safe_query _ (SelectVersions None) (λ vs, Ok (order_desc vs)) w1 vs)|].
  intros [l|text] w2 _ (_ & Hval & _); intros w3 <- _ l' Hl; [|done].
  specialize (Hval l eq_refl). simpl in Hl. congruence.
Qed.

(** *** Rolling back *)

(** Each migration comes with one that undoes it. *)
Definition undone : Prop :=
  ∀ i v, ups !! i = Some v → ∃ down, ReadFile FS (down_name v) = Some down ∧
    ∀ body s s', ReadFile FS v = Some body → replay (take i ups) s0 = Some s →
      exec_body body s = Some s' → exec_body down s' = Some s.

(** The database sorts the versions as the file names are sorted. *)
Definition sorted_alike : Prop :=
  ∀ n, order_desc (list_to_set (take n ups)) = reverse (take n ups).

Lemma down_leads_to i v down db :
  undone → at_version (Datatypes.S i) db → ups !! i = Some v → ReadFile FS (down_name v) = Some down →
  leads_to i false v down db ∧ is_Some (exec_body down (md_schema db)).
Proof.
  intros Hun Hat Hv Hd. destruct Hat as [Hl Ht Hs]. destruct Ht as [Ht|[? _]]; [|lia].
  rewrite (replay_next i v) in Hs by done.
  destruct (replay (take i ups) s0) as [s|] eqn:Hr; [|done]. simpl in Hs.
  destruct (ReadFile FS v) as [body|] eqn:Hb; [|done]. simpl in Hs.
  destruct (Hun i v Hv) as (down' & Hd' & Hinv). assert (down' = down) as -> by congruence.
  specialize (Hinv body s _ Hb Hr Hs). split; [|by rewrite Hinv].
  intros s' Hs'. assert (s' = s) as -> by congruence. eexists. split.
  - unfold note_version, delete_version. simpl. rewrite Ht. reflexivity.
  - split; simpl; [lia| |done]. left. f_equal. rewrite (take_S_r _ _ v) by done.
    assert (v ∉ (list_to_set (take i ups) : gset string)) by (rewrite (applied_lookup i i) by done; lia).
    rewrite list_to_set_app_L. set_solver.
Qed.

Lemma safe_rollback_loop lo n k w :
  undone → lo ≤ n - k → at_version n (mw_db w) →
  safe_mig (λ m, lo ≤ m) (rollback_loop FS (take k (reverse (take n ups)))) w (λ r w',
    (r = Ok tt → at_version (n - k) (mw_db w')) ∧ (mw_faults w = [] → r = Ok tt)).
Proof.
  intros Hun. revert k w. induction n as [|n IH]; intros [|k] w Hlo Hat;
    [by intros w' <- _; rewrite ?take_0, ?take_nil..| |].
  { rewrite take_0. intros w' <- _. done. }
  assert (n < length ups) as Hn by by apply (at_length _ _ Hat).
  destruct (lookup_lt_is_Some_2 ups n Hn) as [v Hv].
  rewrite (take_S_r ups n v), reverse_snoc by done. cbn [take rollback_loop].
  destruct (Hun n v Hv) as (down & Hd & _). rewrite Hd.
  destruct (down_leads_to n v down _ Hun Hat Hv Hd) as [Hlead Hok].
  apply safe_try; [apply _|].
  eapply safe_weaken; [apply (safe_runMigration _ n); [by exists (Datatypes.S n); split; [lia|]|lia|done]|].
  intros [[]|e] w1 _ [Hr Hc].
  - eapply safe_weaken; [apply (IH k w1); [lia|by apply Hr]|].
    intros r w2 _ [H1 H2]. split; [done|]. intros Hw. by apply H2, Hc.
  - intros w2 <- _. split; [done|]. intros Hw. destruct (Hc Hw) as [_ Hd2]. by apply Hd2.
Qed.

Lemma safe_Rollback n steps w :
  undone → sorted_alike → at_version n (mw_db w) → (0 ≤ steps)%Z →
  safe_mig (λ m, n - Z.to_nat steps ≤ m) (Rollback FS steps) w (λ r w',
    (r = Ok tt → at_version (n - Z.to_nat steps) (mw_db w')) ∧ (mw_faults w = [] → r = Ok tt)).
Proof.
  intros Hun Hsort Hat Hsteps. unfold Rollback. apply safe_try; [apply _|].
  eapply safe_weaken; [apply (safe_ensure _ n); [lia|done]|].
  intros [[]|e] w1 Hi1 (Hat1 & Htab & Hc).
  2: { intros w2 <- _. split; [done|]. intros Hw. by destruct (Hc Hw) as [_ ?]. }
  destruct (Htab eq_refl) as [vs Hvs].
  set (f := λ vs, if (steps <? 0)%Z then Err "LIMIT must not be negative"
                  else Ok (take (Z.to_nat steps) (order_desc vs))).
  assert (vs = list_to_set (take n ups)) as Evs.
  { destruct (at_table _ _ Hat1) as [E|[_ E]]; congruence. }
  assert (f vs = Ok (take (Z.to_nat steps) (reverse (take n ups)))) as Hf.
  { unfold f. rewrite (proj2 (Z.ltb_ge _ _)), Evs, Hsort by lia. done. }
  apply safe_bind; [apply _|].
  eapply safe_weaken; [by apply (safe_query _ (SelectVersions (Some steps)) f w1 vs)|].
  intros [versions|text] w2 _ (Hdb & Hval & Hcalm).
  - specialize (Hval versions eq_refl). assert (versions = take (Z.to_nat steps) (reverse (take n ups))) as ->
      by congruence.
    eapply safe_weaken; [apply (safe_rollback_loop _ n _ w2); [done|lia|by rewrite Hdb]|].
    intros r w3 _ [H1 H2]. split; [done|]. intros Hw. by apply H2, Hcalm, Hc.
  - intros w3 <- _. split; [done|]. intros Hw. destruct (Hcalm (proj1 (Hc Hw))) as [_ E]. by rewrite Hf in E.
Qed.

(** C28. Rolling back is the way migrating came.  Started with the first [n]
    migrations applied, and with every migration undone by its down file,
    Rollback of [k] steps leaves exactly the first [n - k] applied and the schema
    they produce; and at every moment in between, whatever statement fails, what
    is recorded and what the schema is agree. *)
Theorem Rollback_correct (n : nat) (steps : Z) (w : MigWorld)
    (Hun : undone) (Hsort : sorted_alike) (Hat : at_version n (mw_db w)) (Hsteps : (0 ≤ steps)%Z) :
  (∀ k, ∃ m, n - Z.to_nat steps ≤ m ∧ at_version m (mw_db (prog_steps handle_mig k (Rollback FS steps) w).2)) ∧
  ((run handle_mig (Rollback FS steps) w).1 = Ok tt →
     at_version (n - Z.to_nat steps) (mw_db (run handle_mig (Rollback FS steps) w).2)) ∧
  (mw_faults w = [] → (run handle_mig (Rollback FS steps) w).1 = Ok tt).
Proof.
  assert (mig_inv (λ m, n - Z.to_nat steps ≤ m) w) as Hinv by (exists n; split; [lia|done]).
  pose proof (safe_Rollback n steps w Hun Hsort Hat Hsteps) as Hsafe. split.
  - intros k. exact (safe_steps _ _ _ _ _ _ _ k Hsafe Hinv).
  - exact (safe_run _ _ _ _ _ _ _ Hsafe Hinv).
Qed.
End agreement.
