(* ===== verification/Startup.v ===== *)
(** * Starting the API process (cmd/api/main.go)

    The order of start-up: configuration, database, migrations (or a rollback
    and nothing else), queue, GitHub credentials, then serving until a signal.
    Logging is left out; the result is the exit code.  [BootWorld] adds to the
    migration's world whether the server has begun to listen, and what the
    environment answers to everything else. *)
From S2P Require Import Prelude GoLib GoText Json Jwt Http Config Prog Traces Rely World Github Migrate.

Inductive BootCall : Type → Type :=
| Mig {X} (c : MigCall X) : BootCall X
| ConnectPostgres (url : string) : BootCall (option string)
| ConnectRedis (url : string) : BootCall (option string)
| ListenAndServe (addr : string) (gh : Client) : BootCall unit   (* in a goroutine *)
| AwaitDone : BootCall unit                                      (* [<-ctx.Done()] *)
| Shutdown : BootCall (option string).

Section main.
Context (FS : list (string * string)) (cfg : Settings).
Context (pem_Decode : string → option string) (ParsePKCS1 : string → option PrivateKey)
        (ParsePKCS8 : string → result string (option PrivateKey))
        (ReadKey : string → result string string).

Definition github_options : Options :=
  mkOptions (cfg_GitHubAppID cfg) (cfg_GitHubAppPrivateKey cfg) (cfg_GitHubAppPrivateKeyPath cfg)
    (cfg_GitHubToken cfg).

(** From the queue on. *)
Definition serve_until_stopped : Prog BootCall Z :=
  r ← call (ConnectRedis (cfg_RedisURL cfg));
  match r with
  | Some _ => mret 1%Z
  | None =>
      match Configure pem_Decode ParsePKCS1 ParsePKCS8 ReadKey github_options with
      | Err _ => mret 1%Z
      | Ok (gh, _) =>
          _ ← call (ListenAndServe (":" +:+ cfg_ServerPort cfg) gh);
          _ ← call AwaitDone;
          r ← call Shutdown;
          mret match r with Some _ => 1%Z | None => 0%Z end
      end
  end.

Definition api_main (rollback : Z) : Prog BootCall Z :=
  match Validate cfg with
  | Err _ => mret 1%Z
  | Ok _ =>
      r ← call (ConnectPostgres (cfg_DatabaseURL cfg));
      match r with
      | Some _ => mret 1%Z
      | None =>
          if (0 <? rollback)%Z then
            r ← lift (λ X c, Mig c) (Rollback FS rollback);
            match r with
            | Err _ => mret 1%Z
            | Ok _ => _ ← lift (λ X c, Mig c) AppliedMigrations; mret 0%Z
            end
          else
            r ← lift (λ X c, Mig c) (Migrate.Migrate FS);
            match r with
            | Err _ => mret 1%Z
            | Ok _ => serve_until_stopped
            end
      end
  end.

(** ** The world *)

Context {S : Type} (exec_body : string → S → option S) (order_desc : gset string → list string).

Record BootWorld : Type := mkBoot {
  bw_mig : MigWorld (S := S);
  bw_serving : option Client;
  bw_answers : list (option string)   (* what the next connection or shutdown says *)
}.

Definition boot_handle (X : Type) (c : BootCall X) (w : BootWorld) : X * BootWorld :=
  match c in BootCall X return X * BootWorld with
  | Mig c =>
      let '(x, m) := mig_handle exec_body order_desc _ c (bw_mig w) in
      (x, mkBoot m (bw_serving w) (bw_answers w))
  | ConnectPostgres _ | ConnectRedis _ | Shutdown =>
      (default None (head (bw_answers w)), mkBoot (bw_mig w) (bw_serving w) (tail (bw_answers w)))
  | ListenAndServe _ gh => (tt, mkBoot (bw_mig w) (Some gh) (bw_answers w))
  | AwaitDone => (tt, w)
  end.

(** ** The server only runs on the newest schema *)

Context (s0 : S) (Hnames : NoDup (map fst FS)).

Abbreviation at_ver := (at_version FS exec_body s0).

(** Some version is applied cleanly, and all are if the server is up. *)
Definition boot_inv (w : BootWorld) : Prop :=
  (∃ n, at_ver n (mw_db (bw_mig w))) ∧
  (bw_serving w ≠ None → at_ver (length (upMigrations FS)) (mw_db (bw_mig w))).

Abbreviation safe_boot := (safe boot_handle eq (λ _ _, True) boot_inv).

(** A program of the migrations, while nothing is served yet. *)
Lemma safe_lift_mig {A} P (p : Prog MigCall A) w (Q : A → MigWorld → Prop) :
  bw_serving w = None → mig_inv FS exec_body s0 P (bw_mig w) →
  safe (mig_handle exec_body order_desc) eq (λ _ _, True) (mig_inv FS exec_body s0 P) p (bw_mig w) Q →
  safe_boot (lift (λ X c, Mig c) p) w (λ a w', Q a (bw_mig w') ∧ bw_serving w' = None ∧
    mig_inv FS exec_body s0 P (bw_mig w')).
Proof.
  revert w. induction p as [a|X e k IH]; intros w Hs Hi Hp.
  { intros w' <- _. split_and!; [by apply Hp|done..]. }
  intros w' <- _. destruct (Hp (bw_mig w) eq_refl Hi) as [[Hk _] Hrest]. unfold keeps. cbn [boot_handle].
  destruct (mig_handle exec_body order_desc X e (bw_mig w)) as [x m]. cbn [fst snd] in *. split.
  - split; [|done]. split; [|by intros ?]. destruct Hk as (n & _ & Hn). by exists n.
  - by apply IH.
Qed.

(** A call of the rest of start-up. *)
Lemma boot_other w a sv :
  boot_inv w → (sv ≠ None → at_ver (length (upMigrations FS)) (mw_db (bw_mig w))) →
  boot_inv (mkBoot (bw_mig w) sv a).
Proof. intros [Hn _] Hs. by split. Qed.

Lemma safe_service w :
  at_ver (length (upMigrations FS)) (mw_db (bw_mig w)) →
  safe_boot serve_until_stopped w (λ _ _, True).
Proof.
  intros Hat. assert (∀ sv a, boot_inv (mkBoot (bw_mig w) sv a)) as Hinv.
  { intros sv a. split; [by eexists|done]. }
  unfold serve_until_stopped. intros w1 <- _. split; [split; [apply Hinv|done]|]. cbn [boot_handle fst snd].
  destruct (default None (head (bw_answers w))); [by intros ?|].
  destruct (Configure _ _ _ _ _) as [[gh mode]|e]; [|by intros ?].
  intros w2 <- _. split; [split; [apply Hinv|done]|].
  intros w3 <- _. split; [split; [apply Hinv|done]|].
  intros w4 <- _. split; [split; [apply Hinv|done]|]. by intros ?.
Qed.

Lemma safe_api_main rollback w :
  (∃ n, at_ver n (mw_db (bw_mig w))) → bw_serving w = None →
  ((0 < rollback)%Z → undone FS exec_body s0 ∧ sorted_alike FS order_desc) →
  safe_boot (api_main rollback) w (λ _ _, True).
Proof.
  intros [n Hat] Hs Hback. unfold api_main. destruct (Validate cfg); [|by intros ?].
  intros w1 <- Hinv. split; [split; [|done]|]; cbn [boot_handle fst snd].
  { apply boot_other; [done|]. by rewrite Hs. }
  destruct (default None (head (bw_answers w))); [by intros ?|].
  set (w2 := mkBoot _ _ _). destruct (0 <? rollback)%Z eqn:Hr.
  - apply Z.ltb_lt in Hr. destruct (Hback Hr) as [Hun Hsort]. apply safe_bind; [apply _|].
    eapply safe_weaken; [apply (safe_lift_mig (λ m, n - Z.to_nat rollback ≤ m)); [done| |]|].
    + exists n. split; [lia|done].
    + apply safe_Rollback; [done..|lia].
    + intros [[]|e] w3 _ (_ & Hs3 & Hi3); [|by intros ?]. apply safe_bind; [apply _|].
      destruct Hi3 as (m & Hm & Hat3).
      eapply safe_weaken; [apply (safe_lift_mig (λ m, n - Z.to_nat rollback ≤ m));
        [done|by exists m|by apply (safe_AppliedMigrations _ _ _ _ _ m)]|]. by intros ? ? _ _ ?.
  - apply safe_bind; [apply _|].
    eapply safe_weaken; [apply (safe_lift_mig (λ m, n ≤ m)); [done| |apply safe_Migrate; done]|].
    + by exists n.
    + intros [[]|e] w3 _ ((Hok & _) & _ & _); [|by intros ?]. apply safe_service. by apply Hok.
Qed.

(** C29. The API never serves on a schema it does not know: at every moment after the
    process has started, whatever statement or connection fails, if the server
    is listening then every migration of the binary is applied, once; and the
    -rollback flag undoes migrations only.  (The database is at some version
    when the process starts.) *)
Theorem serves_only_migrated (rollback : Z) (w : BootWorld) (k : nat)
    (Hat : ∃ n, at_ver n (mw_db (bw_mig w))) (Hs : bw_serving w = None)
    (Hback : (0 < rollback)%Z → undone FS exec_body s0 ∧ sorted_alike FS order_desc) :
  bw_serving (prog_steps boot_handle k (api_main rollback) w).2 ≠ None →
  at_ver (length (upMigrations FS)) (mw_db (bw_mig (prog_steps boot_handle k (api_main rollback) w).2)).
Proof.
  assert (boot_inv w) as Hinv by (split; [done|by rewrite Hs]).
  exact (proj2 (safe_steps _ _ _ _ _ _ _ k (safe_api_main rollback w Hat Hs Hback) Hinv)).
Qed.
End main.
