(* ===== verification/Tables.v ===== *)
(** * What every admissible statement keeps true of the tables

    [db_wf] is the well-formedness of the two tables, [db_evolves] says how the
    tables may change from one moment to a later one.  [admissible] is what the
    Go code guarantees about a statement before it sends it (a transition that
    [CanTransitionTo] allows, with the assignments that go with it).  The two
    lemmas at the end, one case per statement, are what every theorem about
    interleavings rests on. *)
From S2P Require Import Prelude Models Sql.

(** ** Well-formed tables *)

Abbreviation job_status row := (j_Status (jr_job row)).

(** What the status of a job says about its other columns. *)
Definition job_wf (runners : gmap string RunnerRow) (j : Job) : Prop :=
  (0 ≤ j_Attempts j ≤ int4_max)%Z ∧
  match j_Status j with
  | JobQueued => j_RunnerID j = None ∧ j_StartedAt j = None ∧ j_CompletedAt j = None
  | JobAssigned =>
      (∃ r, j_RunnerID j = Some r ∧ is_Some (runners !! r)) ∧
      (0 < j_Attempts j)%Z ∧ j_CompletedAt j = None
  | JobRunning =>
      (∃ r, j_RunnerID j = Some r ∧ is_Some (runners !! r)) ∧
      (0 < j_Attempts j)%Z ∧ is_Some (j_StartedAt j) ∧ j_CompletedAt j = None
  | JobSuccess =>
      (∃ r, j_RunnerID j = Some r ∧ is_Some (runners !! r)) ∧
      is_Some (j_StartedAt j) ∧ is_Some (j_CompletedAt j) ∧ is_Some (j_ExitCode j)
  | JobFailed =>
      (∃ r, j_RunnerID j = Some r ∧ is_Some (runners !! r)) ∧
      is_Some (j_CompletedAt j) ∧ is_Some (j_ExitCode j)
  | JobCancelled => is_Some (j_CompletedAt j)
  end.

(** A runner is BUSY exactly when it is recorded as holding a job. *)
Definition runner_wf (r : Runner) : Prop :=
  r_Status r = RunnerBusy ↔ is_Some (r_CurrentJobID r).

Record db_wf (db : DB) : Prop := mk_db_wf {
  wf_job_id id row : db_jobs db !! id = Some row → j_ID (jr_job row) = id;
  wf_job id row : db_jobs db !! id = Some row → job_wf (db_runners db) (jr_job row);
  wf_seq id row : db_jobs db !! id = Some row → (0 ≤ jr_log_seq row)%Z;
  wf_unique id id' row row' :
    db_jobs db !! id = Some row → db_jobs db !! id' = Some row' →
    active (job_status row) = true → active (job_status row') = true →
    index_key (jr_job row) = index_key (jr_job row') → id = id';
  wf_runner_id id row : db_runners db !! id = Some row → r_ID (rr_runner row) = id;
  wf_runner id row : db_runners db !! id = Some row → runner_wf (rr_runner row)
}.

(** ** How rows may change *)

(** The columns no UPDATE touches. *)
Definition job_identity (j : Job) :=
  (j_ID j, index_key j, j_CloneURL j, j_Branch j, j_ConfigRef j, j_Labels j, j_CreatedAt j).

Record row_evolves (row row' : JobRow) : Prop := {
  ev_status : job_path (job_status row) (job_status row');
  ev_terminal : Terminal (job_status row) = true → jr_job row' = jr_job row;
  ev_identity : job_identity (jr_job row') = job_identity (jr_job row);
  ev_attempts : (j_Attempts (jr_job row) ≤ j_Attempts (jr_job row'))%Z;
  ev_logs : ∃ tail, jr_logs row' = jr_logs row +:+ tail;
  ev_seq : (jr_log_seq row ≤ jr_log_seq row')%Z
}.

Definition runner_identity (row : RunnerRow) :=
  let r := rr_runner row in
  (r_ID r, r_Name r, r_Labels r, r_Architecture r, r_OS r, r_CreatedAt r, rr_token_hash row).

Record db_evolves (db db' : DB) : Prop := {
  evolves_jobs id row : db_jobs db !! id = Some row →
    ∃ row', db_jobs db' !! id = Some row' ∧ row_evolves row row';
  evolves_runners id row : db_runners db !! id = Some row →
    ∃ row', db_runners db' !! id = Some row' ∧ runner_identity row' = runner_identity row;
  evolves_now : (db_now db ≤ db_now db')%Z
}.

#[export] Instance row_evolves_preorder : PreOrder row_evolves.
Proof.
  split.
  - intros row. split; try done. exists "". by rewrite string_app_nil_r.
  - intros r1 r2 r3 [s12 t12 i12 a12 [l12 L12] q12] [s23 t23 i23 a23 [l23 L23] q23].
    split; try lia; try congruence; try by etrans.
    + intros Ht. rewrite t23; [by apply t12|].
      by rewrite (t12 Ht).
    + exists (l12 +:+ l23). by rewrite L23, L12, string_app_assoc.
Qed.

#[export] Instance db_evolves_preorder : PreOrder db_evolves.
Proof.
  split.
  - intros db. split; [..|lia]; intros id row Hrow; by exists row.
  - intros d1 d2 d3 [j12 r12 n12] [j23 r23 n23]. split; [..|lia].
    + intros id row (row2 & H2 & E2)%j12. apply j23 in H2 as (row3 & H3 & E3).
      exists row3. split; [done|]. by etrans.
    + intros id row (row2 & H2 & E2)%r12. apply r23 in H2 as (row3 & H3 & E3).
      exists row3. split; [done|]. by rewrite E3.
Qed.

(** ** Admissible statements *)

Definition clause_for (to : JobStatus) (extra : SetClause) : Prop :=
  match extra with
  | SetStarted => to = JobRunning
  | SetCompleted _ _ => to = JobSuccess ∨ to = JobFailed
  | SetRequeued => to = JobQueued
  | SetCancelled => to = JobCancelled
  end.

Definition admissible (X : Type) (s : SqlStmt X) : Prop :=
  match s with
  | InsertJob j => j_Status j = JobQueued
  | UpdateStatus to extra _ from => CanTransitionTo from to = true ∧ clause_for to extra
  | AssignTx _ _ from => CanTransitionTo from JobAssigned = true
  | UpdateLogs _ seq _ => (0 < seq)%Z
  | _ => True
  end.

(** ** Changing one row of a table *)

Lemma index_okP jobs id j :
  index_ok jobs id j = true ↔
  (active (j_Status j) = true → ∀ id' row', jobs !! id' = Some row' → ¬ index_clash id j id' row').
Proof.
  unfold index_ok. rewrite orb_true_iff, negb_true_iff, bool_decide_eq_true, map_Forall_lookup.
  split.
  - intros [Ha|Hall]; [congruence|eauto].
  - destruct (active (j_Status j)); [right|left]; naive_solver.
Qed.

(** A row that keeps its key, and was active if it is, still fits the index. *)
Lemma index_ok_same db id row j' :
  db_wf db → db_jobs db !! id = Some row → active (job_status row) = true →
  index_key j' = index_key (jr_job row) → index_ok (db_jobs db) id j' = true.
Proof.
  intros Hwf Hrow Ha Hk. apply index_okP. intros _ id' row' Hrow' (Hne & Ha' & Hk').
  apply Hne. symmetry. apply (wf_unique _ Hwf id id' row row'); congruence.
Qed.

Lemma job_wf_mono runners runners' j :
  (∀ r, is_Some (runners !! r) → is_Some (runners' !! r)) → job_wf runners j → job_wf runners' j.
Proof. intros Hr. unfold job_wf. destruct (j_Status j); naive_solver. Qed.

(** Storing a good row under [id] keeps the tables well formed. *)
Lemma db_wf_set_job db id row' :
  db_wf db →
  j_ID (jr_job row') = id → job_wf (db_runners db) (jr_job row') → (0 ≤ jr_log_seq row')%Z →
  index_ok (db_jobs db) id (jr_job row') = true →
  db_wf (set_jobs (<[id := row']> (db_jobs db)) db).
Proof.
  intros Hwf Hid Hj Hs Hix. rewrite index_okP in Hix.
  split; simpl; [| | | |apply (wf_runner_id _ Hwf)|apply (wf_runner _ Hwf)].
  - intros id1 row1 [[<- <-]|[? ?]]%lookup_insert_Some; [done|by apply (wf_job_id _ Hwf)].
  - intros id1 row1 [[<- <-]|[? ?]]%lookup_insert_Some; [done|by eapply (wf_job _ Hwf)].
  - intros id1 row1 [[<- <-]|[? ?]]%lookup_insert_Some; [done|by eapply (wf_seq _ Hwf)].
  - intros id1 id2 row1 row2 [[<- <-]|[? H1]]%lookup_insert_Some
      [[<- <-]|[? H2]]%lookup_insert_Some Ha1 Ha2 Hk; try done.
    + destruct (Hix Ha1 _ _ H2). done.
    + destruct (Hix Ha2 _ _ H1). done.
    + by eapply (wf_unique _ Hwf).
Qed.

Lemma db_wf_set_runners db runners' :
  db_wf db →
  (∀ id, is_Some (db_runners db !! id) → is_Some (runners' !! id)) →
  (∀ id row, runners' !! id = Some row → r_ID (rr_runner row) = id ∧ runner_wf (rr_runner row)) →
  db_wf (set_runners runners' db).
Proof.
  intros Hwf Hdom Hr. split; simpl; try apply Hwf.
  - intros id row Hrow. eapply job_wf_mono; [done|]. by eapply (wf_job _ Hwf).
  - intros id row Hrow. by apply Hr.
  - intros id row Hrow. by apply (Hr id).
Qed.

Lemma db_evolves_set_job db id row row' :
  db_jobs db !! id = Some row → row_evolves row row' →
  db_evolves db (set_jobs (<[id := row']> (db_jobs db)) db).
Proof.
  intros Hrow Hev. split; simpl; [| |lia].
  - intros id1 row1 H1. destruct (decide (id = id1)) as [<-|Hne].
    + exists row'. rewrite lookup_insert_eq. by simplify_eq.
    + exists row1. by rewrite lookup_insert_ne.
  - intros id1 row1 H1. by exists row1.
Qed.

Lemma db_evolves_new_job db id row' :
  db_jobs db !! id = None → db_evolves db (set_jobs (<[id := row']> (db_jobs db)) db).
Proof.
  intros Hnone. split; simpl; [| |lia]; intros id1 row1 H1; exists row1; [|done].
  rewrite lookup_insert_ne by congruence. done.
Qed.

Lemma db_evolves_set_runners db runners' :
  (∀ id row, db_runners db !! id = Some row →
    ∃ row', runners' !! id = Some row' ∧ runner_identity row' = runner_identity row) →
  db_evolves db (set_runners runners' db).
Proof. intros Hr. split; simpl; [|done|lia]. intros id row H1. by exists row. Qed.

(** Replacing one runner row by another with the same identity. *)
Lemma set_runner_row db id row row' :
  db_wf db → db_runners db !! id = Some row →
  runner_identity row' = runner_identity row → runner_wf (rr_runner row') →
  db_wf (set_runners (<[id := row']> (db_runners db)) db) ∧
  db_evolves db (set_runners (<[id := row']> (db_runners db)) db).
Proof.
  intros Hwf Hrow Hid Hr. split.
  - apply db_wf_set_runners; [done| |].
    + intros id1 H1. destruct (decide (id = id1)) as [<-|]; [rewrite lookup_insert_eq; eauto|].
      by rewrite lookup_insert_ne.
    + intros id1 row1 [[<- <-]|[? ?]]%lookup_insert_Some.
      { split; [|done]. apply (wf_runner_id _ Hwf) in Hrow. unfold runner_identity in Hid. congruence. }
      split; [by apply (wf_runner_id _ Hwf)|by eapply (wf_runner _ Hwf)].
  - apply db_evolves_set_runners. intros id1 row1 H1. destruct (decide (id = id1)) as [<-|].
    + assert (row1 = row) as -> by congruence. exists row'. by rewrite lookup_insert_eq.
    + exists row1. by rewrite lookup_insert_ne.
Qed.

(** ** The statements, one by one *)

(** What a statement must do to the tables. *)
Definition step_ok (db db' : DB) : Prop := db_wf db' ∧ db_evolves db db'.

Lemma step_ok_refl db : db_wf db → step_ok db db.
Proof. by split. Qed.
#[export] Hint Resolve step_ok_refl : core.

Lemma step_ok_set_job db id row row' :
  db_wf db → db_jobs db !! id = Some row → row_evolves row row' →
  job_wf (db_runners db) (jr_job row') → index_ok (db_jobs db) id (jr_job row') = true →
  step_ok db (set_jobs (<[id := row']> (db_jobs db)) db).
Proof.
  intros Hwf Hrow Hev Hj Hix. split; [|by eapply db_evolves_set_job].
  apply db_wf_set_job; try done.
  - destruct Hev. apply (wf_job_id _ Hwf) in Hrow. unfold job_identity in *. congruence.
  - etrans; [by eapply (wf_seq _ Hwf)|by destruct Hev].
Qed.

Lemma CanTransitionTo_active s s' : CanTransitionTo s s' = true → active s = true.
Proof. by destruct s. Qed.

Lemma job_path_once s s' : CanTransitionTo s s' = true → job_path s s'.
Proof. intros H. by apply rtc_once. Qed.

Lemma apply_set_identity now to extra j : job_identity (apply_set now to extra j) = job_identity j.
Proof. by destruct extra. Qed.

Lemma apply_set_status now to extra j : j_Status (apply_set now to extra j) = to.
Proof. by destruct extra. Qed.

(** The assignments that go with a transition give the row its new status needs. *)
Lemma apply_set_wf runners now to extra j :
  CanTransitionTo (j_Status j) to = true → clause_for to extra →
  job_wf runners j → job_wf runners (apply_set now to extra j).
Proof.
  intros Hcan Hc [Ha Hj]. split; [by destruct extra|]. rewrite apply_set_status.
  destruct extra as [| | |]; simpl in Hc; [|destruct Hc| |]; subst to; simpl;
    destruct (j_Status j); try done; naive_solver.
Qed.

Lemma update_status_row now to extra row :
  CanTransitionTo (job_status row) to = true →
  row_evolves row (mkJobRow (apply_set now to extra (jr_job row)) (jr_logs row) (jr_log_seq row)).
Proof.
  intros Hcan. split; simpl.
  - rewrite apply_set_status. by apply job_path_once.
  - intros Ht. by rewrite Terminal_no_moves in Hcan.
  - apply apply_set_identity.
  - by destruct extra.
  - exists "". by rewrite string_app_nil_r.
  - done.
Qed.

Lemma index_key_identity j j' : job_identity j = job_identity j' → index_key j = index_key j'.
Proof. unfold job_identity, index_key. congruence. Qed.

Lemma sql_update_status_ok to extra id from db :
  db_wf db → CanTransitionTo from to = true → clause_for to extra →
  step_ok db (sql_update_status to extra id from db).2.
Proof.
  intros Hwf Hcan Hcl. unfold sql_update_status. case_match; [by auto|].
  case_match eqn:Hrow; [|by auto]. case_decide as Hst; [|by auto].
  case_match eqn:Hix; [|by auto]. subst from. simpl. eapply step_ok_set_job; try done.
  - by apply update_status_row.
  - apply apply_set_wf; [done..|]. by eapply (wf_job _ Hwf).
Qed.

Lemma sql_append_logs_ok id seq chunk db :
  db_wf db → step_ok db (sql_append_logs id seq chunk db).2.
Proof.
  intros Hwf. unfold sql_append_logs. case_match; [by auto|].
  case_match eqn:Hrow; [|by auto]. case_match eqn:Hlt; [|by auto].
  apply Z.ltb_lt in Hlt. split; [|].
  - apply db_wf_set_job; simpl; [done|by apply (wf_job_id _ Hwf)|by eapply (wf_job _ Hwf)| |].
    + pose proof (wf_seq _ Hwf _ _ Hrow). lia.
    + apply index_okP. intros Ha id' row' Hrow' (Hne & Ha' & Hk').
      apply Hne. symmetry. by eapply (wf_unique _ Hwf id id').
  - eapply db_evolves_set_job; [done|]. split; simpl; try done; [by eexists|lia].
Qed.

Lemma sql_insert_job_ok j db :
  db_wf db → j_Status j = JobQueued → step_ok db (sql_insert_job j db).2.
Proof.
  intros Hwf Hq. unfold sql_insert_job. case_match; [by auto|]. case_match eqn:Hnone; [by auto|].
  case_match eqn:Hix; [|by auto]. split; [|by apply db_evolves_new_job].
  apply db_wf_set_job; simpl; try done. unfold job_wf. simpl. rewrite Hq. done.
Qed.

Lemma tx_assign_job_ok runnerID jobID from db :
  db_wf db → CanTransitionTo from JobAssigned = true →
  step_ok db (tx_assign_job runnerID jobID from db).2.
Proof.
  intros Hwf Hcan. unfold tx_assign_job.
  case_match eqn:Hrow; [|by auto]. case_decide as Hst; [|by auto].
  case_match eqn:Hint; [by auto|]. case_match eqn:Hix; [by auto|].
  case_match eqn:Hr; [|by auto]. apply bool_decide_eq_true in Hr.
  apply negb_false_iff in Hint, Hix. unfold int4_ok in Hint.
  pose proof (wf_job _ Hwf _ _ Hrow) as [Hatt _].
  simpl. eapply step_ok_set_job; try done.
  - split; simpl; try done; [| |lia|].
    + rewrite Hst. by apply job_path_once.
    + intros Ht. rewrite Hst in Ht. by rewrite Terminal_no_moves in Hcan.
    + exists "". by rewrite string_app_nil_r.
  - unfold job_wf. simpl. split; [lia|]. split; [by eexists|]. split; [lia|].
    destruct from; try done. pose proof (wf_job _ Hwf _ _ Hrow) as [_ Hq].
    rewrite Hst in Hq. naive_solver.
Qed.

Lemma step_ok_trans db1 db2 db3 : step_ok db1 db2 → step_ok db2 db3 → step_ok db1 db3.
Proof. intros [_ E12] [W3 E23]. split; [done|]. by etrans. Qed.

Lemma runner_wf_free r : r_Status r ≠ RunnerBusy → r_CurrentJobID r = None → runner_wf r.
Proof. intros Hs Hc. split; [done|]. rewrite Hc. by intros []%is_Some_None. Qed.

Lemma tx_busy_runner_ok jobID runnerID db :
  db_wf db → step_ok db (tx_busy_runner jobID runnerID db).2.
Proof.
  intros Hwf. unfold tx_busy_runner. case_match eqn:Hrow; [|by auto].
  case_decide; [|by auto]. eapply set_runner_row; [done..|]. by split; simpl.
Qed.

(** [AssignJob]'s transaction commits both updates or neither. *)
Lemma sql_assign_tx_ok runnerID jobID from db :
  db_wf db → CanTransitionTo from JobAssigned = true →
  step_ok db (sql_assign_tx runnerID jobID from db).2.
Proof.
  intros Hwf Hcan. unfold sql_assign_tx.
  pose proof (tx_assign_job_ok runnerID jobID from db Hwf Hcan) as H1.
  destruct (tx_assign_job runnerID jobID from db) as [[[|n]| |] db1]; simpl in *; [by auto| |by auto..].
  pose proof (tx_busy_runner_ok jobID runnerID db1 (proj1 H1)) as H2.
  destruct (tx_busy_runner jobID runnerID db1) as [[[|m]| |] db2]; simpl in *; [by auto| |by auto..].
  by eapply step_ok_trans.
Qed.

Lemma sql_insert_runner_ok r tokenHash db :
  db_wf db → step_ok db (sql_insert_runner r tokenHash db).2.
Proof.
  intros Hwf. unfold sql_insert_runner. case_match; [by auto|]. case_match eqn:Hnone; [by auto|]. simpl. split.
  - apply db_wf_set_runners; [done| |].
    + intros id Hid. rewrite lookup_insert_is_Some'. by right.
    + intros id row [[<- <-]|[? ?]]%lookup_insert_Some.
      { split; [done|]. by apply runner_wf_free. }
      split; [by apply (wf_runner_id _ Hwf)|by eapply (wf_runner _ Hwf)].
  - apply db_evolves_set_runners. intros id row Hrow. exists row. split; [|done].
    by rewrite lookup_insert_ne by congruence.
Qed.

Lemma sql_heartbeat_ok id db : db_wf db → step_ok db (sql_heartbeat id db).2.
Proof.
  intros Hwf. unfold sql_heartbeat. case_match eqn:Hrow; [|by auto].
  eapply set_runner_row; [done..|]. pose proof (wf_runner _ Hwf _ _ Hrow) as Hr.
  unfold runner_wf in *. simpl. destruct (r_Status _); naive_solver.
Qed.

Lemma sql_release_runner_ok id db : db_wf db → step_ok db (sql_release_runner id db).2.
Proof.
  intros Hwf. unfold sql_release_runner. case_match eqn:Hrow; [|by auto].
  case_decide; [|by auto]. eapply set_runner_row; [done..|].
  by apply runner_wf_free.
Qed.

Lemma sql_reap_runners_ok `{RangeOrder} secs db :
  db_wf db → step_ok db (sql_reap_runners secs db).2.
Proof.
  intros Hwf. unfold sql_reap_runners. simpl. split.
  - apply db_wf_set_runners; [done| |].
    + intros id Hid. by rewrite lookup_fmap, fmap_is_Some.
    + intros id row. rewrite lookup_fmap_Some. intros (row0 & <- & Hrow0).
      case_decide; [|split; [by apply (wf_runner_id _ Hwf)|by eapply (wf_runner _ Hwf)]].
      split; [exact (wf_runner_id _ Hwf _ _ Hrow0)|]. by apply runner_wf_free.
  - apply db_evolves_set_runners. intros id row Hrow.
    exists (if decide (is_stale (db_now db) secs row) then knock_out row else row).
    rewrite lookup_fmap, Hrow. split; [done|]. by case_decide.
Qed.

(** Every admissible statement keeps the tables well formed and changes them
    only as allowed. *)
Lemma exec_sql_ok `{RangeOrder} X (s : SqlStmt X) db :
  db_wf db → admissible X s → step_ok db (exec_sql s db).2.
Proof.
  intros Hwf. destruct s; simpl; intros Hadm; try by apply step_ok_refl.
  - by apply sql_insert_job_ok.
  - unfold sql_select_jobs. case_match; by apply step_ok_refl.
  - destruct Hadm. by apply sql_update_status_ok.
  - by apply sql_assign_tx_ok.
  - by apply sql_append_logs_ok.
  - by apply sql_insert_runner_ok.
  - by apply sql_heartbeat_ok.
  - by apply sql_release_runner_ok.
  - by apply sql_reap_runners_ok.
Qed.

(** ** One statement at a time *)

(** What a job was created with. *)
Definition described (j : Job) :=
  (j_ID j, index_key j, j_CloneURL j, j_Branch j, j_ConfigRef j, j_Labels j).

(** The jobs a statement may create satisfy [V]. *)
Definition creates (V : Job → Prop) (X : Type) (s : SqlStmt X) : Prop :=
  match s with InsertJob j => V j | _ => True end.

(** A row after one statement, against the row that was there before: a new row
    is QUEUED and one of those that may be created; an old one makes at most one
    move of the state machine. *)
Definition row_next (V : Job → Prop) (before : option JobRow) (row' : JobRow) : Prop :=
  match before with
  | None => job_status row' = JobQueued ∧ ∃ j, V j ∧ described (jr_job row') = described j
  | Some row =>
      described (jr_job row') = described (jr_job row) ∧
      (job_status row' = job_status row ∨ job_step (job_status row) (job_status row'))
  end.

Definition rows_next (V : Job → Prop) (db db' : DB) : Prop :=
  ∀ id row', db_jobs db' !! id = Some row' → row_next V (db_jobs db !! id) row'.

Lemma rows_next_jobs V db db' : db_jobs db' = db_jobs db → rows_next V db db'.
Proof. intros E id row'. rewrite E. intros ->. split; [done|by left]. Qed.

#[export] Instance rows_next_refl V : Reflexive (rows_next V).
Proof. intros db. by apply rows_next_jobs. Qed.

Lemma rows_next_put V db db' id row :
  db_jobs db' = <[id := row]> (db_jobs db) → row_next V (db_jobs db !! id) row → rows_next V db db'.
Proof.
  intros E Hn id' row'. rewrite E. intros [[<- <-]|[Hne H1]]%lookup_insert_Some; [done|].
  rewrite H1. split; [done|by left].
Qed.

Lemma described_set now to extra j : described (apply_set now to extra j) = described j.
Proof. by destruct extra. Qed.

Lemma assign_tx_next V runnerID jobID from db :
  CanTransitionTo from JobAssigned = true → rows_next V db (sql_assign_tx runnerID jobID from db).2.
Proof.
  intros Hcan. unfold sql_assign_tx, tx_assign_job.
  destruct (db_jobs db !! jobID) as [row|] eqn:Hrow; [|done]. case_decide as Hst; [|done].
  cbv zeta. destruct (negb (int4_ok _)); [done|]. destruct (negb (index_ok _ _ _)); [done|].
  destruct (bool_decide _); [|done]. unfold tx_busy_runner. simpl.
  destruct (db_runners db !! runnerID); [|done]. case_decide; [|done].
  eapply rows_next_put; [done|]. rewrite Hrow. split; [done|]. right. rewrite Hst.
  by apply CanTransitionTo_step.
Qed.

Lemma exec_sql_next `{RangeOrder} V X (s : SqlStmt X) db :
  admissible X s → creates V X s → rows_next V db (exec_sql s db).2.
Proof.
  intros Hadm HV. destruct s; cbn [exec_sql]; try by apply rows_next_jobs.
  - unfold sql_insert_job. case_match; [done|]. case_match eqn:Hnone; [done|]. case_match; [|done].
    eapply rows_next_put; [done|]. rewrite Hnone. split; [exact Hadm|]. by exists j.
  - unfold sql_select_jobs. by case_match.
  - destruct Hadm as [Hcan Hcl]. unfold sql_update_status. case_match; [done|].
    case_match eqn:Hrow; [|done]. case_decide as Hst; [|done]. case_match; [|done].
    eapply rows_next_put; [done|]. rewrite Hrow. simpl. rewrite described_set, apply_set_status.
    split; [done|]. right. rewrite Hst. by apply CanTransitionTo_step.
  - by apply assign_tx_next.
  - unfold sql_append_logs. case_match; [done|]. case_match eqn:Hrow; [|done]. case_match; [|done].
    eapply rows_next_put; [done|]. rewrite Hrow. split; [done|by left].
  - unfold sql_insert_runner. repeat (case_match; try done); by apply rows_next_jobs.
  - unfold sql_heartbeat. case_match; [|done]. by apply rows_next_jobs.
  - unfold sql_release_runner. repeat (case_match; try done); by apply rows_next_jobs.
Qed.

(** In whatever order statements come, every row was created as [V] says. *)
Definition all_created (V : Job → Prop) (db : DB) : Prop :=
  ∀ id row, db_jobs db !! id = Some row → ∃ j, V j ∧ described (jr_job row) = described j.

Lemma all_created_next V db db' : rows_next V db db' → all_created V db → all_created V db'.
Proof.
  intros Hn Ha id row' Hrow'. specialize (Hn id row' Hrow'). unfold row_next in Hn.
  destruct (db_jobs db !! id) as [row|] eqn:Hrow; [|by destruct Hn].
  destruct (Ha id row Hrow) as (j & Hj & Hd). exists j. split; [done|]. destruct Hn as [-> _]. done.
Qed.
