(* ===== verification/Typed.v ===== *)
(** * Every column holds a value of its type

    migrations/0001_init.sql and 0002_log_sequence.sql declare TEXT, INT and
    TEXT[] columns.  [db_typed] says what that leaves for their values: text is
    valid UTF-8 without a zero byte, an INT has 32 bits, the labels of a runner
    are not NULL.  No statement of the store can break it, whatever its
    parameters ([exec_sql_typed]); so what is read from a row can be encoded,
    and is not changed by being encoded. *)
From S2P Require Import Prelude GoLib Json JsonOut Prog Models Sql Redis World Tables.
From Stdlib Require Import Ascii.

(** ** Text *)

Lemma contains_byte_app s t c : contains_byte (s +:+ t) c = contains_byte s c || contains_byte t c.
Proof. induction s as [|x s IH]; [done|]. unfold String.app in *. simpl. rewrite IH. by case_match. Qed.

Lemma valid_utf8_fuel fuel s : slen s ≤ fuel → valid_utf8_loop fuel s = valid_utf8 s.
Proof.
  unfold valid_utf8. remember (slen s) as n eqn:En. assert (slen s ≤ n) as Hle by lia. clear En.
  revert fuel s Hle. induction n as [|n IH]; intros [|fuel] [|c s] Hle Hf; simpl in Hle, Hf; try done; try lia.
  cbn [valid_utf8_loop]. destruct (utf8_length _) as [|k]; [done|].
  pose proof (string_drop_shorter k c s) as Hd. by rewrite !IH by lia.
Qed.

Lemma valid_utf8_ascii c s : (byte_val c < 128)%Z → valid_utf8 (String.String c s) = valid_utf8 s.
Proof. intros Hc. unfold valid_utf8 at 1. cbn [valid_utf8_loop slen]. by rewrite utf8_length_ascii. Qed.

Lemma valid_utf8_high r s :
  1 < slen r → (∀ t, utf8_length (r +:+ t) = slen r) → valid_utf8 (r +:+ s) = valid_utf8 s.
Proof.
  intros Hl Hr. unfold valid_utf8 at 1. destruct r as [|c r]; [simpl in Hl; lia|].
  specialize (Hr s). pose proof (string_drop_app (String.String c r) s) as Hd.
  cbn [slen] in *. cbn [String.append] in *. unfold String.app in *. cbn [String.append] in *.
  cbn [slen valid_utf8_loop]. rewrite Hr, Hd. apply valid_utf8_fuel.
  change (String.append r s) with (r +:+ s). rewrite string_length_append. lia.
Qed.

Lemma valid_utf8_app s t : valid_utf8 s = true → valid_utf8 t = true → valid_utf8 (s +:+ t) = true.
Proof.
  intros Hs Ht. induction s as [|c s Hc IH|r s Hlen Hr Hloc IH|c s Hc IH] using runes_ind; [done|..].
  - change (valid_utf8 (String.String c (s +:+ t)) = true). rewrite valid_utf8_ascii in Hs |- * by done. by apply IH.
  - rewrite string_app_assoc. rewrite valid_utf8_high in Hs |- * by done. by apply IH.
  - exfalso. unfold valid_utf8 in Hs. cbn [slen valid_utf8_loop] in Hs. by rewrite Hc in Hs.
Qed.

Lemma text_ok_app s t : text_ok s = true → text_ok t = true → text_ok (s +:+ t) = true.
Proof.
  unfold text_ok. rewrite !andb_true_iff, !negb_true_iff, contains_byte_app.
  intros [-> ?] [-> ?]. by auto using valid_utf8_app.
Qed.

(** Text is encoded as it is. *)
Lemma sanitize_text s : text_ok s = true → sanitize s = s.
Proof. unfold text_ok. intros [_ Hs]%andb_true_iff. by apply sanitize_valid. Qed.

(** ** Rows *)

Definition opt_text_ok (o : option string) : Prop := match o with Some s => text_ok s = true | None => True end.

Record job_typed (j : Job) : Prop := {
  jt_text : job_text_ok j = true;
  jt_error : text_ok (j_Error j) = true;
  jt_runner : opt_text_ok (j_RunnerID j);
  jt_attempts : int4_ok (j_Attempts j) = true;
  jt_exit : match j_ExitCode j with Some z => int4_ok z = true | None => True end
}.

Definition job_row_typed (row : JobRow) : Prop :=
  job_typed (jr_job row) ∧ text_ok (jr_logs row) = true ∧ int4_ok (jr_log_seq row) = true.

Definition runner_row_typed (row : RunnerRow) : Prop :=
  runner_text_ok (rr_runner row) (rr_token_hash row) = true ∧ opt_text_ok (r_CurrentJobID (rr_runner row)).

Record db_typed (db : DB) : Prop := {
  typed_jobs id row : db_jobs db !! id = Some row → text_ok id = true ∧ job_row_typed row;
  typed_runners id row : db_runners db !! id = Some row → text_ok id = true ∧ runner_row_typed row
}.

Lemma empty_typed now : db_typed (mkDB ∅ ∅ now).
Proof. by split; simpl; intros id row; rewrite lookup_empty. Qed.

Lemma typed_set_job db id row :
  db_typed db → text_ok id = true → job_row_typed row → db_typed (set_jobs (<[id := row]> (db_jobs db)) db).
Proof.
  intros [Hj Hr] Hid Hrow. split; [|done]. simpl. intros id' row' [[<- <-]|[_ ?]]%lookup_insert_Some; [done|by apply Hj].
Qed.

Lemma typed_set_runner db id row :
  db_typed db → text_ok id = true → runner_row_typed row →
  db_typed (set_runners (<[id := row]> (db_runners db)) db).
Proof.
  intros [Hj Hr] Hid Hrow. split; [done|]. simpl. intros id' row' [[<- <-]|[_ ?]]%lookup_insert_Some; [done|by apply Hr].
Qed.

Lemma job_text_all j s :
  job_text_ok j = true →
  s ∈ [j_ID j; j_Repository j; j_CloneURL j; j_CommitSHA j; j_Branch j; j_EventType j; j_ConfigRef j] ++ j_Labels j →
  text_ok s = true.
Proof. unfold job_text_ok. rewrite forallb_forall. intros Ht Hs. by apply Ht, list_elem_of_In. Qed.

Lemma job_text_of j : job_text_ok j = true → text_ok (j_ID j) = true.
Proof. unfold job_text_ok. simpl. by intros [? _]%andb_true_iff. Qed.

Lemma runner_text_of r h : runner_text_ok r h = true → text_ok (r_ID r) = true.
Proof. unfold runner_text_ok. destruct (r_Labels r); [|done]. simpl. by intros [? _]%andb_true_iff. Qed.

Lemma apply_set_typed now to extra j :
  set_clause_ok extra = true → job_typed j → job_typed (apply_set now to extra j).
Proof.
  intros He [Ht Her Hr Ha Hx]. destruct extra; simpl in *; split; try done;
    by apply andb_true_iff in He as [??].
Qed.

Lemma set_runner_typed status job beat assigned row :
  runner_row_typed row → opt_text_ok job → runner_row_typed (set_runner status job beat assigned row).
Proof. by intros [Ht _] Hj. Qed.

(** ** Statements *)

Lemma tx_assign_job_typed runnerID jobID from db :
  db_typed db → db_typed (tx_assign_job runnerID jobID from db).2 ∧
  ((tx_assign_job runnerID jobID from db).1 = SqlOk 1 → text_ok jobID = true).
Proof.
  intros Ht. unfold tx_assign_job. destruct (db_jobs db !! jobID) as [row|] eqn:Hrow; [|done].
  destruct (typed_jobs _ Ht _ _ Hrow) as [Hid [Hj [Hl Hs]]].
  case_decide; [|done]. cbv zeta. destruct (int4_ok (_ + 1)) eqn:Ha; simpl; [|done].
  destruct (index_ok _ _ _); simpl; [|done].
  case_bool_decide as Hr; [|done]. destruct Hr as [rrow Hr]. split; [|done]. simpl.
  apply typed_set_job; [done..|]. split; [|done]. destruct Hj. split; try done.
  by apply (typed_runners _ Ht _ _ Hr).
Qed.

Lemma tx_busy_runner_typed jobID runnerID db :
  db_typed db → text_ok jobID = true → db_typed (tx_busy_runner jobID runnerID db).2.
Proof.
  intros Ht Hid. unfold tx_busy_runner. destruct (db_runners db !! runnerID) as [row|] eqn:Hrow; [|done].
  destruct (typed_runners _ Ht _ _ Hrow) as [Hr Hrt]. case_decide; [|done].
  apply typed_set_runner; [done..|]. by apply set_runner_typed.
Qed.

Lemma sql_assign_tx_typed runnerID jobID from db :
  db_typed db → db_typed (sql_assign_tx runnerID jobID from db).2.
Proof.
  intros Ht. unfold sql_assign_tx. destruct (tx_assign_job_typed runnerID jobID from db Ht) as [Ht1 Hid].
  destruct (tx_assign_job runnerID jobID from db) as [[[|n]| |] db1] eqn:E; try done. simpl in *.
  pose proof (tx_busy_runner_typed jobID runnerID db1 Ht1) as Ht2.
  destruct (tx_busy_runner jobID runnerID db1) as [[[|m]| |] db2]; try done. apply Ht2.
  apply Hid. f_equal. revert E. unfold tx_assign_job. repeat case_match; congruence.
Qed.

Section exec.
Context `{RangeOrder}.

(** Whatever a statement is given, the tables stay typed. *)
Lemma exec_sql_typed {X} (s : SqlStmt X) db : db_typed db → db_typed (exec_sql s db).2.
Proof.
  intros Ht. destruct s; cbn [exec_sql]; try done.
  - unfold sql_insert_job. destruct (job_text_ok j) eqn:Hj; simpl; [|done]. case_match; [done|].
    case_match; [|done]. apply typed_set_job; [done|by apply job_text_of|].
    split; [|done]. by split.
  - unfold sql_select_jobs. by case_match.
  - unfold sql_update_status. destruct (set_clause_ok extra) eqn:He; simpl; [|done].
    destruct (db_jobs db !! id) as [row|] eqn:Hrow; [|done]. case_decide; [|done]. case_match; [|done].
    destruct (typed_jobs _ Ht _ _ Hrow) as [Hid [Hj Hl]].
    apply typed_set_job; [done..|]. split; [by apply apply_set_typed|done].
  - by apply sql_assign_tx_typed.
  - unfold sql_append_logs. destruct (int4_ok seq && text_ok chunk) eqn:E; simpl; [|done].
    apply andb_true_iff in E as [??]. destruct (db_jobs db !! id) as [row|] eqn:Hrow; [|done].
    case_match; [|done]. destruct (typed_jobs _ Ht _ _ Hrow) as [Hid [Hj [Hl Hs]]].
    apply typed_set_job; [done..|]. split_and!; try done. by apply text_ok_app.
  - unfold sql_insert_runner. destruct (runner_text_ok r tokenHash) eqn:Hr; simpl; [|done]. case_match; [done|].
    apply typed_set_runner; [done|by eapply runner_text_of|]. by split.
  - unfold sql_heartbeat. destruct (db_runners db !! id) as [row|] eqn:Hrow; [|done].
    destruct (typed_runners _ Ht _ _ Hrow) as [Hid Hr]. apply typed_set_runner; [done..|].
    apply set_runner_typed; [done|apply Hr].
  - unfold sql_release_runner. destruct (db_runners db !! id) as [row|] eqn:Hrow; [|done]. case_decide; [|done].
    destruct (typed_runners _ Ht _ _ Hrow) as [Hid Hr]. apply typed_set_runner; [done..|].
    by apply set_runner_typed.
  - unfold sql_reap_runners. split; [apply Ht|]. simpl. intros id row.
    rewrite lookup_fmap_Some. intros (row0 & <- & Hrow). destruct (typed_runners _ Ht _ _ Hrow) as [Hid Hr].
    split; [done|]. case_decide; [|done]. by apply set_runner_typed.
Qed.
End exec.

(** Nor can a call of a program of the control plane, whatever its fate. *)
Lemma handle_typed `{RangeOrder} {R} `{Redis R} {X} (c : Call X) (w : World R) :
  db_typed (w_db w) → db_typed (w_db (handle _ c w).2).
Proof.
  set (T := λ db db', db_typed db → db_typed db').
  assert (Reflexive T) by (intros db Hdb; exact Hdb).
  apply (handle_db (λ _ _, True) T); [|by destruct c]. intros Y s db _ Hdb. by apply exec_sql_typed.
Qed.

Lemma run_typed `{RangeOrder} {R} `{Redis R} {A} (p : Prog Call A) (w : World R) :
  db_typed (w_db w) → db_typed (w_db (exec p w).2).
Proof.
  revert w. induction p as [a|X c k IH]; intros w Ht; [done|]. simpl.
  pose proof (handle_typed c w Ht) as Hc. destruct (handle X c w) as [x w']. by apply IH.
Qed.
