(* ===== verification/Store.v ===== *)
(** * internal/store/store.go

    Each definition is the method of the same name: the statements it sends, in
    order, and what it returns for each reply.  The error values are those of
    the package; [ErrDatabase] stands for any error of the driver passed on
    unchanged. *)
From S2P Require Import Prelude Prog Models Sql Redis World Tables.

(** ** Errors *)

Inductive store_error : Type :=
| ErrNotFound
| ErrDuplicate
| ErrInvalidTransition (from to : JobStatus) (* "%w: %s -> %s" *)
| ErrChangedConcurrently (* "%w: job changed concurrently" *)
| ErrRunnerNotIdle (runnerID : string)
| ErrDatabase.

(** [errors.Is(err, ErrNotFound)] *)
Definition is_not_found (e : store_error) : bool :=
  match e with ErrNotFound => true | _ => false end.

(** [errors.Is(err, ErrDuplicate)] *)
Definition is_duplicate (e : store_error) : bool :=
  match e with ErrDuplicate => true | _ => false end.

(** [errors.Is(err, ErrInvalidTransition)]: both wrapped forms *)
Definition is_invalid_transition (e : store_error) : bool :=
  match e with ErrInvalidTransition _ _ | ErrChangedConcurrently => true | _ => false end.

(** [err.Error()] *)
Definition store_error_string (e : store_error) : string :=
  match e with
  | ErrNotFound => "not found"
  | ErrDuplicate => "an active job already exists for this commit"
  | ErrInvalidTransition from to =>
      "invalid state transition: " +:+ job_status_string from +:+ " -> " +:+ job_status_string to
  | ErrChangedConcurrently => "invalid state transition: job changed concurrently"
  | ErrRunnerNotIdle runnerID => "runner " +:+ runnerID +:+ " is no longer idle"
  | ErrDatabase => "database error"
  end.

Abbreviation action A := (Prog Call (result store_error A)).

(** [scanJob], [scanRunner] and the scalar [Scan]s: no row is [ErrNotFound]. *)
Definition scan {A} (r : sqlres (option A)) : result store_error A :=
  match r with
  | SqlOk (Some a) => Ok a
  | SqlOk None => Err ErrNotFound
  | SqlUnique | SqlFail => Err ErrDatabase
  end.

(** A query that lists rows. *)
Definition rows {A} (r : sqlres A) : result store_error A :=
  match r with SqlOk a => Ok a | SqlUnique | SqlFail => Err ErrDatabase end.

(** ** Jobs *)

Definition CreateJob (j : Job) : action unit :=
  r ← call (Sql (InsertJob j));
  mret match r with
       | SqlOk _ => Ok tt
       | SqlUnique => Err ErrDuplicate
       | SqlFail => Err ErrDatabase
       end.

Definition GetJob (id : string) : action Job :=
  r ← call (Sql (SelectJob id)); mret (scan r).

Definition ListJobs (limit : Z) : action (list Job) :=
  r ← call (Sql (SelectJobs limit)); mret (rows r).

(** [job.Status = to], on the copy read before the UPDATE *)
Definition with_status (to : JobStatus) (j : Job) : Job :=
  mkJob (j_ID j) (j_Repository j) (j_CloneURL j) (j_CommitSHA j) (j_Branch j) (j_EventType j)
    (j_ConfigRef j) (j_Labels j) to (j_RunnerID j) (j_Attempts j) (j_ExitCode j) (j_Error j)
    (j_CreatedAt j) (j_StartedAt j) (j_CompletedAt j).

Definition transition (id : string) (to : JobStatus) (extra : SetClause) : action Job :=
  job ←? GetJob id;
  if negb (CanTransitionTo (j_Status job) to)
  then mret (Err (ErrInvalidTransition (j_Status job) to))
  else
    tag ← call (Sql (UpdateStatus to extra id (j_Status job)));
    mret match tag with
         | SqlOk 0 => Err ErrChangedConcurrently
         | SqlOk (S _) => Ok (with_status to job)
         | SqlUnique | SqlFail => Err ErrDatabase
         end.

Definition AssignJob (jobID runnerID : string) : action unit :=
  job ←? GetJob jobID;
  if negb (CanTransitionTo (j_Status job) JobAssigned)
  then mret (Err (ErrInvalidTransition (j_Status job) JobAssigned))
  else
    r ← call (Sql (AssignTx runnerID jobID (j_Status job)));
    mret match r with
         | SqlOk TxCommitted => Ok tt
         | SqlOk TxJobChanged => Err ErrChangedConcurrently
         | SqlOk TxRunnerNotIdle => Err (ErrRunnerNotIdle runnerID)
         | SqlUnique | SqlFail => Err ErrDatabase
         end.

Definition releaseRunner (runnerID : string) : action unit :=
  r ← call (Sql (ReleaseRunner runnerID));
  mret match r with SqlOk _ => Ok tt | SqlUnique | SqlFail => Err ErrDatabase end.

(** [if job.RunnerID != nil { return s.releaseRunner(ctx, *job.RunnerID) }; return nil] *)
Definition release_if_held (job : Job) : action unit :=
  match j_RunnerID job with
  | Some runnerID => releaseRunner runnerID
  | None => mret (Ok tt)
  end.

Definition StartJob (jobID : string) : action unit :=
  _ ←? transition jobID JobRunning SetStarted; mret (Ok tt).

Definition CompleteJob (jobID : string) (status : JobStatus) (exitCode : Z) (errMsg : string) :
    action unit :=
  job ←? transition jobID status (SetCompleted exitCode errMsg); release_if_held job.

Definition RequeueJob (jobID : string) : action unit :=
  job ←? transition jobID JobQueued SetRequeued; release_if_held job.

Definition CancelJob (jobID : string) : action unit :=
  job ←? transition jobID JobCancelled SetCancelled; release_if_held job.

Definition AppendLogs (jobID : string) (seq : Z) (chunk : string) : action unit :=
  tag ← call (Sql (UpdateLogs jobID seq chunk));
  match tag with
  | SqlOk 1 => mret (Ok tt)
  | SqlOk _ =>
      (* nothing was written: the job is gone or this chunk already landed *)
      current ← call (Sql (SelectLogSeq jobID));
      mret match scan current with Ok _ => Ok tt | Err e => Err e end
  | SqlUnique | SqlFail => mret (Err ErrDatabase)
  end.

Definition GetLogs (jobID : string) : action string :=
  r ← call (Sql (SelectLogs jobID)); mret (scan r).

(** ** Runners *)

Definition RegisterRunner (r : Runner) (tokenHash : string) : action unit :=
  x ← call (Sql (InsertRunner r tokenHash));
  mret match x with SqlOk _ => Ok tt | SqlUnique | SqlFail => Err ErrDatabase end.

Definition GetRunner (id : string) : action Runner :=
  r ← call (Sql (SelectRunner id)); mret (scan r).

Definition RunnerTokenHash (id : string) : action string :=
  r ← call (Sql (SelectTokenHash id)); mret (scan r).

Definition ListRunners : action (list Runner) :=
  r ← call (Sql SelectRunners); mret (rows r).

Definition Heartbeat (id : string) : action unit :=
  tag ← call (Sql (UpdateHeartbeat id));
  mret match tag with
       | SqlOk 0 => Err ErrNotFound
       | SqlOk (S _) => Ok tt
       | SqlUnique | SqlFail => Err ErrDatabase
       end.

(** [int(timeout.Seconds())]: a duration counts nanoseconds and the conversion
    drops the fraction. *)
Definition whole_seconds (d : Z) : Z := Z.quot d 1000000000.

Definition IdleRunners (heartbeatTimeout : Z) : action (list Runner) :=
  r ← call (Sql (SelectIdle (whole_seconds heartbeatTimeout))); mret (rows r).

(** The Go method collects the rows in a map from runner id to job id. *)
Definition ReapOfflineRunners (timeout : Z) : action (gmap string string) :=
  r ← call (Sql (ReapRunners (whole_seconds timeout)));
  mret match rows r with
       | Ok orphaned => Ok (foldl (λ m kv, <[kv.1 := kv.2]> m) ∅ orphaned)
       | Err e => Err e
       end.

(** [Store.Ping] *)
Definition Ping : action unit :=
  r ← call (Sql PingDb);
  mret match r with SqlOk _ => Ok tt | SqlUnique | SqlFail => Err ErrDatabase end.

(** ** Only admissible statements leave the package *)

Abbreviation safe p := (all_calls (sql_only admissible) p).

Lemma safe_CreateJob j : j_Status j = JobQueued → safe (CreateJob j).
Proof. intros Hq. unfold CreateJob. by go_calls. Qed.

Lemma safe_transition id to extra : clause_for to extra → safe (transition id to extra).
Proof.
  intros Hc. unfold transition. go_calls; [done|]. split; [|done].
  by apply negb_false_iff.
Qed.

Lemma safe_AssignJob jobID runnerID : safe (AssignJob jobID runnerID).
Proof. unfold AssignJob. go_calls; [done|]. by apply negb_false_iff. Qed.

Lemma safe_release_if_held job : safe (release_if_held job).
Proof. unfold release_if_held, releaseRunner. by go_calls. Qed.
#[export] Hint Resolve safe_transition safe_release_if_held safe_AssignJob safe_CreateJob : calls.

Lemma safe_StartJob jobID : safe (StartJob jobID).
Proof. unfold StartJob. go_calls; by apply safe_transition. Qed.

Lemma safe_CompleteJob jobID status exitCode errMsg :
  status = JobSuccess ∨ status = JobFailed → safe (CompleteJob jobID status exitCode errMsg).
Proof. intros Hs. unfold CompleteJob. go_calls; by apply safe_transition. Qed.

Lemma safe_RequeueJob jobID : safe (RequeueJob jobID).
Proof. unfold RequeueJob. go_calls; by apply safe_transition. Qed.

Lemma safe_CancelJob jobID : safe (CancelJob jobID).
Proof. unfold CancelJob. go_calls; by apply safe_transition. Qed.

Lemma safe_AppendLogs jobID seq chunk : (0 < seq)%Z → safe (AppendLogs jobID seq chunk).
Proof. intros Hs. unfold AppendLogs. by go_calls. Qed.

Lemma safe_RegisterRunner r tokenHash : safe (RegisterRunner r tokenHash).
Proof. unfold RegisterRunner. by go_calls. Qed.

Lemma safe_Heartbeat id : safe (Heartbeat id).
Proof. unfold Heartbeat. by go_calls. Qed.

Lemma safe_ReapOfflineRunners timeout : safe (ReapOfflineRunners timeout).
Proof. unfold ReapOfflineRunners. by go_calls. Qed.

(** The read-only methods. *)
Lemma safe_GetJob id : safe (GetJob id). Proof. done. Qed.
Lemma safe_ListJobs limit : safe (ListJobs limit). Proof. done. Qed.
Lemma safe_GetLogs id : safe (GetLogs id). Proof. done. Qed.
Lemma safe_GetRunner id : safe (GetRunner id). Proof. done. Qed.
Lemma safe_RunnerTokenHash id : safe (RunnerTokenHash id). Proof. done. Qed.
Lemma safe_ListRunners : safe ListRunners. Proof. done. Qed.
Lemma safe_IdleRunners d : safe (IdleRunners d). Proof. done. Qed.
#[export] Hint Resolve safe_StartJob safe_CompleteJob safe_RequeueJob safe_CancelJob
  safe_AppendLogs safe_RegisterRunner safe_Heartbeat safe_ReapOfflineRunners safe_GetJob
  safe_ListJobs safe_GetLogs safe_GetRunner safe_RunnerTokenHash safe_ListRunners
  safe_IdleRunners : calls.

(** ** What each method does when nothing fails

    [Spec] states the methods as functions on the tables, without statements,
    replies or optimistic locks.  [implements p f] says that [p], run alone in a
    calm world with well-formed tables, returns what [f] says and leaves the
    tables [f] says. *)
Module Spec.
Definition put_job (id : string) (row : JobRow) (db : DB) : DB :=
  set_jobs (<[id := row]> (db_jobs db)) db.

Definition moved (now : Z) (to : JobStatus) (extra : SetClause) (row : JobRow) : JobRow :=
  mkJobRow (apply_set now to extra (jr_job row)) (jr_logs row) (jr_log_seq row).

Definition get (id : string) (db : DB) : result store_error Job * DB :=
  match db_jobs db !! id with
  | Some row => (Ok (jr_job row), db)
  | None => (Err ErrNotFound, db)
  end.

Definition move (id : string) (to : JobStatus) (extra : SetClause) (db : DB) :
    result store_error Job * DB :=
  match db_jobs db !! id with
  | None => (Err ErrNotFound, db)
  | Some row =>
      if CanTransitionTo (job_status row) to then
        if set_clause_ok extra
        then (Ok (with_status to (jr_job row)), put_job id (moved (db_now db) to extra row) db)
        else (Err ErrDatabase, db)
      else (Err (ErrInvalidTransition (job_status row) to), db)
  end.

(** A BUSY runner becomes IDLE with no job; any other is left alone. *)
Definition free (runnerID : string) (db : DB) : DB :=
  set_runners (alter (λ row, if decide (r_Status (rr_runner row) = RunnerBusy)
                             then release row else row) runnerID (db_runners db)) db.

Definition free_opt (holder : option string) (db : DB) : DB :=
  match holder with Some runnerID => free runnerID db | None => db end.

(** Move the job, then free the runner that was recorded on it. *)
Definition finish (id : string) (to : JobStatus) (extra : SetClause) (db : DB) :
    result store_error unit * DB :=
  match move id to extra db with
  | (Ok job, db') => (Ok tt, free_opt (j_RunnerID job) db')
  | (Err e, db') => (Err e, db')
  end.

Definition start (id : string) (db : DB) : result store_error unit * DB :=
  match move id JobRunning SetStarted db with
  | (Ok _, db') => (Ok tt, db')
  | (Err e, db') => (Err e, db')
  end.

(** The job as [AssignJob] leaves it. *)
Definition assigned (runnerID : string) (row : JobRow) : JobRow :=
  let j := jr_job row in
  mkJobRow
    (mkJob (j_ID j) (j_Repository j) (j_CloneURL j) (j_CommitSHA j) (j_Branch j)
       (j_EventType j) (j_ConfigRef j) (j_Labels j) JobAssigned (Some runnerID)
       (j_Attempts j + 1) (j_ExitCode j) (j_Error j) (j_CreatedAt j) (j_StartedAt j)
       (j_CompletedAt j))
    (jr_logs row) (jr_log_seq row).

Definition busied (now : Z) (jobID : string) (row : RunnerRow) : RunnerRow :=
  set_runner RunnerBusy (Some jobID) (r_LastHeartbeat (rr_runner row)) (Some now) row.

Definition assign (jobID runnerID : string) (db : DB) : result store_error unit * DB :=
  match db_jobs db !! jobID with
  | None => (Err ErrNotFound, db)
  | Some row =>
      if decide (job_status row = JobQueued) then
        if int4_ok (j_Attempts (jr_job row) + 1) then
          match db_runners db !! runnerID with
          | None => (Err ErrDatabase, db)
          | Some rrow =>
              if decide (r_Status (rr_runner rrow) = RunnerIdle)
              then (Ok tt, set_runners (<[runnerID := busied (db_now db) jobID rrow]> (db_runners db))
                             (put_job jobID (assigned runnerID row) db))
              else (Err (ErrRunnerNotIdle runnerID), db)
          end
        else (Err ErrDatabase, db)
      else (Err (ErrInvalidTransition (job_status row) JobAssigned), db)
  end.

Definition append (id : string) (seq : Z) (chunk : string) (db : DB) :
    result store_error unit * DB :=
  if int4_ok seq && text_ok chunk then
    match db_jobs db !! id with
    | None => (Err ErrNotFound, db)
    | Some row =>
        (Ok tt, if (jr_log_seq row <? seq)%Z
                then put_job id (mkJobRow (jr_job row) (jr_logs row +:+ chunk) seq) db
                else db)
    end
  else (Err ErrDatabase, db).

Definition beat (id : string) (db : DB) : result store_error unit * DB :=
  match db_runners db !! id with
  | None => (Err ErrNotFound, db)
  | Some row => (Ok tt, set_runners (<[id := Sql.beat (db_now db) row]> (db_runners db)) db)
  end.
End Spec.

Lemma set_jobs_id db : set_jobs (db_jobs db) db = db.
Proof. by destruct db. Qed.
Lemma set_runners_id db : set_runners (db_runners db) db = db.
Proof. by destruct db. Qed.

Lemma sql_release_runner_free id db : (sql_release_runner id db).2 = Spec.free id db.
Proof.
  unfold sql_release_runner, Spec.free. destruct (db_runners db !! id) as [row|] eqn:Hrow.
  - case_decide as Hb; simpl.
    + f_equal. apply map_eq. intros i. rewrite lookup_alter. destruct (decide (id = i)) as [<-|].
      * by rewrite lookup_insert_eq, Hrow; simpl; rewrite decide_True.
      * by rewrite lookup_insert_ne.
    + rewrite <-(set_runners_id db) at 1. f_equal. apply map_eq. intros i.
      rewrite lookup_alter. case_decide as Hi; [subst|done]. rewrite Hrow. simpl. by rewrite decide_False.
  - simpl. rewrite <-(set_runners_id db) at 1. f_equal. apply map_eq. intros i.
    rewrite lookup_alter. case_decide as Hi; [subst|done]. by rewrite Hrow.
Qed.

Section refinement.
Context `{RangeOrder} {R : Type} `{Redis R}.

Definition implements {Er A} (p : Prog Call (result Er A)) (f : DB → result Er A * DB) : Prop :=
  ∀ w : World R, calm w → db_wf (w_db w) →
    exec p w = let '(r, db) := f (w_db w) in (r, set_db db w).

Lemma implements_GetJob id : implements (GetJob id) (Spec.get id).
Proof.
  intros w Hc _. unfold GetJob, Spec.get. go_run. rewrite do_sql_calm by done. simpl.
  by destruct (db_jobs (w_db w) !! id).
Qed.

(** A program of admissible statements keeps the tables well formed and
    changes them only as allowed, whatever the faults. *)
Lemma safe_step {A} (p : Prog Call A) (w : World R) :
  safe p → db_wf (w_db w) → step_ok (w_db w) (w_db (exec p w).2).
Proof.
  intros Hp. set (T := λ w w' : World R, db_wf (w_db w) → step_ok (w_db w) (w_db w')).
  assert (PreOrder T).
  { split; [intros w0 Hw0; by apply step_ok_refl|].
    intros w1 w2 w3 H12 H23 Hw. eapply step_ok_trans; [by apply H12|]. apply H23, H12, Hw. }
  apply (run_all_calls (sql_only admissible) handle T); [|done].
  intros X c w0 Hc Hw.
  set (T' := λ db db', db = db' ∨ (db_wf db → step_ok db db')).
  assert (Reflexive T') by (intros db; by left).
  destruct (handle_db admissible T') with (X := X) (c := c) (w := w0) as [<-|Hs]; [|done|by auto..].
  intros Y st db Hst. right. intros Hdb. by apply exec_sql_ok.
Qed.

Lemma implements_bind {Er A B} (p : Prog Call (result Er A)) (q : A → Prog Call (result Er B)) f g :
  implements p f → safe p → (∀ a, implements (q a) (g a)) →
  implements (try_bind p q)
    (λ db, match f db with (Ok a, db') => g a db' | (Err e, db') => (Err e, db') end).
Proof.
  intros Hp Hs Hq w Hc Hw. rewrite run_try_bind.
  destruct (safe_step p w Hs Hw) as [Hw' _]. rewrite (Hp w Hc Hw) in *.
  destruct (f (w_db w)) as [[a|e] db'] eqn:Hf; [|done]. simpl in Hw'.
  rewrite (Hq a (set_db db' w)); [simpl; by destruct (g a db')|done..].
Qed.

Lemma implements_transition id to extra :
  clause_for to extra → implements (transition id to extra) (Spec.move id to extra).
Proof.
  intros Hcl w Hc Hw. unfold transition. rewrite run_try_bind, implements_GetJob by done.
  unfold Spec.get, Spec.move. destruct (db_jobs (w_db w) !! id) as [row|] eqn:Hrow;
    [|by rewrite set_db_id].
  rewrite set_db_id. destruct (CanTransitionTo (job_status row) to) eqn:Hcan; [|by rewrite set_db_id].
  simpl. rewrite do_sql_calm by done. simpl. unfold sql_update_status.
  destruct (set_clause_ok extra); simpl; [|by rewrite set_db_id].
  rewrite Hrow, decide_True by done.
  rewrite (index_ok_same _ _ row); [done|done|done|by eapply CanTransitionTo_active|].
  apply index_key_identity, apply_set_identity.
Qed.

Lemma implements_release job :
  implements (release_if_held job) (λ db, (Ok tt, Spec.free_opt (j_RunnerID job) db)).
Proof.
  intros w Hc _. unfold release_if_held, releaseRunner. destruct (j_RunnerID job) as [r|]; simpl.
  - rewrite do_sql_calm by done. simpl. rewrite sql_release_runner_free.
    unfold sql_release_runner. by repeat case_match.
  - by rewrite set_db_id.
Qed.

(** CompleteJob, RequeueJob and CancelJob are this, with their own target. *)
Lemma implements_finish id to extra :
  clause_for to extra →
  implements (job ←? transition id to extra; release_if_held job) (Spec.finish id to extra).
Proof.
  intros Hcl. refine (implements_bind _ _ _ _ _ _ _).
  - by apply implements_transition.
  - by apply safe_transition.
  - apply implements_release.
Qed.

Lemma implements_StartJob id : implements (StartJob id) (Spec.start id).
Proof.
  refine (implements_bind _ _ _ (λ _ db, (Ok tt, db)) _ _ _).
  - by apply implements_transition.
  - by apply safe_transition.
  - intros job w _ _. simpl. by rewrite set_db_id.
Qed.

Lemma CanTransitionTo_assigned s : CanTransitionTo s JobAssigned = bool_decide (s = JobQueued).
Proof. by destruct s. Qed.

Lemma implements_AssignJob jobID runnerID :
  implements (AssignJob jobID runnerID) (Spec.assign jobID runnerID).
Proof.
  intros w Hc Hw. unfold AssignJob. rewrite run_try_bind, implements_GetJob by done.
  unfold Spec.get, Spec.assign. destruct (db_jobs (w_db w) !! jobID) as [row|] eqn:Hrow;
    [|by rewrite set_db_id].
  rewrite set_db_id, CanTransitionTo_assigned. case_decide as Hq;
    [rewrite bool_decide_true by done|by rewrite bool_decide_false, set_db_id].
  simpl. rewrite do_sql_calm by done. simpl. unfold sql_assign_tx, tx_assign_job.
  rewrite Hrow, decide_True by done. destruct (int4_ok _); simpl; [|by rewrite set_db_id].
  rewrite (index_ok_same _ _ row); [|done|done|by rewrite Hq|done]. simpl.
  destruct (db_runners (w_db w) !! runnerID) as [rrow|] eqn:Hr; simpl; [|by rewrite set_db_id].
  unfold tx_busy_runner. simpl. rewrite Hr. case_decide; simpl; [done|by rewrite set_db_id].
Qed.

Lemma implements_AppendLogs id seq chunk :
  implements (AppendLogs id seq chunk) (Spec.append id seq chunk).
Proof.
  intros w Hc Hw. unfold AppendLogs, Spec.append. simpl. rewrite do_sql_calm by done. simpl.
  unfold sql_append_logs. destruct (int4_ok seq && text_ok chunk); simpl; [|by rewrite set_db_id].
  destruct (db_jobs (w_db w) !! id) as [row|] eqn:Hrow; simpl;
    [destruct (jr_log_seq row <? seq)%Z; simpl; [done|]|];
    rewrite do_sql_calm by done; simpl; by rewrite Hrow.
Qed.

Lemma implements_Heartbeat id : implements (Heartbeat id) (Spec.beat id).
Proof.
  intros w Hc Hw. unfold Heartbeat, Spec.beat. simpl. rewrite do_sql_calm by done. simpl.
  unfold sql_heartbeat. destruct (db_runners (w_db w) !! id); simpl; [done|by rewrite set_db_id].
Qed.
End refinement.
