(* ===== verification/Lifecycle.v ===== *)
(** * The life of a job and of its runner (theorems about internal/store)

    Each method of the store, run alone and without a fault, keeps the two tables
    in agreement about who works on what ([agree]), [ReapOfflineRunners] apart
    (see Operations); each method is atomic as regards errors; log chunks are
    applied exactly once however often they are delivered. *)
From S2P Require Import Prelude Prog Models Sql Redis World Tables Store.

(** ** Jobs and runners agree *)

(** A job in one of these states is in the hands of a runner. *)
Definition holding (s : JobStatus) : bool :=
  match s with JobAssigned | JobRunning => true | _ => false end.

(** The job table and the runner table tell the same story. *)
Record agree (db : DB) : Prop := {
  agree_job id row r :
    db_jobs db !! id = Some row → holding (job_status row) = true →
    j_RunnerID (jr_job row) = Some r →
    ∃ rrow, db_runners db !! r = Some rrow ∧ r_Status (rr_runner rrow) = RunnerBusy ∧
            r_CurrentJobID (rr_runner rrow) = Some id;
  agree_runner r rrow id :
    db_runners db !! r = Some rrow → r_CurrentJobID (rr_runner rrow) = Some id →
    ∃ row, db_jobs db !! id = Some row ∧ holding (job_status row) = true ∧
           j_RunnerID (jr_job row) = Some r
}.

Definition good (db : DB) : Prop := db_wf db ∧ agree db.

(** The relation of the schema's first state: both tables empty. *)
Definition empty_db (now : Z) : DB := mkDB ∅ ∅ now.

Lemma good_empty now : good (empty_db now).
Proof. split; split; simpl; intros *; rewrite ?lookup_empty; done. Qed.

Lemma lookup_free r db r' :
  db_runners (Spec.free r db) !! r' =
  if decide (r = r')
  then (λ row, if decide (r_Status (rr_runner row) = RunnerBusy) then release row else row)
         <$> db_runners db !! r'
  else db_runners db !! r'.
Proof. unfold Spec.free. simpl. rewrite lookup_alter. case_decide; by subst. Qed.

(** Rewriting one job row whose holder is not involved. *)
Lemma agree_put_job db id row row' :
  agree db → db_jobs db !! id = Some row →
  holding (job_status row') = holding (job_status row) →
  j_RunnerID (jr_job row') = j_RunnerID (jr_job row) →
  agree (Spec.put_job id row' db).
Proof.
  intros [Hj Hr] Hrow Hh Hid. split; simpl.
  - intros id1 row1 r [[<- <-]|[Hne H1]]%lookup_insert_Some; [|by eapply Hj].
    rewrite Hh, Hid. by eapply Hj.
  - intros r rrow id1 H1 Hc. destruct (Hr _ _ _ H1 Hc) as (row1 & Hrow1 & Hh1 & Hid1).
    destruct (decide (id = id1)) as [<-|].
    + exists row'. rewrite lookup_insert_eq. simplify_eq. by rewrite Hh, Hid.
    + exists row1. by rewrite lookup_insert_ne.
Qed.

(** Rewriting one runner row that keeps its job. *)
Lemma agree_put_runner db r rrow rrow' :
  agree db → db_runners db !! r = Some rrow →
  r_CurrentJobID (rr_runner rrow') = r_CurrentJobID (rr_runner rrow) →
  (r_Status (rr_runner rrow) = RunnerBusy → r_Status (rr_runner rrow') = RunnerBusy) →
  agree (set_runners (<[r := rrow']> (db_runners db)) db).
Proof.
  intros [Hj Hr] Hrow Hc Hs. split; simpl.
  - intros id row r1 Hrow1 Hh Hid. destruct (Hj _ _ _ Hrow1 Hh Hid) as (rrow1 & H1 & Hb & Hcur).
    destruct (decide (r = r1)) as [<-|].
    + exists rrow'. rewrite lookup_insert_eq. simplify_eq. rewrite Hc. auto.
    + exists rrow1. by rewrite lookup_insert_ne.
  - intros r1 rrow1 id [[<- <-]|[Hne H1]]%lookup_insert_Some Hcur; [|by eapply Hr].
    rewrite Hc in Hcur. by eapply Hr.
Qed.

(** A job in nobody's hands that stays so, or a new one. *)
Lemma agree_put_free_job db id row' :
  agree db → holding (job_status row') = false →
  (∀ row, db_jobs db !! id = Some row → holding (job_status row) = false) →
  agree (Spec.put_job id row' db).
Proof.
  intros [Hj Hr] Hh Hold. split; simpl.
  - intros id1 row1 r [[<- <-]|[Hne H1]]%lookup_insert_Some; [congruence|by eapply Hj].
  - intros r rrow id1 H1 Hc. destruct (Hr _ _ _ H1 Hc) as (row1 & Hrow1 & Hh1 & Hid1).
    destruct (decide (id = id1)) as [<-|]; [by rewrite (Hold _ Hrow1) in Hh1|].
    exists row1. by rewrite lookup_insert_ne.
Qed.

(** Taking a job out of its holder's hands and freeing the holder. *)
Lemma agree_put_freed db id row row' r :
  agree db → db_jobs db !! id = Some row → holding (job_status row) = true →
  j_RunnerID (jr_job row) = Some r → holding (job_status row') = false →
  agree (Spec.free r (Spec.put_job id row' db)).
Proof.
  intros [Hj Hr] Hrow Hh Hid Hh'.
  destruct (Hj _ _ _ Hrow Hh Hid) as (rrow & Hrr & Hb & Hcur).
  split.
  - intros id1 row1 r1.
    change (db_jobs (Spec.free _ _)) with (<[id := row']> (db_jobs db)). intros [[<- <-]|[Hne H1]]%lookup_insert_Some Hh1 Hid1; [congruence|].
    destruct (Hj _ _ _ H1 Hh1 Hid1) as (rrow1 & Hrr1 & Hb1 & Hcur1).
    exists rrow1. rewrite lookup_free. rewrite decide_False; [done|]. congruence.
  - intros r1 rrow1 id1. rewrite lookup_free. case_decide as Hd; [subst r1|].
    + simpl. rewrite Hrr. simpl. rewrite decide_True by done. by intros [= <-].
    + intros H1 Hc. destruct (Hr _ _ _ H1 Hc) as (row1 & Hrow1 & Hh1 & Hid1).
      exists row1. simpl. rewrite lookup_insert_ne; [done|]. congruence.
Qed.

(** ** Each method preserves the agreement *)

Lemma good_finish id to extra db :
  clause_for to extra → holding to = false → good db → agree (Spec.finish id to extra db).2.
Proof.
  intros Hcl Hto [Hwf Ha]. unfold Spec.finish, Spec.move.
  destruct (db_jobs db !! id) as [row|] eqn:Hrow; [|done].
  destruct (CanTransitionTo _ _) eqn:Hcan; [|done].
  destruct (set_clause_ok extra); [|done]. simpl.
  pose proof (wf_job _ Hwf _ _ Hrow) as [_ Hj].
  assert (holding (job_status (Spec.moved (db_now db) to extra row)) = false) as Hm.
  { simpl. by rewrite apply_set_status. }
  destruct (holding (job_status row)) eqn:Hh.
  - assert (∃ r, j_RunnerID (jr_job row) = Some r) as [r Hr].
    { destruct (job_status row); try done; naive_solver. }
    rewrite Hr. by eapply agree_put_freed.
  - assert (j_RunnerID (jr_job row) = None) as ->.
    { destruct (job_status row); try done; naive_solver. }
    apply agree_put_free_job; [done..|]. congruence.
Qed.

Lemma good_start id db : good db → agree (Spec.start id db).2.
Proof.
  intros [Hwf Ha]. unfold Spec.start, Spec.move.
  destruct (db_jobs db !! id) as [row|] eqn:Hrow; [|done].
  destruct (CanTransitionTo _ _) eqn:Hcan; [|done]. simpl.
  eapply agree_put_job; [done..| |done]. simpl. by destruct (job_status row).
Qed.

Lemma good_assign jobID runnerID db : good db → agree (Spec.assign jobID runnerID db).2.
Proof.
  intros [Hwf [Hj Hr]]. unfold Spec.assign.
  destruct (db_jobs db !! jobID) as [row|] eqn:Hrow; [|done].
  case_decide as Hq; [|done]. destruct (int4_ok _); [|done].
  destruct (db_runners db !! runnerID) as [rrow|] eqn:Hrr; [|done].
  case_decide as Hidle; [|done]. simpl.
  pose proof (wf_runner _ Hwf _ _ Hrr) as Hrwf.
  assert (r_CurrentJobID (rr_runner rrow) = None) as Hnone.
  { destruct (r_CurrentJobID _) eqn:E; [|done]. unfold runner_wf in Hrwf.
    rewrite E, Hidle in Hrwf. destruct Hrwf as [_ Hx]. discriminate Hx. by eexists. }
  split; simpl.
  - intros id1 row1 r1 [[<- <-]|[Hne H1]]%lookup_insert_Some Hh1.
    + intros [= <-]. exists (Spec.busied (db_now db) jobID rrow). by rewrite lookup_insert_eq.
    + intros Hid1. destruct (Hj _ _ _ H1 Hh1 Hid1) as (rrow1 & Hrr1 & Hb1 & Hcur1).
      exists rrow1. rewrite lookup_insert_ne; [done|]. congruence.
  - intros r1 rrow1 id1 [[<- <-]|[Hne H1]]%lookup_insert_Some.
    + intros [= <-]. exists (Spec.assigned runnerID row). by rewrite lookup_insert_eq.
    + intros Hc. destruct (Hr _ _ _ H1 Hc) as (row1 & Hrow1 & Hh1 & Hid1).
      exists row1. rewrite lookup_insert_ne; [done|]. intros <-. simplify_eq. by rewrite Hq in Hh1.
Qed.

Lemma good_append id seq chunk db : good db → agree (Spec.append id seq chunk db).2.
Proof.
  intros [Hwf Ha]. unfold Spec.append. destruct (_ && _); [|done].
  destruct (db_jobs db !! id) as [row|] eqn:Hrow; [|done]. simpl.
  case_match; [|done]. by eapply agree_put_job.
Qed.

Lemma good_beat id db : good db → agree (Spec.beat id db).2.
Proof.
  intros [Hwf Ha]. unfold Spec.beat.
  destruct (db_runners db !! id) as [row|] eqn:Hrow; [|done]. simpl.
  eapply agree_put_runner; [done..|]. simpl. by intros ->.
Qed.

Lemma good_insert_job j db :
  good db → j_Status j = JobQueued → agree (sql_insert_job j db).2.
Proof.
  intros [Hwf Ha] Hq. unfold sql_insert_job. case_match; [done|]. case_match eqn:Hnone; [done|].
  case_match; [|done]. simpl. apply agree_put_free_job; [done| |congruence].
  simpl. by rewrite Hq.
Qed.

Lemma good_insert_runner r tokenHash db : good db → agree (sql_insert_runner r tokenHash db).2.
Proof.
  intros [Hwf [Hj Hr]]. unfold sql_insert_runner. case_match; [done|]. case_match eqn:Hnone; [done|]. simpl.
  split; simpl.
  - intros id row r1 H1 Hh Hid. destruct (Hj _ _ _ H1 Hh Hid) as (rrow1 & Hrr1 & Hb1 & Hcur1).
    exists rrow1. rewrite lookup_insert_ne; [done|]. congruence.
  - intros r1 rrow1 id [[<- <-]|[Hne H1]]%lookup_insert_Some Hc; [done|by eapply Hr].
Qed.

(** ** The methods that write *)

(** The methods that write, with the arguments their callers may pass; for
    [ReapOfflineRunners] see Operations. *)
Inductive method : Type :=
| MCreate (j : Job)
| MAssign (jobID runnerID : string)
| MStart (jobID : string)
| MComplete (jobID : string) (status : JobStatus) (exitCode : Z) (errMsg : string)
| MRequeue (jobID : string)
| MCancel (jobID : string)
| MAppend (jobID : string) (seq : Z) (chunk : string)
| MRegister (r : Runner) (tokenHash : string)
| MHeartbeat (runnerID : string).

Definition method_prog (m : method) : action unit :=
  match m with
  | MCreate j => CreateJob j
  | MAssign jobID runnerID => AssignJob jobID runnerID
  | MStart jobID => StartJob jobID
  | MComplete jobID status exitCode errMsg => CompleteJob jobID status exitCode errMsg
  | MRequeue jobID => RequeueJob jobID
  | MCancel jobID => CancelJob jobID
  | MAppend jobID seq chunk => AppendLogs jobID seq chunk
  | MRegister r tokenHash => RegisterRunner r tokenHash
  | MHeartbeat runnerID => Heartbeat runnerID
  end.

Definition method_ok (m : method) : Prop :=
  match m with
  | MCreate j => j_Status j = JobQueued
  | MComplete _ status _ _ => status = JobSuccess ∨ status = JobFailed
  | MAppend _ seq _ => (0 < seq)%Z
  | _ => True
  end.

Lemma safe_method m : method_ok m → safe (method_prog m).
Proof. destruct m; cbn [method_prog method_ok]; eauto with calls. Qed.

(** The transaction commits both updates or has no effect. *)
Lemma sql_assign_tx_cases runnerID jobID from db :
  let '(x, db') := sql_assign_tx runnerID jobID from db in
  (x ≠ SqlOk TxCommitted ∧ db' = db) ∨
  (x = SqlOk TxCommitted ∧ ∃ row rrow,
    db_jobs db !! jobID = Some row ∧ job_status row = from ∧
    db_runners db !! runnerID = Some rrow ∧ r_Status (rr_runner rrow) = RunnerIdle ∧
    db_jobs db' = <[jobID := Spec.assigned runnerID row]> (db_jobs db) ∧
    db_runners db' = <[runnerID := Spec.busied (db_now db) jobID rrow]> (db_runners db)).
Proof.
  unfold sql_assign_tx, tx_assign_job.
  destruct (db_jobs db !! jobID) as [row|] eqn:Hrow; simpl; [|by left].
  destruct (decide (job_status row = from)) as [Hst|]; simpl; [|by left].
  destruct (negb (int4_ok _)); simpl; [by left|]. destruct (negb (index_ok _ _ _)); simpl; [by left|].
  destruct (bool_decide _); simpl; [|by left].
  unfold tx_busy_runner. simpl. destruct (db_runners db !! runnerID) as [rrow|] eqn:Hr; [|by left].
  case_decide; simpl; [|by left]. right. split; [done|]. by exists row, rrow.
Qed.

Section methods.
Context `{RangeOrder} {R : Type} `{Redis R}.

(** Reading a job changes nothing, and what it returns is the row. *)
Lemma exec_GetJob id (w : World R) :
  w_db (exec (GetJob id) w).2 = w_db w ∧
  ∀ j, (exec (GetJob id) w).1 = Ok j →
    ∃ row, db_jobs (w_db w) !! id = Some row ∧ j = jr_job row.
Proof.
  unfold GetJob. simpl. pose proof (do_sql_cases (SelectJob id) w) as Hcases.
  destruct (do_sql _ w) as [x w1]; simpl in *.
  destruct Hcases as [[-> ->]|[-> [->| ->]]]; (split; [done|]); simpl; try done.
  destruct (db_jobs (w_db w) !! id) as [row|]; simpl; [|done]. intros j [= <-]. by exists row.
Qed.

Lemma implements_good {A} (p : action A) f (w : World R) :
  implements p f → agree (f (w_db w)).2 → calm w → db_wf (w_db w) →
  agree (w_db (exec p w).2) ∧ calm (exec p w).2.
Proof. intros Hp Ha Hc Hw. rewrite (Hp w Hc Hw). by destruct (f (w_db w)). Qed.

Lemma method_good m (w : World R) :
  method_ok m → calm w → good (w_db w) →
  good (w_db (exec (method_prog m) w).2) ∧ calm (exec (method_prog m) w).2.
Proof.
  intros Hok Hc Hg. destruct (safe_step (method_prog m) w) as [Hwf _];
    [by apply safe_method|apply Hg|]. unfold good at 1.
  enough (agree (w_db (exec (method_prog m) w).2) ∧ calm (exec (method_prog m) w).2) by tauto.
  destruct m as [j|jobID runnerID|jobID|jobID st ec em|jobID|jobID|jobID seq chunk|r h|id];
    simpl method_prog in *; simpl in Hok.
  - unfold CreateJob. simpl. rewrite do_sql_calm by done. simpl. split; [|done].
    by apply good_insert_job.
  - eapply implements_good; [apply implements_AssignJob|by apply good_assign|done|apply Hg].
  - eapply implements_good; [apply implements_StartJob|by apply good_start|done|apply Hg].
  - eapply implements_good; [by apply implements_finish| |done|apply Hg].
    apply good_finish; [done|by destruct Hok as [->| ->]|done].
  - eapply implements_good; [by apply implements_finish|by apply good_finish|done|apply Hg].
  - eapply implements_good; [by apply implements_finish|by apply good_finish|done|apply Hg].
  - eapply implements_good; [apply implements_AppendLogs|by apply good_append|done|apply Hg].
  - unfold RegisterRunner. simpl. rewrite do_sql_calm by done. simpl. split; [|done].
    by apply good_insert_runner.
  - eapply implements_good; [apply implements_Heartbeat|by apply good_beat|done|apply Hg].
Qed.

(** [AssignJob] is all or nothing, whatever happens to the connection: it
    either changes nothing, or it moves a QUEUED job to ASSIGNED on an IDLE
    runner and that runner to BUSY on that job, in one step.  When it reports
    success the second is the case. *)
Theorem AssignJob_all_or_nothing (w : World R) (jobID runnerID : string)
    (Hwf : db_wf (w_db w)) :
  let '(r, w') := exec (AssignJob jobID runnerID) w in
  (w_db w' = w_db w ∧ r ≠ Ok tt) ∨
  ∃ row rrow,
    db_jobs (w_db w) !! jobID = Some row ∧ job_status row = JobQueued ∧
    db_runners (w_db w) !! runnerID = Some rrow ∧ r_Status (rr_runner rrow) = RunnerIdle ∧
    db_jobs (w_db w') = <[jobID := Spec.assigned runnerID row]> (db_jobs (w_db w)) ∧
    db_runners (w_db w') =
      <[runnerID := Spec.busied (db_now (w_db w)) jobID rrow]> (db_runners (w_db w)).
Proof.
  unfold AssignJob. rewrite run_try_bind.
  pose proof (exec_GetJob jobID w) as [Hdb Hj].
  destruct (exec (GetJob jobID) w) as [[job|e] w1]; simpl in *; [|by left].
  specialize (Hj job eq_refl) as (row & Hrow & ->). rewrite CanTransitionTo_assigned.
  case_bool_decide as Hq; simpl; [|by left].
  pose proof (do_sql_cases (AssignTx runnerID jobID (job_status row)) w1) as Hcases.
  pose proof (sql_assign_tx_cases runnerID jobID (job_status row) (w_db w1)) as Htx.
  destruct (do_sql _ w1) as [x w2]; simpl in *. rewrite Hdb in *.
  destruct (sql_assign_tx _ _ _ _) as [y db']; simpl in *.
  destruct Htx as [[Hy ->]|(-> & row' & rrow & ? & Hst & Htx)].
  - left. destruct Hcases as [[-> ->]|[-> [->| ->]]]; (split; [done|]); [|done..].
    by destruct y as [[]| |].
  - destruct Hcases as [[-> ->]|[-> [->| ->]]]; [right|by left|right];
      exists row', rrow; rewrite Hst; naive_solver.
Qed.
End methods.

(** ** Log chunks *)

(** Deliver chunks in this order, noting which were acknowledged. *)
Fixpoint deliver (id : string) (ds : list (Z * string)) : Prog Call (list bool) :=
  match ds with
  | [] => mret []
  | (seq, chunk) :: ds =>
      r ← AppendLogs id seq chunk;
      acks ← deliver id ds;
      mret (is_ok r :: acks)
  end.

(** [at_least_once k cs ds acks]: the deliveries [ds] send the chunks [cs],
    numbered from [k], in order, each one again and again, acknowledged or not,
    until the sender stops after an acknowledgement. *)
Inductive at_least_once : Z → list string → list (Z * string) → list bool → Prop :=
| alo_done k : at_least_once k [] [] []
| alo_again k c cs ds acks b :
    at_least_once k (c :: cs) ds acks → at_least_once k (c :: cs) ((k, c) :: ds) (b :: acks)
| alo_next k c cs ds acks :
    at_least_once (k + 1) cs ds acks → at_least_once k (c :: cs) ((k, c) :: ds) (true :: acks).

Definition logs_of (db : DB) (id : string) : option (string * Z) :=
  (λ row, (jr_logs row, jr_log_seq row)) <$> db_jobs db !! id.

Section logs.
Context `{RangeOrder} {R : Type} `{Redis R}.

(** One delivery, whatever the faults: the chunk lands at most once, and an
    acknowledged chunk has landed. *)
Lemma AppendLogs_cases id seq chunk (w : World R) L n :
  logs_of (w_db w) id = Some (L, n) →
  let '(r, w') := exec (AppendLogs id seq chunk) w in
  (logs_of (w_db w') id = Some (L, n) ∧ (is_ok r = true → (seq ≤ n)%Z)) ∨
  ((n < seq)%Z ∧ logs_of (w_db w') id = Some (L +:+ chunk, seq)).
Proof.
  unfold logs_of. intros Hl. apply fmap_Some in Hl as (row & Hrow & [= -> ->]).
  unfold AppendLogs. simpl. pose proof (do_sql_cases (UpdateLogs id seq chunk) w) as Hc.
  destruct (do_sql _ w) as [x w1]; simpl in *. unfold sql_append_logs in Hc. rewrite Hrow in Hc.
  destruct (int4_ok seq && text_ok chunk); simpl in Hc;
    [destruct (jr_log_seq row <? seq)%Z eqn:Hlt; simpl in Hc|].
  - (* the guard lets the chunk in *)
    apply Z.ltb_lt in Hlt.
    destruct Hc as [[-> Hdb]|[-> [Hdb|Hdb]]]; simpl; rewrite Hdb; simpl;
      rewrite ?lookup_insert_eq, ?Hrow; simpl; [by right|by left|by right].
  - (* the chunk landed before *)
    apply Z.ltb_ge in Hlt.
    destruct Hc as [[-> Hdb]|[-> Hdb]]; simpl; [|left; destruct Hdb as [-> | ->]; by rewrite Hrow].
    pose proof (do_sql_db (SelectLogSeq id) w1) as Hr.
    destruct (do_sql _ w1) as [y w2]; simpl in *. left.
    split; [|done]. destruct Hr as [->| ->]; by rewrite Hdb, Hrow.
  - destruct Hc as [[-> Hdb]|[-> [Hdb|Hdb]]]; simpl; left; by rewrite Hdb, Hrow.
Qed.

Lemma exec_deliver_cons id k c ds (w : World R) :
  exec (deliver id ((k, c) :: ds)) w =
  let '(r, w1) := exec (AppendLogs id k c) w in
  let '(acks, w2) := exec (deliver id ds) w1 in (is_ok r :: acks, w2).
Proof.
  cbn [deliver]. rewrite run_bind. destruct (exec (AppendLogs id k c) w) as [r w1].
  rewrite run_bind. by destruct (exec (deliver id ds) w1).
Qed.

Lemma deliver_at_least_once id k cs ds acks (w : World R) L :
  at_least_once k cs ds acks →
  (exec (deliver id ds) w).1 = acks →
  (logs_of (w_db w) id = Some (L, k - 1)%Z →
     ∃ n, logs_of (w_db (exec (deliver id ds) w).2) id = Some (L +:+ concat_strings cs, n)) ∧
  (∀ c cs', cs = c :: cs' → logs_of (w_db w) id = Some (L +:+ c, k) →
     ∃ n, logs_of (w_db (exec (deliver id ds) w).2) id = Some (L +:+ concat_strings cs, n)).
Proof.
  intros Halo. revert w L. induction Halo as [k|k c cs ds acks b _ IH|k c cs ds acks Hn IH];
    intros w L Hacks.
  - split; [|done]. simpl. rewrite string_app_nil_r. eauto.
  - rewrite exec_deliver_cons in *. pose proof (AppendLogs_cases id k c w) as Hc.
    destruct (exec (AppendLogs id k c) w) as [r w1].
    specialize (IH w1). destruct (exec (deliver id ds) w1) as [acks' w2]; simpl in *.
    injection Hacks as _ ->. split.
    + intros Hl. destruct (Hc _ _ Hl) as [[Hl1 _]|[_ Hl1]];
        [by apply (IH L eq_refl)|by eapply (IH L eq_refl)].
    + intros c1 cs1 [= <- <-] Hl. destruct (Hc _ _ Hl) as [[Hl1 _]|[Hlt _]]; [|lia].
      by eapply (IH L eq_refl).
  - rewrite exec_deliver_cons in *. pose proof (AppendLogs_cases id k c w) as Hc.
    destruct (exec (AppendLogs id k c) w) as [r w1].
    specialize (IH w1). destruct (exec (deliver id ds) w1) as [acks' w2]; simpl in *.
    injection Hacks as Hok ->.
    assert (∀ L', logs_of (w_db w1) id = Some (L' +:+ c, k) →
      ∃ n, logs_of (w_db w2) id = Some (L' +:+ c +:+ concat_strings cs, n)) as Hgo.
    { intros L' Hl1. destruct (IH (L' +:+ c) eq_refl) as [Hgo _].
      rewrite <-string_app_assoc. apply Hgo. rewrite Hl1. do 2 f_equal. lia. }
    split.
    + intros Hl. apply Hgo. destruct (Hc _ _ Hl) as [[Hl1 Hle]|[_ Hl1]]; [|done].
      specialize (Hle Hok). lia.
    + intros c1 cs1 [= <- <-] Hl. destruct (Hc _ _ Hl) as [[Hl1 _]|[Hlt _]]; [|lia].
      by apply Hgo.
Qed.

(** C10. Build output is stored exactly once: chunks numbered from 1, each sent
    over a faulty connection as many times as it takes to get an
    acknowledgement, end up in the job's log once each and in order, although
    requests and replies may be lost at any point. *)
Theorem AppendLogs_exactly_once (w : World R) (id : string) (cs : list string)
    (ds : list (Z * string))
    (Hfresh : logs_of (w_db w) id = Some ("", 0%Z))
    (Halo : at_least_once 1 cs ds (exec (deliver id ds) w).1) :
  ∃ n, logs_of (w_db (exec (deliver id ds) w).2) id = Some (concat_strings cs, n).
Proof.
  destruct (deliver_at_least_once id 1 cs ds _ w "" Halo eq_refl) as [Hgo _].
  by apply Hgo.
Qed.

Lemma implements_ok {Er A} (p : Prog Call (result Er A)) f (w w' : World R) a db :
  implements p f → calm w → db_wf (w_db w) → f (w_db w) = (Ok a, db) → set_db db w = w' →
  exec p w = (Ok a, w').
Proof. intros Hp Hc Hw Hf <-. by rewrite (Hp w Hc Hw), Hf. Qed.

Lemma lookup_freed_job holder id row db :
  db_jobs (Spec.free_opt holder (Spec.put_job id row db)) !! id = Some row.
Proof. destruct holder; simpl; by rewrite lookup_insert_eq. Qed.

Lemma lookup_freed_idle holder id row db r rrow :
  db_runners db !! r = Some rrow → r_Status (rr_runner rrow) = RunnerIdle →
  db_runners (Spec.free_opt holder (Spec.put_job id row db)) !! r = Some rrow.
Proof.
  intros Hr Hi. destruct holder as [r0|]; [|done]. unfold Spec.free_opt. rewrite lookup_free.
  simpl. rewrite Hr. case_decide; [|done]. simpl. by rewrite decide_False by congruence.
Qed.

Lemma spec_assign_ok jobID runnerID db row rrow :
  db_jobs db !! jobID = Some row → job_status row = JobQueued →
  int4_ok (j_Attempts (jr_job row) + 1) = true →
  db_runners db !! runnerID = Some rrow → r_Status (rr_runner rrow) = RunnerIdle →
  Spec.assign jobID runnerID db =
    (Ok tt, set_runners (<[runnerID := Spec.busied (db_now db) jobID rrow]> (db_runners db))
              (Spec.put_job jobID (Spec.assigned runnerID row) db)).
Proof.
  intros Hrow Hq Hi Hr Hidle. unfold Spec.assign.
  rewrite Hrow, decide_True by done. by rewrite Hi, Hr, decide_True.
Qed.

(** A job that lost its runner is built again elsewhere, and the first chunk
    of the new attempt arrives (internal/runner/logstream.go numbers the
    chunks of every attempt from 1). *)
Definition second_attempt (id runnerID chunk : string) : action unit :=
  _ ←? RequeueJob id;
  _ ←? AssignJob id runnerID;
  _ ←? StartJob id;
  AppendLogs id 1 chunk.

(** C38. RequeueJob does not reset [log_seq], so the output of a second attempt
    is discarded until its chunk counter passes that of the first: the first
    chunk of the new attempt is acknowledged, although nothing is stored. *)
Theorem second_attempt_output_is_dropped (w : World R) (id runnerID chunk : string)
    (row : JobRow) (rrow : RunnerRow)
    (Hc : calm w) (Hwf : db_wf (w_db w))
    (Hrow : db_jobs (w_db w) !! id = Some row) (Hrun : job_status row = JobRunning)
    (Hseq : (1 ≤ jr_log_seq row)%Z) (Hatt : (j_Attempts (jr_job row) < int4_max)%Z)
    (Hrr : db_runners (w_db w) !! runnerID = Some rrow)
    (Hidle : r_Status (rr_runner rrow) = RunnerIdle) (Htext : text_ok chunk = true) :
  let '(r, w') := exec (second_attempt id runnerID chunk) w in
  r = Ok tt ∧ logs_of (w_db w') id = logs_of (w_db w) id ∧
  (∃ row', db_jobs (w_db w') !! id = Some row' ∧ job_status row' = JobRunning ∧
           j_RunnerID (jr_job row') = Some runnerID).
Proof.
  unfold second_attempt. set (row1 := Spec.moved (db_now (w_db w)) JobQueued SetRequeued row).
  set (db1 := Spec.free_opt (j_RunnerID (jr_job row)) (Spec.put_job id row1 (w_db w))).
  assert (exec (RequeueJob id) w = (Ok tt, set_db db1 w)) as E1.
  { eapply (implements_ok _ (Spec.finish id JobQueued SetRequeued));
      [by apply implements_finish|done..| |done].
    unfold Spec.finish, Spec.move. by rewrite Hrow, Hrun. }
  assert (db_jobs db1 !! id = Some row1) as Hj1 by apply lookup_freed_job.
  assert (db_runners db1 !! runnerID = Some rrow) as Hr1 by by apply lookup_freed_idle.
  assert (db_wf db1) as Hwf1.
  { destruct (safe_step (RequeueJob id) w) as [Hw _]; [eauto with calls|done|]. by rewrite E1 in Hw. }
  set (db2 := set_runners (<[runnerID := Spec.busied (db_now db1) id rrow]> (db_runners db1))
                (Spec.put_job id (Spec.assigned runnerID row1) db1)).
  assert (exec (AssignJob id runnerID) (set_db db1 w) = (Ok tt, set_db db2 w)) as E2.
  { eapply (implements_ok _ (Spec.assign id runnerID));
      [apply implements_AssignJob|done..| |done].
    apply (spec_assign_ok _ _ _ row1 rrow); try done. simpl.
    pose proof (wf_job _ Hwf _ _ Hrow) as [Hatt0 _].
    unfold int4_ok, int4_min, int4_max in *. lia. }
  set (row3 := Spec.moved (db_now db2) JobRunning SetStarted (Spec.assigned runnerID row1)).
  assert (exec (StartJob id) (set_db db2 w) = (Ok tt, set_db (Spec.put_job id row3 db2) w)) as E3.
  { eapply (implements_ok _ (Spec.start id)); [apply implements_StartJob|done| | |done].
    - destruct (safe_step (AssignJob id runnerID) (set_db db1 w)) as [Hw _]; [eauto with calls|done|].
      by rewrite E2 in Hw.
    - unfold Spec.start, Spec.move. simpl. by rewrite lookup_insert_eq. }
  rewrite run_try_bind, E1, run_try_bind, E2, run_try_bind, E3.
  assert (exec (AppendLogs id 1 chunk) (set_db (Spec.put_job id row3 db2) w) =
          (Ok tt, set_db (Spec.put_job id row3 db2) w)) as ->.
  { unfold AppendLogs. simpl. rewrite do_sql_calm by done. simpl. unfold sql_append_logs. rewrite Htext. simpl.
    rewrite lookup_insert_eq. simpl. rewrite (proj2 (Z.ltb_ge _ _)) by done. simpl.
    rewrite do_sql_calm by done. simpl. by rewrite lookup_insert_eq. }
  unfold logs_of. simpl. rewrite lookup_insert_eq, Hrow. split_facts. by eexists.
Qed.
End logs.
