(* ===== verification/Queue.v ===== *)
(** * internal/queue

    [Queue] is the interface of queue.go, [RedisQueue] the implementation of
    redis.go.  [Fifo] is what the interface promises, on abstract states;
    [QueueOk] states that promise of an implementation, and [RedisQueue_ok]
    proves it of Redis.  The scheduler and the API are verified against
    [QueueOk], never against Redis. *)
From S2P Require Import Prelude Prog Models Sql Redis World.

Inductive queue_error : Type :=
| ErrEmpty
| ErrRedis.

Definition is_empty (e : queue_error) : bool :=
  match e with ErrEmpty => true | ErrRedis => false end.

Abbreviation qaction A := (Prog Call (result queue_error A)).

(** ** The interface *)

Class Queue : Type := {
  Enqueue : string → qaction unit;
  Dequeue : qaction string;
  Ack : string → qaction unit;
  Requeue : string → qaction unit;
  Recover : qaction nat;
  Dispatch : string → string → qaction unit;
  Receive : string → qaction string;
  QueuePing : qaction unit
}.

(** ** The Redis implementation *)

Module RedisQueue.
Definition pendingKey : string := "forgerun:jobs:pending".
Definition inflightKey : string := "forgerun:jobs:inflight".
(** [fmt.Sprintf(runnerKey, runnerID)] *)
Definition mailboxKey (runnerID : string) : string :=
  "forgerun:runner:" +:+ runnerID +:+ ":mailbox".

(** [.Err()] of a command *)
Definition status {X} (c : RedisCmd X) : qaction unit :=
  r ← call (Rds c);
  mret match r with Some _ => Ok tt | None => Err ErrRedis end.

Definition Enqueue (jobID : string) : qaction unit := status (LPush pendingKey jobID).

(** nil is ErrEmpty, any other error is passed on *)
Definition popped (r : option (option string)) : result queue_error string :=
  match r with
  | Some (Some id) => Ok id
  | Some None => Err ErrEmpty
  | None => Err ErrRedis
  end.

Definition Dequeue : qaction string :=
  r ← call (Rds (BLMove pendingKey inflightKey)); mret (popped r).

Definition Ack (jobID : string) : qaction unit := status (LRem inflightKey jobID).

Definition Requeue (jobID : string) : qaction unit :=
  _ ←? Ack jobID; Enqueue jobID.

Fixpoint requeue_each (ids : list string) : qaction unit :=
  match ids with
  | [] => mret (Ok tt)
  | id :: ids => _ ←? Requeue id; requeue_each ids
  end.

Definition Recover : qaction nat :=
  r ← call (Rds (LRange inflightKey));
  match r with
  | None => mret (Err ErrRedis)
  | Some ids => _ ←? requeue_each ids; mret (Ok (length ids))
  end.

Definition Dispatch (runnerID jobID : string) : qaction unit :=
  let key := mailboxKey runnerID in
  _ ←? status (LPush key jobID); status (Expire key).

Definition Receive (runnerID : string) : qaction string :=
  r ← call (Rds (BRPop (mailboxKey runnerID))); mret (popped r).

Definition Ping : qaction unit := status PingRedis.
End RedisQueue.

Definition RedisQueue_impl : Queue := {|
  Enqueue := RedisQueue.Enqueue;
  Dequeue := RedisQueue.Dequeue;
  Ack := RedisQueue.Ack;
  Requeue := RedisQueue.Requeue;
  Recover := RedisQueue.Recover;
  Dispatch := RedisQueue.Dispatch;
  Receive := RedisQueue.Receive;
  QueuePing := RedisQueue.Ping
|}.

(** ** The specification: two lists and a mailbox per runner *)

Record qstate : Type := mkQ {
  pending : list string; (* next to be dequeued last *)
  inflight : list string;
  mailbox : string → list string
}.

(** Mailboxes are functions: states are equal when they agree everywhere. *)
#[export] Instance qstate_equiv : Equiv qstate := λ q q',
  pending q = pending q' ∧ inflight q = inflight q' ∧ ∀ r, mailbox q r = mailbox q' r.
#[export] Instance qstate_equivalence : Equivalence (≡@{qstate}).
Proof.
  split.
  - by intros q.
  - intros q q' (Hp & Hi & Hm). split_and!; [done..|]. intros r. by rewrite Hm.
  - intros q q' q'' (Hp & Hi & Hm) (Hp' & Hi' & Hm'). split_and!; [congruence..|].
    intros r. by rewrite Hm.
Qed.

Module Fifo.
Definition enqueue (id : string) (q : qstate) : qstate :=
  mkQ (id :: pending q) (inflight q) (mailbox q).
Definition dequeue (q : qstate) : option string * qstate :=
  match unsnoc (pending q) with
  | None => (None, q)
  | Some (l, id) => (Some id, mkQ l (id :: inflight q) (mailbox q))
  end.
Definition ack (id : string) (q : qstate) : qstate :=
  mkQ (pending q) (remove_first id (inflight q)) (mailbox q).
Definition requeue (id : string) (q : qstate) : qstate := enqueue id (ack id q).
Definition recover (q : qstate) : qstate :=
  mkQ (reverse (inflight q) ++ pending q) [] (mailbox q).
Definition set_mailbox (r : string) (l : list string) (q : qstate) : qstate :=
  mkQ (pending q) (inflight q) (upd (mailbox q) r l).
Definition dispatch (r id : string) (q : qstate) : qstate := set_mailbox r (id :: mailbox q r) q.
Definition receive (r : string) (q : qstate) : option string * qstate :=
  match unsnoc (mailbox q r) with
  | None => (None, q)
  | Some (l, id) => (Some id, set_mailbox r l q)
  end.
End Fifo.

(** A queue talks to its server and to nothing else. *)
Definition queue_call (X : Type) (c : Call X) : Prop :=
  match c with Rds _ => True | _ => False end.

(** Only the queue's server has changed. *)
Definition frame {R} (w w' : World R) : Prop := set_redis (w_redis w) w' = w.

(** What the popping operations return. *)
Definition pop_reply (o : option string) : result queue_error string :=
  match o with Some id => Ok id | None => Err ErrEmpty end.

Class QueueOk (Q : Queue) {R : Type} `{RangeOrder, Redis R} (view : World R → qstate) : Prop := {
  queue_calls_enqueue id : all_calls queue_call (Enqueue id);
  queue_calls_dequeue : all_calls queue_call Dequeue;
  queue_calls_ack id : all_calls queue_call (Ack id);
  queue_calls_requeue id : all_calls queue_call (Requeue id);
  queue_calls_recover : all_calls queue_call Recover;
  queue_calls_dispatch r id : all_calls queue_call (Dispatch r id);
  queue_calls_receive r : all_calls queue_call (Receive r);
  queue_calls_ping : all_calls queue_call QueuePing;
  view_redis w w' : w_redis w = w_redis w' → view w ≡ view w';
  enqueue_spec w id : calm w → ∃ w', exec (Enqueue id) w = (Ok tt, w') ∧
    view w' ≡ Fifo.enqueue id (view w) ∧ frame w w';
  dequeue_spec w : calm w → ∃ w', exec Dequeue w = (pop_reply (Fifo.dequeue (view w)).1, w') ∧
    view w' ≡ (Fifo.dequeue (view w)).2 ∧ frame w w';
  ack_spec w id : calm w → ∃ w', exec (Ack id) w = (Ok tt, w') ∧
    view w' ≡ Fifo.ack id (view w) ∧ frame w w';
  requeue_spec w id : calm w → ∃ w', exec (Requeue id) w = (Ok tt, w') ∧
    view w' ≡ Fifo.requeue id (view w) ∧ frame w w';
  recover_spec w : calm w → ∃ w', exec Recover w = (Ok (length (inflight (view w))), w') ∧
    view w' ≡ Fifo.recover (view w) ∧ frame w w';
  dispatch_spec w r id : calm w → ∃ w', exec (Dispatch r id) w = (Ok tt, w') ∧
    view w' ≡ Fifo.dispatch r id (view w) ∧ frame w w';
  receive_spec w r : calm w → ∃ w', exec (Receive r) w = (pop_reply (Fifo.receive r (view w)).1, w') ∧
    view w' ≡ (Fifo.receive r (view w)).2 ∧ frame w w'
}.

(** ** The abstract operations respect equality of states *)

#[export] Instance pending_proper : Proper ((≡) ==> (=)) pending.
Proof. by intros q q' (Hp & _). Qed.
#[export] Instance inflight_proper : Proper ((≡) ==> (=)) inflight.
Proof. by intros q q' (_ & Hi & _). Qed.
#[export] Instance mailbox_proper : Proper ((≡) ==> (=) ==> (=)) mailbox.
Proof. intros q q' (_ & _ & Hm) r ? <-. apply Hm. Qed.

#[export] Instance enqueue_proper id : Proper ((≡) ==> (≡)) (Fifo.enqueue id).
Proof. intros q q' (Hp & Hi & Hm). split_and!; simpl; congruence || done. Qed.
#[export] Instance ack_proper id : Proper ((≡) ==> (≡)) (Fifo.ack id).
Proof. intros q q' (Hp & Hi & Hm). split_and!; simpl; congruence || done. Qed.
#[export] Instance requeue_proper id : Proper ((≡) ==> (≡)) (Fifo.requeue id).
Proof. intros q q' Hq. unfold Fifo.requeue. by rewrite Hq. Qed.
#[export] Instance set_mailbox_proper r l : Proper ((≡) ==> (≡)) (Fifo.set_mailbox r l).
Proof.
  intros q q' (Hp & Hi & Hm). split_and!; simpl; [done..|]. intros r'. unfold upd. by rewrite Hm.
Qed.
#[export] Instance dequeue_proper : Proper ((≡) ==> prod_relation (=) (≡)) Fifo.dequeue.
Proof.
  intros q q' Hq. unfold Fifo.dequeue. rewrite Hq.
  destruct (unsnoc (pending q')) as [[l id]|]; split; try done. simpl.
  destruct Hq as (_ & Hi & Hm). split_and!; simpl; congruence || done.
Qed.

#[export] Instance receive_proper r : Proper ((≡) ==> prod_relation (=) (≡)) (Fifo.receive r).
Proof.
  intros q q' Hq. unfold Fifo.receive. rewrite Hq.
  destruct (unsnoc (mailbox q' r)) as [[l id]|]; split; try done. simpl. by rewrite Hq.
Qed.
#[export] Instance dispatch_proper r id : Proper ((≡) ==> (≡)) (Fifo.dispatch r id).
Proof. intros q q' Hq. unfold Fifo.dispatch. rewrite (mailbox_proper _ _ Hq r r eq_refl). by rewrite Hq. Qed.
#[export] Instance recover_proper : Proper ((≡) ==> (≡)) Fifo.recover.
Proof. intros q q' (Hp & Hi & Hm). split_and!; simpl; congruence || done. Qed.

Lemma requeue_all_proper ids q q' :
  q ≡ q' → foldl (λ q id, Fifo.requeue id q) q ids ≡ foldl (λ q id, Fifo.requeue id q) q' ids.
Proof.
  revert q q'. induction ids as [|id ids IH]; intros q q' Hq; [done|]. simpl. apply IH.
  by rewrite Hq.
Qed.

(** ** Redis implements the specification *)

Section redis_queue.
Context `{RangeOrder} {R : Type} `{Redis R, !RedisOk R}.

(** The abstract state a server holds. *)
Definition redis_view (w : World R) : qstate :=
  let ls := redis_lists (w_redis w) in
  mkQ (ls RedisQueue.pendingKey) (ls RedisQueue.inflightKey)
    (λ r, ls (RedisQueue.mailboxKey r)).

Lemma mailboxKey_inj r r' : RedisQueue.mailboxKey r = RedisQueue.mailboxKey r' → r = r'.
Proof.
  unfold RedisQueue.mailboxKey. intros Hk.
  apply (inj (String.app "forgerun:runner:")) in Hk. by apply string_app_inj_r in Hk.
Qed.

Lemma mailboxKey_ne_pending r : RedisQueue.mailboxKey r ≠ RedisQueue.pendingKey.
Proof. done. Qed.
Lemma mailboxKey_ne_inflight r : RedisQueue.mailboxKey r ≠ RedisQueue.inflightKey.
Proof. done. Qed.

(** One command in a calm world: reply and lists as documented. *)
Lemma exec_redis_calm {X} (c : RedisCmd X) (w : World R) :
  calm w → ∃ r, do_redis c w = (Some (redis_doc c (redis_lists (w_redis w))).1, set_redis r w) ∧
    ∀ k, redis_lists r k = (redis_doc c (redis_lists (w_redis w))).2 k.
Proof.
  intros Hc. exists (exec_redis c (w_redis w)).2. rewrite do_redis_calm by done.
  rewrite redis_reply. split; [done|]. intros k. apply redis_effect.
Qed.

(** A view is read off the lists alone. *)
Definition view_of (ls : lists) : qstate :=
  mkQ (ls RedisQueue.pendingKey) (ls RedisQueue.inflightKey)
    (λ r, ls (RedisQueue.mailboxKey r)).

Lemma view_of_ext ls ls' : (∀ k, ls k = ls' k) → view_of ls ≡ view_of ls'.
Proof. intros Hl. split_and!; simpl; auto. Qed.

Lemma frame_set_redis r (w : World R) : frame w (set_redis r w).
Proof. by destruct w. Qed.

Lemma status_calm {X} (c : RedisCmd X) (w : World R) :
  calm w → ∃ r, exec (RedisQueue.status c) w = (Ok tt, set_redis r w) ∧
    ∀ k, redis_lists r k = (redis_doc c (redis_lists (w_redis w))).2 k.
Proof.
  intros Hc. destruct (exec_redis_calm c w Hc) as (r & E & Hl). exists r. split; [|done].
  unfold RedisQueue.status. simpl. by rewrite E.
Qed.

Lemma redis_enqueue (w : World R) id : calm w →
  ∃ r, exec (RedisQueue.Enqueue id) w = (Ok tt, set_redis r w) ∧
    redis_view (set_redis r w) ≡ Fifo.enqueue id (redis_view w).
Proof.
  intros Hc. destruct (status_calm (LPush RedisQueue.pendingKey id) w Hc) as (r & E & Hl).
  exists r. split; [exact E|]. split_and!; simpl; [rewrite Hl; done..|intros k; by rewrite Hl].
Qed.

Lemma redis_ack (w : World R) id : calm w →
  ∃ r, exec (RedisQueue.Ack id) w = (Ok tt, set_redis r w) ∧
    redis_view (set_redis r w) ≡ Fifo.ack id (redis_view w).
Proof.
  intros Hc. destruct (status_calm (LRem RedisQueue.inflightKey id) w Hc) as (r & E & Hl).
  exists r. split; [exact E|]. split_and!; simpl; [rewrite Hl; done..|intros k; by rewrite Hl].
Qed.

Lemma redis_requeue (w : World R) id : calm w →
  ∃ r, exec (RedisQueue.Requeue id) w = (Ok tt, set_redis r w) ∧
    redis_view (set_redis r w) ≡ Fifo.requeue id (redis_view w).
Proof.
  intros Hc. destruct (redis_ack w id Hc) as (r1 & E1 & V1).
  destruct (redis_enqueue (set_redis r1 w) id Hc) as (r2 & E2 & V2).
  exists r2. unfold RedisQueue.Requeue. rewrite run_try_bind, E1, E2. split; [done|].
  change (set_redis r2 w) with (set_redis r2 (set_redis r1 w)).
  by rewrite V2, V1.
Qed.

Lemma redis_requeue_each ids (w : World R) : calm w →
  ∃ r, exec (RedisQueue.requeue_each ids) w = (Ok tt, set_redis r w) ∧
    redis_view (set_redis r w) ≡ foldl (λ q id, Fifo.requeue id q) (redis_view w) ids.
Proof.
  revert w. induction ids as [|id ids IH]; intros w Hc.
  - exists (w_redis w). rewrite set_redis_id. done.
  - destruct (redis_requeue w id Hc) as (r1 & E1 & V1).
    destruct (IH (set_redis r1 w) Hc) as (r2 & E2 & V2).
    exists r2. cbn [RedisQueue.requeue_each]. rewrite run_try_bind, E1, E2. split; [done|].
    change (set_redis r2 w) with (set_redis r2 (set_redis r1 w)).
    etrans; [exact V2|]. simpl. by apply requeue_all_proper.
Qed.
End redis_queue.

(** Requeueing everything that is in flight, head first, empties that list. *)
Lemma requeue_all_recover q : foldl (λ q id, Fifo.requeue id q) q (inflight q) ≡ Fifo.recover q.
Proof.
  destruct q as [p ids m]. simpl. unfold Fifo.recover. simpl. revert p.
  induction ids as [|id ids IH]; intros p; [done|]. simpl.
  unfold Fifo.requeue, Fifo.ack, Fifo.enqueue. simpl. rewrite decide_True by done.
  rewrite IH, reverse_cons, <-app_assoc. done.
Qed.

Section redis_queue_ok.
Context `{RangeOrder} {R : Type} `{Redis R, !RedisOk R}.

Lemma redis_recover (w : World R) : calm w →
  ∃ r, exec RedisQueue.Recover w = (Ok (length (inflight (redis_view w))), set_redis r w) ∧
    redis_view (set_redis r w) ≡ Fifo.recover (redis_view w).
Proof.
  intros Hc. destruct (exec_redis_calm (LRange RedisQueue.inflightKey) w Hc) as (r1 & E1 & Hl).
  simpl in E1, Hl. unfold RedisQueue.Recover. simpl. rewrite E1. rewrite run_try_bind.
  destruct (redis_requeue_each (inflight (redis_view w)) (set_redis r1 w) Hc) as (r2 & E2 & V2).
  simpl in E2. rewrite E2. exists r2. split; [done|].
  change (set_redis r2 w) with (set_redis r2 (set_redis r1 w)). rewrite V2.
  rewrite <-requeue_all_recover. apply requeue_all_proper. by apply view_of_ext.
Qed.

Lemma redis_dequeue (w : World R) : calm w →
  ∃ r, exec RedisQueue.Dequeue w = (pop_reply (Fifo.dequeue (redis_view w)).1, set_redis r w) ∧
    redis_view (set_redis r w) ≡ (Fifo.dequeue (redis_view w)).2.
Proof.
  intros Hc.
  destruct (exec_redis_calm (BLMove RedisQueue.pendingKey RedisQueue.inflightKey) w Hc) as (r & E & Hl).
  exists r. change (redis_view (set_redis r w)) with (view_of (redis_lists r)). unfold RedisQueue.Dequeue. simpl. rewrite E. simpl in *. unfold Fifo.dequeue. simpl.
  destruct (unsnoc (redis_lists (w_redis w) RedisQueue.pendingKey)) as [[l id]|]; simpl in *;
    (split; [done|]); (etrans; [by apply view_of_ext|]); [by split_and!|done].
Qed.

Lemma upd_mailbox ls id l :
  view_of (upd ls (RedisQueue.mailboxKey id) l) ≡ Fifo.set_mailbox id l (view_of ls).
Proof.
  split_and!; simpl; [done..|]. intros id'. unfold upd.
  destruct (decide (id' = id)) as [->|Hne]; [by rewrite decide_True|].
  rewrite decide_False; [done|]. by intros ?%mailboxKey_inj.
Qed.

Lemma redis_dispatch (w : World R) id jobID : calm w →
  ∃ r, exec (RedisQueue.Dispatch id jobID) w = (Ok tt, set_redis r w) ∧
    redis_view (set_redis r w) ≡ Fifo.dispatch id jobID (redis_view w).
Proof.
  intros Hc.
  destruct (status_calm (LPush (RedisQueue.mailboxKey id) jobID) w Hc) as (r1 & E1 & Hl1).
  destruct (status_calm (Expire (RedisQueue.mailboxKey id)) (set_redis r1 w) Hc) as (r2 & E2 & Hl2).
  exists r2. unfold RedisQueue.Dispatch. rewrite run_try_bind, E1, E2. split; [done|].
  simpl in *. change (redis_view (set_redis r2 w)) with (view_of (redis_lists r2)).
  etrans; [apply view_of_ext; intros k; by rewrite Hl2, Hl1|]. apply upd_mailbox.
Qed.

Lemma redis_receive (w : World R) id : calm w →
  ∃ r, exec (RedisQueue.Receive id) w = (pop_reply (Fifo.receive id (redis_view w)).1, set_redis r w) ∧
    redis_view (set_redis r w) ≡ (Fifo.receive id (redis_view w)).2.
Proof.
  intros Hc.
  destruct (exec_redis_calm (BRPop (RedisQueue.mailboxKey id)) w Hc) as (r & E & Hl).
  exists r. unfold RedisQueue.Receive. simpl. rewrite E. simpl in *. unfold Fifo.receive. simpl.
  change (redis_view (set_redis r w)) with (view_of (redis_lists r)).
  destruct (unsnoc (redis_lists (w_redis w) (RedisQueue.mailboxKey id))) as [[l jobID]|];
    simpl in *; (split; [done|]); (etrans; [by apply view_of_ext|]); [apply upd_mailbox|done].
Qed.

Lemma queue_calls_status {X} (c : RedisCmd X) : all_calls queue_call (RedisQueue.status c).
Proof. done. Qed.

Lemma redis_calls_requeue id : all_calls queue_call (RedisQueue.Requeue id).
Proof. by apply all_calls_try_bind. Qed.

Lemma queue_calls_requeue_each ids : all_calls queue_call (RedisQueue.requeue_each ids).
Proof.
  induction ids as [|id ids IH]; [done|]. cbn [RedisQueue.requeue_each].
  apply all_calls_try_bind; [apply redis_calls_requeue|done].
Qed.

(** The Redis queue keeps the promise of the interface. *)
#[export] Instance RedisQueue_ok : QueueOk RedisQueue_impl redis_view.
Proof.
  split; try done.
  - apply redis_calls_requeue.
  - (* Recover *)
    cbn [Recover RedisQueue_impl]. apply all_calls_bind; [done|]. intros [ids|]; [|done].
    apply all_calls_try_bind; [apply queue_calls_requeue_each|done].
  - intros r id. by apply all_calls_try_bind.
  - intros w w' E. unfold redis_view. by rewrite E.
  - intros w id Hc. destruct (redis_enqueue w id Hc) as (r & ? & ?). eauto using frame_set_redis.
  - intros w Hc. destruct (redis_dequeue w Hc) as (r & ? & ?). eauto using frame_set_redis.
  - intros w id Hc. destruct (redis_ack w id Hc) as (r & ? & ?). eauto using frame_set_redis.
  - intros w id Hc. destruct (redis_requeue w id Hc) as (r & ? & ?). eauto using frame_set_redis.
  - intros w Hc. destruct (redis_recover w Hc) as (r & ? & ?). eauto using frame_set_redis.
  - intros w r id Hc. destruct (redis_dispatch w r id Hc) as (r' & ? & ?).
    eauto using frame_set_redis.
  - intros w r Hc. destruct (redis_receive w r Hc) as (r' & ? & ?). eauto using frame_set_redis.
Qed.
End redis_queue_ok.

(** ** Sequences of queue operations *)

Inductive qop : Type :=
| OEnqueue (id : string)
| ODequeue
| OAck (id : string)
| ORequeue (id : string)
| ORecover
| ODispatch (runnerID id : string)
| OReceive (runnerID : string).

Inductive qreply : Type :=
| RUnit
| RJob (id : string)
| RCount (n : nat).

Definition reply_with {A} (f : A → qreply) (p : qaction A) : qaction qreply :=
  a ←? p; mret (Ok (f a)).

Definition qop_prog `{Queue} (op : qop) : qaction qreply :=
  match op with
  | OEnqueue id => reply_with (λ _, RUnit) (Enqueue id)
  | ODequeue => reply_with RJob Dequeue
  | OAck id => reply_with (λ _, RUnit) (Ack id)
  | ORequeue id => reply_with (λ _, RUnit) (Requeue id)
  | ORecover => reply_with RCount Recover
  | ODispatch r id => reply_with (λ _, RUnit) (Dispatch r id)
  | OReceive r => reply_with RJob (Receive r)
  end.

Definition pop_answer (o : option string) : result queue_error qreply :=
  match o with Some id => Ok (RJob id) | None => Err ErrEmpty end.

Definition qop_spec (op : qop) (q : qstate) : result queue_error qreply * qstate :=
  match op with
  | OEnqueue id => (Ok RUnit, Fifo.enqueue id q)
  | ODequeue => let '(o, q') := Fifo.dequeue q in (pop_answer o, q')
  | OAck id => (Ok RUnit, Fifo.ack id q)
  | ORequeue id => (Ok RUnit, Fifo.requeue id q)
  | ORecover => (Ok (RCount (length (inflight q))), Fifo.recover q)
  | ODispatch r id => (Ok RUnit, Fifo.dispatch r id q)
  | OReceive r => let '(o, q') := Fifo.receive r q in (pop_answer o, q')
  end.

Fixpoint run_qops `{Queue} (ops : list qop) : Prog Call (list (result queue_error qreply)) :=
  match ops with
  | [] => mret []
  | op :: ops => r ← qop_prog op; rs ← run_qops ops; mret (r :: rs)
  end.

Fixpoint spec_qops (ops : list qop) (q : qstate) : list (result queue_error qreply) * qstate :=
  match ops with
  | [] => ([], q)
  | op :: ops =>
      let '(r, q1) := qop_spec op q in
      let '(rs, q2) := spec_qops ops q1 in (r :: rs, q2)
  end.

Section sequences.
Context `{RangeOrder} {R : Type} `{Redis R, !RedisOk R}.

Lemma frame_calm (w w' : World R) : frame w w' → calm w → calm w'.
Proof. unfold frame, calm. intros <-. done. Qed.
Lemma frame_db (w w' : World R) : frame w w' → w_db w' = w_db w.
Proof. unfold frame. intros <-. done. Qed.
Lemma frame_trans (w w1 w2 : World R) : frame w w1 → frame w1 w2 → frame w w2.
Proof. unfold frame. intros <- <-. done. Qed.

Lemma reply_with_spec {A} (f : A → qreply) (p : qaction A) (w w' : World R) r :
  exec p w = (r, w') →
  exec (reply_with f p) w =
    (match r with Ok a => Ok (f a) | Err e => Err e end, w').
Proof. intros E. unfold reply_with. rewrite run_try_bind, E. by destruct r. Qed.

Context (Q : Queue) (view : World R → qstate) `{!QueueOk Q view}.

Lemma qop_refines op (w : World R) :
  calm w → ∃ w', exec (qop_prog op) w = ((qop_spec op (view w)).1, w') ∧
    view w' ≡ (qop_spec op (view w)).2 ∧ frame w w'.
Proof.
  intros Hc. destruct op as [id| |id|id| |r id|r]; cbn [qop_prog qop_spec].
  - destruct (enqueue_spec w id Hc) as (w' & E & ?). exists w'. by rewrite (reply_with_spec _ _ _ _ _ E).
  - destruct (dequeue_spec w Hc) as (w' & E & ?). exists w'. rewrite (reply_with_spec _ _ _ _ _ E).
    by destruct (Fifo.dequeue (view w)) as [[] ?].
  - destruct (ack_spec w id Hc) as (w' & E & ?). exists w'. by rewrite (reply_with_spec _ _ _ _ _ E).
  - destruct (requeue_spec w id Hc) as (w' & E & ?). exists w'. by rewrite (reply_with_spec _ _ _ _ _ E).
  - destruct (recover_spec w Hc) as (w' & E & ?). exists w'. by rewrite (reply_with_spec _ _ _ _ _ E).
  - destruct (dispatch_spec w r id Hc) as (w' & E & ?). exists w'.
    by rewrite (reply_with_spec _ _ _ _ _ E).
  - destruct (receive_spec w r Hc) as (w' & E & ?). exists w'. rewrite (reply_with_spec _ _ _ _ _ E).
    by destruct (Fifo.receive r (view w)) as [[] ?].
Qed.

Lemma qop_spec_proper op q q' :
  q ≡ q' → (qop_spec op q).1 = (qop_spec op q').1 ∧ (qop_spec op q).2 ≡ (qop_spec op q').2.
Proof.
  intros Hq. destruct op as [id| |id|id| |r id|r]; cbn [qop_spec].
  - split; [done|]. simpl. by rewrite Hq.
  - destruct (dequeue_proper _ _ Hq) as [H1 H2].
    destruct (Fifo.dequeue q), (Fifo.dequeue q'); simpl in *. by subst.
  - split; [done|]. simpl. by rewrite Hq.
  - split; [done|]. simpl. by rewrite Hq.
  - simpl. by rewrite Hq.
  - split; [done|]. simpl. by rewrite Hq.
  - destruct (receive_proper r _ _ Hq) as [H1 H2].
    destruct (Fifo.receive r q), (Fifo.receive r q'); simpl in *. by subst.
Qed.

Lemma run_qops_refines ops (w : World R) q :
  calm w → view w ≡ q →
  ∃ w', exec (run_qops ops) w = ((spec_qops ops q).1, w') ∧
    view w' ≡ (spec_qops ops q).2 ∧ frame w w'.
Proof.
  revert w q. induction ops as [|op ops IH]; intros w q Hc Hq; cbn [run_qops spec_qops].
  - exists w. split; [done|]. split; [done|]. by destruct w.
  - destruct (qop_refines op w Hc) as (w1 & E1 & V1 & F1).
    destruct (qop_spec_proper op _ _ Hq) as [Hr Hs]. rewrite Hs in V1. rewrite Hr in E1.
    destruct (qop_spec op q) as [r q1]; simpl in *.
    destruct (IH w1 q1) as (w2 & E2 & V2 & F2); [by eapply frame_calm|done|].
    exists w2. rewrite run_bind, E1, run_bind, E2.
    destruct (spec_qops ops q1) as [rs q2]; simpl in *. split_and!; [done..|].
    by eapply frame_trans.
Qed.
End sequences.

Section redis_sequences.
Context `{RangeOrder} {R : Type} `{Redis R}.

(** C13. The Redis queue implements the abstract queue: on any server with the
    documented behaviour of the list commands, any sequence of Enqueue,
    Dequeue, Ack, Requeue, Recover, Dispatch and Receive returns exactly the
    replies of the two-list specification, ends in a server that represents
    the specified state, and touches nothing else. *)
Theorem RedisQueue_refines_Fifo (ops : list qop) (w : World R)
    (Hok : RedisOk R) (Hc : calm w) :
  let '(replies, w') := exec (@run_qops RedisQueue_impl ops) w in
  replies = (spec_qops ops (redis_view w)).1 ∧
  redis_view w' ≡ (spec_qops ops (redis_view w)).2 ∧ frame w w'.
Proof.
  destruct (run_qops_refines RedisQueue_impl redis_view ops w (redis_view w) Hc)
    as (w' & E & V & F); [done|]. by rewrite E.
Qed.

(** The ids waiting or being assigned. *)
Definition jobs_in (q : qstate) : list string := pending q ++ inflight q.

(** [Dequeue] never loses a job id, whatever happens to the connection: the
    ids on the pending and in-flight lists together are the same before and
    after, so a consumer that crashes with the reply in hand leaves the id for
    [Recover]; and an id that is returned is in flight. *)
Theorem Dequeue_loses_nothing (w : World R) (Hok : RedisOk R) :
  let '(r, w') := exec RedisQueue.Dequeue w in
  jobs_in (redis_view w') ≡ₚ jobs_in (redis_view w) ∧
  ∀ id, r = Ok id → id ∈ inflight (redis_view w').
Proof.
  unfold RedisQueue.Dequeue. simpl.
  pose proof (do_redis_cases (BLMove RedisQueue.pendingKey RedisQueue.inflightKey) w) as Hcases.
  destruct (do_redis _ w) as [x w1]; simpl in *. unfold jobs_in. simpl.
  set (ls := redis_lists (w_redis w)) in *.
  assert (∀ r, r = (exec_redis (BLMove RedisQueue.pendingKey RedisQueue.inflightKey) (w_redis w)).2 →
    redis_lists r RedisQueue.pendingKey ++ redis_lists r RedisQueue.inflightKey ≡ₚ
    ls RedisQueue.pendingKey ++ ls RedisQueue.inflightKey) as Hperm.
  { intros r ->. rewrite !redis_effect. fold ls. simpl.
    destruct (unsnoc (ls RedisQueue.pendingKey)) as [[l id]|] eqn:E; [|done].
    apply unsnoc_Some in E. rewrite E. simpl. unfold upd. simpl.
    by rewrite <-app_assoc. }
  destruct Hcases as [[-> Hr]|[-> [Hr|Hr]]]; simpl; rewrite Hr; (split; [by auto|]); try done.
  intros id. rewrite redis_reply, redis_effect. fold ls. simpl.
  destruct (unsnoc (ls RedisQueue.pendingKey)) as [[l id']|]; simpl; [|done].
  intros [= ->]. unfold upd. simpl. by left.
Qed.

(** C39. Requeueing is not atomic: when the connection fails after LREM, the id
    is in no list any more.  [Recover], which the scheduler runs at startup to
    rescue in-flight jobs, loses a job this way. *)
Theorem Recover_can_lose_a_job (w : World R) (id : string)
    (Hok : RedisOk R)
    (Hfaults : w_faults w = [FNone; FNone; FLost])
    (Hpending : pending (redis_view w) = []) (Hinflight : inflight (redis_view w) = [id]) :
  let '(r, w') := exec RedisQueue.Recover w in
  r = Err ErrRedis ∧ jobs_in (redis_view w') = [].
Proof.
  simpl in Hpending, Hinflight.
  unfold RedisQueue.Recover. simpl. unfold do_redis, next_fault. rewrite Hfaults. simpl.
  destruct (exec_redis (LRange RedisQueue.inflightKey) (w_redis w)) as [ids r1] eqn:E1.
  assert (ids = [id] ∧ ∀ k, redis_lists r1 k = redis_lists (w_redis w) k) as [-> L1].
  { split; [pose proof (redis_reply (LRange RedisQueue.inflightKey) (w_redis w)) as Hr
           |intros k; pose proof (redis_effect (LRange RedisQueue.inflightKey) (w_redis w) k) as Hr];
      rewrite E1 in Hr; simpl in Hr; congruence. }
  simpl. unfold do_redis, next_fault. simpl.
  destruct (exec_redis (LRem RedisQueue.inflightKey id) r1) as [u r2] eqn:E2.
  assert (∀ k, redis_lists r2 k = upd (redis_lists r1) RedisQueue.inflightKey
    (remove_first id (redis_lists r1 RedisQueue.inflightKey)) k) as L2.
  { intros k. pose proof (redis_effect (LRem RedisQueue.inflightKey id) r1 k) as Hr.
    by rewrite E2 in Hr. }
  simpl. unfold do_redis, next_fault. simpl.
  destruct (exec_redis (LPush RedisQueue.pendingKey id) r2) as [u' r3].
  simpl. split; [done|]. unfold jobs_in. simpl. rewrite !L2. unfold upd. simpl.
  rewrite !L1, Hpending, Hinflight. simpl. by rewrite decide_True.
Qed.
End redis_sequences.
