(* ===== verification/Outcome.v ===== *)
(** * What a handler does to the tables and to the queue when nothing fails

    A handler of the API or a step of the scheduler mixes methods of the store
    with operations of the queue.  [outcome p w a db q] says that [p], started in
    the calm world [w], returns [a] and leaves the tables [db] and the queue [q].
    The rules below compose the refinement theorems of Store ([implements]) and
    the laws of the interface [QueueOk]; no handler is ever verified against SQL
    statements or against Redis. *)
From S2P Require Import Prelude Prog Models Sql Redis World Tables Store Queue.

Section outcome.
Context `{RangeOrder} {R : Type} `{Redis R}.
Context (Q : Queue) (view : World R → qstate) `{!QueueOk Q view}.

Definition outcome {A} (p : Prog Call A) (w : World R) (a : A) (db : DB) (q : qstate) : Prop :=
  ∃ w', exec p w = (a, w') ∧ calm w' ∧ w_db w' = db ∧ view w' ≡ q.

#[export] Instance outcome_proper {A} (p : Prog Call A) w a db :
  Proper ((≡) ==> iff) (outcome p w a db).
Proof.
  intros q q' Hq. unfold outcome. split; intros (w' & ? & ? & ? & ?); exists w'.
  - by rewrite <-Hq.
  - by rewrite Hq.
Qed.

Lemma outcome_ret {A} (a : A) w q : calm w → view w ≡ q → outcome (mret a) w a (w_db w) q.
Proof. intros Hc Hq. by exists w. Qed.

Lemma outcome_bind {A B} (p : Prog Call A) (f : A → Prog Call B) w a db q b db' q' :
  outcome p w a db q →
  (∀ w', calm w' → w_db w' = db → view w' ≡ q → outcome (f a) w' b db' q') →
  outcome (p ≫= f) w b db' q'.
Proof.
  intros (w1 & E1 & Hc1 & Hd1 & Hv1) Hf. destruct (Hf w1 Hc1 Hd1 Hv1) as (w2 & E2 & ?).
  exists w2. by rewrite run_bind, E1, E2.
Qed.

(** Once the context is no longer going to be cancelled it stays so. *)
Lemma exec_ctx {A} (p : Prog Call A) (w : World R) :
  w_ctx w = [] → w_ctx (exec p w).2 = [].
Proof.
  revert w. induction p as [a|X c k IH]; intros w Hctx; [done|]. simpl.
  assert (w_ctx (handle X c w).2 = []) as Hh.
  { destruct c; simpl; try done; [| |by rewrite Hctx].
    - unfold do_sql, next_fault. destruct (w_faults w) as [|[] ?];
        simpl; by destruct (exec_sql s _).
    - unfold do_redis, next_fault. destruct (w_faults w) as [|[] ?];
        simpl; by destruct (exec_redis c _). }
  destruct (handle X c w) as [x w']. by apply IH.
Qed.

(** Nor does a program schedule faults. *)
Lemma exec_calm {A} (p : Prog Call A) (w : World R) : calm w → calm (exec p w).2.
Proof.
  revert w. induction p as [a|X c k IH]; intros w Hc; [done|]. simpl.
  assert (calm (handle X c w).2) as Hh.
  { destruct c; simpl; try done; [rewrite do_sql_calm by done|rewrite do_redis_calm by done]; done. }
  destruct (handle X c w) as [x w']. by apply IH.
Qed.

Lemma outcome_bind_ctx {A B} (p : Prog Call A) (f : A → Prog Call B) w a db q b db' q' :
  outcome p w a db q → w_ctx w = [] →
  (∀ w', calm w' → w_ctx w' = [] → w_db w' = db → view w' ≡ q → outcome (f a) w' b db' q') →
  outcome (p ≫= f) w b db' q'.
Proof.
  intros (w1 & E1 & Hc1 & Hd1 & Hv1) Hctx Hf. pose proof (exec_ctx p w Hctx) as Hctx1.
  rewrite E1 in Hctx1. destruct (Hf w1 Hc1 Hctx1 Hd1 Hv1) as (w2 & E2 & ?).
  exists w2. by rewrite run_bind, E1, E2.
Qed.

(** A method of the store. *)
Lemma outcome_store {Er A} (p : Prog Call (result Er A)) f w r db q :
  implements p f → calm w → db_wf (w_db w) → f (w_db w) = (r, db) → view w ≡ q →
  outcome p w r db q.
Proof.
  intros Hp Hc Hw Hf Hq. exists (set_db db w). rewrite (Hp w Hc Hw), Hf. split_and!; try done.
  etrans; [|exact Hq]. by apply view_redis.
Qed.

(** An operation of the queue. *)
Lemma outcome_queue {A} (p : Prog Call A) w r q q' (op : qstate → qstate) :
  (∃ w', exec p w = (r, w') ∧ view w' ≡ op (view w) ∧ frame w w') →
  calm w → Proper ((≡) ==> (≡)) op → view w ≡ q → op q ≡ q' → outcome p w r (w_db w) q'.
Proof.
  intros (w' & E & V & F) Hc Hop Hq Hq'. exists w'. split_and!; [done| | |].
  - by eapply frame_calm.
  - by eapply frame_db.
  - by rewrite V, Hq, Hq'.
Qed.

Lemma outcome_enqueue w id q :
  calm w → view w ≡ q → outcome (Enqueue id) w (Ok tt) (w_db w) (Fifo.enqueue id q).
Proof. intros Hc Hq. eapply outcome_queue; eauto using enqueue_spec with typeclass_instances. Qed.
Lemma outcome_ack w id q :
  calm w → view w ≡ q → outcome (Ack id) w (Ok tt) (w_db w) (Fifo.ack id q).
Proof. intros Hc Hq. eapply outcome_queue; eauto using ack_spec with typeclass_instances. Qed.
Lemma outcome_requeue w id q :
  calm w → view w ≡ q → outcome (Requeue id) w (Ok tt) (w_db w) (Fifo.requeue id q).
Proof. intros Hc Hq. eapply outcome_queue; eauto using requeue_spec with typeclass_instances. Qed.
Lemma outcome_dispatch w r id q :
  calm w → view w ≡ q → outcome (Dispatch r id) w (Ok tt) (w_db w) (Fifo.dispatch r id q).
Proof. intros Hc Hq. eapply outcome_queue; eauto using dispatch_spec with typeclass_instances. Qed.
Lemma outcome_recover w q :
  calm w → view w ≡ q →
  outcome Recover w (Ok (length (inflight q))) (w_db w) (Fifo.recover q).
Proof.
  intros Hc Hq. apply (outcome_queue _ _ _ q _ Fifo.recover); try done; [|apply _].
  rewrite <-(inflight_proper _ _ Hq). by apply recover_spec.
Qed.
Lemma outcome_dequeue w q :
  calm w → view w ≡ q →
  outcome Dequeue w (pop_reply (Fifo.dequeue q).1) (w_db w) (Fifo.dequeue q).2.
Proof.
  intros Hc Hq. destruct (dequeue_proper _ _ Hq) as [Hr Hs].
  apply (outcome_queue _ _ _ q _ (λ q, (Fifo.dequeue q).2)); try done.
  - rewrite <-Hr. by apply dequeue_spec.
  - intros q1 q2 Hq'. by apply dequeue_proper.
Qed.
Lemma outcome_receive w r q :
  calm w → view w ≡ q →
  outcome (Receive r) w (pop_reply (Fifo.receive r q).1) (w_db w) (Fifo.receive r q).2.
Proof.
  intros Hc Hq. destruct (receive_proper r _ _ Hq) as [Hr Hs].
  apply (outcome_queue _ _ _ q _ (λ q, (Fifo.receive r q).2)); try done.
  - rewrite <-Hr. by apply receive_spec.
  - intros q1 q2 Hq'. by apply (receive_proper r).
Qed.

(** The operations of the queue send no statement. *)
Lemma queue_call_safe {A} (p : Prog Call A) : all_calls queue_call p → safe p.
Proof. apply all_calls_impl. by intros X []. Qed.

Lemma safe_Enqueue id : safe (Enqueue id).
Proof. apply queue_call_safe, queue_calls_enqueue. Qed.
Lemma safe_Dequeue : safe Dequeue.
Proof. apply queue_call_safe, queue_calls_dequeue. Qed.
Lemma safe_Ack id : safe (Ack id).
Proof. apply queue_call_safe, queue_calls_ack. Qed.
Lemma safe_Requeue id : safe (Requeue id).
Proof. apply queue_call_safe, queue_calls_requeue. Qed.
Lemma safe_Recover : safe Recover.
Proof. apply queue_call_safe, queue_calls_recover. Qed.
Lemma safe_Dispatch r id : safe (Dispatch r id).
Proof. apply queue_call_safe, queue_calls_dispatch. Qed.
Lemma safe_Receive r : safe (Receive r).
Proof. apply queue_call_safe, queue_calls_receive. Qed.
Lemma safe_QueuePing : safe QueuePing.
Proof. apply queue_call_safe, queue_calls_ping. Qed.

(** A call that touches neither the tables nor the server. *)
Definition quiet {X} (c : Call X) : Prop :=
  match c with Sql _ | Rds _ => False | _ => True end.

Lemma outcome_quiet {X} (c : Call X) w q :
  quiet c → calm w → view w ≡ q → outcome (call c) w (handle _ c w).1 (w_db w) q.
Proof.
  intros Hquiet Hc Hq. exists (handle _ c w).2. rewrite run_call.
  destruct c; try done; (split_and!; [done..|]); (etrans; [|exact Hq]); by apply view_redis.
Qed.
End outcome.

#[export] Hint Resolve safe_Enqueue safe_Dequeue safe_Ack safe_Requeue safe_Recover safe_Dispatch
  safe_Receive safe_QueuePing : calls.
