(* ===== verification/Scheduler.v ===== *)
(** * internal/scheduler/scheduler.go

    [Scheduler] is the interface, [CapabilityScheduler] its implementation.
    [SchedulerOk] is what the scheduling loop relies on: the runner that is
    picked is one of the candidates, is idle and carries the job's labels. *)
From S2P Require Import Prelude Models.

Inductive sched_error : Type := ErrNoRunner.

Class Scheduler : Type := Schedule : Job → list Runner → result sched_error Runner.

(** ** CapabilityScheduler *)

(** A runner that has never run a job wins; ties among those go to the smaller
    id; otherwise the earlier assignment wins. *)
Definition lessRecentlyUsed (a b : Runner) : bool :=
  match r_LastAssigned a, r_LastAssigned b with
  | None, None => String.ltb (r_ID a) (r_ID b)
  | None, Some _ => true
  | Some _, None => false
  | Some ta, Some tb => (ta <? tb)%Z
  end.

Definition eligible (job : Job) (r : Runner) : bool :=
  negb (negb (bool_decide (r_Status r = RunnerIdle)) || negb (CanRun r (j_Labels job))).

(** The loop over the candidates; [best] is the pointer of the Go code. *)
Fixpoint pick_best (job : Job) (best : option Runner) (candidates : list Runner) : option Runner :=
  match candidates with
  | [] => best
  | r :: candidates =>
      if negb (eligible job r) then pick_best job best candidates
      else
        match best with
        | None => pick_best job (Some r) candidates
        | Some b =>
            if lessRecentlyUsed r b then pick_best job (Some r) candidates
            else pick_best job best candidates
        end
  end.

Definition CapabilityScheduler : Scheduler := λ job candidates,
  match pick_best job None candidates with
  | None => Err ErrNoRunner
  | Some best => Ok best
  end.

(** ** What the loop that uses a scheduler relies on *)

Definition can_take (job : Job) (r : Runner) : Prop :=
  r_Status r = RunnerIdle ∧ ∀ l, l ∈ j_Labels job → l ∈ default [] (r_Labels r).

Class SchedulerOk (S : Scheduler) : Prop := {
  schedule_some job cs r : Schedule job cs = Ok r → r ∈ cs ∧ can_take job r;
  schedule_none job cs : Schedule job cs = Err ErrNoRunner → ∀ r, r ∈ cs → ¬ can_take job r
}.

(** ** The preference is a strict order *)

Lemma string_ltb_leb s t : String.ltb s t = negb (String.leb t s).
Proof.
  unfold String.ltb, String.leb. rewrite (String.compare_antisym s t).
  by destruct (t ?= s)%string.
Qed.

Lemma string_leb_trans s t u : String.leb s t = true → String.leb t u = true → String.leb s u = true.
Proof.
  intros H1 H2. apply Is_true_true. etrans; [|by apply Is_true_true, H2]. by apply Is_true_true.
Qed.

Lemma string_ltb_trans s t u : String.ltb s t = true → String.ltb t u = true → String.ltb s u = true.
Proof.
  rewrite !string_ltb_leb, !negb_true_iff. intros H1 H2.
  destruct (String.leb u s) eqn:H3; [|done].
  destruct (String.leb_total s t) as [H4|H4]; [|congruence].
  by rewrite (string_leb_trans u s t) in H2.
Qed.

Lemma string_ltb_irrefl s : String.ltb s s = false.
Proof. rewrite string_ltb_leb. by destruct (String.leb_total s s) as [->| ->]. Qed.

Lemma lru_irrefl a : lessRecentlyUsed a a = false.
Proof.
  unfold lessRecentlyUsed. destruct (r_LastAssigned a); [apply Z.ltb_irrefl|apply string_ltb_irrefl].
Qed.

Lemma lru_trans a b c :
  lessRecentlyUsed a b = true → lessRecentlyUsed b c = true → lessRecentlyUsed a c = true.
Proof.
  unfold lessRecentlyUsed.
  destruct (r_LastAssigned a), (r_LastAssigned b), (r_LastAssigned c); try done.
  - rewrite !Z.ltb_lt. lia.
  - apply string_ltb_trans.
Qed.

Lemma eligible_true job r : eligible job r = true ↔ can_take job r.
Proof.
  unfold eligible, can_take. rewrite negb_true_iff, orb_false_iff, !negb_false_iff,
    bool_decide_eq_true, CanRun_true. done.
Qed.

(** ** The loop returns a least element of the eligible candidates *)

Section pick.
Context (job : Job).

Definition least_among (cs : list Runner) (r : Runner) : Prop :=
  can_take job r ∧ ∀ c, c ∈ cs → can_take job c → lessRecentlyUsed c r = false.

Lemma pick_best_spec best cs seen :
  match best with
  | None => ∀ c, c ∈ seen → ¬ can_take job c
  | Some b => b ∈ seen ∧ least_among seen b
  end →
  match pick_best job best cs with
  | None => ∀ c, c ∈ seen ++ cs → ¬ can_take job c
  | Some b => b ∈ seen ++ cs ∧ least_among (seen ++ cs) b
  end.
Proof.
  revert best seen. induction cs as [|r cs IH]; intros best seen Hb; [by rewrite app_nil_r|].
  rewrite (cons_middle r seen cs), app_assoc. cbn [pick_best].
  destruct (eligible job r) eqn:He; simpl.
  - apply eligible_true in He. destruct best as [b|].
    + destruct Hb as (Hin & Hcan & Hmin). destruct (lessRecentlyUsed r b) eqn:Hlt; apply IH.
      * split; [set_solver|]. split; [done|]. intros c [Hc| ->%list_elem_of_singleton]%elem_of_app Hcc;
          [|apply lru_irrefl].
        destruct (lessRecentlyUsed c r) eqn:E; [|done].
        rewrite <-(Hmin c Hc Hcc). symmetry. by apply (lru_trans c r b).
      * split; [set_solver|]. split; [done|].
        by intros c [Hc| ->%list_elem_of_singleton]%elem_of_app; [apply Hmin|].
    + apply IH. split; [set_solver|]. split; [done|].
      intros c [Hc| ->%list_elem_of_singleton]%elem_of_app Hcc; [by destruct (Hb c Hc)|apply lru_irrefl].
  - assert (¬ can_take job r) as Hn by (rewrite <-eligible_true; congruence).
    apply IH. destruct best as [b|].
    + destruct Hb as (Hin & Hcan & Hmin). split; [set_solver|]. split; [done|].
      by intros c [Hc| ->%list_elem_of_singleton]%elem_of_app; [apply Hmin|].
    + intros c [Hc| ->%list_elem_of_singleton]%elem_of_app; [by apply Hb|done].
Qed.

Lemma pick_best_none cs :
  match pick_best job None cs with
  | None => ∀ c, c ∈ cs → ¬ can_take job c
  | Some b => b ∈ cs ∧ least_among cs b
  end.
Proof. apply (pick_best_spec None cs []). set_solver. Qed.
End pick.

#[export] Instance CapabilityScheduler_ok : SchedulerOk CapabilityScheduler.
Proof.
  split; intros job cs; unfold Schedule, CapabilityScheduler;
    pose proof (pick_best_none job cs) as Hp; destruct (pick_best job None cs) as [b|]; try done.
  intros r [= <-]. destruct Hp as (Hin & Hcan & _). done.
Qed.

(** C32. The scheduler is right: it returns [ErrNoRunner] exactly when no
    candidate is idle and carries every label of the job; otherwise it returns
    a candidate that is and does, and that no other such candidate is to be
    preferred to (never used before ever used, then least recently assigned). *)
Theorem Schedule_correct (job : Job) (candidates : list Runner) :
  match @Schedule CapabilityScheduler job candidates with
  | Err ErrNoRunner => ∀ r, r ∈ candidates → ¬ can_take job r
  | Ok best =>
      best ∈ candidates ∧ can_take job best ∧
      ∀ r, r ∈ candidates → can_take job r → lessRecentlyUsed r best = false
  end.
Proof.
  unfold Schedule, CapabilityScheduler. pose proof (pick_best_none job candidates) as Hp.
  by destruct (pick_best job None candidates).
Qed.

(** The choice does not depend on the order in which the database lists the
    candidates, as long as no two of those that qualify were last assigned at
    the very same time: any permutation of the list gives the same runner. *)
Theorem Schedule_order_independent (job : Job) (cs cs' : list Runner)
    (Hperm : cs ≡ₚ cs')
    (Hdistinct : ∀ a b, a ∈ cs → b ∈ cs → can_take job a → can_take job b → a ≠ b →
      lessRecentlyUsed a b = true ∨ lessRecentlyUsed b a = true) :
  @Schedule CapabilityScheduler job cs = @Schedule CapabilityScheduler job cs'.
Proof.
  unfold Schedule, CapabilityScheduler.
  pose proof (pick_best_none job cs) as H1. pose proof (pick_best_none job cs') as H2.
  destruct (pick_best job None cs) as [b|], (pick_best job None cs') as [b'|]; [| | |done].
  - destruct H1 as (Hin & Hc & Hmin), H2 as (Hin' & Hc' & Hmin').
    destruct (decide (b = b')) as [->|Hne]; [done|].
    rewrite <-Hperm in Hin'. rewrite Hperm in Hin.
    destruct (Hdistinct b b') as [Hl|Hl]; try done.
    + by rewrite Hperm.
    + by rewrite Hmin' in Hl.
    + by rewrite Hmin in Hl.
  - destruct H1 as (Hin & Hc & _). rewrite Hperm in Hin. by destruct (H2 b).
  - destruct H2 as (Hin & Hc & _). rewrite <-Hperm in Hin. by destruct (H1 b').
Qed.
