(* ===== verification/Service.v ===== *)
(** * internal/scheduler/service.go

    The scheduler process: [assign] is one job's way from the queue to a
    runner's mailbox, [serve_body] one iteration of the loop of [Service.Run],
    [reap_body] one tick of [reapLoop].  Sleeping and logging are left out; a
    loop is its body, repeated by [serve] as often as its fuel says. *)
From S2P Require Import Prelude Prog Models Sql Redis World Tables Store Lifecycle Queue Outcome Scheduler.

#[local] Arguments mbind : simpl never.

Section service.
Context `{Queue, Scheduler}.
Context (heartbeat : Z).

Definition requeue (jobID : string) : Prog Call unit := _ ← Requeue jobID; mret tt.

Definition assign (jobID : string) : Prog Call unit :=
  r ← GetJob jobID;
  match r with
  | Err _ => _ ← Ack jobID; mret tt
  | Ok job =>
      if negb (bool_decide (j_Status job = JobQueued)) then _ ← Ack jobID; mret tt
      else
        r ← IdleRunners heartbeat;
        match r with
        | Err _ => requeue jobID
        | Ok candidates =>
            match Schedule job candidates with
            | Err ErrNoRunner => requeue jobID
            | Ok runner =>
                r ← AssignJob jobID (r_ID runner);
                match r with
                | Err _ => requeue jobID
                | Ok _ =>
                    r ← Dispatch (r_ID runner) jobID;
                    match r with
                    | Err _ => _ ← RequeueJob jobID; requeue jobID
                    | Ok _ => _ ← Ack jobID; mret tt
                    end
                end
            end
        end
  end.

(** One iteration; [true] is [return nil]. *)
Definition serve_body : Prog Call bool :=
  stop ← call CtxErr;
  if stop : bool then mret true
  else
    r ← Dequeue;
    match r with
    | Ok jobID => _ ← assign jobID; mret false
    | Err e => if is_empty e then mret false else call CtxErr
    end.

Fixpoint serve_loop (fuel : nat) : Prog Call unit :=
  match fuel with
  | 0 => mret tt
  | S fuel => stop ← serve_body; if stop : bool then mret tt else serve_loop fuel
  end.

(** [Service.Run] without the reaper, which is a goroutine of its own. *)
Definition serve (fuel : nat) : Prog Call unit := _ ← Recover; serve_loop fuel.

Fixpoint reap_each (orphaned : list (string * string)) : Prog Call unit :=
  match orphaned with
  | [] => mret tt
  | (_, jobID) :: orphaned =>
      if bool_decide (jobID = "") then reap_each orphaned
      else
        r ← RequeueJob jobID;
        match r with
        | Err _ => reap_each orphaned
        | Ok _ => _ ← Enqueue jobID; reap_each orphaned
        end
  end.

Definition reap_body `{RangeOrder} : Prog Call unit :=
  r ← ReapOfflineRunners heartbeat;
  match r with
  | Err _ => mret tt
  | Ok orphaned => reap_each (range_order orphaned)
  end.
End service.

(** ** The scheduler sends admissible statements only *)

Section safety.
Context `{RangeOrder} {R : Type} `{Redis R}.
Context (Q : Queue) (view : World R → qstate) `{!QueueOk Q view}.
Context `{S : Scheduler} (heartbeat : Z).

Lemma safe_requeue id : safe (requeue id).
Proof. unfold requeue. go_calls. Qed.

Lemma safe_assign id : safe (assign heartbeat id).
Proof. unfold assign. go_calls; try done; apply safe_requeue. Qed.

Lemma safe_serve_body : safe (serve_body heartbeat).
Proof. unfold serve_body. go_calls; try done; apply safe_assign. Qed.

Lemma safe_serve_loop n : safe (serve_loop heartbeat n).
Proof.
  induction n as [|n IH]; [done|]. cbn [serve_loop]. go_calls; try done; apply safe_serve_body.
Qed.

Lemma safe_serve n : safe (serve heartbeat n).
Proof. unfold serve. go_calls; try done; apply safe_serve_loop. Qed.

Lemma safe_reap_each l : safe (reap_each l).
Proof.
  induction l as [|[r id] l IH]; [done|]. cbn [reap_each]. go_calls; try done.
Qed.

Lemma safe_reap_body : safe (reap_body heartbeat).
Proof. unfold reap_body. go_calls; try done; apply safe_reap_each. Qed.
End safety.

(** ** Candidates *)

Section candidates.
Context `{RangeOrder} (heartbeat : Z).

(** What [IdleRunners] lists. *)
Definition live_idle (db : DB) : list Runner :=
  merge_sort assigned_nulls_first
    (filter (is_idle_live (db_now db) (whole_seconds heartbeat))
      ((rr_runner ∘ snd) <$> range_order (db_runners db))).

Lemma elem_of_live_idle db r :
  db_wf db → r ∈ live_idle db ↔
  is_idle_live (db_now db) (whole_seconds heartbeat) r ∧
  ∃ row, db_runners db !! r_ID r = Some row ∧ rr_runner row = r.
Proof.
  intros Hwf. unfold live_idle. rewrite merge_sort_Permutation, list_elem_of_filter,
    list_elem_of_fmap. f_equiv. split.
  - intros ([id row] & -> & Hin). apply elem_of_range_order in Hin as Hl. simpl.
    rewrite (wf_runner_id _ Hwf _ _ Hl). by exists row.
  - intros (row & Hl & <-). exists (r_ID (rr_runner row), row). split; [done|].
    by apply elem_of_range_order.
Qed.

Context {R : Type} `{Redis R}.

Lemma implements_IdleRunners :
  implements (R:=R) (IdleRunners heartbeat) (λ db, (Ok (live_idle db), db)).
Proof.
  intros w Hc _. unfold IdleRunners. simpl. rewrite do_sql_calm by done. done.
Qed.
End candidates.

(** ** What [assign] does *)

Section assign.
Context `{RangeOrder} {R : Type} `{Redis R}.
Context (Q : Queue) (view : World R → qstate) `{!QueueOk Q view}.
Context `{S : Scheduler} (heartbeat : Z).

Definition assign_spec (id : string) (db : DB) (q : qstate) : DB * qstate :=
  match db_jobs db !! id with
  | None => (db, Fifo.ack id q)
  | Some row =>
      if decide (job_status row = JobQueued) then
        match Schedule (jr_job row) (live_idle heartbeat db) with
        | Err ErrNoRunner => (db, Fifo.requeue id q)
        | Ok r =>
            match Spec.assign id (r_ID r) db with
            | (Ok _, db') => (db', Fifo.ack id (Fifo.dispatch (r_ID r) id q))
            | (Err _, _) => (db, Fifo.requeue id q)
            end
        end
      else (db, Fifo.ack id q)
  end.

(** [_ = s.queue.Ack(...)], and [requeue]: the result is ignored. *)
Lemma outcome_ack_then w id q :
  calm w → view w ≡ q →
  outcome view (_ ← Ack id; mret tt) w tt (w_db w) (Fifo.ack id q).
Proof.
  intros Hc Hq. eapply outcome_bind; [by eapply outcome_ack|].
  intros w' Hc' <- Hv. by apply outcome_ret.
Qed.

Lemma outcome_requeue_then w id q :
  calm w → view w ≡ q → outcome view (requeue id) w tt (w_db w) (Fifo.requeue id q).
Proof.
  intros Hc Hq. eapply outcome_bind; [by eapply outcome_requeue|].
  intros w' Hc' <- Hv. by apply outcome_ret.
Qed.

Lemma spec_assign_err id r db e db' : Spec.assign id r db = (Err e, db') → db' = db.
Proof. unfold Spec.assign. repeat case_match; congruence. Qed.

Lemma assign_outcome id w q :
  calm w → db_wf (w_db w) → view w ≡ q →
  outcome view (assign heartbeat id) w tt
    (assign_spec id (w_db w) q).1 (assign_spec id (w_db w) q).2.
Proof.
  intros Hc Hwf Hq. unfold assign, assign_spec.
  destruct (db_jobs (w_db w) !! id) as [row|] eqn:Hrow.
  2: { eapply outcome_bind; [eapply (outcome_store _ _ _ (Spec.get id)); try done;
         [apply implements_GetJob|by unfold Spec.get; rewrite Hrow]|].
       intros w1 Hc1 <- Hv1. by apply outcome_ack_then. }
  eapply outcome_bind; [eapply (outcome_store _ _ _ (Spec.get id)); try done;
    [apply implements_GetJob|by unfold Spec.get; rewrite Hrow]|].
  intros w1 Hc1 Hd1 Hv1. simpl. case_bool_decide as Hst; simpl.
  2: { rewrite decide_False, <-Hd1 by done. by apply outcome_ack_then. }
  rewrite decide_True by done. rewrite <-Hd1 in *. clear w Hc Hq Hd1.
  eapply outcome_bind; [eapply (outcome_store _ _ _ (λ db, (Ok (live_idle heartbeat db), db)));
    try done; apply implements_IdleRunners|].
  intros w2 Hc2 Hd2 Hv2. simpl. rewrite <-Hd2 in *. clear w1 Hc1 Hv1 Hd2.
  destruct (Schedule _ _) as [r|[]]; [|by apply outcome_requeue_then].
  destruct (Spec.assign id (r_ID r) (w_db w2)) as [res db'] eqn:Ha.
  eapply outcome_bind; [eapply (outcome_store _ _ _ (Spec.assign id (r_ID r)));
    try done; apply implements_AssignJob|].
  intros w3 Hc3 Hd3 Hv3. destruct res as [[]|e].
  - rewrite <-Hd3. eapply outcome_bind; [by apply outcome_dispatch|].
    intros w4 Hc4 Hd4 Hv4. simpl. rewrite <-Hd4. by apply outcome_ack_then.
  - apply spec_assign_err in Ha as ->. simpl. rewrite <-Hd3. by apply outcome_requeue_then.
Qed.

(** One iteration of the loop: the oldest pending id is taken. *)
Definition serve_spec (db : DB) (q : qstate) : DB * qstate :=
  match Fifo.dequeue q with
  | (None, q') => (db, q')
  | (Some id, q') => assign_spec id db q'
  end.

Lemma serve_body_outcome w q :
  calm w → w_ctx w = [] → db_wf (w_db w) → view w ≡ q →
  outcome view (serve_body heartbeat) w false
    (serve_spec (w_db w) q).1 (serve_spec (w_db w) q).2.
Proof.
  intros Hc Hctx Hwf Hq. unfold serve_body, serve_spec.
  eapply outcome_bind_ctx; [by apply (outcome_quiet Q view CtxErr)|done|].
  intros w1 Hc1 Hctx1 Hd1 Hv1. simpl. rewrite Hctx. simpl. rewrite <-Hd1 in *.
  eapply outcome_bind; [by eapply outcome_dequeue|]. intros w2 Hc2 Hd2 Hv2.
  destruct (Fifo.dequeue q) as [[id|] q']; simpl in *; rewrite <-Hd2 in *.
  - eapply outcome_bind; [by eapply assign_outcome|]. intros w3 Hc3 <- Hv3. by apply outcome_ret.
  - by apply outcome_ret.
Qed.
End assign.

(** ** The scheduling loop places jobs *)

Section placement.
Context `{RangeOrder} {R : Type} `{Redis R}.
Context (Q : Queue) (view : World R → qstate).
Context `{S : Scheduler} (heartbeat : Z).

(** A runner the scheduler may use: IDLE, with a heartbeat recent enough. *)
Definition usable (db : DB) (r : string) (row : RunnerRow) : Prop :=
  db_runners db !! r = Some row ∧
  is_idle_live (db_now db) (whole_seconds heartbeat) (rr_runner row).

(** C8. What one pass over a dequeued job does when nothing fails.  A job that
    is gone or no longer QUEUED is dropped from the in-flight list and nothing
    else changes.  A QUEUED job is either assigned - to a live idle runner that
    carries its labels, which becomes BUSY with it, and whose mailbox then holds
    the id - or put back on the pending list with the tables untouched; the
    latter only if no live idle runner carries the labels (or the attempts
    counter is full). *)
Theorem assign_correct (w : World R) (id : string)
    (HQ : QueueOk Q view) (HS : SchedulerOk S) (Hc : calm w) (Hwf : db_wf (w_db w)) :
  let '(_, w') := exec (assign heartbeat id) w in
  match db_jobs (w_db w) !! id with
  | Some row =>
      if decide (job_status row = JobQueued) then
        (∃ r rrow,
          usable (w_db w) r rrow ∧ can_take (jr_job row) (rr_runner rrow) ∧
          db_jobs (w_db w') = <[id := Spec.assigned r row]> (db_jobs (w_db w)) ∧
          db_runners (w_db w') =
            <[r := Spec.busied (db_now (w_db w)) id rrow]> (db_runners (w_db w)) ∧
          view w' ≡ Fifo.ack id (Fifo.dispatch r id (view w))) ∨
        (w_db w' = w_db w ∧ view w' ≡ Fifo.requeue id (view w) ∧
          (j_Attempts (jr_job row) = int4_max ∨
           ∀ r rrow, usable (w_db w) r rrow → ¬ can_take (jr_job row) (rr_runner rrow)))
      else w_db w' = w_db w ∧ view w' ≡ Fifo.ack id (view w)
  | None => w_db w' = w_db w ∧ view w' ≡ Fifo.ack id (view w)
  end.
Proof.
  destruct (assign_outcome Q view heartbeat id w (view w)) as (w' & -> & _ & Hd & Hv); [done..|].
  unfold assign_spec in *. destruct (db_jobs (w_db w) !! id) as [row|] eqn:Hrow; [|by rewrite Hd, Hv].
  case_decide as Hst; [|by rewrite Hd, Hv].
  destruct (Schedule (jr_job row) (live_idle heartbeat (w_db w))) as [r|[]] eqn:Hs.
  - apply schedule_some in Hs as [Hin Hcan].
    apply (elem_of_live_idle heartbeat _ _ Hwf) in Hin as (Hlive & rrow & Hrr & <-).
    pose proof (wf_job _ Hwf _ _ Hrow) as [Hatt _].
    destruct (decide (j_Attempts (jr_job row) = int4_max)) as [Hmax|Hmax].
    + right. unfold Spec.assign in *. rewrite Hrow, decide_True, Hmax in * by done. simpl in *.
      rewrite Hd, Hv. auto.
    + left. exists (r_ID (rr_runner rrow)), rrow.
      assert (int4_ok (j_Attempts (jr_job row) + 1) = true) as Hint
        by (unfold int4_ok, int4_min, int4_max in *; lia).
      rewrite (spec_assign_ok _ _ _ row rrow) in * by first [done|apply Hlive].
      simpl in *. by rewrite Hd, Hv.
  - right. rewrite Hd, Hv. split_and!; [done..|]. right. intros r rrow [Hrr Hlive].
    apply (schedule_none _ _ Hs). apply (elem_of_live_idle heartbeat _ _ Hwf).
    split; [done|]. exists rrow. by rewrite (wf_runner_id _ Hwf _ _ Hrr).
Qed.

(** An id that occurs once is gone after [Ack]. *)
Lemma ack_removes id q : NoDup (jobs_in q) → id ∈ inflight q → id ∉ jobs_in (Fifo.ack id q).
Proof.
  unfold jobs_in, Fifo.ack. simpl. intros Hnd Hin.
  rewrite (remove_first_perm id (inflight q) Hin) in Hnd.
  rewrite <-Permutation_middle, NoDup_cons in Hnd. by destruct Hnd.
Qed.

(** C36. [assign] takes any failure to load the job for proof that the job does
    not exist: when the SELECT is lost to a connection error, the id of a job
    that is still QUEUED is acknowledged and is on no list afterwards. *)
Theorem lost_read_drops_queued_job (w : World R) (id : string) (row : JobRow)
    (HQ : QueueOk Q view) (Hfault : w_faults w = [FLost])
    (Hrow : db_jobs (w_db w) !! id = Some row) (Hq : job_status row = JobQueued)
    (Hnd : NoDup (jobs_in (view w))) (Hin : id ∈ inflight (view w)) :
  let '(_, w') := exec (assign heartbeat id) w in
  db_jobs (w_db w') !! id = Some row ∧ id ∉ jobs_in (view w').
Proof.
  unfold assign. rewrite run_bind. unfold GetJob. rewrite run_bind, run_call.
  simpl. unfold do_sql, next_fault. rewrite Hfault. simpl.
  set (w1 := set_faults [] w). assert (view w1 ≡ view w) as Hv1 by by apply view_redis.
  destruct (outcome_ack_then Q view w1 id (view w)) as (w' & -> & _ & -> & Hv); [done..|].
  split; [done|]. unfold jobs_in. rewrite Hv. by apply ack_removes.
Qed.
End placement.

(** ** A scheduler that dies between the database and the mailbox *)

Section crash.
Context `{RangeOrder} {R : Type} `{Redis R}.
Context (Q : Queue) (view : World R → qstate).
Context `{S : Scheduler} (heartbeat : Z).

(** The first four calls of [assign] are those up to the commit of the
    assignment: the job, the candidates, the job again, the transaction. *)
Lemma assign_four_steps (w : World R) id row r db' :
  calm w → db_wf (w_db w) →
  db_jobs (w_db w) !! id = Some row → job_status row = JobQueued →
  Schedule (jr_job row) (live_idle heartbeat (w_db w)) = Ok r →
  Spec.assign id (r_ID r) (w_db w) = (Ok tt, db') →
  (prog_steps handle 4 (assign heartbeat id) w).2 = set_db db' w.
Proof.
  intros Hc Hwf Hrow Hq Hs Ha.
  pose proof (implements_AssignJob id (r_ID r) w Hc Hwf) as E. rewrite Ha in E.
  unfold AssignJob in E. rewrite run_try_bind, implements_GetJob in E by done.
  unfold Spec.get in E. rewrite Hrow, set_db_id, Hq in E. simpl in E.
  unfold mbind, prog_mbind in E. simpl in E.
  unfold assign, mbind, prog_mbind. simpl. rewrite do_sql_calm by done. simpl.
  rewrite Hrow, set_db_id. simpl. rewrite bool_decide_true by done. simpl.
  rewrite do_sql_calm by done. simpl. rewrite set_db_id.
  change (merge_sort _ _) with (live_idle heartbeat (w_db w)). rewrite Hs. simpl.
  rewrite do_sql_calm by done. simpl. rewrite Hrow, set_db_id. simpl. rewrite Hq. simpl.
  destruct (do_sql _ w) as [x w']. by injection E.
Qed.

(** A scheduler that starts and makes one iteration. *)
Lemma serve_once_outcome `{!QueueOk Q view} (w : World R) q :
  calm w → w_ctx w = [] → db_wf (w_db w) → view w ≡ q →
  outcome view (serve heartbeat 1) w tt (serve_spec heartbeat (w_db w) (Fifo.recover q)).1
    (serve_spec heartbeat (w_db w) (Fifo.recover q)).2.
Proof.
  intros Hc Hctx Hwf Hq.
  eapply outcome_bind_ctx; [by apply (outcome_recover Q view _ q)|done|].
  intros u Hcu Hctxu Hdu Hvu. rewrite <-Hdu in *.
  eapply outcome_bind; [by apply (serve_body_outcome Q view heartbeat u)|].
  intros u' Hcu' <- Hvu'. by apply outcome_ret.
Qed.

(** The only pending job, and the only runner that may be used: they are brought
    together. *)
Definition brought (now : Z) (id r : string) (row : JobRow) (rrow : RunnerRow) (db : DB) : DB :=
  set_runners (<[r := Spec.busied now id rrow]> (db_runners db)) (Spec.put_job id (Spec.assigned r row) db).

Lemma serve_brings `{!QueueOk Q view, !SchedulerOk S} (w : World R) id r row rrow :
  calm w → w_ctx w = [] → db_wf (w_db w) → pending (view w) = [id] → inflight (view w) = [] →
  db_jobs (w_db w) !! id = Some row → job_status row = JobQueued → (j_Attempts (jr_job row) < int4_max)%Z →
  usable heartbeat (w_db w) r rrow → can_take (jr_job row) (rr_runner rrow) →
  (∀ r' rrow', usable heartbeat (w_db w) r' rrow' → r' = r) →
  let w' := (exec (serve heartbeat 1) w).2 in
  calm w' ∧ w_db w' = brought (db_now (w_db w)) id r row rrow (w_db w) ∧
  mailbox (view w') r = id :: mailbox (view w) r.
Proof.
  intros Hc Hctx Hwf Hpend Hin Hrow Hst Hatt Huse Hcan Honly.
  destruct (serve_once_outcome w (view w) Hc Hctx Hwf) as (w' & E & Hc' & Hd & Hv); [done|].
  pose proof (wf_job _ Hwf _ _ Hrow) as [Hatt0 _]. cbv zeta. rewrite E. cbn [snd].
  assert (Spec.assign id r (w_db w) = (Ok tt, brought (db_now (w_db w)) id r row rrow (w_db w))) as Ha.
  { destruct Huse as [Hrr Hlive]. apply spec_assign_ok; try done; [|apply Hlive].
    unfold int4_ok, int4_min, int4_max in *. lia. }
  assert (Schedule (jr_job row) (live_idle heartbeat (w_db w)) = Ok (rr_runner rrow)) as Hs.
  { destruct (Schedule (jr_job row) (live_idle heartbeat (w_db w))) as [x|[]] eqn:Hs.
    - apply schedule_some in Hs as [Hx _]. apply (elem_of_live_idle heartbeat _ _ Hwf) in Hx as (Hl & rrow' & Hr' & <-).
      pose proof (Honly _ _ (conj Hr' Hl)) as Er. destruct Huse as [Hrr _]. rewrite Er in Hr'. congruence.
    - destruct (schedule_none _ _ Hs (rr_runner rrow)); [|done]. apply (elem_of_live_idle heartbeat _ _ Hwf).
      destruct Huse as [Hrr Hl]. split; [done|]. exists rrow. by rewrite (wf_runner_id _ Hwf _ _ Hrr). }
  unfold serve_spec, Fifo.dequeue, Fifo.recover, assign_spec in *. rewrite Hpend, Hin in *. simpl in *.
  rewrite Hrow, decide_True, Hs in * by done. destruct Huse as [Hrr _]. rewrite (wf_runner_id _ Hwf _ _ Hrr), Ha in *.
  simpl in *. split_and!; [done..|]. rewrite Hv. simpl. unfold upd. by rewrite decide_True.
Qed.

(** C35. A scheduler that dies right after the commit of an assignment leaves a
    job that nothing will ever hand to its runner: the next scheduler recovers
    the id, finds the job no longer QUEUED and acknowledges it.  The job stays
    ASSIGNED, its id is on no list and the runner's mailbox is as it was. *)
Theorem crash_after_assignment_strands_job (w : World R) (id : string) (row : JobRow)
    (rrow : RunnerRow)
    (HQ : QueueOk Q view) (HS : SchedulerOk S) (Hc : calm w) (Hctx : w_ctx w = [])
    (Hwf : db_wf (w_db w))
    (Hrow : db_jobs (w_db w) !! id = Some row) (Hq : job_status row = JobQueued)
    (Hatt : (j_Attempts (jr_job row) < int4_max)%Z)
    (Hrr : usable heartbeat (w_db w) (r_ID (rr_runner rrow)) rrow)
    (Hcan : can_take (jr_job row) (rr_runner rrow))
    (Hpending : pending (view w) = []) (Hinflight : inflight (view w) = [id]) :
  let w1 := (prog_steps handle 4 (assign heartbeat id) w).2 in (* then it dies *)
  let w2 := (exec (serve heartbeat 1) w1).2 in
  (∃ r row', db_jobs (w_db w2) !! id = Some row' ∧ job_status row' = JobAssigned ∧
    j_RunnerID (jr_job row') = Some r ∧ mailbox (view w2) r = mailbox (view w) r) ∧
  jobs_in (view w2) = [].
Proof.
  destruct (Schedule (jr_job row) (live_idle heartbeat (w_db w))) as [r|[]] eqn:Hs.
  2: { destruct (schedule_none _ _ Hs (rr_runner rrow)); [|done].
       apply (elem_of_live_idle heartbeat _ _ Hwf). destruct Hrr. split; [done|]. by exists rrow. }
  apply schedule_some in Hs as Hin. destruct Hin as [Hin _].
  apply (elem_of_live_idle heartbeat _ _ Hwf) in Hin as (Hlive & rrow' & Hrr' & <-).
  pose proof (wf_job _ Hwf _ _ Hrow) as [Hatt0 _].
  set (db' := set_runners (<[r_ID (rr_runner rrow') := Spec.busied (db_now (w_db w)) id rrow']>
    (db_runners (w_db w))) (Spec.put_job id (Spec.assigned (r_ID (rr_runner rrow')) row) (w_db w))).
  assert (Spec.assign id (r_ID (rr_runner rrow')) (w_db w) = (Ok tt, db')) as Ha.
  { apply spec_assign_ok; try done; [|apply Hlive].
    unfold int4_ok, int4_min, int4_max in *. lia. }
  intros w1 w2. assert (w1 = set_db db' w) as E1 by by eapply assign_four_steps.
  assert (db_wf db') as Hwf'.
  { destruct (safe_step (AssignJob id (r_ID (rr_runner rrow'))) w) as [Hw _]; [apply safe_AssignJob|done|].
    rewrite (implements_AssignJob _ _ w Hc Hwf), Ha in Hw. done. }
  destruct (serve_once_outcome w1 (view w)) as (w3 & E3 & _ & Hd3 & Hv3);
    [by rewrite E1..|rewrite E1; by apply view_redis|].
  rewrite E1 in Hd3, Hv3. simpl in Hd3, Hv3.
  unfold serve_spec, Fifo.dequeue, Fifo.recover, assign_spec in *.
  rewrite Hpending, Hinflight in *. simpl in *.
  rewrite lookup_insert_eq in *. simpl in *.
  subst w2. rewrite E3. simpl. split.
  - exists (r_ID (rr_runner rrow')), (Spec.assigned (r_ID (rr_runner rrow')) row).
    rewrite Hd3. simpl. rewrite lookup_insert_eq. split_and!; try done. by rewrite Hv3.
  - unfold jobs_in. rewrite Hv3. simpl. by rewrite decide_True.
Qed.
End crash.

(** ** The reaper rescues the jobs of silent runners *)

Section reaper.
Context `{RangeOrder} {R : Type} `{Redis R}.

(** The rows of the query, put in a map, are the map they came from. *)
Lemma collect_rows {V} (m : gmap string V) :
  foldl (λ m kv, <[kv.1 := kv.2]> m) ∅ (range_order m) = m.
Proof.
  assert (∀ (l : list (string * V)) (m0 : gmap string V),
    NoDup l.*1 → foldl (λ m kv, <[kv.1 := kv.2]> m) m0 l = list_to_map l ∪ m0) as Hl.
  { induction l as [|[k v] l IH]; intros m0 Hnd; simpl; [by rewrite left_id_L by apply _|].
    apply NoDup_cons in Hnd as [Hk Hnd]. rewrite (IH _ Hnd), <-insert_union_r;
      [by rewrite insert_union_l|by apply not_elem_of_list_to_map]. }
  assert (NoDup (range_order m).*1) as Hnd by (rewrite range_order_perm; apply NoDup_fst_map_to_list).
  rewrite (Hl _ _ Hnd), right_id_L by apply _.
  rewrite <-(list_to_map_to_list m) at 2. apply list_to_map_proper; [done|apply range_order_perm].
Qed.

Lemma implements_Reap timeout :
  implements (R:=R) (ReapOfflineRunners timeout)
    (λ db, (Ok (stale_rows (whole_seconds timeout) db),
            (sql_reap_runners (whole_seconds timeout) db).2)).
Proof.
  intros w Hc _. unfold ReapOfflineRunners. simpl. rewrite do_sql_calm by done. simpl.
  by rewrite collect_rows.
Qed.

(** A job whose runner is no longer the one it was given to. *)
Definition orphan (db : DB) (r id : string) : Prop :=
  (∃ row, db_jobs db !! id = Some row ∧ holding (job_status row) = true ∧
          j_RunnerID (jr_job row) = Some r) ∧
  ∃ rrow, db_runners db !! r = Some rrow ∧ r_Status (rr_runner rrow) ≠ RunnerBusy.

Lemma free_not_busy r db rrow :
  db_runners db !! r = Some rrow → r_Status (rr_runner rrow) ≠ RunnerBusy → Spec.free r db = db.
Proof.
  intros Hr Hb. etrans; [|apply set_runners_id]. unfold Spec.free. f_equal.
  apply map_eq. intros r'. rewrite lookup_alter. case_decide as Hd; [|done]. subst r'.
  rewrite Hr. simpl. by rewrite decide_False.
Qed.

Definition requeued (now : Z) (row : JobRow) : JobRow := Spec.moved now JobQueued SetRequeued row.

(** Requeueing an orphan rewrites its row and nothing else. *)
Lemma finish_orphan db r id :
  orphan db r id → ∃ row, db_jobs db !! id = Some row ∧ holding (job_status row) = true ∧
    j_RunnerID (jr_job row) = Some r ∧
    Spec.finish id JobQueued SetRequeued db =
      (Ok tt, Spec.put_job id (requeued (db_now db) row) db).
Proof.
  intros [(row & Hrow & Hh & Hr) (rrow & Hrr & Hb)]. exists row. split_and!; try done.
  unfold Spec.finish, Spec.move. rewrite Hrow.
  assert (CanTransitionTo (job_status row) JobQueued = true) as ->
    by (by destruct (job_status row)).
  simpl. rewrite Hr. simpl. f_equal. by eapply free_not_busy.
Qed.

(** The job ids the loop requeues. *)
Definition orphan_ids (l : list (string * string)) : list string :=
  filter (λ id, id ≠ "") l.*2.

(** What the loop over the orphans does to the tables. *)
Fixpoint rescue (l : list (string * string)) (db : DB) : DB :=
  match l with
  | [] => db
  | (_, id) :: l =>
      if bool_decide (id = "") then rescue l db
      else rescue l (Spec.finish id JobQueued SetRequeued db).2
  end.

Definition enqueue_all (ids : list string) (q : qstate) : qstate :=
  foldl (λ q id, Fifo.enqueue id q) q ids.

Lemma enqueue_all_fields ids q :
  pending (enqueue_all ids q) = reverse ids ++ pending q ∧
  inflight (enqueue_all ids q) = inflight q ∧ mailbox (enqueue_all ids q) = mailbox q.
Proof.
  unfold enqueue_all. revert q. induction ids as [|id ids IH]; intros q; [done|]. simpl.
  destruct (IH (Fifo.enqueue id q)) as (-> & -> & ->). simpl.
  by rewrite reverse_cons, <-app_assoc.
Qed.

Definition orphans (db : DB) (l : list (string * string)) : Prop :=
  NoDup l.*1 ∧ ∀ r id, (r, id) ∈ l → id ≠ "" → orphan db r id.

(** Rescuing one orphan leaves the others orphans. *)
Lemma orphans_step db r id l row :
  orphans db ((r, id) :: l) → db_jobs db !! id = Some row → j_RunnerID (jr_job row) = Some r →
  orphans (Spec.put_job id (requeued (db_now db) row) db) l.
Proof.
  intros [[Hr Hnd]%NoDup_cons Ho] Hrow Hid. split; [done|]. intros r1 id1 Hin Hne.
  destruct (Ho r1 id1) as [(row1 & Hrow1 & Hh1 & Hid1) Hrr1]; [by right|done|].
  split; [|done]. exists row1. split; [|done]. simpl. rewrite lookup_insert_ne; [done|].
  intros ->. simplify_eq. apply Hr. apply list_elem_of_fmap. by eexists (_, _).
Qed.

Lemma orphans_tail db x l : orphans db (x :: l) → orphans db l.
Proof. intros [[_ Hnd]%NoDup_cons Ho]. split; [done|]. intros r id Hin. apply Ho. by right. Qed.

Lemma rescue_spec l db :
  orphans db l →
  db_runners (rescue l db) = db_runners db ∧ db_now (rescue l db) = db_now db ∧
  ∀ id, db_jobs (rescue l db) !! id =
    (λ row, if decide (id ∈ orphan_ids l) then requeued (db_now db) row else row)
      <$> db_jobs db !! id.
Proof.
  revert db. induction l as [|[r id] l IH]; intros db Ho; simpl.
  { split_and!; [done..|]. intros id. by destruct (db_jobs db !! id). }
  unfold orphan_ids. simpl. rewrite filter_cons. case_bool_decide as He.
  { rewrite decide_False by naive_solver. apply IH. by eapply orphans_tail. }
  rewrite decide_True by done.
  destruct (finish_orphan db r id) as (row & Hrow & Hh & Hid & ->);
    [apply Ho; [by left|done]|]. simpl.
  pose proof (orphans_step _ _ _ _ _ Ho Hrow Hid) as Ho'.
  destruct (IH _ Ho') as (Hr & Hn & Hj). rewrite Hr, Hn. split_and!; [done..|].
  intros id1. rewrite Hj. simpl. destruct (decide (id = id1)) as [<-|Hne].
  - rewrite lookup_insert_eq, Hrow. simpl.
    destruct (decide (id ∈ orphan_ids l)) as [[_ Hin]%list_elem_of_filter|_];
      [exfalso|rewrite decide_True; [done|by left]].
    apply list_elem_of_fmap in Hin as ([r1 id1] & -> & Hin). simpl in *.
    destruct Ho' as [_ Ho']. destruct (Ho' _ _ Hin He) as [(row1 & Hrow1 & Hh1 & _) _].
    simpl in Hrow1. rewrite lookup_insert_eq in Hrow1. by simplify_eq.
  - rewrite lookup_insert_ne by done. destruct (db_jobs db !! id1); [|done]. simpl. f_equal.
    apply decide_ext. fold (orphan_ids l). set_solver.
Qed.

Context (Q : Queue) (view : World R → qstate).

Lemma reap_each_outcome `{!QueueOk Q view} l (w : World R) q :
  calm w → db_wf (w_db w) → orphans (w_db w) l → view w ≡ q →
  outcome view (reap_each l) w tt (rescue l (w_db w)) (enqueue_all (orphan_ids l) q).
Proof.
  revert w q. induction l as [|[r id] l IH]; intros w q Hc Hwf Ho Hq.
  { by apply outcome_ret. }
  cbn [reap_each rescue]. unfold orphan_ids. simpl. rewrite filter_cons. case_bool_decide as He.
  { rewrite decide_False by naive_solver. apply IH; try done. by eapply orphans_tail. }
  rewrite decide_True by done.
  destruct (finish_orphan (w_db w) r id) as (row & Hrow & Hh & Hid & E);
    [apply Ho; [by left|done]|].
  assert (implements (R:=R) (RequeueJob id) (Spec.finish id JobQueued SetRequeued)) as Hi
    by by apply implements_finish.
  assert (db_wf (Spec.finish id JobQueued SetRequeued (w_db w)).2) as Hwf'.
  { destruct (safe_step (RequeueJob id) w) as [Hw _]; [apply safe_RequeueJob|done|].
    rewrite (Hi w Hc Hwf), E in Hw. by rewrite E. }
  eapply outcome_bind; [by eapply (outcome_store Q view _ _ _ _ _ _ Hi)|].
  rewrite E in *. intros w1 Hc1 Hd1 Hv1.
  eapply outcome_bind; [by eapply outcome_enqueue|]. intros w2 Hc2 Hd2 Hv2. simpl.
  rewrite <-Hd1, <-Hd2 in *. apply IH; try done. rewrite Hd2, Hd1 in *.
  by eapply orphans_step.
Qed.

Context (heartbeat : Z).
Abbreviation secs := (whole_seconds heartbeat).

(** A job in the hands of a runner that stopped sending heartbeats. *)
Definition abandoned (db : DB) (id : string) : Prop :=
  ∃ r rrow, db_runners db !! r = Some rrow ∧ is_stale (db_now db) secs rrow ∧
            r_CurrentJobID (rr_runner rrow) = Some id.

Lemma elem_of_stale_rows db r id :
  (r, id) ∈ range_order (stale_rows secs db) ↔
  ∃ rrow, db_runners db !! r = Some rrow ∧ is_stale (db_now db) secs rrow ∧
          id = default "" (r_CurrentJobID (rr_runner rrow)).
Proof.
  rewrite elem_of_range_order. unfold stale_rows. rewrite lookup_fmap_Some. split.
  - intros (rrow & <- & [??]%map_lookup_filter_Some). eauto.
  - intros (rrow & ? & ? & ->). exists rrow. by rewrite map_lookup_filter_Some.
Qed.

Lemma elem_of_orphan_ids db id :
  good db → db_jobs db !! "" = None →
  id ∈ orphan_ids (range_order (stale_rows secs db)) ↔ abandoned db id.
Proof.
  intros [_ Ha] Hnone. unfold orphan_ids. rewrite list_elem_of_filter, list_elem_of_fmap. split.
  - intros (Hne & [r id'] & -> & (rrow & Hr & Hs & ->)%elem_of_stale_rows). simpl in *.
    exists r, rrow. by destruct (r_CurrentJobID _).
  - intros (r & rrow & Hr & Hs & Hcur). split.
    + intros ->. destruct (agree_runner _ Ha _ _ _ Hr Hcur) as (row & Hrow & _). congruence.
    + exists (r, id). split; [done|]. apply elem_of_stale_rows. exists rrow. by rewrite Hcur.
Qed.

Abbreviation reaped db := (sql_reap_runners secs db).2.

Lemma lookup_reaped db r :
  db_runners (reaped db) !! r =
  (λ row, if decide (is_stale (db_now db) secs row) then knock_out row else row)
    <$> db_runners db !! r.
Proof. simpl. by rewrite lookup_fmap. Qed.

Lemma reaped_orphans db : good db → orphans (reaped db) (range_order (stale_rows secs db)).
Proof.
  intros [Hwf Ha]. split; [rewrite range_order_perm; apply NoDup_fst_map_to_list|].
  intros r id (rrow & Hr & Hs & ->)%elem_of_stale_rows Hne.
  destruct (r_CurrentJobID (rr_runner rrow)) as [id|] eqn:Hcur; [|done]. split.
  - by apply (agree_runner _ Ha _ rrow).
  - exists (knock_out rrow). rewrite lookup_reaped, Hr. simpl. by rewrite decide_True.
Qed.

(** After the rescue the tables agree again. *)
Lemma rescue_agree db :
  good db → db_jobs db !! "" = None →
  agree (rescue (range_order (stale_rows secs db)) (reaped db)).
Proof.
  intros Hg Hnone. destruct (rescue_spec _ _ (reaped_orphans db Hg)) as (Hr & _ & Hj).
  pose proof Hg as [Hwf [Haj Har]]. split.
  - intros id row' r. rewrite Hj, Hr, lookup_reaped. intros (row & Hrow & ->)%fmap_Some.
    case_decide as Hin; [by simpl|]. intros Hh Hid.
    destruct (Haj _ _ _ Hrow Hh Hid) as (rrow & Hrr & Hb & Hcur). exists rrow.
    rewrite Hrr. simpl. rewrite decide_False; [done|]. intros Hs. apply Hin.
    apply elem_of_orphan_ids; [done..|]. by exists r, rrow.
  - intros r rrow' id. rewrite Hj, Hr, lookup_reaped. intros (rrow & Hrr & ->)%fmap_Some.
    case_decide as Hs; [by simpl|]. intros Hcur.
    destruct (Har _ _ _ Hrr Hcur) as (row & Hrow & Hh & Hid). exists row. simpl. rewrite Hrow.
    simpl. rewrite decide_False; [done|].
    intros (r1 & rrow1 & Hr1 & Hs1 & Hcur1)%elem_of_orphan_ids; [|done..].
    destruct (Har _ _ _ Hr1 Hcur1) as (row1 & ? & _ & ?). by simplify_eq.
Qed.

(** The tick, against the functions that describe it. *)
Lemma reap_outcome (w : World R) :
  QueueOk Q view → calm w → good (w_db w) →
  outcome view (reap_body heartbeat) w tt
    (rescue (range_order (stale_rows secs (w_db w))) (reaped (w_db w)))
    (enqueue_all (orphan_ids (range_order (stale_rows secs (w_db w)))) (view w)).
Proof.
  intros HQ Hc Hg. pose proof (reaped_orphans _ Hg) as Ho. pose proof Hg as [Hwf Ha].
  assert (db_wf (reaped (w_db w))) as Hwf1 by by apply sql_reap_runners_ok.
  eapply outcome_bind; [by apply (outcome_store Q view _ _ _ _ _ _ (implements_Reap heartbeat))|].
  intros w1 Hc1 Hd1 Hv1. rewrite <-Hd1 in *. by apply reap_each_outcome.
Qed.

Lemma reap_good (w : World R) :
  QueueOk Q view → calm w → good (w_db w) → db_jobs (w_db w) !! "" = None →
  good (w_db (exec (reap_body heartbeat) w).2).
Proof.
  intros HQ Hc Hg Hnone. split.
  - destruct (safe_step (reap_body heartbeat) w) as [Hw _]; [by eapply safe_reap_body|apply Hg|done].
  - destruct (reap_outcome w HQ Hc Hg) as (w' & E & _ & Hd & _). rewrite E. simpl. rewrite Hd. by apply rescue_agree.
Qed.

(** C9. No job is stalled for ever by a runner that went silent.  When nothing
    fails, one tick of the reaper marks every runner without a recent heartbeat
    OFFLINE, leaves the other runners alone, returns exactly the jobs those
    runners held to QUEUED and to the pending list, without losing anything
    that was queued, and the job and runner tables agree again. *)
Theorem reap_rescues (w : World R)
    (HQ : QueueOk Q view) (Hc : calm w) (Hg : good (w_db w))
    (Hnone : db_jobs (w_db w) !! "" = None) :
  let '(_, w') := exec (reap_body heartbeat) w in
  good (w_db w') ∧
  (∀ r, db_runners (w_db w') !! r =
    (λ rrow, if decide (is_stale (db_now (w_db w)) secs rrow) then knock_out rrow else rrow)
      <$> db_runners (w_db w) !! r) ∧
  (∀ id row, db_jobs (w_db w) !! id = Some row → abandoned (w_db w) id →
    db_jobs (w_db w') !! id = Some (requeued (db_now (w_db w)) row)) ∧
  (∀ id, ¬ abandoned (w_db w) id → db_jobs (w_db w') !! id = db_jobs (w_db w) !! id) ∧
  inflight (view w') = inflight (view w) ∧
  ∃ ids, pending (view w') = ids ++ pending (view w) ∧ ∀ id, id ∈ ids ↔ abandoned (w_db w) id.
Proof.
  pose proof (reaped_orphans _ Hg) as Ho. pose proof (reap_good w HQ Hc Hg Hnone) as Hg'.
  destruct (reap_outcome w HQ Hc Hg) as (w' & E & _ & Hd & Hp & Hi & _). pose proof Hg as [Hwf Ha].
  rewrite E in Hg'.
  rewrite E. destruct (rescue_spec _ _ Ho) as (Hr & _ & Hj). rewrite <-Hd in Hr, Hj.
  destruct (enqueue_all_fields (orphan_ids (range_order (stale_rows secs (w_db w)))) (view w))
    as (Ep & Ei & _). split_and!.
  - done.
  - intros r. by rewrite Hr, lookup_reaped.
  - intros id row Hrow Hab. rewrite Hj. simpl. rewrite Hrow. simpl. rewrite decide_True; [done|].
    by apply elem_of_orphan_ids.
  - intros id Hab. rewrite Hj. simpl. destruct (db_jobs (w_db w) !! id); [|done]. simpl.
    rewrite decide_False; [done|]. by rewrite elem_of_orphan_ids.
  - by rewrite Hi, Ei.
  - eexists. rewrite Hp, Ep. split; [done|]. intros id. rewrite elem_of_reverse.
    by apply elem_of_orphan_ids.
Qed.
End reaper.

(** ** The loop makes progress *)

Section progress.
Context `{RangeOrder} {R : Type} `{Redis R}.
Context (Q : Queue) (view : World R → qstate).
Context `{S : Scheduler} (heartbeat : Z).

(** The job is ASSIGNED to a runner that is BUSY with it and has its id in
    the mailbox. *)
Definition placed (db : DB) (q : qstate) (id : string) : Prop :=
  ∃ r row rrow,
    db_jobs db !! id = Some row ∧ job_status row = JobAssigned ∧
    j_RunnerID (jr_job row) = Some r ∧
    db_runners db !! r = Some rrow ∧ r_Status (rr_runner rrow) = RunnerBusy ∧
    r_CurrentJobID (rr_runner rrow) = Some id ∧ id ∈ mailbox q r.

(** The jobs [ids] wait for a runner, and any of the runners [rs], at least as
    many, will do for any of them. *)
Record ready (db : DB) (ids rs : list string) : Prop := {
  ready_ids : NoDup ids;
  ready_rs : NoDup rs;
  ready_enough : length ids ≤ length rs;
  ready_job id : id ∈ ids → ∃ row, db_jobs db !! id = Some row ∧ job_status row = JobQueued ∧
    (j_Attempts (jr_job row) < int4_max)%Z;
  ready_runner r : r ∈ rs → ∃ rrow, usable heartbeat db r rrow ∧
    ∀ id row, id ∈ ids → db_jobs db !! id = Some row → can_take (jr_job row) (rr_runner rrow)
}.

Lemma length_without (r : string) rs :
  NoDup rs → length rs ≤ Datatypes.S (length (filter (λ x, x ≠ r) rs)).
Proof.
  induction 1 as [|x rs Hx Hnd IH]; [simpl; lia|]. rewrite filter_cons.
  case_decide as Hd; simpl; [lia|]. subst x.
  assert (filter (λ x, x ≠ r) rs = rs) as ->; [|lia].
  clear IH Hnd. induction rs as [|y rs IH]; [done|]. apply not_elem_of_cons in Hx as [??].
  rewrite filter_cons, decide_True by done. f_equal. by apply IH.
Qed.

(** What assigning a job to a usable runner gives. *)
Lemma ready_step db db' ids rs id row r rrow :
  ready db (ids ++ [id]) rs →
  db_jobs db !! id = Some row → usable heartbeat db r rrow →
  db' = set_runners (<[r := Spec.busied (db_now db) id rrow]> (db_runners db))
          (Spec.put_job id (Spec.assigned r row) db) →
  ready db' ids (filter (λ x, x ≠ r) rs).
Proof.
  intros [Hids Hrs Hlen Hj Hr] Hrow Hu ->.
  apply NoDup_app in Hids as (Hnd & Hni & _). pose proof (length_without r rs Hrs) as Hlw.
  rewrite length_app in Hlen. simpl in Hlen.
  assert (∀ id', id' ∈ ids → id' ≠ id) as Hne by (intros id' ? ->; by apply (Hni id), list_elem_of_singleton).
  split; [done|by apply NoDup_filter|lia| |].
  - intros id' Hin. simpl. rewrite lookup_insert_ne by by apply not_eq_sym, Hne. apply Hj. set_solver.
  - intros r' (Hr' & Hin)%list_elem_of_filter. destruct (Hr _ Hin) as (rrow' & [Hl Hi] & Hcan).
    exists rrow'. split; [split; [simpl; by rewrite lookup_insert_ne|done]|].
    intros id' row' Hin'. simpl. rewrite lookup_insert_ne by by apply not_eq_sym, Hne.
    apply Hcan. set_solver.
Qed.

Lemma placed_step db q db' q' id id' row r rrow :
  usable heartbeat db r rrow → id ≠ id' →
  db' = set_runners (<[r := Spec.busied (db_now db) id rrow]> (db_runners db))
          (Spec.put_job id (Spec.assigned r row) db) →
  (∀ r', mailbox q r' ⊆ mailbox q' r') → placed db q id' → placed db' q' id'.
Proof.
  intros [Hr [Hidle _]] Hne -> Hm (r1 & row1 & rrow1 & Hrow1 & Hst & Hid & Hr1 & Hb & Hcur & Hin).
  exists r1, row1, rrow1. simpl. rewrite lookup_insert_ne by done. split_and!; try done.
  - rewrite lookup_insert_ne; [done|]. intros ->. rewrite Hr in Hr1. simplify_eq. by rewrite Hidle in Hb.
  - by apply Hm.
Qed.

(** One iteration places the oldest job and leaves the rest ready. *)
Lemma serve_spec_step `{!SchedulerOk S} db q ids id rs :
  db_wf db → ready db (ids ++ [id]) rs → pending q = ids ++ [id] →
  let '(db', q') := serve_spec heartbeat db q in
  pending q' = ids ∧ placed db' q' id ∧
  (∀ id', id ≠ id' → placed db q id' → placed db' q' id') ∧
  ∃ rs', ready db' ids rs'.
Proof.
  intros Hwf Hready Hp. pose proof Hready as [_ _ Hlen Hj Hr].
  destruct (Hj id) as (row & Hrow & Hq & Hatt); [set_solver|].
  pose proof (wf_job _ Hwf _ _ Hrow) as [Hatt0 _].
  unfold serve_spec, Fifo.dequeue. rewrite Hp, unsnoc_app. unfold assign_spec.
  rewrite Hrow, decide_True by done.
  destruct (Schedule (jr_job row) (live_idle heartbeat db)) as [r|[]] eqn:Hs.
  2: { destruct rs as [|r0 rs]; [rewrite length_app in Hlen; simpl in Hlen; lia|].
       destruct (Hr r0) as (rrow & [Hl Hi] & Hcan); [by left|].
       destruct (schedule_none _ _ Hs (rr_runner rrow)); [|by apply (Hcan id); [set_solver|]].
       apply (elem_of_live_idle heartbeat _ _ Hwf). split; [done|]. exists rrow.
       by rewrite (wf_runner_id _ Hwf _ _ Hl). }
  apply schedule_some in Hs as [Hin _].
  apply (elem_of_live_idle heartbeat _ _ Hwf) in Hin as (Hlive & rrow & Hl & <-).
  assert (int4_ok (j_Attempts (jr_job row) + 1) = true) as Hint
    by (unfold int4_ok, int4_min, int4_max in *; lia).
  rewrite (spec_assign_ok _ _ _ row rrow) by first [done|apply Hlive].
  split_and!.
  - done.
  - exists (r_ID (rr_runner rrow)), (Spec.assigned (r_ID (rr_runner rrow)) row),
      (Spec.busied (db_now db) id rrow). simpl. rewrite !lookup_insert_eq.
    split_and!; try done. unfold upd. rewrite decide_True by done. by left.
  - intros id' Hne. apply (placed_step _ _ _ _ id id' row _ rrow (conj Hl Hlive) Hne); [done|].
    intros r'. simpl. unfold upd. case_decide; [subst; set_solver|done].
  - eexists. by eapply (ready_step _ _ _ _ id row _ rrow).
Qed.

Lemma serve_loop_drains `{!QueueOk Q view, !SchedulerOk S} (w : World R) ids rs :
  calm w → w_ctx w = [] → db_wf (w_db w) →
  pending (view w) = ids → ready (w_db w) ids rs →
  let '(_, w') := exec (serve_loop heartbeat (length ids)) w in
  pending (view w') = [] ∧ (∀ id, id ∈ ids → placed (w_db w') (view w') id) ∧
  (∀ id, id ∉ ids → placed (w_db w) (view w) id → placed (w_db w') (view w') id).
Proof.
  revert w rs. induction ids as [|id ids IH] using rev_ind; intros w rs Hc Hctx Hwf Hp Hready.
  { simpl. split_and!; [done|by intros id ?%not_elem_of_nil|done]. }
  rewrite length_app, Nat.add_comm. cbn [length Nat.add serve_loop]. rewrite run_bind.
  pose proof (serve_body_outcome Q view heartbeat w (view w) Hc Hctx Hwf (reflexivity _))
    as (w1 & E1 & Hc1 & Hd1 & Hv1).
  pose proof (exec_ctx (serve_body heartbeat) w Hctx) as Hctx1.
  destruct (safe_step (serve_body heartbeat) w) as [Hwf1 _];
    [by apply (safe_serve_body Q view)|done|].
  rewrite E1 in *. simpl in Hctx1, Hwf1.
  pose proof (serve_spec_step (w_db w) (view w) ids id rs Hwf Hready Hp) as Hstep.
  destruct (serve_spec heartbeat (w_db w) (view w)) as [db' q']; simpl in Hd1, Hv1.
  destruct Hstep as (Hp' & Hpl & Hkeep & rs' & Hready'). rewrite <-Hd1 in *.
  assert (∀ id, placed (w_db w1) q' id ↔ placed (w_db w1) (view w1) id) as Heq.
  { intros id'. unfold placed. by setoid_rewrite Hv1. }
  specialize (IH w1 rs' Hc1 Hctx1 Hwf1). rewrite Hv1 in IH. specialize (IH Hp' Hready').
  destruct (exec (serve_loop heartbeat (length ids)) w1) as [u w2].
  destruct IH as (Hp2 & Hin2 & Hout2).
  pose proof (ready_ids _ _ _ Hready) as (_ & Hni & _)%NoDup_app.
  split_and!; [done| |].
  - intros id' [Hin| ->%list_elem_of_singleton]%elem_of_app; [by apply Hin2|].
    apply Hout2; [|by apply Heq]. intros Hin. by apply (Hni _ Hin), list_elem_of_singleton.
  - intros id' Hnin Hpl'. apply Hout2; [set_solver|]. apply Heq, Hkeep; [set_solver|done].
Qed.

(** C11. The scheduler makes progress.  When nothing fails and there are at
    least as many live idle runners that suit all the waiting jobs as there are
    jobs waiting, as many iterations of the loop as there are jobs empty the
    pending list and place every job: ASSIGNED to a runner that is BUSY with it
    and finds its id in the mailbox. *)
Theorem serve_drains (w : World R) (ids rs : list string)
    (HQ : QueueOk Q view) (HS : SchedulerOk S)
    (Hc : calm w) (Hctx : w_ctx w = []) (Hwf : db_wf (w_db w))
    (Hp : pending (view w) = ids) (Hready : ready (w_db w) ids rs) :
  let '(_, w') := exec (serve_loop heartbeat (length ids)) w in
  pending (view w') = [] ∧ ∀ id, id ∈ ids → placed (w_db w') (view w') id.
Proof.
  pose proof (serve_loop_drains w ids rs Hc Hctx Hwf Hp Hready) as Hd.
  destruct (exec _ w) as [u w']. by destruct Hd as (? & ? & _).
Qed.
End progress.
