(* ===== verification/Webhook.v ===== *)
(** * internal/github/webhook.go

    Signature verification and parsing of webhook deliveries.  Error values
    keep what their messages quote. *)
From S2P Require Import Prelude GoLib Sha256 Json.

(** ** Signatures *)

Inductive signature_error : Type :=
| ErrSecretNotConfigured
| ErrSignatureHeader
| ErrSignatureHex
| ErrSignatureMismatch.

(** [hmac.Equal] *)
Definition hmac_Equal (mac1 mac2 : list Z) : bool := (ConstantTimeCompare mac1 mac2 =? 1)%Z.

Definition VerifySignature (secret body header : string) : result signature_error unit :=
  if bool_decide (secret = "") then Err ErrSecretNotConfigured
  else if negb (HasPrefix header "sha256=") then Err ErrSignatureHeader
  else
    let want := hmac_sha256 (octets secret) (octets body) in
    match hex_decode (TrimPrefix header "sha256=") with
    | None => Err ErrSignatureHex
    | Some got => if negb (hmac_Equal want got) then Err ErrSignatureMismatch else Ok tt
    end.

(** ** Events *)

Record Event : Type := mkEvent {
  e_Repository : string;
  e_CloneURL : string;
  e_CommitSHA : string;
  e_Branch : string;
  e_EventType : string;
  e_PRNumber : Z
}.

(** [struct { FullName; CloneURL }], in both payloads *)
Record repoPayload : Type := mkRepo { FullName : string; CloneURL : string }.

Definition repo_fields : fields repoPayload :=
  [("full_name", field FullName (λ x r, mkRepo x (CloneURL r)) dec_string);
   ("clone_url", field CloneURL (λ x r, mkRepo (FullName r) x) dec_string)].

Definition zero_repo : repoPayload := mkRepo "" "".

Record pushPayload : Type := mkPush {
  p_Ref : string;
  p_After : string;
  p_Deleted : bool;
  p_Repository : repoPayload
}.

Definition push_fields : fields pushPayload :=
  [("ref", field p_Ref (λ x p, mkPush x (p_After p) (p_Deleted p) (p_Repository p)) dec_string);
   ("after", field p_After (λ x p, mkPush (p_Ref p) x (p_Deleted p) (p_Repository p)) dec_string);
   ("deleted", field p_Deleted (λ x p, mkPush (p_Ref p) (p_After p) x (p_Repository p)) dec_bool);
   ("repository", field p_Repository (λ x p, mkPush (p_Ref p) (p_After p) (p_Deleted p) x)
                    (dec_struct repo_fields))].

Definition zero_push : pushPayload := mkPush "" "" false zero_repo.

Record headPayload : Type := mkHead {
  h_SHA : string;
  h_Ref : string;
  h_Repo : repoPayload
}.

Definition head_fields : fields headPayload :=
  [("sha", field h_SHA (λ x h, mkHead x (h_Ref h) (h_Repo h)) dec_string);
   ("ref", field h_Ref (λ x h, mkHead (h_SHA h) x (h_Repo h)) dec_string);
   ("repo", field h_Repo (λ x h, mkHead (h_SHA h) (h_Ref h) x) (dec_struct repo_fields))].

Record pullRequestPayload : Type := mkPull {
  pr_Action : string;
  pr_Number : Z;
  pr_Head : headPayload (* PullRequest.Head: PullRequest has no other field *)
}.

Definition pull_fields : fields pullRequestPayload :=
  [("action", field pr_Action (λ x p, mkPull x (pr_Number p) (pr_Head p)) dec_string);
   ("number", field pr_Number (λ x p, mkPull (pr_Action p) x (pr_Head p)) dec_int);
   ("pull_request", dec_struct
      [("head", field pr_Head (λ x p, mkPull (pr_Action p) (pr_Number p) x)
                  (dec_struct head_fields))])].

Definition zero_pull : pullRequestPayload := mkPull "" 0 (mkHead "" "" zero_repo).

Inductive event_error : Type :=
| ErrIgnored
| ErrDecodePush
| ErrDecodePullRequest
| ErrInvalidRepository (repository : string)
| ErrInvalidCommit (sha : string)
| ErrCloneURL (url : string)
| ErrEmptyBranch.

(** [errors.Is(err, ErrIgnored)] *)
Definition is_ignored (e : event_error) : bool :=
  match e with ErrIgnored => true | _ => false end.

Definition validate (e : Event) : result event_error unit :=
  if negb (Contains (e_Repository e) "/") then Err (ErrInvalidRepository (e_Repository e))
  else if negb (Nat.eqb (String.length (e_CommitSHA e)) 40)
       || negb (bool_decide (Trim (e_CommitSHA e) "0123456789abcdef" = ""))
  then Err (ErrInvalidCommit (e_CommitSHA e))
  else if negb (HasPrefix (e_CloneURL e) "https://") then Err (ErrCloneURL (e_CloneURL e))
  else if bool_decide (e_Branch e = "") then Err ErrEmptyBranch
  else Ok tt.

(** [return e, validate(e)] *)
Definition validated (e : Event) : result event_error Event :=
  match validate e with Ok _ => Ok e | Err err => Err err end.

Definition push_event (p : pushPayload) : Event :=
  mkEvent (FullName (p_Repository p)) (CloneURL (p_Repository p)) (p_After p)
    (TrimPrefix (p_Ref p) "refs/heads/") "push" 0.

Definition pull_event (p : pullRequestPayload) : Event :=
  mkEvent (FullName (h_Repo (pr_Head p))) (CloneURL (h_Repo (pr_Head p))) (h_SHA (pr_Head p))
    (h_Ref (pr_Head p)) "pull_request" (pr_Number p).

(** [case "opened", "synchronize", "reopened"] *)
Definition built_action (action : string) : bool :=
  bool_decide (action ∈ ["opened"; "synchronize"; "reopened"]).

Definition ParseEvent (eventType body : string) : result event_error Event :=
  if decide (eventType = "push") then
    match Unmarshal (dec_struct push_fields) zero_push body with
    | None => Err ErrDecodePush
    | Some p =>
        if p_Deleted p || negb (HasPrefix (p_Ref p) "refs/heads/") then Err ErrIgnored
        else validated (push_event p)
    end
  else if decide (eventType = "pull_request") then
    match Unmarshal (dec_struct pull_fields) zero_pull body with
    | None => Err ErrDecodePullRequest
    | Some p => if built_action (pr_Action p) then validated (pull_event p) else Err ErrIgnored
    end
  else Err ErrIgnored. (* "ping" and every other type *)

(** ** Facts *)

Definition lower_hex (c : Ascii.ascii) : Prop := c ∈ bytes_of "0123456789abcdef".

(** What [validate] promises to the git and Docker command lines. *)
Record event_ok (e : Event) : Prop := {
  ok_repository : ∃ owner name, e_Repository e = owner +:+ "/" +:+ name;
  ok_commit : String.length (e_CommitSHA e) = 40 ∧ Forall lower_hex (bytes_of (e_CommitSHA e));
  ok_clone_url : ∃ rest, e_CloneURL e = "https://" +:+ rest;
  ok_branch : e_Branch e ≠ ""
}.

Lemma validate_ok e : validate e = Ok tt ↔ event_ok e.
Proof.
  unfold validate. destruct (Contains (e_Repository e) "/") eqn:Hr; simpl.
  2: { split; [done|]. intros [Hc _ _ _]. apply Contains_spec in Hc. congruence. }
  apply Contains_spec in Hr.
  destruct (Nat.eqb_spec (String.length (e_CommitSHA e)) 40) as [Hl|Hl]; simpl;
    [|split; [done|by intros [_ [? _] _ _]]].
  case_bool_decide as Ht; simpl; rewrite Trim_empty in Ht; [|split; [done|by intros [_ [_ ?] _ _]]].
  destruct (HasPrefix (e_CloneURL e) "https://") eqn:Hp; simpl.
  2: { split; [done|]. intros [_ _ Hc _]. apply HasPrefix_spec in Hc. congruence. }
  apply HasPrefix_spec in Hp. case_bool_decide as Hb; [split; [done|by intros []]|].
  split; [done|]. done.
Qed.

Lemma validated_ok e e' : validated e = Ok e' ↔ e' = e ∧ event_ok e.
Proof.
  unfold validated. rewrite <-validate_ok. destruct (validate e) as [[]|]; naive_solver.
Qed.

(** What [VerifySignature] decides. *)
Definition authentic (secret body header : string) : Prop :=
  secret ≠ "" ∧ ∃ hex, header = "sha256=" +:+ hex ∧
    lower hex = hex_encode (hmac_sha256 (octets secret) (octets body)).

Lemma VerifySignature_authentic secret body header :
  VerifySignature secret body header = Ok tt ↔ authentic secret body header.
Proof.
  unfold VerifySignature, authentic. case_bool_decide as Hs; [split; [done|by intros []]|].
  destruct (HasPrefix header "sha256=") eqn:Hp; simpl.
  2: { split; [done|]. intros (_ & hex & Hh & _).
       assert (HasPrefix header "sha256=" = true) by (apply HasPrefix_spec; by exists hex). congruence. }
  apply HasPrefix_spec in Hp as [hex ->]. rewrite TrimPrefix_app.
  set (mac := hmac_sha256 (octets secret) (octets body)).
  assert ((secret ≠ "" ∧ ∃ hex0, "sha256=" +:+ hex = "sha256=" +:+ hex0 ∧ lower hex0 = hex_encode mac) ↔
    lower hex = hex_encode mac) as ->.
  { split; [|by eauto]. by intros (_ & hex0 & ->%string_app_inj_l & Hl). }
  rewrite <-(hex_decode_iff hex mac) by apply hmac_sha256_range. unfold hmac_Equal.
  destruct (hex_decode hex) as [got|]; [|done].
  destruct (Z.eqb_spec (ConstantTimeCompare mac got) 1) as [E|E]; simpl;
    rewrite ConstantTimeCompare_spec in E; split; congruence.
Qed.

(** C15. Webhook authentication: a delivery passes exactly when a secret is
    configured and the header is [sha256=] followed by the hexadecimal text of
    HMAC-SHA-256 of the very bytes of the body under that secret; anything else
    is refused with one of the four errors. *)
Theorem VerifySignature_correct (secret body header : string) :
  (VerifySignature secret body header = Ok tt ↔
   secret ≠ "" ∧ ∃ hex, header = "sha256=" +:+ hex ∧
     lower hex = hex_encode (hmac_sha256 (octets secret) (octets body))) ∧
  (secret = "" ↔ VerifySignature secret body header = Err ErrSecretNotConfigured).
Proof.
  split; [apply VerifySignature_authentic|]. unfold VerifySignature.
  case_bool_decide; [done|]. split; [done|]. intros; by split_matches.
Qed.

(** Only well-formed events leave the parser: an accepted event has a
    repository of the form owner/name, a commit of forty lower-case hexadecimal
    digits, an https clone URL and a branch; it comes from a push of a branch
    that was not a deletion, or from a pull request that was opened, updated or
    reopened, and its fields are the ones of the payload. *)
Theorem ParseEvent_accepts (eventType body : string) (e : Event)
    (Hparse : ParseEvent eventType body = Ok e) :
  event_ok e ∧ e_EventType e = eventType ∧
  ((∃ p, Unmarshal (dec_struct push_fields) zero_push body = Some p ∧ eventType = "push" ∧
      p_Deleted p = false ∧ p_Ref p = "refs/heads/" +:+ e_Branch e ∧ e = push_event p) ∨
   (∃ p, Unmarshal (dec_struct pull_fields) zero_pull body = Some p ∧ eventType = "pull_request" ∧
      pr_Action p ∈ ["opened"; "synchronize"; "reopened"] ∧ e = pull_event p)).
Proof.
  unfold ParseEvent in Hparse. case_decide as H1; [|case_decide as H2; [|done]].
  - destruct (Unmarshal _ _ _) as [p|] eqn:Hu; [|done].
    destruct (p_Deleted p) eqn:Hd; [done|]. destruct (HasPrefix (p_Ref p) "refs/heads/") eqn:Hr; [|done].
    apply validated_ok in Hparse as [-> Hok]. split; [done|]. split; [done|]. left. exists p.
    split_and!; try done. apply HasPrefix_spec in Hr as [b Hb]. simpl. by rewrite Hb, TrimPrefix_app.
  - destruct (Unmarshal _ _ _) as [p|] eqn:Hu; [|done].
    unfold built_action in Hparse. case_bool_decide as Ha; [|done].
    apply validated_ok in Hparse as [-> Hok]. split; [done|]. split; [done|]. right. by exists p.
Qed.
