(* ===== verification/Api.v ===== *)
(** * internal/api: the HTTP surface of the control plane

    One definition per handler of server.go, webhook.go, runners.go, jobs.go
    and middleware.go, with every early return.  A response keeps its status
    code and what its body is made of; logging is left out, and so is
    [withRecovery], since nothing here can panic. *)
From S2P Require Import Prelude GoLib Sha256 Json Prog Models Sql Redis World Tables Store Queue Outcome Webhook.

(** ** Requests and responses *)

(** [config.Config]: the settings the server reads *)
Record Config : Type := mkConfig {
  GitHubWebhookSecret : string;
  RunnerRegistrationToken : string;
  ServerURL : string
}.

Record Request : Type := mkRequest {
  rq_Method : string;
  rq_Path : list string;         (* the segments of the cleaned path *)
  rq_Header : string → string;   (* [r.Header.Get]: "" for an absent header *)
  rq_Query : string → string;    (* [r.URL.Query().Get] *)
  rq_Body : string
}.

Inductive Body : Type :=
| BodyNone
| BodyError (msg : string)                      (* {"error": msg} *)
| BodyEventError (e : event_error)              (* {"error": err.Error()} *)
| BodyFields (fields : list (string * string))  (* map[string]string *)
| BodyText (s : string)
| BodyJob (j : Job)
| BodyJobs (l : list Job)
| BodyRunner (r : Runner)
| BodyRunners (l : list Runner)
| BodyRegistered (runnerID token : string)      (* registerResponse *)
| BodyHeartbeat (status : string) (cancel : bool)  (* heartbeatResponse *)
| BodyDelivery (j : Job) (cloneToken : string). (* jobDelivery *)

Record Response : Type := mkResponse {
  rs_code : Z;
  rs_body : Body
}.

Abbreviation handler := (Prog Call Response).

Definition writeJSON (code : Z) (body : Body) : handler := mret (mkResponse code body).
Definition writeError (code : Z) (msg : string) : handler := writeJSON code (BodyError msg).

(** [io.ReadAll(http.MaxBytesReader(w, r.Body, n))]: [None] is an error. *)
Definition ReadAll (n : Z) (body : string) : option string :=
  if (Z.of_nat (String.length body) <=? n)%Z then Some body else None.

(** ** Tokens *)

Definition hashToken (token : string) : string := hex_encode (sha256 (octets token)).

Definition newToken : Prog Call (option string) :=
  r ← call RandRead;
  mret match r with Some buf => Some (base64_encode (octets buf)) | None => None end.

(** [subtle.ConstantTimeCompare([]byte(x), []byte(y)) == 1] *)
Definition secret_equal (x y : string) : bool :=
  (ConstantTimeCompare (octets x) (octets y) =? 1)%Z.

(** ** Middleware *)

(** [id] is [r.PathValue("id")]. *)
Definition withRunnerAuth (next : Request → string → handler) (r : Request) (id : string) : handler :=
  let runnerID := if decide (rq_Header r "X-Runner-ID" = "") then id else rq_Header r "X-Runner-ID" in
  let token := TrimPrefix (rq_Header r "Authorization") "Bearer " in
  if bool_decide (runnerID = "") || bool_decide (token = "")
  then writeError 401 "missing runner credentials"
  else
    res ← RunnerTokenHash runnerID;
    match res with
    | Err _ => writeError 401 "unknown runner"
    | Ok want =>
        if negb (secret_equal want (hashToken token))
        then writeError 401 "invalid runner token"
        else next r id
    end.

Definition runnerOwnsJob (r : Request) (jobID : string) : Prog Call bool :=
  res ← GetJob jobID;
  mret match res with
       | Err _ => false
       | Ok job => bool_decide (j_RunnerID job = Some (rq_Header r "X-Runner-ID"))
       end.

(** [if !s.runnerOwnsJob(r, id) { 403; return }] *)
Definition ifOwner (r : Request) (id : string) (next : handler) : handler :=
  owns ← runnerOwnsJob r id;
  if owns : bool then next else writeError 403 "job is not assigned to this runner".

(** ** server.go *)

Definition handleHealth : handler := writeJSON 200 (BodyFields [("status", "ok")]).

Section server.
Context `{Queue} (cfg : Config).

Definition handleReady : handler :=
  pg ← Ping;
  rd ← QueuePing;
  writeJSON (if is_ok pg && is_ok rd then 200 else 503)
    (BodyFields
       [("postgres", match pg with Ok _ => "ok" | Err e => store_error_string e end);
        ("redis", match rd with Ok _ => "ok" | Err _ => "redis error" end)]).

(** [go s.report(job, state, description)] *)
Definition go_report (job : Job) (state description : string) : Prog Call unit :=
  call (GoReport (mkStatusPost (j_Repository job) (j_CommitSHA job) state description
    (ServerURL cfg +:+ "/api/v1/jobs/" +:+ j_ID job +:+ "/logs"))).

(** ** webhook.go *)

Definition job_of_event (id : string) (e : Event) : Job :=
  mkJob id (e_Repository e) (e_CloneURL e) (e_CommitSHA e) (e_Branch e) (e_EventType e)
    "forgerun.yml" ["linux"; "docker"] JobQueued None 0 None "" 0 None None.

Definition handleWebhook (r : Request) : handler :=
  match ReadAll 1048576 (rq_Body r) with
  | None => writeError 413 "payload too large"
  | Some body =>
      match VerifySignature (GitHubWebhookSecret cfg) body (rq_Header r "X-Hub-Signature-256") with
      | Err _ => writeError 401 "invalid signature"
      | Ok _ =>
          match ParseEvent (rq_Header r "X-GitHub-Event") body with
          | Err e =>
              if is_ignored e then writeJSON 200 (BodyFields [("status", "ignored")])
              else writeJSON 400 (BodyEventError e)
          | Ok event =>
              id ← call NewUUID;
              let job := job_of_event id event in
              res ← CreateJob job;
              match res with
              | Err e =>
                  if is_duplicate e then writeJSON 200 (BodyFields [("status", "duplicate")])
                  else writeError 500 "cannot create job"
              | Ok _ =>
                  res ← Enqueue id;
                  match res with
                  | Err _ =>
                      _ ← CompleteJob id JobFailed (-1) "could not be queued";
                      writeError 500 "cannot enqueue job"
                  | Ok _ =>
                      _ ← go_report job "pending" "queued by forgerun";
                      writeJSON 202 (BodyFields [("job_id", id); ("status", "QUEUED")])
                  end
              end
          end
      end
  end.

(** ** runners.go *)

Record registerRequest : Type := mkRegister {
  rg_Name : string;
  rg_Labels : option slice; (* [None] is nil *)
  rg_Architecture : string;
  rg_OS : string
}.

Definition dec_labels : decoder (option slice) := λ v old,
  match v with
  | JNull => (None, false)
  | _ => let '(sl, e) := dec_strings v (default nil_slice old) in
         (match v with JArr _ => Some sl | _ => old end, e)
  end.

Definition register_fields : fields registerRequest :=
  [("name", field rg_Name (λ x q, mkRegister x (rg_Labels q) (rg_Architecture q) (rg_OS q)) dec_string);
   ("labels", field rg_Labels (λ x q, mkRegister (rg_Name q) x (rg_Architecture q) (rg_OS q)) dec_labels);
   ("architecture", field rg_Architecture
      (λ x q, mkRegister (rg_Name q) (rg_Labels q) x (rg_OS q)) dec_string);
   ("operating_system", field rg_OS
      (λ x q, mkRegister (rg_Name q) (rg_Labels q) (rg_Architecture q) x) dec_string)].

Definition runner_of (id : string) (req : registerRequest) : Runner :=
  mkRunner id (rg_Name req) RunnerIdle (slice_elems <$> rg_Labels req) (rg_Architecture req)
    (rg_OS req) None 0 None 0.

Definition handleRegister (r : Request) : handler :=
  if negb (secret_equal (rq_Header r "X-Registration-Token") (RunnerRegistrationToken cfg))
  then writeError 401 "invalid registration token"
  else
    match Decode (dec_struct register_fields) (mkRegister "" None "" "") 65536 (rq_Body r) with
    | (_, true) => writeError 400 "invalid JSON body"
    | (req, false) =>
        if bool_decide (rg_Name req = "") then writeError 400 "name is required"
        else
          token ← newToken;
          match token with
          | None => writeError 500 "cannot generate token"
          | Some token =>
              id ← call NewUUID;
              res ← RegisterRunner (runner_of id req) (hashToken token);
              match res with
              | Err _ => writeError 500 "registration failed"
              | Ok _ => writeJSON 201 (BodyRegistered id token)
              end
          end
    end.

Definition leaseLost (runnerID jobID : string) : Prog Call bool :=
  res ← GetJob jobID;
  mret match res with
       | Err _ => true
       | Ok job => Terminal (j_Status job) || negb (bool_decide (j_RunnerID job = Some runnerID))
       end.

(** [heartbeatRequest]: its only field *)
Definition heartbeat_fields : fields string := [("job_id", dec_string)].

(** [_ = json.NewDecoder(...).Decode(&req)]: whatever was stored before an
    error stays. *)
Definition named_job (r : Request) : string :=
  (Decode (dec_struct heartbeat_fields) "" 4096 (rq_Body r)).1.

Definition handleHeartbeat (r : Request) (id : string) : handler :=
  res ← Heartbeat id;
  match res with
  | Err e =>
      if is_not_found e then writeError 404 "unknown runner" else writeError 500 "heartbeat failed"
  | Ok _ =>
      if decide (named_job r = "") then writeJSON 200 (BodyHeartbeat "ok" false)
      else cancel ← leaseLost id (named_job r); writeJSON 200 (BodyHeartbeat "ok" cancel)
  end.

Definition handlePollJob (r : Request) (runnerID : string) : handler :=
  res ← Receive runnerID;
  match res with
  | Err e =>
      if is_empty e then writeJSON 204 BodyNone
      else
        gone ← call CtxErr;
        if gone : bool then writeJSON 200 BodyNone (* nothing is written, nobody listens *)
        else writeError 500 "cannot read mailbox"
  | Ok jobID =>
      res ← GetJob jobID;
      match res with
      | Err _ => writeError 500 "job not found"
      | Ok job =>
          minted ← call (MintCloneToken (j_Repository job));
          writeJSON 200 (BodyDelivery job (fst minted))
      end
  end.

Definition handleListRunners : handler :=
  res ← ListRunners;
  match res with
  | Err _ => writeError 500 "cannot list runners"
  | Ok runners => writeJSON 200 (BodyRunners runners)
  end.

Definition handleGetRunner (id : string) : handler :=
  res ← GetRunner id;
  match res with
  | Err e =>
      if is_not_found e then writeError 404 "runner not found" else writeError 500 "cannot load runner"
  | Ok runner => writeJSON 200 (BodyRunner runner)
  end.

(** ** jobs.go *)

Definition list_limit (param : string) : Z :=
  match Atoi param with
  | Some v => if (0 <? v)%Z && (v <=? 500)%Z then v else 50
  | None => 50
  end.

Definition handleListJobs (r : Request) : handler :=
  res ← ListJobs (list_limit (rq_Query r "limit"));
  match res with
  | Err _ => writeError 500 "cannot list jobs"
  | Ok jobs => writeJSON 200 (BodyJobs jobs)
  end.

Definition handleGetJob (id : string) : handler :=
  res ← GetJob id;
  match res with
  | Err e => if is_not_found e then writeError 404 "job not found" else writeError 500 "cannot load job"
  | Ok job => writeJSON 200 (BodyJob job)
  end.

Definition handleGetJobLogs (id : string) : handler :=
  res ← GetLogs id;
  match res with
  | Err e => if is_not_found e then writeError 404 "job not found" else writeError 500 "cannot load logs"
  | Ok logs => mret (mkResponse 200 (BodyText logs))
  end.

Definition handleCancelJob (id : string) : handler :=
  res ← CancelJob id;
  match res with
  | Err e =>
      if is_not_found e then writeError 404 "job not found"
      else if is_invalid_transition e then writeError 409 (store_error_string e)
      else writeError 500 "cancel failed"
  | Ok _ => writeJSON 200 (BodyFields [("status", "CANCELLED")])
  end.

Definition handleJobStart (r : Request) (id : string) : handler :=
  ifOwner r id (
    res ← StartJob id;
    match res with
    | Err e =>
        if is_invalid_transition e then writeError 409 (store_error_string e)
        else writeError 500 "cannot start job"
    | Ok _ =>
        res ← GetJob id;
        _ ← match res with Ok job => go_report job "pending" "build running" | Err _ => mret tt end;
        writeJSON 200 (BodyFields [("status", "RUNNING")])
    end).

Definition handleJobLogs (r : Request) (id : string) : handler :=
  ifOwner r id (
    match Atoi (rq_Header r "X-Log-Seq") with
    | None => writeError 400 "X-Log-Seq must be a positive integer"
    | Some seq =>
        if (seq <=? 0)%Z then writeError 400 "X-Log-Seq must be a positive integer"
        else
          match ReadAll 1048576 (rq_Body r) with
          | None => writeError 413 "log chunk too large"
          | Some chunk =>
              res ← AppendLogs id seq chunk;
              match res with
              | Err _ => writeError 500 "cannot append logs"
              | Ok _ => writeJSON 202 BodyNone
              end
          end
    end).

Record resultRequest : Type := mkResult {
  rt_Status : string;
  rt_ExitCode : Z;
  rt_Error : string
}.

Definition result_fields : fields resultRequest :=
  [("status", field rt_Status (λ x q, mkResult x (rt_ExitCode q) (rt_Error q)) dec_string);
   ("exit_code", field rt_ExitCode (λ x q, mkResult (rt_Status q) x (rt_Error q)) dec_int);
   ("error", field rt_Error (λ x q, mkResult (rt_Status q) (rt_ExitCode q) x) dec_string)].

Definition result_report (status : JobStatus) (exitCode : Z) : string * string :=
  if decide (status = JobFailed) then ("failure", "build failed with exit code " +:+ Itoa exitCode)
  else ("success", "build passed").

Definition handleJobResult (r : Request) (id : string) : handler :=
  ifOwner r id (
    match Decode (dec_struct result_fields) (mkResult "" 0 "") 65536 (rq_Body r) with
    | (_, true) => writeError 400 "invalid JSON body"
    | (req, false) =>
        match ParseJobStatus (rt_Status req) with
        | Err _ => writeError 400 "status must be SUCCESS or FAILED"
        | Ok status =>
            if negb (bool_decide (status = JobSuccess)) && negb (bool_decide (status = JobFailed))
            then writeError 400 "status must be SUCCESS or FAILED"
            else
              res ← CompleteJob id status (rt_ExitCode req) (rt_Error req);
              match res with
              | Err e =>
                  if is_invalid_transition e then writeJSON 409 (BodyError (store_error_string e))
                  else writeError 500 "cannot complete job"
              | Ok _ =>
                  res ← GetJob id;
                  _ ← match res with
                      | Ok job => let '(state, desc) := result_report status (rt_ExitCode req) in
                                  go_report job state desc
                      | Err _ => mret tt
                      end;
                  writeJSON 200 (BodyFields [("status", job_status_string status)])
              end
        end
    end).

(** ** Routes *)

Inductive endpoint : Type :=
| EHealth | EReady | EWebhook | ERegister
| EHeartbeat (id : string) | EPollJob (id : string)
| EJobStart (id : string) | EJobLogs (id : string) | EJobResult (id : string)
| EListRunners | EGetRunner (id : string)
| EListJobs | EGetJob (id : string) | EGetJobLogs (id : string) | ECancelJob (id : string).

(** The method patterns: a GET pattern also takes HEAD. *)
Definition is_get (m : string) : bool := bool_decide (m = "GET") || bool_decide (m = "HEAD").
Definition is_post (m : string) : bool := bool_decide (m = "POST").

(** The endpoints of a path, for GET and for POST; a wildcard takes one
    segment that is not empty. *)
Definition path_endpoints (path : list string) : option endpoint * option endpoint :=
  match path with
  | ["health"] => (Some EHealth, None)
  | ["ready"] => (Some EReady, None)
  | ["webhooks"; "github"] => (None, Some EWebhook)
  | ["api"; "v1"; "runners"] => (Some EListRunners, None)
  | ["api"; "v1"; "jobs"] => (Some EListJobs, None)
  | ["api"; "v1"; "runners"; id] =>
      (if bool_decide (id = "") then None else Some (EGetRunner id),
       if bool_decide (id = "register") then Some ERegister else None)
  | ["api"; "v1"; "jobs"; id] => (if bool_decide (id = "") then None else Some (EGetJob id), None)
  | ["api"; "v1"; "runners"; id; op] =>
      if bool_decide (id = "") then (None, None)
      else if bool_decide (op = "heartbeat") then (None, Some (EHeartbeat id))
      else if bool_decide (op = "job") then (Some (EPollJob id), None)
      else (None, None)
  | ["api"; "v1"; "jobs"; id; op] =>
      if bool_decide (id = "") then (None, None)
      else if bool_decide (op = "start") then (None, Some (EJobStart id))
      else if bool_decide (op = "logs") then (Some (EGetJobLogs id), Some (EJobLogs id))
      else if bool_decide (op = "result") then (None, Some (EJobResult id))
      else if bool_decide (op = "cancel") then (None, Some (ECancelJob id))
      else (None, None)
  | _ => (None, None)
  end.

Definition handle_endpoint (e : endpoint) (r : Request) : handler :=
  match e with
  | EHealth => handleHealth
  | EReady => handleReady
  | EWebhook => handleWebhook r
  | ERegister => handleRegister r
  | EHeartbeat id => withRunnerAuth handleHeartbeat r id
  | EPollJob id => withRunnerAuth handlePollJob r id
  | EJobStart id => withRunnerAuth handleJobStart r id
  | EJobLogs id => withRunnerAuth handleJobLogs r id
  | EJobResult id => withRunnerAuth handleJobResult r id
  | EListRunners => handleListRunners
  | EGetRunner id => handleGetRunner id
  | EListJobs => handleListJobs r
  | EGetJob id => handleGetJob id
  | EGetJobLogs id => handleGetJobLogs id
  | ECancelJob id => handleCancelJob id
  end.

(** [Server.Routes]: 404 for an unknown path, 405 for a known one under
    another method. *)
Definition Routes (r : Request) : handler :=
  let '(get, post) := path_endpoints (rq_Path r) in
  match (if is_get (rq_Method r) then get else if is_post (rq_Method r) then post else None) with
  | Some e => handle_endpoint e r
  | None =>
      match get, post with
      | None, None => writeJSON 404 (BodyText ("404 page not found" +:+ newline))
      | _, _ => writeJSON 405 (BodyText ("Method Not Allowed" +:+ newline))
      end
  end.

(** [withRequestID]: the id the response carries, and the response. *)
Definition withRequestID (next : Request → handler) (r : Request) : Prog Call (string * Response) :=
  id ← (if decide (rq_Header r "X-Request-ID" = "") then call NewUUID
        else mret (rq_Header r "X-Request-ID"));
  resp ← next r;
  mret (id, resp).

Definition serve_http : Request → Prog Call (string * Response) := withRequestID Routes.
End server.

(** ** The API sends admissible statements only *)

Section safety.
Context `{RangeOrder} {R : Type} `{Redis R}.
Context (Q : Queue) (view : World R → qstate) `{!QueueOk Q view} (cfg : Config).

Lemma safe_withRunnerAuth next r id :
  (∀ r id, safe (next r id)) → safe (withRunnerAuth next r id).
Proof. intros Hn. unfold withRunnerAuth. go_calls; try done; apply Hn. Qed.

Lemma safe_ifOwner r id next : safe next → safe (ifOwner r id next).
Proof. intros Hn. unfold ifOwner, runnerOwnsJob. go_calls; done. Qed.

Lemma safe_handleWebhook r : safe (handleWebhook cfg r).
Proof.
  unfold handleWebhook, go_report. go_calls; try done. apply safe_CompleteJob. by right.
Qed.

Lemma safe_handleRegister r : safe (handleRegister cfg r).
Proof. unfold handleRegister, newToken. go_calls; done. Qed.

Lemma safe_handleHeartbeat r id : safe (handleHeartbeat r id).
Proof. unfold handleHeartbeat, leaseLost. go_calls; done. Qed.

Lemma safe_handlePollJob r id : safe (handlePollJob r id).
Proof. unfold handlePollJob. go_calls; done. Qed.

Lemma safe_handleJobStart r id : safe (handleJobStart cfg r id).
Proof. apply safe_ifOwner. unfold go_report. go_calls; done. Qed.

Lemma safe_handleJobLogs r id : safe (handleJobLogs r id).
Proof. apply safe_ifOwner. go_calls; try done. apply safe_AppendLogs. lia. Qed.

Lemma safe_handleJobResult r id : safe (handleJobResult cfg r id).
Proof.
  apply safe_ifOwner. unfold go_report. go_calls; try done. apply safe_CompleteJob.
  match goal with H : _ && _ = false |- _ => revert H end.
  rewrite andb_false_iff, !negb_false_iff, !bool_decide_eq_true. done.
Qed.

Lemma safe_handleCancelJob id : safe (handleCancelJob id).
Proof. unfold handleCancelJob. go_calls; done. Qed.

Lemma safe_handle_endpoint e r : safe (handle_endpoint cfg e r).
Proof.
  destruct e; cbn [handle_endpoint].
  - done.
  - unfold handleReady. go_calls; done.
  - apply safe_handleWebhook.
  - apply safe_handleRegister.
  - apply safe_withRunnerAuth, safe_handleHeartbeat.
  - apply safe_withRunnerAuth, safe_handlePollJob.
  - apply safe_withRunnerAuth, safe_handleJobStart.
  - apply safe_withRunnerAuth, safe_handleJobLogs.
  - apply safe_withRunnerAuth, safe_handleJobResult.
  - unfold handleListRunners. go_calls; done.
  - unfold handleGetRunner. go_calls; done.
  - unfold handleListJobs. go_calls; done.
  - unfold handleGetJob. go_calls; done.
  - unfold handleGetJobLogs. go_calls; done.
  - apply safe_handleCancelJob.
Qed.

Lemma safe_serve_http r : safe (serve_http cfg r).
Proof.
  unfold serve_http, withRequestID, Routes. go_calls; try done; apply safe_handle_endpoint.
Qed.
End safety.
