(* ===== verification/Auth.v ===== *)
(** * Who may do what (theorems about internal/api/middleware.go)

    Authentication of runners, ownership of jobs, and registration; what holds
    here holds under every fault of the connections. *)
From S2P Require Import Prelude GoLib Sha256 Json Prog Models Sql Redis World Tables Store Queue Outcome Webhook Api.

#[local] Arguments mbind : simpl never.

(** The tables and the server are as they were. *)
Definition same {R} (w w' : World R) : Prop := w_db w' = w_db w ∧ w_redis w' = w_redis w.

#[export] Instance same_preorder {R} : PreOrder (@same R).
Proof. split; [done|]. intros w1 w2 w3 [??] [??]. split; congruence. Qed.

(** The runner id and the token a request presents. *)
Definition presented_id (r : Request) (id : string) : string :=
  if decide (rq_Header r "X-Runner-ID" = "") then id else rq_Header r "X-Runner-ID".
Definition presented_token (r : Request) : string :=
  TrimPrefix (rq_Header r "Authorization") "Bearer ".

(** The token is the one issued to the runner. *)
Definition credentials_ok (db : DB) (r : Request) (id : string) : Prop :=
  presented_id r id ≠ "" ∧ presented_token r ≠ "" ∧
  ∃ row, db_runners db !! presented_id r id = Some row ∧
         rr_token_hash row = hashToken (presented_token r).

Lemma secret_equal_spec x y : secret_equal x y = true ↔ x = y.
Proof.
  unfold secret_equal. rewrite Z.eqb_eq, ConstantTimeCompare_spec. split; [apply octets_inj|congruence].
Qed.

Section auth.
Context `{RangeOrder} {R : Type} `{Redis R}.

(** A statement that only reads: the true answer or an error. *)
Lemma do_sql_read {X} (s : SqlStmt X) (w : World R) :
  (∀ db, (exec_sql s db).2 = db) →
  same w (do_sql s w).2 ∧
  ((do_sql s w).1 = (exec_sql s (w_db w)).1 ∨ (do_sql s w).1 = SqlFail).
Proof.
  intros Hs. pose proof (do_sql_cases s w) as Hc. pose proof (do_sql_redis s w) as Hr.
  rewrite Hs in Hc. split; [split; [|done]|]; naive_solver.
Qed.

Lemma exec_RunnerTokenHash id (w : World R) :
  let '(r, w') := exec (RunnerTokenHash id) w in
  same w w' ∧ ∀ want, r = Ok want →
    ∃ row, db_runners (w_db w) !! id = Some row ∧ rr_token_hash row = want.
Proof.
  unfold RunnerTokenHash. rewrite run_bind, run_call. cbn [handle].
  destruct (do_sql_read (SelectTokenHash id) w) as [Hs Hx]; [done|].
  destruct (do_sql (SelectTokenHash id) w) as [x w']; simpl in *. split; [done|].
  intros want. destruct Hx as [->| ->]; simpl; [|done].
  destruct (db_runners (w_db w) !! id) as [row|]; simpl; [|done]. intros [= <-]. by exists row.
Qed.

Lemma exec_GetJob_same id (w : World R) :
  let '(r, w') := exec (GetJob id) w in
  same w w' ∧ ∀ job, r = Ok job → ∃ row, db_jobs (w_db w) !! id = Some row ∧ jr_job row = job.
Proof.
  unfold GetJob. rewrite run_bind, run_call. cbn [handle].
  destruct (do_sql_read (SelectJob id) w) as [Hs Hx]; [done|].
  destruct (do_sql (SelectJob id) w) as [x w']; simpl in *. split; [done|].
  intros job. destruct Hx as [->| ->]; simpl; [|done].
  destruct (db_jobs (w_db w) !! id) as [row|]; simpl; [|done]. intros [= <-]. by exists row.
Qed.

Lemma withRunnerAuth_guards next r id (w : World R) :
  let '(resp, w') := exec (withRunnerAuth next r id) w in
  (rs_code resp = 401%Z ∧ same w w') ∨
  (credentials_ok (w_db w) r id ∧ ∃ w1, same w w1 ∧ exec (next r id) w1 = (resp, w')).
Proof.
  unfold withRunnerAuth, credentials_ok. fold (presented_id r id). fold (presented_token r).
  destruct (bool_decide (presented_id r id = "") || bool_decide (presented_token r = "")) eqn:Hnone;
    [by left|].
  apply orb_false_iff in Hnone as [H1%bool_decide_eq_false H2%bool_decide_eq_false].
  rewrite run_bind. pose proof (exec_RunnerTokenHash (presented_id r id) w) as Hh.
  destruct (exec (RunnerTokenHash _) w) as [[want|e] w1]; destruct Hh as [Hs Hw]; [|by left].
  destruct (secret_equal want (hashToken (presented_token r))) eqn:Heq; simpl; [|by left].
  apply secret_equal_spec in Heq. destruct (Hw want eq_refl) as (row & Hrow & Hrh).
  destruct (exec (next r id) w1) as [resp w'] eqn:E. right. split; [|by exists w1].
  split_and!; [done..|]. exists row. split; congruence.
Qed.

Lemma withRunnerAuth_passes next r id (w : World R) :
  calm w → credentials_ok (w_db w) r id → exec (withRunnerAuth next r id) w = exec (next r id) w.
Proof.
  intros Hc (H1 & H2 & row & Hrow & Hh). unfold withRunnerAuth, RunnerTokenHash.
  fold (presented_id r id). fold (presented_token r). rewrite !bool_decide_false by done. cbn [orb].
  rewrite run_bind, run_bind, run_call. cbn [handle]. rewrite do_sql_calm by done. simpl.
  rewrite Hrow, set_db_id. simpl.
  assert (secret_equal (rr_token_hash row) (hashToken (presented_token r)) = true) as ->
    by by apply secret_equal_spec. done.
Qed.

(** C24. Runner authentication, under every fault: a request either is refused
    with 401 and touches nothing, or it presents the token issued to the runner
    it claims to be (compared by SHA-256 digest) and the handler runs with the
    tables and the queue as they were.  When nothing fails a request with the
    right token always reaches its handler. *)
Theorem withRunnerAuth_correct (next : Request → string → handler) (r : Request) (id : string)
    (w : World R) :
  (let '(resp, w') := exec (withRunnerAuth next r id) w in
   (rs_code resp = 401%Z ∧ same w w') ∨
   (credentials_ok (w_db w) r id ∧
    ∃ w1, same w w1 ∧ exec (next r id) w1 = (resp, w'))) ∧
  (calm w → credentials_ok (w_db w) r id →
   exec (withRunnerAuth next r id) w = exec (next r id) w).
Proof. split; [apply withRunnerAuth_guards|apply withRunnerAuth_passes]. Qed.

(** The runner of the request is the one the job is assigned to. *)
Definition owns (db : DB) (r : Request) (id : string) : Prop :=
  ∃ row, db_jobs db !! id = Some row ∧ j_RunnerID (jr_job row) = Some (rq_Header r "X-Runner-ID").

Lemma ifOwner_refuses r id next (w : World R) :
  ¬ owns (w_db w) r id →
  let '(resp, w') := exec (ifOwner r id next) w in rs_code resp = 403%Z ∧ same w w'.
Proof.
  intros Hn. unfold ifOwner, runnerOwnsJob. rewrite run_bind, run_bind.
  pose proof (exec_GetJob_same id w) as Hg. destruct (exec (GetJob id) w) as [res w1].
  destruct Hg as [Hs Hj]. simpl. destruct res as [job|e]; [|done].
  destruct (Hj job eq_refl) as (row & Hrow & <-). rewrite bool_decide_false; [done|].
  intros Ho. apply Hn. by exists row.
Qed.

Context `{Queue} (cfg : Config).

(** The routes a runner reports on a job with. *)
Definition job_scoped (e : endpoint) (id : string) : Prop :=
  e = EJobStart id ∨ e = EJobLogs id ∨ e = EJobResult id.

(** C25. A runner can only touch the job it was assigned: a start, a log chunk or
    a result for a job that does not exist, or is not assigned to the runner
    named by the request, is refused with 401 or 403 and changes nothing, under
    every fault. *)
Theorem only_the_owner_touches_a_job (e : endpoint) (id : string) (r : Request) (w : World R)
    (He : job_scoped e id) (Hn : ¬ owns (w_db w) r id) :
  let '(resp, w') := exec (handle_endpoint cfg e r) w in
  (rs_code resp = 401%Z ∨ rs_code resp = 403%Z) ∧ same w w'.
Proof.
  assert (∃ body, handle_endpoint cfg e r = withRunnerAuth (λ r id, ifOwner r id (body r id)) r id)
    as [body ->].
  { destruct He as [->|[->| ->]]; eexists (λ r id, _); reflexivity. }
  pose proof (withRunnerAuth_guards (λ r id, ifOwner r id (body r id)) r id w) as Ha.
  destruct (exec _ w) as [resp w']. destruct Ha as [[Hc Hs]|(_ & w1 & [Hd Hr] & E)]; [by auto|].
  pose proof (ifOwner_refuses r id (body r id) w1) as Hi. rewrite Hd in Hi. specialize (Hi Hn).
  rewrite E in Hi. destruct Hi as [Hc Hs]. split; [by right|]. by trans w1.
Qed.

(** Nobody joins the pool without the registration token: without it the
    answer is 401 and no call is made at all. *)
Theorem register_requires_token (r : Request)
    (Hwrong : rq_Header r "X-Registration-Token" ≠ RunnerRegistrationToken cfg) :
  handleRegister cfg r = mret (mkResponse 401 (BodyError "invalid registration token")).
Proof.
  unfold handleRegister. destruct (secret_equal _ _) eqn:E; [|done].
  by apply secret_equal_spec in E.
Qed.

Context (view : World R → qstate).

(** A poll empties the mailbox by one job, which is read from its row. *)
Lemma handlePollJob_delivers (r : Request) (runnerID jobID : string) (box : list string) (row : JobRow)
    (w : World R) `{!QueueOk _ view} :
  calm w → mailbox (view w) runnerID = box ++ [jobID] → db_jobs (w_db w) !! jobID = Some row →
  ∃ w', exec (handlePollJob r runnerID) w =
    (mkResponse 200 (BodyDelivery (jr_job row) (default ("", false) (head (w_tokens w))).1), w') ∧
    calm w' ∧ w_db w' = w_db w ∧ w_uuids w' = w_uuids w ∧ mailbox (view w') runnerID = box.
Proof.
  intros Hc Hbox Hrow. unfold handlePollJob. rewrite run_bind.
  destruct (receive_spec w runnerID Hc) as (w1 & -> & Hv1 & Hf1).
  assert (calm w1) as Hc1 by by eapply frame_calm.
  assert (w_db w1 = w_db w) as Hd1 by by eapply frame_db.
  assert (w_tokens w1 = w_tokens w ∧ w_uuids w1 = w_uuids w) as [Ht1 Hu1] by (unfold frame in Hf1; by rewrite <-Hf1).
  unfold Fifo.receive in *. rewrite Hbox, unsnoc_app in *. simpl in *.
  rewrite do_sql_calm by done. simpl. rewrite Hd1, Hrow. simpl. rewrite Ht1.
  eexists. split; [reflexivity|]. split_and!; [done..|].
  transitivity (mailbox (view w1) runnerID).
  - apply mailbox_proper; [|done]. by apply view_redis.
  - rewrite Hv1. simpl. unfold upd. by rewrite decide_True.
Qed.

(** C40. The runner id of a polling request is authenticated from the header but
    the mailbox is taken from the URL: a runner with valid credentials of its
    own that polls another runner's URL receives that runner's job (and its
    clone token), and the id is gone from the other's mailbox. *)
Theorem poll_reads_the_mailbox_of_the_url (r : Request) (victim jobID : string) (box : list string)
    (row : JobRow) (w : World R)
    (HQ : QueueOk _ view) (Hc : calm w)
    (Hcred : credentials_ok (w_db w) r victim)
    (Hother : presented_id r victim ≠ victim)
    (Hbox : mailbox (view w) victim = box ++ [jobID])
    (Hrow : db_jobs (w_db w) !! jobID = Some row) :
  let '(resp, w') := exec (handle_endpoint cfg (EPollJob victim) r) w in
  (∃ token, resp = mkResponse 200 (BodyDelivery (jr_job row) token)) ∧
  mailbox (view w') victim = box.
Proof.
  cbn [handle_endpoint]. rewrite withRunnerAuth_passes by done.
  destruct (handlePollJob_delivers r victim jobID box row w Hc Hbox Hrow) as (w' & -> & _ & _ & _ & Hm).
  split; [by eexists|done].
Qed.
End auth.
