(* ===== verification/Deliveries.v ===== *)
(** * Webhook deliveries end to end (theorems about internal/api/webhook.go) *)
From S2P Require Import Prelude GoLib Sha256 Json Prog Models Sql Redis World Tables Store Lifecycle Queue Outcome Webhook Api Auth.

#[local] Arguments mbind : simpl never.

Section deliveries.
Context `{RangeOrder} {R : Type} `{Redis R}.
Context (Q : Queue) (cfg : Config).

(** The delivery carries the signature of its body. *)
Definition signed (r : Request) : Prop :=
  authentic (GitHubWebhookSecret cfg) (rq_Body r) (rq_Header r "X-Hub-Signature-256").

(** More than a megabyte. *)
Definition oversized (r : Request) : Prop := (1048576 < Z.of_nat (String.length (rq_Body r)))%Z.

#[export] Instance oversized_dec r : Decision (oversized r).
Proof. unfold oversized. apply _. Defined.

(** C30. Only GitHub starts builds: a delivery that is larger than a megabyte,
    however well it is signed, is answered 413, and a smaller one that is not
    signed with the webhook secret is answered 401, both without a single call:
    not to the database, not to the queue. *)
Theorem unsigned_delivery_does_nothing (r : Request) (Hn : oversized r ∨ ¬ signed r) :
  handleWebhook cfg r =
  mret (if decide (oversized r) then mkResponse 413 (BodyError "payload too large")
        else mkResponse 401 (BodyError "invalid signature")).
Proof.
  unfold handleWebhook, ReadAll. unfold oversized in *. case_decide as Hs.
  - by rewrite (proj2 (Z.leb_gt _ _)) by done.
  - rewrite (proj2 (Z.leb_le _ _)) by lia. destruct (VerifySignature _ _ _) as [[]|e] eqn:Hv; [|done].
    destruct Hn as [?|Hn]; [done|]. destruct Hn. by apply VerifySignature_authentic in Hv.
Qed.

(** The delivery is authentic and describes event [e]. *)
Record delivers (r : Request) (e : Event) : Prop := {
  delivers_size : (Z.of_nat (String.length (rq_Body r)) ≤ 1048576)%Z;
  delivers_signed : signed r;
  delivers_event : ParseEvent (rq_Header r "X-GitHub-Event") (rq_Body r) = Ok e
}.

(** What is left of the handler for such a delivery. *)
Definition accept (e : Event) : handler :=
  id ← call NewUUID;
  let job := job_of_event id e in
  res ← CreateJob job;
  match res with
  | Err e =>
      if is_duplicate e then writeJSON 200 (BodyFields [("status", "duplicate")])
      else writeError 500 "cannot create job"
  | Ok _ =>
      res ← Enqueue id;
      match res with
      | Err _ =>
          _ ← CompleteJob id JobFailed (-1) "could not be queued";
          writeError 500 "cannot enqueue job"
      | Ok _ =>
          _ ← go_report cfg job "pending" "queued by forgerun";
          writeJSON 202 (BodyFields [("job_id", id); ("status", "QUEUED")])
      end
  end.

Lemma handleWebhook_delivers r e : delivers r e → handleWebhook cfg r = accept e.
Proof.
  intros [Hs Hsig He]. unfold handleWebhook, ReadAll. rewrite (proj2 (Z.leb_le _ _) Hs).
  apply VerifySignature_authentic in Hsig. by rewrite Hsig, He.
Qed.

(** The id [uuid.NewString] will return. *)
Definition next_uuid (w : World R) : string := default "" (head (w_uuids w)).

(** An unfinished job for the same repository, commit and event. *)
Definition unfinished (db : DB) (e : Event) (id : string) (row : JobRow) : Prop :=
  db_jobs db !! id = Some row ∧ active (job_status row) = true ∧
  index_key (jr_job row) = (e_Repository e, e_CommitSHA e, e_EventType e).

(** [INSERT] refuses the job of an event that already has an unfinished one. *)
Lemma insert_duplicate db e id uuid row :
  db_jobs db !! uuid = None → unfinished db e id row →
  ∃ x, sql_insert_job (job_of_event uuid e) db = (x, db) ∧ x ≠ SqlOk tt ∧
    (job_text_ok (job_of_event uuid e) = true → x = SqlUnique).
Proof.
  intros Hfresh (Hrow & Hact & Hkey). unfold sql_insert_job.
  destruct (job_text_ok _); simpl; [|by exists SqlFail]. rewrite Hfresh.
  assert (index_ok (db_jobs db) uuid (job_of_event uuid e) = false) as ->; [|by exists SqlUnique].
  apply not_true_iff_false. rewrite index_okP. intros Hok.
  apply (Hok eq_refl id row Hrow). split_and!; [congruence|done|done].
Qed.

(** C19. A redelivery never starts a second build: while a job for the same
    repository, commit and event is unfinished, the delivery creates nothing
    and queues nothing, whatever the connections do; and when they work it is
    answered 200 "duplicate". *)
Theorem redelivery_creates_nothing (r : Request) (e : Event) (id : string) (row : JobRow)
    (w : World R)
    (Hd : delivers r e) (Hu : unfinished (w_db w) e id row)
    (Hfresh : db_jobs (w_db w) !! next_uuid w = None) :
  let '(resp, w') := exec (handleWebhook cfg r) w in
  w_db w' = w_db w ∧ w_redis w' = w_redis w ∧
  (calm w → job_text_ok (job_of_event (next_uuid w) e) = true →
   resp = mkResponse 200 (BodyFields [("status", "duplicate")])).
Proof.
  rewrite (handleWebhook_delivers r e Hd). unfold accept. rewrite run_bind, run_call. cbn [handle].
  fold (next_uuid w). set (w1 := mkWorld _ _ _ _ _ _ _ _).
  destruct (insert_duplicate (w_db w) e id (next_uuid w) row Hfresh Hu) as (x & Ex & Hx & Hcalm).
  unfold CreateJob. rewrite !run_bind, run_call. cbn [handle].
  pose proof (do_sql_cases (InsertJob (job_of_event (next_uuid w) e)) w1) as Hc.
  pose proof (do_sql_redis (InsertJob (job_of_event (next_uuid w) e)) w1) as Hr.
  pose proof (do_sql_calm (InsertJob (job_of_event (next_uuid w) e)) w1) as Hq.
  simpl in Hc, Hq. change (w_db w1) with (w_db w) in *. rewrite Ex in Hc, Hq.
  destruct (do_sql _ w1) as [y w2]. simpl in Hc, Hq, Hr.
  assert (w_db w2 = w_db w ∧ (y = x ∨ y = SqlFail)) as [Hdb Hy] by naive_solver.
  assert (y ≠ SqlOk tt) as Hy' by naive_solver.
  destruct y as [[]| |]; [done| |]; simpl; (split; [done|]); (split; [done|]); [done|].
  intros Hcw Htext. specialize (Hq Hcw). rewrite (Hcalm Htext) in Hq. by injection Hq.
Qed.

Lemma index_ok_fresh db e uuid :
  db_jobs db !! uuid = None → (∀ id row, ¬ unfinished db e id row) →
  index_ok (db_jobs db) uuid (job_of_event uuid e) = true.
Proof.
  intros Hfresh Hn. apply index_okP. intros _ id row Hrow (Hne & Hact & Hkey).
  by apply (Hn id row).
Qed.

(** The row a delivery creates. *)
Definition created (now : Z) (uuid : string) (e : Event) : JobRow :=
  fresh_job_row now (job_of_event uuid e).

Lemma insert_fresh db e uuid :
  db_jobs db !! uuid = None → (∀ id row, ¬ unfinished db e id row) →
  job_text_ok (job_of_event uuid e) = true →
  sql_insert_job (job_of_event uuid e) db =
    (SqlOk tt, set_jobs (<[uuid := created (db_now db) uuid e]> (db_jobs db)) db).
Proof.
  intros Hfresh Hn Htext. unfold sql_insert_job. rewrite Htext. simpl. rewrite Hfresh.
  by rewrite index_ok_fresh.
Qed.

Context (view : World R → qstate).

(** The effect of a delivery that starts a build. *)
Definition queued_by (e : Event) (w : World R) (o : Response * World R) : Prop :=
  let '(resp, w') := o in
  resp = mkResponse 202 (BodyFields [("job_id", next_uuid w); ("status", "QUEUED")]) ∧
  db_jobs (w_db w') =
    <[next_uuid w := created (db_now (w_db w)) (next_uuid w) e]> (db_jobs (w_db w)) ∧
  db_runners (w_db w') = db_runners (w_db w) ∧
  view w' ≡ Fifo.enqueue (next_uuid w) (view w) ∧
  w_reports w' = w_reports w ++ [mkStatusPost (e_Repository e) (e_CommitSHA e) "pending"
    "queued by forgerun" (ServerURL cfg +:+ "/api/v1/jobs/" +:+ next_uuid w +:+ "/logs")].

Lemma delivery_queued (r : Request) (e : Event) (w : World R) `{!QueueOk Q view} :
  calm w → delivers r e → (∀ id row, ¬ unfinished (w_db w) e id row) → db_jobs (w_db w) !! next_uuid w = None →
  job_text_ok (job_of_event (next_uuid w) e) = true →
  queued_by e w (exec (handleWebhook cfg r) w) ∧ calm (exec (handleWebhook cfg r) w).2 ∧
  db_now (w_db (exec (handleWebhook cfg r) w).2) = db_now (w_db w).
Proof.
  intros Hc Hd Hn Hfresh Htext.
  rewrite (handleWebhook_delivers r e Hd). unfold accept. rewrite run_bind, run_call. cbn [handle].
  fold (next_uuid w). set (w1 := mkWorld _ _ _ _ _ _ _ _).
  unfold CreateJob. rewrite !run_bind, run_call. cbn [handle].
  rewrite (do_sql_calm _ w1 Hc). simpl. rewrite insert_fresh by done. simpl.
  set (w2 := set_db _ w1). assert (calm w2) as Hc2 by done. rewrite run_bind.
  destruct (enqueue_spec w2 (next_uuid w) Hc2) as (w3 & -> & Hv3 & Hf3).
  unfold go_report. rewrite run_bind, run_call. simpl.
  pose proof (frame_db _ _ Hf3) as Hd3. rewrite Hd3.
  assert (calm w3) as Hc3 by by eapply frame_calm.
  split; [|by split]. split_and!; try done.
  - trans (view w3); [by apply view_redis|]. rewrite Hv3.
    assert (view w2 ≡ view w) as -> by (by apply view_redis). done.
  - unfold frame in Hf3. by rewrite (f_equal w_reports Hf3 : w_reports w3 = w_reports w2).
Qed.

(** C20. An authentic delivery of an event that has no unfinished job starts
    exactly one build: one QUEUED row is added, its id is put on the pending
    list once, a "pending" status goes to GitHub, nothing else changes, and the
    answer is 202 with the job's id. *)
Theorem delivery_queues_one_job (r : Request) (e : Event) (w : World R)
    (HQ : QueueOk Q view) (Hc : calm w) (Hd : delivers r e)
    (Hn : ∀ id row, ¬ unfinished (w_db w) e id row)
    (Hfresh : db_jobs (w_db w) !! next_uuid w = None)
    (Htext : job_text_ok (job_of_event (next_uuid w) e) = true) :
  let '(resp, w') := exec (handleWebhook cfg r) w in
  resp = mkResponse 202 (BodyFields [("job_id", next_uuid w); ("status", "QUEUED")]) ∧
  db_jobs (w_db w') =
    <[next_uuid w := created (db_now (w_db w)) (next_uuid w) e]> (db_jobs (w_db w)) ∧
  db_runners (w_db w') = db_runners (w_db w) ∧
  view w' ≡ Fifo.enqueue (next_uuid w) (view w) ∧
  w_reports w' = w_reports w ++ [mkStatusPost (e_Repository e) (e_CommitSHA e) "pending"
    "queued by forgerun" (ServerURL cfg +:+ "/api/v1/jobs/" +:+ next_uuid w +:+ "/logs")].
Proof. exact (proj1 (delivery_queued r e w Hc Hd Hn Hfresh Htext)). Qed.
End deliveries.

(** ** When the queue cannot be reached *)

Section stranded.
Context `{RangeOrder} {R : Type} `{Redis R} (cfg : Config).

Lemma exec_Enqueue_lost id (w : World R) :
  w_faults w = [FLost] → exec (RedisQueue.Enqueue id) w = (Err ErrRedis, set_faults [] w).
Proof.
  intros Hf. unfold RedisQueue.Enqueue, RedisQueue.status. rewrite run_bind, run_call. cbn [handle].
  unfold do_redis, next_fault. rewrite Hf. by destruct (exec_redis _ _).
Qed.

(** A QUEUED job cannot be completed. *)
Lemma exec_CompleteJob_queued id status exitCode errMsg row (w : World R) :
  calm w → db_jobs (w_db w) !! id = Some row → job_status row = JobQueued →
  status = JobFailed ∨ status = JobSuccess →
  exec (CompleteJob id status exitCode errMsg) w = (Err (ErrInvalidTransition JobQueued status), w).
Proof.
  intros Hc Hrow Hq Hs. unfold CompleteJob, transition, GetJob.
  rewrite !run_try_bind, run_bind, run_call. cbn [handle]. rewrite do_sql_calm by done. simpl.
  rewrite Hrow, set_db_id. simpl. rewrite Hq. by destruct Hs as [->| ->].
Qed.

(** C37. A delivery whose LPUSH fails leaves a job that is QUEUED for ever.  The
    handler means to fail such a job, but QUEUED to FAILED is not an allowed
    transition, so [CompleteJob] refuses and its error is dropped: the answer
    is 500, the row is QUEUED, its id is on no list. *)
Theorem enqueue_failure_strands_job (r : Request) (e : Event) (w : World R)
    (Hok : RedisOk R) (Hfaults : w_faults w = [FNone; FLost]) (Hd : delivers cfg r e)
    (Hn : ∀ id row, ¬ unfinished (w_db w) e id row)
    (Hfresh : db_jobs (w_db w) !! next_uuid w = None)
    (Htext : job_text_ok (job_of_event (next_uuid w) e) = true) :
  let '(resp, w') := exec (@handleWebhook RedisQueue_impl cfg r) w in
  resp = mkResponse 500 (BodyError "cannot enqueue job") ∧
  unfinished (w_db w') e (next_uuid w) (created (db_now (w_db w)) (next_uuid w) e) ∧
  w_redis w' = w_redis w.
Proof.
  rewrite (handleWebhook_delivers RedisQueue_impl cfg r e Hd). unfold accept.
  rewrite run_bind, run_call. cbn [handle].
  fold (next_uuid w). set (w1 := mkWorld _ _ _ _ _ _ _ _).
  set (db' := set_jobs (<[next_uuid w := created (db_now (w_db w)) (next_uuid w) e]> (db_jobs (w_db w)))
                (w_db w)).
  assert (do_sql (InsertJob (job_of_event (next_uuid w) e)) w1 =
    (SqlOk tt, set_db db' (set_faults [FLost] w1))) as Ei.
  { unfold do_sql, next_fault. change (w_faults w1) with (w_faults w). rewrite Hfaults. simpl.
    by rewrite insert_fresh. }
  unfold CreateJob. rewrite !run_bind, run_call. cbn [handle]. rewrite Ei. cbn -[run RedisQueue.Enqueue CompleteJob].
  rewrite run_ret, run_bind, exec_Enqueue_lost by done. rewrite run_bind.
  assert (db_jobs db' !! next_uuid w = Some (created (db_now (w_db w)) (next_uuid w) e)) as Hrow 
    by (subst db'; simpl; apply lookup_insert_eq).
  rewrite (exec_CompleteJob_queued _ _ _ _ (created (db_now (w_db w)) (next_uuid w) e));
    [|done|exact Hrow|done|by left]. done.
Qed.
End stranded.
