(* ===== verification/System.v ===== *)
(** * The control plane as a whole: requests, scheduler and reaper, interleaved

    A state of the system is the world and the threads in it: HTTP requests in
    progress, the loop of a scheduler, ticks of its reaper.  A step is one call
    of one thread; in between anything may start, die or time out, the clock
    moves on, mailboxes expire, and connections fail as the world's fault
    schedule says.  The invariants are about every reachable state; [play]
    executes a schedule, so that a particular one can be exhibited. *)
From S2P Require Import Prelude GoLib Json Prog Models Sql Redis World Tables Typed Store Lifecycle Queue Outcome Scheduler Service Webhook Api.

Section system.
Context `{RangeOrder} {R : Type} `{Redis R}.
Context (Q : Queue) (Sch : Scheduler) (cfg : Config) (heartbeat : Z).

Record Sys : Type := mkSys {
  threads : list (Prog Call unit);
  world : World R
}.

(** The threads the three processes of the control plane start. *)
Inductive entry : Type :=
| ERequest (r : Request)
| EScheduler (iterations : nat)
| EReaper.

Definition entry_prog (e : entry) : Prog Call unit :=
  match e with
  | ERequest r => _ ← serve_http cfg r; mret tt
  | EScheduler n => serve heartbeat n
  | EReaper => reap_body heartbeat
  end.

(** What the environment may do to the world on its own. *)
Inductive env_step : relation (World R) :=
| env_tick w d :
    (0 ≤ d)%Z →
    env_step w (set_db (mkDB (db_jobs (w_db w)) (db_runners (w_db w)) (db_now (w_db w) + d)) w)
| env_expire w key : env_step w (set_redis (redis_expired key (w_redis w)) w)
| env_answers w faults uuids rand tokens ctx :
    env_step w (mkWorld (w_db w) (w_redis w) faults uuids rand tokens ctx (w_reports w)).

Inductive sys_step : relation Sys :=
| step_spawn ts w e : sys_step (mkSys ts w) (mkSys (ts ++ [entry_prog e]) w)
| step_thread ts w i p p' w' :
    ts !! i = Some p → prog_step handle p w = (p', w') →
    sys_step (mkSys ts w) (mkSys (<[i := p']> ts) w')
| step_die ts w i : sys_step (mkSys ts w) (mkSys (delete i ts) w)
| step_env ts w w' : env_step w w' → sys_step (mkSys ts w) (mkSys ts w').

Definition reachable (s s' : Sys) : Prop := rtc sys_step s s'.

(** ** Schedules that can be executed *)

Inductive event : Type :=
| Spawn (e : entry)
| Step (i n : nat)    (* [n] calls of thread [i] *)
| Finish (i : nat)    (* thread [i] runs to its end *)
| Tick (d : N)
| Answers (uuids : list string) (rand : list (option string)).

Fixpoint step_thread_n (n i : nat) (s : Sys) : Sys :=
  match n with
  | 0 => s
  | S n =>
      match threads s !! i with
      | Some p =>
          let '(p', w') := prog_step handle p (world s) in
          step_thread_n n i (mkSys (<[i := p']> (threads s)) w')
      | None => s
      end
  end.

Definition play_one (ev : event) (s : Sys) : Sys :=
  let w := world s in
  match ev with
  | Spawn e => mkSys (threads s ++ [entry_prog e]) w
  | Step i n => step_thread_n n i s
  | Finish i =>
      match threads s !! i with
      | Some p => let '(u, w') := exec p w in mkSys (<[i := mret u]> (threads s)) w'
      | None => s
      end
  | Tick d =>
      mkSys (threads s)
        (set_db (mkDB (db_jobs (w_db w)) (db_runners (w_db w)) (db_now (w_db w) + Z.of_N d)) w)
  | Answers uuids rand =>
      mkSys (threads s) (mkWorld (w_db w) (w_redis w) (w_faults w) uuids rand (w_tokens w)
        (w_ctx w) (w_reports w))
  end.

Definition play (evs : list event) (s : Sys) : Sys := foldl (λ s ev, play_one ev s) s evs.

Lemma step_thread_n_reachable n i s : reachable s (step_thread_n n i s).
Proof.
  revert s. induction n as [|n IH]; intros [ts w]; [apply rtc_refl|]. cbn [step_thread_n threads world].
  destruct (ts !! i) as [p|] eqn:Hp; [|apply rtc_refl].
  destruct (prog_step handle p w) as [p' w'] eqn:E.
  eapply rtc_l; [by eapply step_thread|]. apply IH.
Qed.

Lemma run_reachable p ts w i :
  ts !! i = Some p →
  reachable (mkSys ts w) (mkSys (<[i := mret (exec p w).1]> ts) (exec p w).2).
Proof.
  revert ts w. induction p as [u|X c k IH]; intros ts w Hp.
  - simpl. rewrite list_insert_id by done. apply rtc_refl.
  - simpl. destruct (handle X c w) as [x w1] eqn:E.
    eapply rtc_l; [eapply step_thread; [done|]; simpl; by rewrite E|].
    assert (i < length ts) as Hi by by eapply lookup_lt_Some.
    assert ((<[i:=k x]> ts) !! i = Some (k x)) as Hk by by apply list_lookup_insert_eq.
    specialize (IH x (<[i := k x]> ts) w1 Hk). rewrite list_insert_insert_eq in IH. apply IH.
Qed.

(** A schedule only goes where the steps allow. *)
Lemma play_reachable evs s : reachable s (play evs s).
Proof.
  revert s. induction evs as [|ev evs IH]; intros [ts w]; [apply rtc_refl|]. simpl.
  unfold reachable in *. etrans; [|apply IH]. destruct ev as [e|i n|i|d|uuids rand]; simpl.
  - apply rtc_once, step_spawn.
  - apply step_thread_n_reachable.
  - destruct (ts !! i) as [p|] eqn:Hp; [|apply rtc_refl].
    pose proof (run_reachable p ts w i Hp) as Hr. by destruct (exec p w).
  - apply rtc_once, step_env, env_tick. lia.
  - apply rtc_once, step_env, env_answers.
Qed.

(** ** Every thread sends admissible statements only *)

Context (view : World R → qstate) `{!QueueOk Q view}.

Definition threads_safe (s : Sys) : Prop := Forall (λ p, safe p) (threads s).

Lemma safe_entry e : safe (entry_prog e).
Proof.
  destruct e; cbn [entry_prog].
  - apply all_calls_bind; [by eapply safe_serve_http|done].
  - by eapply safe_serve.
  - by eapply safe_reap_body.
Qed.

Lemma prog_step_safe (p p' : Prog Call unit) (w w' : World R) :
  safe p → prog_step handle p w = (p', w') → db_wf (w_db w) →
  safe p' ∧ step_ok (w_db w) (w_db w').
Proof.
  intros Hp Hs Hwf. destruct p as [u|X c k]; simpl in *.
  - injection Hs as <- <-. by split; [|apply step_ok_refl].
  - destruct Hp as [Hc Hk]. destruct (handle X c w) as [x w1] eqn:E. injection Hs as <- <-.
    split; [apply Hk|]. pose proof (safe_step (call c) w (conj Hc (λ _, I)) Hwf) as Hstep.
    rewrite run_call, E in Hstep. done.
Qed.

Lemma tick_ok db d :
  (0 ≤ d)%Z → db_wf db → step_ok db (mkDB (db_jobs db) (db_runners db) (db_now db + d)).
Proof.
  intros Hd Hwf. split; [by split; apply Hwf|]. split; simpl; [| |lia]; intros id row Hrow; by exists row.
Qed.

Lemma env_step_ok (w w' : World R) : env_step w w' → db_wf (w_db w) → step_ok (w_db w) (w_db w').
Proof. intros [w0 d Hd|w0 key|w0 fs us rs ts cs] Hwf; [by apply tick_ok|by apply step_ok_refl..]. Qed.

(** The invariant of the system, and what it lets a step do. *)
Definition sys_ok (s : Sys) : Prop := threads_safe s ∧ db_wf (w_db (world s)).

Lemma sys_step_ok s s' :
  sys_step s s' → sys_ok s → sys_ok s' ∧ db_evolves (w_db (world s)) (w_db (world s')).
Proof.
  intros Hstep [Hts Hwf]. unfold sys_ok, threads_safe in *.
  destruct Hstep as [ts w e|ts w i p p' w' Hp Hs|ts w i|ts w w' He]; simpl in *.
  - split; [split|]; [|done|done]. apply Forall_app. split; [done|]. constructor; [apply safe_entry|done].
  - destruct (prog_step_safe p p' w w') as [Hp' [Hwf' Hev]]; [by eapply Forall_lookup_1|done..|].
    split; [split|]; [|done|done]. by apply Forall_insert.
  - split; [split|]; [|done|done]. by apply Forall_delete.
  - destruct (env_step_ok w w' He Hwf) as [Hwf' Hev]. done.
Qed.

(** One step is at most one statement, and moves a job at most once. *)
Lemma sys_step_next s s' :
  sys_step s s' → sys_ok s → rows_next (λ _, True) (w_db (world s)) (w_db (world s')).
Proof.
  intros Hstep [Hts _]. unfold threads_safe in Hts.
  destruct Hstep as [ts w e|ts w i p p' w' Hp Hs|ts w i|ts w w' He]; simpl in *; [done| |done|].
  - pose proof (Forall_lookup_1 _ _ _ _ Hts Hp) as Hsafe.
    destruct p as [u|X c k]; simpl in *; [by injection Hs as _ <-|].
    destruct Hsafe as [Hc _]. destruct (handle X c w) as [x w1] eqn:E. injection Hs as _ <-.
    pose proof (handle_db admissible (rows_next (λ _, True))
      (λ Y st db Hadm, exec_sql_next (λ _, True) Y st db Hadm ltac:(by destruct st)) X c w Hc) as Hn.
    by rewrite E in Hn.
  - destruct He; [|done..]. by apply rows_next_jobs.
Qed.

Lemma reachable_ok s s' :
  reachable s s' → sys_ok s → sys_ok s' ∧ db_evolves (w_db (world s)) (w_db (world s')).
Proof.
  induction 1 as [s|s s1 s2 Hs _ IH]; intros Hok; [done|].
  destruct (sys_step_ok _ _ Hs Hok) as [Hok1 Hev1]. destruct (IH Hok1) as [Hok2 Hev2].
  split; [done|]. by etrans.
Qed.

(** The system before any process has started. *)
Definition initial (s : Sys) : Prop := threads s = [] ∧ ∃ now, w_db (world s) = empty_db now.

Lemma initial_ok s : initial s → sys_ok s.
Proof.
  intros [Ht [now Hdb]]. split; [unfold threads_safe; by rewrite Ht|]. rewrite Hdb. by apply good_empty.
Qed.

Lemma reachable_from_initial s0 s1 s2 :
  initial s0 → reachable s0 s1 → reachable s1 s2 →
  db_wf (w_db (world s1)) ∧ db_evolves (w_db (world s1)) (w_db (world s2)).
Proof.
  intros Hi H01 H12. destruct (reachable_ok s0 s1 H01 (initial_ok s0 Hi)) as [Hok1 _].
  destruct (reachable_ok s1 s2 H12 Hok1) as [_ Hev]. by split; [apply Hok1|].
Qed.
End system.

Section theorems.
Context `{RangeOrder} {R : Type} `{Redis R}.
Context (Q : Queue) (Sch : Scheduler) (cfg : Config) (heartbeat : Z) (view : World R → qstate).
Abbreviation reachable := (reachable Q Sch cfg heartbeat).

(** C3. A commit is never built twice at once: whatever requests, schedulers,
    reapers, crashes, timeouts and connection failures have happened, in
    whatever interleaving, no two unfinished jobs share repository, commit and
    event. *)
Theorem one_unfinished_job_per_commit (s0 s : Sys (R := R)) (id id' : string) (row row' : JobRow)
    (HQ : QueueOk Q view) (Hi : initial s0) (Hr : reachable s0 s)
    (Hrow : db_jobs (w_db (world s)) !! id = Some row)
    (Hrow' : db_jobs (w_db (world s)) !! id' = Some row')
    (Hact : active (job_status row) = true) (Hact' : active (job_status row') = true)
    (Hkey : index_key (jr_job row) = index_key (jr_job row')) :
  id = id'.
Proof.
  destruct (reachable_from_initial Q Sch cfg heartbeat view s0 s s Hi Hr) as [Hwf _];
    [apply rtc_refl|]. by eapply (wf_unique _ Hwf).
Qed.

(** C4. Every job moves forward through its state machine.  A job begins QUEUED,
    and no step of the system - no call of any request, scheduler or reaper, in
    any interleaving and with any fault - moves it otherwise than to ASSIGNED
    from QUEUED, to RUNNING from ASSIGNED, to SUCCESS from RUNNING, back to
    QUEUED or to FAILED while a runner has it, or to CANCELLED before it is
    finished.  And between any two moments in the life of the system a job is
    never deleted, once it is finished it never changes again, what identifies
    it is fixed, its attempts only grow and its log is only appended to. *)
Theorem jobs_only_move_forward (s0 s1 s2 : Sys (R := R))
    (HQ : QueueOk Q view) (Hi : initial s0) (Hr : reachable s0 s1) (Hr' : reachable s1 s2) :
  (∀ s id row', sys_step Q Sch cfg heartbeat s1 s → db_jobs (w_db (world s)) !! id = Some row' →
     match db_jobs (w_db (world s1)) !! id with
     | None => job_status row' = JobQueued
     | Some row => job_status row' = job_status row ∨ job_step (job_status row) (job_status row')
     end) ∧
  (∀ id row, db_jobs (w_db (world s1)) !! id = Some row →
     ∃ row', db_jobs (w_db (world s2)) !! id = Some row' ∧
       (job_status row = JobSuccess ∨ job_status row = JobFailed ∨ job_status row = JobCancelled →
        jr_job row' = jr_job row) ∧
       job_identity (jr_job row') = job_identity (jr_job row) ∧
       (j_Attempts (jr_job row) ≤ j_Attempts (jr_job row'))%Z ∧
       ∃ tail, jr_logs row' = jr_logs row +:+ tail).
Proof.
  destruct (reachable_ok Q Sch cfg heartbeat view s0 s1 Hr (initial_ok s0 Hi)) as [Hok _]. split.
  - intros s id row' Hs Hrow'. pose proof (sys_step_next Q Sch cfg heartbeat s1 s Hs Hok id row' Hrow') as Hn.
    unfold row_next in Hn. by destruct (db_jobs (w_db (world s1)) !! id); destruct Hn.
  - intros id row Hrow. destruct (reachable_from_initial Q Sch cfg heartbeat view s0 s1 s2 Hi Hr Hr') as [_ Hev].
    destruct (evolves_jobs _ _ Hev _ _ Hrow) as (row' & Hrow' & [_ Ht Hid Ha Hl _]).
    exists row'. split_and!; try done. intros Hfin. apply Ht. by destruct Hfin as [-> |[-> | ->]].
Qed.

(** C31. What a row says is consistent in every reachable state: the status of a
    job agrees with its other columns (a QUEUED job has no runner and was not
    started, an ASSIGNED or RUNNING one has an existing runner and at least one
    attempt, a finished one has its completion time), and a runner is BUSY
    exactly when it has a current job. *)
Theorem rows_are_consistent (s0 s : Sys (R := R))
    (HQ : QueueOk Q view) (Hi : initial s0) (Hr : reachable s0 s) :
  (∀ id row, db_jobs (w_db (world s)) !! id = Some row →
     j_ID (jr_job row) = id ∧ job_wf (db_runners (w_db (world s))) (jr_job row)) ∧
  (∀ r rrow, db_runners (w_db (world s)) !! r = Some rrow →
     r_ID (rr_runner rrow) = r ∧ runner_wf (rr_runner rrow)).
Proof.
  destruct (reachable_from_initial Q Sch cfg heartbeat view s0 s s Hi Hr) as [Hwf _];
    [apply rtc_refl|]. split; intros k row Hk.
  - split; [by apply (wf_job_id _ Hwf)|by eapply (wf_job _ Hwf)].
  - split; [by apply (wf_runner_id _ Hwf)|by eapply (wf_runner _ Hwf)].
Qed.

Lemma reachable_typed (s0 s : Sys (R := R)) :
  initial s0 → reachable s0 s → db_typed (w_db (world s)).
Proof.
  intros Hi Hr.
  destruct Hi as [_ [now Hdb]]. assert (db_typed (w_db (world s0))) as Ht by (rewrite Hdb; apply empty_typed).
  clear Hdb. induction Hr as [|s s1 s2 Hs _ IH]; [done|]. apply IH.
  destruct Hs as [ts w e|ts w i p p' w' Hp Hs|ts w i|ts w w' He]; simpl in *; [done| |done|].
  - destruct p as [u|X c k]; simpl in Hs; [by injection Hs as _ <-|].
    pose proof (handle_typed c w Ht) as Hc. destruct (handle X c w). by injection Hs as _ <-.
  - destruct He; [|done..]. destruct Ht as [Hj Hrr]. by split.
Qed.
End theorems.
