(* ===== verification/JobApi.v ===== *)
(** * What the handlers do to a job (theorems about internal/api/jobs.go and runners.go) *)
From S2P Require Import Prelude GoLib Sha256 Json Prog Models Sql Redis World Tables Store Lifecycle Queue Outcome Scheduler Service Webhook Api Auth System.

#[local] Arguments mbind : simpl never.

(** ** Heartbeats *)

(** The runner has no business with the job any more. *)
Definition lease_lost (db : DB) (runnerID jobID : string) : bool :=
  match db_jobs db !! jobID with
  | None => true
  | Some row =>
      Terminal (job_status row) || negb (bool_decide (j_RunnerID (jr_job row) = Some runnerID))
  end.

Definition told_to_cancel (db : DB) (r : Request) (runnerID : string) : bool :=
  negb (bool_decide (named_job r = "")) && lease_lost db runnerID (named_job r).

Section heartbeat.
Context `{RangeOrder} {R : Type} `{Redis R}.

(** A heartbeat renews the lease or tells the runner that it has lost it.
    When nothing fails: an unknown runner is answered 404; a known one is marked
    alive (and back to IDLE if it was OFFLINE), and is told to stop exactly when
    the job it names does not exist, is finished, or belongs to someone else. *)
Theorem heartbeat_correct (r : Request) (id : string) (w : World R)
    (Hc : calm w) (Hwf : db_wf (w_db w)) :
  exec (handleHeartbeat r id) w =
  match db_runners (w_db w) !! id with
  | None => (mkResponse 404 (BodyError "unknown runner"), w)
  | Some row =>
      (mkResponse 200 (BodyHeartbeat "ok" (told_to_cancel (w_db w) r id)),
       set_db (set_runners (<[id := beat (db_now (w_db w)) row]> (db_runners (w_db w))) (w_db w)) w)
  end.
Proof.
  unfold handleHeartbeat. rewrite run_bind, implements_Heartbeat by done. unfold Spec.beat.
  destruct (db_runners (w_db w) !! id) as [row|] eqn:Hrow; simpl; [|by rewrite set_db_id].
  unfold told_to_cancel. case_decide as Hn.
  - by rewrite bool_decide_true.
  - rewrite bool_decide_false by done. unfold leaseLost, GetJob, lease_lost.
    rewrite !run_bind, run_call. cbn [handle]. rewrite do_sql_calm by done. simpl.
    by destruct (db_jobs (w_db w) !! named_job r).
Qed.
End heartbeat.

(** A heartbeat that names a finished job. *)
Section finished.
Context `{RangeOrder} {R : Type} `{Redis R}.

Lemma handleHeartbeat_finished (r : Request) (runnerID : string) (row : JobRow) (w : World R) :
  calm w → db_wf (w_db w) → is_Some (db_runners (w_db w) !! runnerID) →
  db_jobs (w_db w) !! named_job r = Some row → Terminal (job_status row) = true → named_job r ≠ "" →
  (exec (handleHeartbeat r runnerID) w).1 = mkResponse 200 (BodyHeartbeat "ok" true).
Proof.
  intros Hc Hwf [rrow Hr] Hrow Hfin Hne. unfold handleHeartbeat.
  rewrite run_bind, implements_Heartbeat by done. unfold Spec.beat. rewrite Hr. simpl. rewrite decide_False by done.
  unfold leaseLost, GetJob. rewrite !run_bind, run_call. cbn [handle].
  rewrite do_sql_calm by done. simpl. rewrite Hrow. simpl. by rewrite Hfin.
Qed.
End finished.

Section lease.
Context `{RangeOrder} {R : Type} `{Redis R}.
Context (Q : Queue) (Sch : Scheduler) (cfg : Config) (hb : Z) (view : World R → qstate).

(** Cancelling a build reaches the runner.  Once a job is finished (by a
    cancellation or otherwise), then whatever happens in the whole system from
    then on, every later heartbeat that names the job tells its runner, whoever
    it is, to stop. *)
Theorem finished_job_is_abandoned (s0 s1 s2 : Sys (R := R)) (jobID runnerID : string)
    (row : JobRow) (r : Request)
    (HQ : QueueOk Q view) (Hi : initial s0)
    (Hr : reachable Q Sch cfg hb s0 s1) (Hr' : reachable Q Sch cfg hb s1 s2)
    (Hrow : db_jobs (w_db (world s1)) !! jobID = Some row)
    (Hfin : Terminal (job_status row) = true)
    (Hc : calm (world s2)) (Hknown : is_Some (db_runners (w_db (world s2)) !! runnerID))
    (Hname : named_job r = jobID) (Hne : jobID ≠ "") :
  (exec (handleHeartbeat r runnerID) (world s2)).1 = mkResponse 200 (BodyHeartbeat "ok" true).
Proof.
  destruct (reachable_from_initial Q Sch cfg hb view s0 s1 s2 Hi Hr Hr') as [_ Hev].
  destruct (reachable_from_initial Q Sch cfg hb view s0 s2 s2 Hi) as [Hwf2 _];
    [by unfold reachable in *; etrans|apply rtc_refl|].
  destruct (evolves_jobs _ _ Hev _ _ Hrow) as (row' & Hrow' & [_ Ht _ _ _ _]).
  apply (handleHeartbeat_finished r runnerID row'); [done..| | |]; rewrite ?Hname; try done. by rewrite Ht.
Qed.
End lease.

(** ** Cancelling *)

Section cancel.
Context `{RangeOrder} {R : Type} `{Redis R}.

Definition cancelled (db : DB) (row : JobRow) : JobRow := Spec.moved (db_now db) JobCancelled SetCancelled row.

(** Cancelling, when nothing fails: 404 for an unknown job; 409, and no
    change, for a finished one; otherwise 200, the job is CANCELLED, and the
    runner that held it, if any, is IDLE again. *)
Theorem cancel_correct (id : string) (w : World R) (Hc : calm w) (Hg : good (w_db w)) :
  let '(resp, w') := exec (handleCancelJob id) w in
  match db_jobs (w_db w) !! id with
  | None => resp = mkResponse 404 (BodyError "job not found") ∧ w' = w
  | Some row =>
      if Terminal (job_status row) then rs_code resp = 409%Z ∧ w' = w
      else
        resp = mkResponse 200 (BodyFields [("status", "CANCELLED")]) ∧ good (w_db w') ∧
        db_jobs (w_db w') = <[id := cancelled (w_db w) row]> (db_jobs (w_db w)) ∧
        (∀ r rrow, j_RunnerID (jr_job row) = Some r → db_runners (w_db w) !! r = Some rrow →
           db_runners (w_db w') !! r = Some (release rrow))
  end.
Proof.
  pose proof Hg as [Hwf Ha].
  assert (implements (R:=R) (CancelJob id) (Spec.finish id JobCancelled SetCancelled)) as Hi
    by by apply implements_finish.
  pose proof (good_finish id JobCancelled SetCancelled (w_db w) eq_refl eq_refl Hg) as Hag.
  destruct (safe_step (CancelJob id) w) as [Hwf' _]; [eauto with calls|done|].
  unfold handleCancelJob. rewrite run_bind. rewrite (Hi w Hc Hwf) in *.
  unfold Spec.finish, Spec.move in *. destruct (db_jobs (w_db w) !! id) as [row|] eqn:Hrow;
    [|by rewrite set_db_id].
  assert (CanTransitionTo (job_status row) JobCancelled = negb (Terminal (job_status row))) as Hcan
    by by destruct (job_status row).
  rewrite Hcan in *. destruct (Terminal (job_status row)) eqn:Ht; simpl in *.
  { rewrite set_db_id. by destruct (job_status row). }
  split; [done|]. split; [done|]. split; [by destruct (j_RunnerID (jr_job row))|].
  intros r rrow Hr Hrr. rewrite Hr. simpl. rewrite lookup_alter, decide_True, Hrr by done. simpl.
  destruct (agree_job _ Ha id row r Hrow) as (rrow' & Hrr' & Hb & _); [|done|].
  - pose proof (wf_job _ Hwf _ _ Hrow) as [_ Hj]. destruct (job_status row); try done.
    destruct Hj as [Hj _]. congruence.
  - simplify_eq. by rewrite decide_True.
Qed.
End cancel.

(** ** Starting *)

Section start.
Context `{RangeOrder} {R : Type} `{Redis R} (cfg : Config).

Definition running (db : DB) (row : JobRow) : JobRow := Spec.moved (db_now db) JobRunning SetStarted row.

(** Its owner starts a job that is ASSIGNED, when nothing fails. *)
Lemma handleJobStart_starts (r : Request) (id runnerID : string) (row : JobRow) (w : World R) :
  calm w → good (w_db w) → db_jobs (w_db w) !! id = Some row → job_status row = JobAssigned →
  j_RunnerID (jr_job row) = Some runnerID → rq_Header r "X-Runner-ID" = runnerID →
  ∃ w', exec (handleJobStart cfg r id) w = (mkResponse 200 (BodyFields [("status", "RUNNING")]), w') ∧
    calm w' ∧ good (w_db w') ∧ w_uuids w' = w_uuids w ∧
    w_db w' = Spec.put_job id (running (w_db w) row) (w_db w).
Proof.
  intros Hc Hg Hrow Hst Hown Hhdr. pose proof Hg as [Hwf Ha].
  pose proof (good_start id (w_db w) Hg) as Hag.
  destruct (safe_step (StartJob id) w) as [Hwf' _]; [eauto with calls|done|].
  unfold handleJobStart, ifOwner, runnerOwnsJob, GetJob. rewrite !run_bind, run_call. cbn [handle].
  rewrite do_sql_calm by done. simpl. rewrite Hrow, set_db_id. simpl. rewrite bool_decide_true by congruence.
  rewrite run_bind, (implements_StartJob id w Hc Hwf) in *. unfold Spec.start, Spec.move in *.
  rewrite Hrow, Hst in *. simpl in *.
  rewrite do_sql_calm by done. simpl. rewrite lookup_insert_eq. simpl.
  eexists. split; [reflexivity|]. by split_and!.
Qed.
End start.

(** ** Results *)

Section result.
Context `{RangeOrder} {R : Type} `{Redis R} (cfg : Config).

(** The result a request reports. *)
Definition reports (r : Request) (status : JobStatus) (exitCode : Z) (errMsg : string) : Prop :=
  Decode (dec_struct result_fields) (mkResult "" 0 "") 65536 (rq_Body r) =
    (mkResult (job_status_string status) exitCode errMsg, false) ∧
  (status = JobSuccess ∨ status = JobFailed).

Definition completed (db : DB) (status : JobStatus) (exitCode : Z) (errMsg : string) (row : JobRow) :
    JobRow := Spec.moved (db_now db) status (SetCompleted exitCode errMsg) row.

(** The effect of a result that is handled. *)
Definition result_handled (id runnerID : string) (row : JobRow) (rrow : RunnerRow)
    (status : JobStatus) (exitCode : Z) (errMsg : string) (w : World R) (o : Response * World R) : Prop :=
  let '(resp, w') := o in
  if CanTransitionTo (job_status row) status then
    resp = mkResponse 200 (BodyFields [("status", job_status_string status)]) ∧ good (w_db w') ∧
    db_jobs (w_db w') = <[id := completed (w_db w) status exitCode errMsg row]> (db_jobs (w_db w)) ∧
    db_runners (w_db w') !! runnerID = Some (release rrow) ∧
    ∃ target, w_reports w' = w_reports w ++
      [mkStatusPost (j_Repository (jr_job row)) (j_CommitSHA (jr_job row))
         (result_report status exitCode).1 (result_report status exitCode).2 target]
  else rs_code resp = 409%Z ∧ w' = w.

(** Reporting a result, when nothing fails and the caller owns the job.  If the
    state machine allows it, the job is stored with the reported status, exit
    code and message, its runner is IDLE again, the commit status goes to GitHub
    and the answer is 200.  Otherwise - the job was cancelled or finished in the
    meantime - the answer is 409 and nothing changes. *)
Lemma handleJobResult_handled (r : Request) (id runnerID : string) (row : JobRow) (rrow : RunnerRow)
    (status : JobStatus) (exitCode : Z) (errMsg : string) (w : World R) :
  calm w → good (w_db w) → reports r status exitCode errMsg →
  db_jobs (w_db w) !! id = Some row → j_RunnerID (jr_job row) = Some runnerID →
  rq_Header r "X-Runner-ID" = runnerID → db_runners (w_db w) !! runnerID = Some rrow →
  int4_ok exitCode = true → text_ok errMsg = true →
  result_handled id runnerID row rrow status exitCode errMsg w (exec (handleJobResult cfg r id) w).
Proof.
  intros Hc Hg Hrep Hrow Hown Hhdr Hrr Hint Htext. unfold result_handled.
  pose proof Hg as [Hwf Ha]. destruct Hrep as [Hdec Hst].
  assert (clause_for status (SetCompleted exitCode errMsg)) as Hcl by done.
  assert (implements (R:=R) (CompleteJob id status exitCode errMsg)
    (Spec.finish id status (SetCompleted exitCode errMsg))) as Hi by by apply implements_finish.
  assert (holding status = false) as Hhold by by destruct Hst as [->| ->].
  pose proof (good_finish id status _ (w_db w) Hcl Hhold Hg) as Hag.
  destruct (safe_step (CompleteJob id status exitCode errMsg) w) as [Hwf' _];
    [by apply safe_CompleteJob|done|].
  unfold handleJobResult, ifOwner, runnerOwnsJob, GetJob. rewrite !run_bind, run_call. cbn [handle].
  rewrite do_sql_calm by done. simpl. rewrite Hrow, set_db_id. simpl.
  rewrite bool_decide_true by congruence. rewrite Hdec. cbn [rt_Status rt_ExitCode rt_Error].
  assert (ParseJobStatus (job_status_string status) = Ok status) as -> by by apply ParseJobStatus_ok.
  assert (negb (bool_decide (status = JobSuccess)) && negb (bool_decide (status = JobFailed)) = false)
    as -> by by destruct Hst as [->| ->].
  rewrite run_bind, (Hi w Hc Hwf) in *. unfold Spec.finish, Spec.move in *. rewrite Hrow in *.
  assert (set_clause_ok (SetCompleted exitCode errMsg) = true) as Hset by (simpl; by rewrite Hint, Htext).
  rewrite Hset in *.
  destruct (CanTransitionTo (job_status row) status) eqn:Hcan; simpl; [|by rewrite set_db_id].
  simpl in Hag, Hwf'. rewrite Hown in Hag, Hwf' |- *. simpl in *.
  rewrite do_sql_calm by done. simpl. rewrite lookup_insert_eq. simpl.
  destruct (result_report status exitCode) as [state desc] eqn:Hrr'. simpl.
  split; [done|]. split; [by split|]. split; [done|]. split; [|by eexists].
  rewrite lookup_alter, decide_True, Hrr by done. simpl.
  destruct (agree_job _ Ha id row runnerID Hrow) as (rrow' & Hrr2 & Hb & _); [|done|].
  - by destruct (job_status row), Hst as [->| ->].
  - simplify_eq. by rewrite decide_True.
Qed.
End result.

(** ** Listing *)

Lemma list_limit_range param : (1 ≤ list_limit param ≤ 500)%Z.
Proof. unfold list_limit. repeat case_match; lia. Qed.

Section listing.
Context `{RangeOrder} {R : Type} `{Redis R}.

(** C33. Listing jobs, when nothing fails: whatever the [limit] parameter, the
    answer has at most 500 jobs; they are jobs of the table, newest first, and a
    job that was left out is no newer than any that is listed. *)
Theorem list_returns_newest (r : Request) (w : World R) (Hc : calm w) :
  ∃ listed rest,
    (exec (handleListJobs r) w).1 = mkResponse 200 (BodyJobs listed) ∧
    (length listed ≤ 500) ∧
    listed ++ rest ≡ₚ (jr_job ∘ snd) <$> map_to_list (db_jobs (w_db w)) ∧
    StronglySorted created_desc listed ∧
    ∀ j j', j ∈ listed → j' ∈ rest → created_desc j j'.
Proof.
  pose proof (list_limit_range (rq_Query r "limit")) as Hl.
  set (all := merge_sort created_desc ((jr_job ∘ snd) <$> range_order (db_jobs (w_db w)))).
  set (n := Z.to_nat (list_limit (rq_Query r "limit"))).
  assert (StronglySorted created_desc (take n all ++ drop n all)) as Hs.
  { rewrite take_drop. apply StronglySorted_merge_sort; [intros j1 j2 j3; unfold created_desc; lia|].
    intros j1 j2. unfold created_desc. lia. }
  exists (take n all), (drop n all). split_and!.
  - unfold handleListJobs, ListJobs. rewrite !run_bind, run_call. cbn [handle].
    rewrite do_sql_calm by done. simpl. unfold sql_select_jobs.
    rewrite (proj2 (Z.ltb_ge _ _)) by lia. done.
  - rewrite length_take. lia.
  - rewrite take_drop. unfold all. rewrite merge_sort_Permutation. by rewrite range_order_perm.
  - by apply StronglySorted_app_1_l in Hs.
  - intros j j' Hj Hj'. by eapply StronglySorted_app_1_elem_of.
Qed.
End listing.
