(* ===== verification/Scenario.v ===== *)
(** * A control plane in operation

    A concrete configuration, a runner, and the requests it and GitHub send, on
    the Redis and the enumeration order of the model.  Schedules of these
    requests, executed by [play], exhibit reachable states: the witnesses of the
    system's theorems, and the race of [releaseRunner]. *)
From S2P Require Import Prelude GoLib Sha256 Json Prog Models Sql Redis World Tables Store Lifecycle Queue Outcome Scheduler Service Webhook Api System.
From Stdlib Require Import Ascii.

#[local] Existing Instances key_order gmap_redis.

Definition cfg : Config := mkConfig "webhook-secret" "join" "http://forgerun".

(** 45 seconds, in nanoseconds *)
Definition heartbeat : Z := 45000000000.

(** JSON with single quotes for double ones. *)
Fixpoint json_text (s : string) : string :=
  match s with
  | EmptyString => EmptyString
  | String.String c s => String.String (if Ascii.eqb c "'"%char then dquote else c) (json_text s)
  end.

(** Header lists; every request brings its own request id. *)
Fixpoint header (hs : list (string * string)) (name : string) : string :=
  match hs with
  | [] => if bool_decide (name = "X-Request-ID") then "request" else ""
  | (n, v) :: hs => if bool_decide (name = n) then v else header hs name
  end.

Definition request (path : list string) (hs : list (string * string)) (body : string) : Request :=
  mkRequest "POST" path (header hs) (λ _, "") (json_text body).

Definition token_bytes : string := "0123456789abcdef0123456789abcdef".
Definition token : string := base64_encode (octets token_bytes).

Definition register_request : Request :=
  request ["api"; "v1"; "runners"; "register"] [("X-Registration-Token", "join")]
    "{'name': 'builder', 'labels': ['linux', 'docker'], 'architecture': 'amd64', 'operating_system': 'linux'}".

Definition credentials : list (string * string) :=
  [("X-Runner-ID", "runner-1"); ("Authorization", "Bearer " +:+ token)].

Definition push_body (sha : string) : string :=
  "{'ref': 'refs/heads/main', 'after': '" +:+ sha +:+
  "', 'repository': {'full_name': 'octo/app', 'clone_url': 'https://github.com/octo/app.git'}}".

Definition sign (body : string) : string :=
  "sha256=" +:+ hex_encode (hmac_sha256 (octets (GitHubWebhookSecret cfg)) (octets (json_text body))).

Definition push_request (sha : string) : Request :=
  request ["webhooks"; "github"]
    [("X-GitHub-Event", "push"); ("X-Hub-Signature-256", sign (push_body sha))] (push_body sha).

Definition job_request (id op : string) (body : string) : Request :=
  request ["api"; "v1"; "jobs"; id; op] credentials body.

Definition logs_request (id seq chunk : string) : Request :=
  mkRequest "POST" ["api"; "v1"; "jobs"; id; "logs"] (header (("X-Log-Seq", seq) :: credentials))
    (λ _, "") chunk.

Definition heartbeat_request (body : string) : Request :=
  request ["api"; "v1"; "runners"; "runner-1"; "heartbeat"] credentials body.

Definition sha_a : string := "aaaaaaaaaaaaaaaaaaaaaaaaaaaaaaaaaaaaaaaa".
Definition sha_b : string := "bbbbbbbbbbbbbbbbbbbbbbbbbbbbbbbbbbbbbbbb".
Definition sha_c : string := "cccccccccccccccccccccccccccccccccccccccc".

Abbreviation sys := (Sys (R := gmap string (list string))).
Abbreviation reachable := (System.reachable RedisQueue_impl CapabilityScheduler cfg heartbeat).
Abbreviation play := (System.play RedisQueue_impl CapabilityScheduler cfg heartbeat).

Definition boot : sys := mkSys [] (mkWorld (empty_db 0) ∅ [] [] [] [] [] []).

Lemma boot_initial : initial boot.
Proof. split; [done|]. by exists 0%Z. Qed.

#[export] Instance gmap_redis_queue : QueueOk RedisQueue_impl redis_view.
Proof. apply (@RedisQueue_ok key_order _ gmap_redis gmap_redis_ok). Qed.

(** A runner registers and a push is queued (threads 0 and 1). *)
Definition queued : list event :=
  [Answers ["runner-1"; "job-a"; "job-b"; "job-c"] [Some token_bytes];
   Spawn (ERequest register_request); Finish 0;
   Spawn (ERequest (push_request sha_a)); Finish 1].

(** The scheduler assigns it and the runner starts it (threads 2 and 3). *)
Definition started : list event :=
  queued ++ [Spawn (EScheduler 1); Finish 2; Spawn (ERequest (job_request "job-a" "start" "")); Finish 3].

(** The runner reports the result; the API moves the job to SUCCESS but has not
    yet released the runner (thread 4). *)
Definition half_finished : list event :=
  started ++ [Spawn (ERequest (job_request "job-a" "result" "{'status': 'SUCCESS'}")); Step 4 4].

(** Meanwhile the runner is silent for a minute, is reaped, comes back and is
    given job-b (threads 5 to 8). *)
Definition given_another : list event :=
  half_finished ++
  [Tick 60000000; Spawn EReaper; Finish 5; Spawn (ERequest (heartbeat_request "")); Finish 6;
   Spawn (ERequest (push_request sha_b)); Finish 7; Spawn (EScheduler 1); Finish 8].

(** Now the release is executed, and job-c arrives (threads 9 and 10). *)
Definition released : list event :=
  given_another ++
  [Step 4 1; Spawn (ERequest (push_request sha_c)); Finish 9; Spawn (EScheduler 1); Finish 10].

(** The status of a job and the runner recorded on it. *)
Definition assignment (s : sys) (id : string) : option (JobStatus * option string) :=
  (λ row, (job_status row, j_RunnerID (jr_job row))) <$> db_jobs (w_db (world s)) !! id.

(** C34. [releaseRunner] frees whatever job its runner holds at the time, not the
    job it was called for.  In a reachable state two jobs are ASSIGNED to the same
    runner: the result of a first job is being processed when its runner is
    reaped, comes back and is given a second job; the release that was still
    outstanding then makes the runner look idle, and a third job is assigned to
    it. *)
Theorem late_release_double_books :
  ∃ s, reachable boot s ∧
    assignment s "job-b" = Some (JobAssigned, Some "runner-1") ∧
    assignment s "job-c" = Some (JobAssigned, Some "runner-1").
Proof.
  exists (play released boot). split; [apply play_reachable|]. split; vm_compute; reflexivity.
Qed.

(** ** Worlds to instantiate theorems at *)

(** The tables agree, as a test. *)
Definition agree_check (db : DB) : bool :=
  forallb (λ kv : string * JobRow,
    match holding (job_status kv.2), j_RunnerID (jr_job kv.2) with
    | true, Some r =>
        match db_runners db !! r with
        | Some rrow => bool_decide (r_Status (rr_runner rrow) = RunnerBusy) &&
                       bool_decide (r_CurrentJobID (rr_runner rrow) = Some kv.1)
        | None => false
        end
    | _, _ => true
    end) (map_to_list (db_jobs db)) &&
  forallb (λ kv : string * RunnerRow,
    match r_CurrentJobID (rr_runner kv.2) with
    | Some id =>
        match db_jobs db !! id with
        | Some row => holding (job_status row) && bool_decide (j_RunnerID (jr_job row) = Some kv.1)
        | None => false
        end
    | None => true
    end) (map_to_list (db_runners db)).

Lemma agree_check_ok db : agree_check db = true → agree db.
Proof.
  assert (∀ V (m : gmap string V) k v, m !! k = Some v → List.In (k, v) (map_to_list m)) as Hin.
  { intros V m k v Hk. by apply list_elem_of_In, elem_of_map_to_list. }
  unfold agree_check. rewrite andb_true_iff, !List.forallb_forall. intros [Hj Hr]. split.
  - intros id row r Hrow Hh Hid. specialize (Hj (id, row) (Hin _ _ _ _ Hrow)). simpl in Hj.
    rewrite Hh, Hid in Hj. destruct (db_runners db !! r) as [rrow|]; [|done]. exists rrow.
    by apply andb_true_iff in Hj as [?%bool_decide_eq_true ?%bool_decide_eq_true].
  - intros r rrow id Hrr Hcur. specialize (Hr (r, rrow) (Hin _ _ _ _ Hrr)). simpl in Hr.
    rewrite Hcur in Hr. destruct (db_jobs db !! id) as [row|]; [|done]. exists row.
    by apply andb_true_iff in Hr as [? ?%bool_decide_eq_true].
Qed.

Lemma played_wf evs : db_wf (w_db (world (play evs boot))).
Proof.
  destruct (reachable_from_initial RedisQueue_impl CapabilityScheduler cfg heartbeat redis_view
    boot (play evs boot) (play evs boot)) as [Hwf _];
    [apply boot_initial|apply play_reachable|apply rtc_refl|done].
Qed.
