(* ===== verification/LogStream.v ===== *)
(** * The log streamer of a runner (internal/runner/logstream.go)

    Build output is written by one goroutine while a ticker flushes what has
    accumulated and Close flushes the rest.  The goroutines are program trees
    over the streamer's critical sections; a configuration holds them all and
    steps one at a time, a blocked Lock being a step that cannot be taken.

    The discipline of the two mutexes is a typestate ([obeys]): it says what a
    goroutine holds after each call, and every invariant of a configuration is
    stated by means of it. *)
From S2P Require Import Prelude GoLib Prog.

(** [sync.Once]: a second caller of Do waits until the first one is through. *)
Inductive once_state : Type := OnceFresh | OnceRunning | OnceDone.

Record logStreamer : Type := mkStreamer {
  ls_buf : string;
  ls_sendMu : bool;                (* locked *)
  ls_seq : Z;
  ls_done : bool;                  (* closed *)
  ls_once : once_state;
  ls_ctx : bool;                   (* [ctx] is done *)
  ls_sent : list (Z * string);     (* the calls of [send] *)
  ls_written : string              (* all output so far *)
}.

Definition newLogStreamer : logStreamer := mkStreamer "" false 0 false OnceFresh false [] "".

(** The atomic calls; [mu] is held within [BufWrite] and [BufTake] only. *)
Inductive StreamCall : Type → Type :=
| BufWrite (p : string) : StreamCall unit
| BufTake : StreamCall string     (* the chunk; empty when there is nothing to send *)
| LockSend : StreamCall unit
| UnlockSend : StreamCall unit
| IncSeq : StreamCall Z
| SendChunk (seq : Z) (chunk : string) : StreamCall unit
| OnceEnter : StreamCall bool     (* this caller runs the function *)
| OnceExit : StreamCall unit
| CloseDone : StreamCall unit
| Select : StreamCall bool.       (* [true]: the ticker fired; [false]: return *)

(** ** The methods *)

Definition Write (p : string) : Prog StreamCall unit := call (BufWrite p).

Definition flush : Prog StreamCall unit :=
  _ ← call LockSend;
  chunk ← call BufTake;
  if bool_decide (chunk = "") then call UnlockSend
  else
    seq ← call IncSeq;
    _ ← call (SendChunk seq chunk);
    call UnlockSend.

Definition Close : Prog StreamCall unit :=
  first ← call OnceEnter;
  if first : bool
  then (_ ← call CloseDone; _ ← flush; call OnceExit)
  else mret tt.

(** The goroutine [newLogStreamer] starts, for [n] turns of its loop. *)
Fixpoint ticker (n : nat) : Prog StreamCall unit :=
  match n with
  | 0 => mret tt
  | S n =>
      fired ← call Select;
      if fired : bool then (_ ← flush; ticker n) else mret tt
  end.

(** The job: its output piece by piece, then Close. *)
Fixpoint writes (ps : list string) : Prog StreamCall unit :=
  match ps with
  | [] => Close
  | p :: ps => _ ← Write p; writes ps
  end.

(** ** Steps

    [fire] is the choice of Select where there is one. *)
Definition answer (fire : bool) {X} (c : StreamCall X) (s : logStreamer) :
    option (X * logStreamer) :=
  let '(mkStreamer buf mu seq done once ctx sent written) := s in
  match c in StreamCall X return option (X * logStreamer) with
  | BufWrite p => Some (tt, mkStreamer (buf +:+ p) mu seq done once ctx sent (written +:+ p))
  | BufTake => Some (buf, mkStreamer "" mu seq done once ctx sent written)
  | LockSend =>
      if mu then None else Some (tt, mkStreamer buf true seq done once ctx sent written)
  | UnlockSend => Some (tt, mkStreamer buf false seq done once ctx sent written)
  | IncSeq => Some (seq + 1, mkStreamer buf mu (seq + 1) done once ctx sent written)%Z
  | SendChunk n chunk =>
      Some (tt, mkStreamer buf mu seq done once ctx (sent ++ [(n, chunk)]) written)
  | OnceEnter =>
      match once with
      | OnceFresh => Some (true, mkStreamer buf mu seq done OnceRunning ctx sent written)
      | OnceRunning => None
      | OnceDone => Some (false, s)
      end
  | OnceExit => Some (tt, mkStreamer buf mu seq done OnceDone ctx sent written)
  | CloseDone => Some (tt, mkStreamer buf mu seq true once ctx sent written)
  | Select =>
      if fire then Some (true, s) else if done || ctx then Some (false, s) else None
  end.

Definition config : Type := list (Prog StreamCall unit) * logStreamer.

Inductive stream_step : relation config :=
| stream_call ts s i fire X (c : StreamCall X) k x s' :
    ts !! i = Some (Vis c k) → answer fire c s = Some (x, s') →
    stream_step (ts, s) (<[i := k x]> ts, s')
| stream_cancel ts s :
    stream_step (ts, s)
      (ts, mkStreamer (ls_buf s) (ls_sendMu s) (ls_seq s) (ls_done s) (ls_once s) true
             (ls_sent s) (ls_written s)).

(** The job's goroutine and the ticker's. *)
Definition stream_start (ps : list string) (turns : nat) : config :=
  ([writes ps; ticker turns], newLogStreamer).

(** Execute a schedule: which goroutine, and the choice of Select. *)
Fixpoint stream_play (sched : list (nat * bool)) (cf : config) : option config :=
  match sched with
  | [] => Some cf
  | (i, fire) :: sched =>
      match cf.1 !! i with
      | Some (Vis c k) =>
          match answer fire c cf.2 with
          | Some (x, s') => stream_play sched (<[i := k x]> cf.1, s')
          | None => None
          end
      | _ => None
      end
  end.

Lemma stream_play_reachable sched cf cf' :
  stream_play sched cf = Some cf' → rtc stream_step cf cf'.
Proof.
  revert cf. induction sched as [|[i fire] sched IH]; intros [ts s]; simpl.
  { intros [= <-]. apply rtc_refl. }
  destruct (ts !! i) as [[?|X c k]|] eqn:Ht; [done| |done].
  destruct (answer fire c s) as [[x s']|] eqn:Ha; [|done].
  intros Hp. eapply rtc_l; [by eapply stream_call|]. by apply IH.
Qed.

(** ** The typestate *)

(** What a goroutine holds: nothing; sendMu; also a chunk; also its number. *)
Inductive hold : Type :=
| Free
| Locked
| Taken (chunk : string)
| Numbered (seq : Z) (chunk : string).

Fixpoint obeys (h : hold) (p : Prog StreamCall unit) : Prop :=
  match p with
  | Ret _ => h = Free
  | Vis c k =>
      match c in StreamCall X return (hold → X → Prop) → Prop with
      | BufWrite _ => λ next, h = Free ∧ next Free tt
      | BufTake => λ next, h = Locked ∧ next Locked "" ∧ ∀ chunk, chunk ≠ "" → next (Taken chunk) chunk
      | LockSend => λ next, h = Free ∧ next Locked tt
      | UnlockSend => λ next, h = Locked ∧ next Free tt
      | IncSeq => λ next, ∃ chunk, h = Taken chunk ∧ ∀ n, next (Numbered n chunk) n
      | SendChunk n chunk => λ next, h = Numbered n chunk ∧ next Locked tt
      | OnceEnter | Select => λ next, h = Free ∧ ∀ b, next Free b
      | OnceExit | CloseDone => λ next, h = Free ∧ next Free tt
      end (λ h' x, obeys h' (k x))
  end.

Lemma obeys_bind h p q :
  obeys h p → (∀ u, obeys Free (q u)) → obeys h (p ≫= q).
Proof.
  intros Hp Hq. revert h Hp. induction p as [u|X c k IH]; intros h; simpl.
  { intros ->. apply Hq. }
  destruct c; naive_solver.
Qed.

Lemma obeys_Write p : obeys Free (Write p).
Proof. done. Qed.

Lemma obeys_flush : obeys Free flush.
Proof.
  cbn. split_and!; [done|done|by rewrite bool_decide_true|].
  intros chunk Hc. rewrite bool_decide_false by done. cbn. naive_solver.
Qed.

Lemma obeys_Close : obeys Free Close.
Proof.
  cbn -[flush]. split; [done|]. intros []; [|done]. cbn -[flush]. split; [done|].
  apply obeys_bind; [apply obeys_flush|done].
Qed.

Lemma obeys_ticker n : obeys Free (ticker n).
Proof.
  induction n as [|n IH]; [done|]. cbn -[flush]. split; [done|].
  intros []; [|done]. by apply obeys_bind; [apply obeys_flush|].
Qed.

Lemma obeys_writes ps : obeys Free (writes ps).
Proof. induction ps as [|p ps IH]; [apply obeys_Close|]. by split. Qed.

(** ** The invariant of every configuration *)

(** The goroutine that holds sendMu, and what it holds. *)
Definition held (holder : option (nat * hold)) (j : nat) : hold :=
  match holder with Some (i, h) => if decide (i = j) then h else Free | None => Free end.

Definition in_hand (h : hold) : string :=
  match h with Taken chunk | Numbered _ chunk => chunk | Free | Locked => "" end.

Definition held_chunk (holder : option (nat * hold)) : string :=
  match holder with Some (_, h) => in_hand h | None => "" end.

Definition locked (holder : option (nat * hold)) : bool :=
  match holder with Some _ => true | None => false end.

(** The number handed out last. *)
Definition numbered (holder : option (nat * hold)) (sent : nat) (seq : Z) : Prop :=
  match holder with
  | Some (_, Numbered n _) => seq = n ∧ n = Z.of_nat sent + 1
  | _ => seq = Z.of_nat sent
  end%Z.

(** All output is sent, in hand or in the buffer, in order, and the chunks sent
    are numbered from 1. *)
Record accounted (holder : option (nat * hold)) (s : logStreamer) : Prop := {
  acc_lock : ls_sendMu s = locked holder;
  acc_output : ls_written s =
    concat_strings (ls_sent s).*2 +:+ held_chunk holder +:+ ls_buf s;
  acc_numbers : (ls_sent s).*1 = seqZ 1 (Z.of_nat (length (ls_sent s)));
  acc_seq : numbered holder (length (ls_sent s)) (ls_seq s)
}.

Definition disciplined (holder : option (nat * hold)) (ts : list (Prog StreamCall unit)) : Prop :=
  (∀ i h, holder = Some (i, h) → h ≠ Free) ∧
  ∀ j p, ts !! j = Some p → obeys (held holder j) p.

(** Goroutine [i] now holds [h]. *)
Definition rehold (i : nat) (h : hold) (holder : option (nat * hold)) : option (nat * hold) :=
  match h with
  | Free => match holder with
            | Some (i', _) => if decide (i' = i) then None else holder
            | None => None
            end
  | _ => Some (i, h)
  end.

Lemma rehold_same i h holder :
  (∀ i h, holder = Some (i, h) → h ≠ Free) → held holder i = h → rehold i h holder = holder.
Proof.
  destruct holder as [[i' h']|]; simpl; [|by intros _ <-].
  intros Hf. specialize (Hf i' h' eq_refl). case_decide; simplify_eq.
  - by intros <-; destruct h'.
  - intros <-. simpl. by rewrite decide_False by done.
Qed.

Lemma disciplined_rehold i h holder ts p :
  disciplined holder ts → (held holder i ≠ Free ∨ locked holder = false) →
  obeys h p → disciplined (rehold i h holder) (<[i := p]> ts).
Proof.
  intros [Hf Ho] Hi Hp.
  assert (∀ j, held (rehold i h holder) j = if decide (i = j) then h else Free) as Hheld.
  { intros j. destruct holder as [[i' h']|]; simpl in *.
    - destruct Hi as [Hi|]; [|done]. case_decide as Hii; [subst i'|done].
      destruct h; simpl; rewrite ?decide_True by done; simpl; by case_decide.
    - destruct h; simpl; by case_decide. }
  split.
  - intros i1 h1. destruct h, holder as [[??]|]; simpl; repeat case_decide; naive_solver.
  - intros j q Hq. rewrite Hheld. apply list_lookup_insert_Some in Hq as [(<- & <- & _)|[Hne Hq]].
    + by rewrite decide_True.
    + rewrite decide_False by done. specialize (Ho _ _ Hq).
      destruct holder as [[i' h']|]; simpl in *; [|done].
      destruct Hi as [Hi|]; [|done]. repeat case_decide; congruence.
Qed.

Lemma disciplined_same i holder ts p :
  disciplined holder ts → obeys (held holder i) p → disciplined holder (<[i := p]> ts).
Proof.
  intros [Hf Ho] Hp. split; [done|]. intros j q Hq.
  apply list_lookup_insert_Some in Hq as [(<- & <- & _)|[_ Hq]]; auto.
Qed.

(** What the goroutine holds after a call. *)
Definition next_hold {X} (c : StreamCall X) (h : hold) : X → hold :=
  match c in StreamCall X return X → hold with
  | BufTake => λ chunk, if decide (chunk = "") then Locked else Taken chunk
  | LockSend => λ _, Locked
  | UnlockSend => λ _, Free
  | IncSeq => λ n, Numbered n (in_hand h)
  | SendChunk _ _ => λ _, Locked
  | _ => λ _, h
  end.

Lemma obeys_next h X (c : StreamCall X) k x : obeys h (Vis c k) → obeys (next_hold c h x) (k x).
Proof.
  destruct c; cbn -[decide]; try naive_solver; try (destruct x; naive_solver).
Qed.

(** What the typestate says about the goroutine that makes call [c]. *)
Lemma rehold_case holder ts i X (c : StreamCall X) k x fire s s' :
  disciplined holder ts → accounted holder s → ts !! i = Some (Vis c k) →
  answer fire c s = Some (x, s') →
  let h := held holder i in
  (h ≠ Free ∨ locked holder = false) ∨ next_hold c h x = Free ∧ h = Free.
Proof.
  intros [_ Ho] [Hl _ _ _] Hi Ha. specialize (Ho _ _ Hi). simpl.
  destruct s as [buf mu seq done once ctx sent written]; simpl in *.
  destruct c; cbn -[decide] in *; try destruct Ho as (chunk & ? & ?);
    destruct_and?; try (by right); try (left; left; congruence).
  left. right. by destruct mu, (locked holder).
Qed.

Definition hold_after {X} (i : nat) (c : StreamCall X) (x : X) (holder : option (nat * hold)) :=
  rehold i (next_hold c (held holder i) x) holder.

Lemma disciplined_step holder ts i X (c : StreamCall X) k x fire s s' :
  disciplined holder ts → accounted holder s → ts !! i = Some (Vis c k) →
  answer fire c s = Some (x, s') → disciplined (hold_after i c x holder) (<[i := k x]> ts).
Proof.
  intros Hd Hacc Hi Ha. pose proof (obeys_next _ _ _ _ x (proj2 Hd _ _ Hi)) as Hk.
  destruct (rehold_case _ _ _ _ _ _ _ _ _ _ Hd Hacc Hi Ha) as [Hc|[Hn Hf]].
  - by apply disciplined_rehold.
  - unfold hold_after. rewrite Hn, rehold_same in *; [|apply Hd|done].
    apply disciplined_same; [done|]. by rewrite Hf.
Qed.

Lemma held_Some holder i h :
  held holder i = h → h ≠ Free → holder = Some (i, h).
Proof.
  destruct holder as [[i' h']|]; simpl; [|by intros <-]. case_decide; by intros <-; subst.
Qed.

Lemma accounted_step holder ts i X (c : StreamCall X) k x fire s s' :
  disciplined holder ts → accounted holder s → ts !! i = Some (Vis c k) →
  answer fire c s = Some (x, s') → accounted (hold_after i c x holder) s'.
Proof.
  intros Hd Hacc Hi Ha. pose proof (proj2 Hd _ _ Hi) as Ho. unfold hold_after.
  destruct Hacc as [Hl Hout Hnum Hseq].
  destruct s as [buf mu seq done once ctx sent written]; cbn [ls_buf ls_sendMu ls_seq ls_sent ls_written] in *.
  pose proof (proj1 Hd) as Hfree.
  destruct c; cbn -[decide rehold] in Ha, Ho |- *;
    repeat match goal with H : _ ∧ _ |- _ => destruct H | H : ∃ _, _ |- _ => destruct H end;
    try (rewrite rehold_same by done); try (apply held_Some in H; [|done]; subst holder);
    split_matches; simplify_eq/=; split; cbn -[decide] in *; try done.
  all: try (by rewrite ?string_app_assoc, ?string_app_nil_r; f_equal).
  all: try (destruct holder as [[]|]; naive_solver).
  all: rewrite ?decide_True by done; try done.
  all: rewrite ?length_app, ?fmap_app.
  - change (foldr _ "" ?l) with (concat_strings l).
    rewrite concat_strings_app. simpl. by rewrite string_app_nil_r, string_app_assoc.
  - rewrite Hnum. simpl. replace (Z.of_nat (length sent + 1)) with (Z.of_nat (length sent) + 1)%Z by lia.
    rewrite seqZ_app by lia. f_equal. destruct Hseq as [_ ->]. by rewrite Z.add_comm.
  - destruct Hseq. simpl. lia.
Qed.

(** Every configuration of goroutines that obey the discipline. *)
Definition orderly (cf : config) : Prop :=
  ∃ holder, disciplined holder cf.1 ∧ accounted holder cf.2.

Lemma orderly_start ts : (∀ p, p ∈ ts → obeys Free p) → orderly (ts, newLogStreamer).
Proof.
  intros Hts. exists None. split; [|by split]. split; [done|].
  intros j p Hj. apply Hts. by eapply list_elem_of_lookup_2.
Qed.

Lemma orderly_step cf cf' : stream_step cf cf' → orderly cf → orderly cf'.
Proof.
  intros [ts s i fire X c k x s' Hi Ha|ts s] (holder & Hd & Hacc).
  - exists (hold_after i c x holder). split; [by eapply disciplined_step|by eapply accounted_step].
  - exists holder. split; [done|]. destruct Hacc as [????]. by split.
Qed.

Lemma orderly_reachable cf cf' : rtc stream_step cf cf' → orderly cf → orderly cf'.
Proof. induction 1; [done|]. intros Hc. eauto using orderly_step. Qed.

Lemma orderly_stream_start ps n : orderly (stream_start ps n).
Proof.
  apply orderly_start. intros p Hp.
  apply list_elem_of_In in Hp as [<-|[<-|[]]]; [apply obeys_writes|apply obeys_ticker].
Qed.

(** At every moment, however the build, the ticker and Close interleave, the
    chunks sent so far are numbered 1, 2, 3, ... and their concatenation is a
    prefix of the output written so far. *)
Lemma stream_sends_a_prefix ps turns ts s :
  rtc stream_step (stream_start ps turns) (ts, s) →
  (ls_sent s).*1 = seqZ 1 (Z.of_nat (length (ls_sent s))) ∧
  ∃ rest, ls_written s = concat_strings (ls_sent s).*2 +:+ rest.
Proof.
  intros Hreach.
  destruct (orderly_reachable _ _ Hreach (orderly_stream_start _ _)) as (holder & _ & [_ Ho Hn _]).
  simpl in *. split; [done|]. eauto.
Qed.

(** ** Close sends what is left *)

Definition flush_call (X : Type) (c : StreamCall X) : Prop :=
  match c with
  | BufTake | LockSend | UnlockSend | IncSeq | SendChunk _ _ | Select => True
  | _ => False
  end.

Definition no_write (X : Type) (c : StreamCall X) : Prop :=
  match c with BufWrite _ | OnceEnter => False | _ => True end.

Lemma flush_call_flush : all_calls flush_call flush.
Proof. unfold flush. by go_calls. Qed.

Lemma flush_call_ticker n : all_calls flush_call (ticker n).
Proof.
  induction n as [|n IH]; [done|]. cbn [ticker]. go_calls; try done; apply flush_call_flush.
Qed.

(** The program will empty the buffer and write no more. *)
Fixpoint drains (p : Prog StreamCall unit) : Prop :=
  match p with
  | Ret _ => False
  | Vis c k =>
      match c with
      | BufWrite _ | OnceEnter => False
      | BufTake => ∀ x, all_calls no_write (k x)
      | _ => ∀ x, drains (k x)
      end
  end.

Lemma drains_flush q : (∀ u, all_calls no_write (q u)) → drains (flush ≫= q).
Proof.
  intros Hq. cbn. intros _ chunk. case_bool_decide; cbn; auto.
Qed.

(** Where the goroutine of the job is: writing; in Close, before it has taken
    the buffer; past that. *)
Inductive closing (all : string) (holder : option (nat * hold)) (s : logStreamer) :
    Prog StreamCall unit → Prop :=
| closing_writes ps :
    ls_once s = OnceFresh → all = ls_written s +:+ concat_strings ps →
    closing all holder s (writes ps)
| closing_drains p :
    drains p → ls_written s = all → closing all holder s p
| closing_drained p :
    all_calls no_write p → ls_written s = all → ls_buf s = "" →
    (held_chunk holder = "" ∨ ∃ h, holder = Some (0, h)) → closing all holder s p.

Definition two_goroutines (all : string) (cf : config) : Prop :=
  ∃ holder main tick,
    disciplined holder cf.1 ∧ accounted holder cf.2 ∧ cf.1 = [main; tick] ∧
    all_calls flush_call tick ∧ closing all holder cf.2 main ∧
    (∀ i h, holder = Some (i, h) → i < 2).

Lemma hold_after_index {X} i (c : StreamCall X) x holder n :
  i < n → (∀ j h, holder = Some (j, h) → j < n) →
  ∀ j h, hold_after i c x holder = Some (j, h) → j < n.
Proof.
  intros Hi Hh j h. unfold hold_after.
  destruct (next_hold c _ x), holder as [[??]|]; simpl; repeat case_decide; naive_solver.
Qed.

(** The ticker does not disturb what Close relies on. *)
Lemma answer_flush_call fire X (c : StreamCall X) s x s' :
  flush_call X c → answer fire c s = Some (x, s') →
  ls_once s' = ls_once s ∧ ls_written s' = ls_written s ∧ (ls_buf s = "" → ls_buf s' = "").
Proof. destruct s, c; simpl; intros Hc Ha; repeat case_match; by simplify_eq/=. Qed.

Lemma answer_no_write fire X (c : StreamCall X) s x s' :
  no_write X c → answer fire c s = Some (x, s') →
  ls_written s' = ls_written s ∧ (ls_buf s = "" → ls_buf s' = "").
Proof. destruct s, c; simpl; intros Hc Ha; repeat case_match; by simplify_eq/=. Qed.

Lemma answer_take fire s x s' :
  answer fire BufTake s = Some (x, s') → x = ls_buf s ∧ ls_buf s' = "".
Proof. destruct s; simpl. by intros [= <- <-]. Qed.

Lemma held_chunk_rehold i h holder :
  in_hand h = "" → held_chunk holder = "" → held_chunk (rehold i h holder) = "".
Proof. destruct h, holder as [[??]|]; simpl; repeat case_match; naive_solver. Qed.

Lemma in_hand_held holder i : held_chunk holder = "" → in_hand (held holder i) = "".
Proof. destruct holder as [[??]|]; simpl; repeat case_match; naive_solver. Qed.

Lemma in_hand_next fire X (c : StreamCall X) h s x s' :
  answer fire c s = Some (x, s') → ls_buf s = "" → in_hand h = "" → in_hand (next_hold c h x) = "".
Proof.
  destruct s, c; simpl; intros Ha -> Hh; try done. by simplify_eq/=.
Qed.

(** The other goroutine of one that holds sendMu can only select. *)
Lemma hold_after_other holder ts i h j fire X (c : StreamCall X) k x s s' :
  disciplined holder ts → accounted holder s → holder = Some (i, h) → i ≠ j →
  ts !! j = Some (Vis c k) → answer fire c s = Some (x, s') → hold_after j c x holder = holder.
Proof.
  intros Hd Hacc Hh Hij Hj Ha.
  destruct (rehold_case _ _ _ _ _ _ _ _ _ _ Hd Hacc Hj Ha) as [[Hc|Hc]|[Hn Hf]].
  - exfalso. apply Hc. subst. simpl. by rewrite decide_False.
  - by subst.
  - unfold hold_after. rewrite Hn. apply rehold_same; [apply Hd|done].
Qed.

(** A step of the ticker's goroutine. *)
Lemma closing_tick all holder main X (c : StreamCall X) k x fire s s' :
  disciplined holder [main; Vis c k] → accounted holder s → flush_call X c →
  answer fire c s = Some (x, s') → closing all holder s main →
  closing all (hold_after 1 c x holder) s' main.
Proof.
  intros Hd Hacc Hc Ha Hcl. destruct (answer_flush_call _ _ _ _ _ _ Hc Ha) as (Ho & Hw & Hb).
  destruct Hcl as [ps Hf Hall|p Hp Hall|p Hp Hall Hbuf Hch].
  - apply closing_writes; congruence.
  - apply closing_drains; congruence.
  - apply closing_drained; [done|congruence|auto|]. destruct Hch as [Hch|[h Hh]].
    + left. apply held_chunk_rehold; [|done].
      eapply in_hand_next; [done|done|by apply in_hand_held].
    + right. exists h. by erewrite hold_after_other by eauto.
Qed.

(** A step of the goroutine of the job. *)
Lemma closing_main all holder main tick fire s :
  disciplined holder [main; tick] → accounted holder s → closing all holder s main →
  match main with
  | Ret _ => True
  | Vis c k => ∀ x s', answer fire c s = Some (x, s') →
                 closing all (hold_after 0 c x holder) s' (k x)
  end.
Proof.
  intros Hd Hacc Hcl. destruct Hcl as [ps Hf Hall|p Hp Hall|p Hp Hall Hbuf Hch].
  - destruct s as [buf mu seq d once ctx sent written]; simpl in Hf, Hall; subst once.
    destruct ps as [|q ps]; simpl; intros x s' [= <- <-].
    + apply closing_drains; [|by rewrite string_app_nil_r in Hall]. simpl. intros _.
      by apply drains_flush.
    + apply closing_writes; [done|]. simpl. by rewrite string_app_assoc.
  - destruct p as [|X c k]; [done|]. intros x s' Ha.
    assert (no_write X c) as Hc by by destruct c.
    destruct (answer_no_write _ _ _ _ _ _ Hc Ha) as [Hw _]. rewrite Hall in Hw.
    destruct c; try contradiction Hp; try (by apply closing_drains; [exact (Hp x)|]).
    destruct (answer_take _ _ _ _ Ha) as [_ Hb]. apply closing_drained; [exact (Hp x)|done|done|].
    right. unfold hold_after. simpl. case_decide; by eexists.
  - destruct p as [|X c k]; [done|]. intros x s' Ha. destruct Hp as [Hc Hp].
    destruct (answer_no_write _ _ _ _ _ _ Hc Ha) as [Hw Hb].
    apply closing_drained; [apply Hp|congruence|auto|]. destruct Hch as [Hch|[h ->]].
    + left. apply held_chunk_rehold; [|done].
      eapply in_hand_next; [done|done|by apply in_hand_held].
    + unfold hold_after. destruct (next_hold c _ x); simpl; by eauto.
Qed.

Lemma two_goroutines_step all cf cf' :
  stream_step cf cf' → two_goroutines all cf → two_goroutines all cf'.
Proof.
  intros Hs (holder & main & tick & Hd & Hacc & Hts & Hfl & Hcl & Hlt).
  destruct Hs as [ts s i fire X c k x s' Hi Ha|ts s]; simpl in *; subst ts.
  - pose proof (disciplined_step _ _ _ _ _ _ _ _ _ _ Hd Hacc Hi Ha) as Hd'.
    pose proof (accounted_step _ _ _ _ _ _ _ _ _ _ Hd Hacc Hi Ha) as Hacc'.
    exists (hold_after i c x holder). destruct i as [|[|i]]; simplify_eq/=.
    + exists (k x), tick. split_and!; try done; [|by apply hold_after_index; [lia|]].
      exact (closing_main _ _ _ _ fire _ Hd Hacc Hcl x s' Ha).
    + destruct Hfl as [Hc Hk]. exists main, (k x). split_and!; try done; [|by apply hold_after_index; [lia|]].
      by eapply closing_tick.
  - exists holder, main, tick. split_and!; try done; [by destruct Hacc; split|..].
    destruct Hcl; [by apply closing_writes|by apply closing_drains|by apply closing_drained].
Qed.

Lemma two_goroutines_start ps n : two_goroutines (concat_strings ps) (stream_start ps n).
Proof.
  exists None, (writes ps), (ticker n). split_and!; try done.
  - split; [done|]. intros j p Hj. destruct j as [|[|j]]; simplify_eq/=; [apply obeys_writes|apply obeys_ticker].
  - apply flush_call_ticker.
  - by apply closing_writes.
Qed.

Lemma two_goroutines_reachable all cf cf' :
  rtc stream_step cf cf' → two_goroutines all cf → two_goroutines all cf'.
Proof. induction 1; [done|]. intros Hc. eauto using two_goroutines_step. Qed.

(** ** No deadlock *)

(** Whoever holds sendMu can go on. *)
Lemma holder_goes_on h X (c : StreamCall X) k s :
  obeys h (Vis c k) → h ≠ Free → ∃ x s', answer true c s = Some (x, s').
Proof. destruct s, c; simpl; intros Ho Hh; try (by destruct Ho); by do 2 eexists. Qed.

Lemma main_goes_on all holder s X (c : StreamCall X) k :
  closing all holder s (Vis c k) → ls_sendMu s = false → ∃ x s', answer true c s = Some (x, s').
Proof.
  intros Hcl Hmu.
  assert (∀ p, closing all holder s p →
    match p with Vis c k => ∃ x s', answer true c s = Some (x, s') | Ret _ => True end) as Hgo;
    [|exact (Hgo _ Hcl)].
  clear c k Hcl. destruct s as [buf mu seq d once ctx sent written]; simpl in Hmu; subst mu.
  destruct 1 as [ps Hf|[|? c k] Hp|[|? c k] Hp]; simpl in *; subst; try done.
  - destruct ps; simpl; by do 2 eexists.
  - destruct c; try done; by do 2 eexists.
  - destruct Hp as [Hc _]. destruct c; try done; by do 2 eexists.
Qed.

Lemma stream_progress all main tick s :
  two_goroutines all ([main; tick], s) → main ≠ mret tt →
  (match main with Vis c k => ∃ x s', answer true c s = Some (x, s') | Ret _ => False end) ∨
  (match tick with Vis c k => ∃ x s', answer true c s = Some (x, s') | Ret _ => False end).
Proof.
  intros (holder & main' & tick' & [Hf Ho] & [Hl _ _ _] & [= <- <-] & _ & Hcl & Hlt) Hmain.
  simpl in *. pose proof (Ho 0 _ eq_refl) as Ho0. pose proof (Ho 1 _ eq_refl) as Ho1.
  destruct holder as [[i h]|].
  - pose proof (Hf _ _ eq_refl) as Hh. specialize (Hlt _ _ eq_refl).
    destruct i as [|[|i]]; [left|right|lia]; simpl in *.
    + destruct main as [|X c k]; [done|]. by eapply holder_goes_on.
    + destruct tick as [|X c k]; [done|]. by eapply holder_goes_on.
  - left. destruct main as [[]|X c k]; [done|]. by eapply main_goes_on.
Qed.

Lemma step_first X (c : StreamCall X) k x s s' q :
  answer true c s = Some (x, s') → stream_step ([Vis c k; q], s) ([k x; q], s').
Proof. intros Ha. by apply (stream_call [Vis c k; q] s 0 true X c k x s'). Qed.

Lemma step_second X (c : StreamCall X) k x s s' p :
  answer true c s = Some (x, s') → stream_step ([p; Vis c k], s) ([p; k x], s').
Proof. intros Ha. by apply (stream_call [p; Vis c k] s 1 true X c k x s'). Qed.

(** From every configuration the job's goroutine can come to its end. *)
Lemma stream_can_finish all main tick s :
  two_goroutines all ([main; tick], s) →
  ∃ tick' s', rtc stream_step ([main; tick], s) ([mret tt; tick'], s').
Proof.
  revert tick s. induction main as [[]|X c k IHm]; intros tick s; [eexists _, _; apply rtc_refl|].
  revert s. induction tick as [u|Y d l IHt]; intros s Hinv;
    (destruct (stream_progress _ _ _ _ Hinv) as [(x & s1 & Ha)|Hgo]; [done| |]).
  1,3: pose proof (step_first _ c k x s s1) as Hs; edestruct (IHm x) as (t & s' & Hr);
    [eapply two_goroutines_step; [by apply Hs|done]|exists t, s'; by eapply rtc_l; [apply Hs|]].
  - done.
  - destruct Hgo as (x & s1 & Ha). pose proof (step_second _ d l x s s1 (Vis c k) Ha) as Hs.
    destruct (IHt x s1) as (t & s' & Hr); [by eapply two_goroutines_step|].
    exists t, s'. by eapply rtc_l.
Qed.

(** What a finished stream has sent. *)
Lemma stream_complete (ps : list string) (turns : nat) tick s :
  rtc stream_step (stream_start ps turns) ([mret tt; tick], s) →
  concat_strings (ls_sent s).*2 = concat_strings ps ∧
  (ls_sent s).*1 = seqZ 1 (Z.of_nat (length (ls_sent s))).
Proof.
  intros Hreach. pose proof (two_goroutines_reachable _ _ _ Hreach (two_goroutines_start ps turns)) as Hinv.
  destruct Hinv as (holder & main & tick' & Hd & [_ Ho Hn _] & [= <- <-] & _ & Hcl & _).
  split; [|done]. pose proof (proj2 Hd 0 _ eq_refl) as Hfree. simpl in *.
  inversion Hcl as [ps' ? ? Hw|? Hp|? ? Hw Hb Hch]; subst; [by destruct ps'|done|].
  rewrite <-Hw, Ho, Hb. destruct Hch as [->|[h ->]]; [by rewrite !string_app_nil_r|].
  by destruct (proj1 Hd 0 h eq_refl).
Qed.

(** C22. Close loses nothing and comes back: at every moment of a build, however
    its goroutine and the ticker's interleave, the job's goroutine can still get
    to its end (no deadlock on the two mutexes and the Once); and once it is
    through with its output and with Close, every byte has been sent, in order,
    in chunks numbered 1, 2, 3, ... *)
Theorem Close_sends_everything (ps : list string) (turns : nat) main tick s
    (Hreach : rtc stream_step (stream_start ps turns) ([main; tick], s)) :
  (∃ tick' s', rtc stream_step ([main; tick], s) ([mret tt; tick'], s')) ∧
  (main = mret tt →
     concat_strings (ls_sent s).*2 = concat_strings ps ∧
     (ls_sent s).*1 = seqZ 1 (Z.of_nat (length (ls_sent s)))).
Proof.
  pose proof (two_goroutines_reachable _ _ _ Hreach (two_goroutines_start ps turns)) as Hinv.
  split; [by eapply stream_can_finish|]. intros ->. by eapply stream_complete.
Qed.
