(* ===== verification/Workspace.v ===== *)
(** * The workspace of a job (internal/runner/workspace.go)

    A fresh directory, one commit checked out in it, and a clone credential
    that is given to git per command.  The calls are what the runner asks of its
    host; an error carries its text, since the texts end up in the build log. *)
From S2P Require Import Prelude GoLib GoText Prog Traces.
From Stdlib Require Import Ascii.

(** [os.MkdirAll], [exec.Command(...).CombinedOutput()] with the directory set
    and the prompts off, [os.RemoveAll], [os.ReadFile]. *)
Inductive HostCall : Type → Type :=
| MkdirAll (dir : string) : HostCall (option string)                    (* the error *)
| Exec (dir : string) (args : list string) : HostCall (string * option string) (* output, error *)
| RemoveAll (dir : string) : HostCall (option string)
| ReadFile (path : string) : HostCall (result string string).

Record checkout : Type := mkCheckout {
  Root : string;
  co_JobID : string;
  co_CloneURL : string;
  co_CommitSHA : string;
  co_Branch : string;
  co_Token : string
}.

Definition authArgs (token : string) : list string :=
  if bool_decide (token = "") then []
  else ["-c"; "http.extraheader=AUTHORIZATION: basic " +:+
              base64std_encode (octets ("x-access-token:" +:+ token))].

Definition git (auth args : list string) : list string := "git" :: auth ++ args.

Definition redact (s token : string) : string :=
  if bool_decide (token = "") then s else ReplaceAll s token "***".

(** [run(ctx, dir, args...)]: the error and the output *)
Definition git_run (dir : string) (args : list string) : Prog HostCall (string * option string) :=
  call (Exec dir args).

(** [os.RemoveAll(dir); return "", fmt.Errorf(...)] *)
Definition discard_workspace (dir msg : string) : Prog HostCall (result string string) :=
  _ ← call (RemoveAll dir); mret (Err msg).

(** [for _, s := range steps] *)
Fixpoint run_steps (dir : string) (steps : list (list string))
    (next : Prog HostCall (result string string)) : Prog HostCall (result string string) :=
  match steps with
  | [] => next
  | s :: steps =>
      r ← git_run dir s;
      match r with
      | (out, Some err) => discard_workspace dir (Join " " s +:+ ": " +:+ err +:+ ": " +:+ out)
      | (_, None) => run_steps dir steps next
      end
  end.

Definition workspace_dir (c : checkout) : string := PathJoin [Root c; "forgerun-" +:+ co_JobID c].

Definition checkout_commit (dir : string) (auth : list string) (c : checkout) :
    Prog HostCall (result string string) :=
  r ← git_run dir (git auth ["checkout"; "-q"; co_CommitSHA c]);
  match r with
  | (out, Some err) =>
      discard_workspace dir ("checkout " +:+ co_CommitSHA c +:+ ": " +:+ err +:+ ": " +:+ redact out (co_Token c))
  | (_, None) => mret (Ok dir)
  end.

Definition prepareWorkspace (c : checkout) : Prog HostCall (result string string) :=
  let dir := workspace_dir c in
  made ← call (MkdirAll dir);
  match made with
  | Some err => mret (Err ("create workspace: " +:+ err))
  | None =>
      run_steps dir
        [["git"; "init"; "-q"]; ["git"; "remote"; "add"; "origin"; co_CloneURL c]]
        (let auth := authArgs (co_Token c) in
         r ← git_run dir (git auth ["fetch"; "-q"; "--depth"; "1"; "origin"; co_CommitSHA c]);
         match r with
         | (_, None) => checkout_commit dir auth c
         | (_, Some _) =>
             (* some remotes refuse a bare commit: fetch the branch *)
             r ← git_run dir (git auth ["fetch"; "-q"; "--depth"; "50"; "origin"; co_Branch c]);
             match r with
             | (out, Some err) =>
                 discard_workspace dir ("fetch " +:+ co_Branch c +:+ ": " +:+ err +:+ ": " +:+
                              redact out (co_Token c))
             | (_, None) => checkout_commit dir auth c
             end
         end)
  end.

(** ** What preparing a workspace does, whatever git and the host answer *)

(** The commands of a trace, with their exit: [None] is success. *)
Definition command_of (v : event HostCall) : option (string * list string * option string) :=
  match v with
  | existT _ (e, x) =>
      match e in HostCall X return X → option (string * list string * option string) with
      | Exec dir args => λ r, Some (dir, args, r.2)
      | _ => λ _, None
      end x
  end.
Definition commands (tr : list (event HostCall)) := omap command_of tr.

Definition removes (dir : string) (v : event HostCall) : bool :=
  match v with existT _ (e, _) => match e with RemoveAll d => bool_decide (d = dir) | _ => false end end.

(** The commands that may be run: two that write the configuration of the
    repository and do not depend on the token, and fetches and checkouts with
    the credential in front of the subcommand. *)
Definition permitted (c : checkout) (args : list string) : Prop :=
  args = ["git"; "init"; "-q"] ∨
  args = ["git"; "remote"; "add"; "origin"; co_CloneURL c] ∨
  args = git (authArgs (co_Token c)) ["fetch"; "-q"; "--depth"; "1"; "origin"; co_CommitSHA c] ∨
  args = git (authArgs (co_Token c)) ["fetch"; "-q"; "--depth"; "50"; "origin"; co_Branch c] ∨
  args = git (authArgs (co_Token c)) ["checkout"; "-q"; co_CommitSHA c].

Definition checked_out (c : checkout) (tr : list (event HostCall)) : Prop :=
  (workspace_dir c, git (authArgs (co_Token c)) ["checkout"; "-q"; co_CommitSHA c], None) ∈ commands tr.

Definition prepared (c : checkout) (r : result string string) (tr : list (event HostCall)) : Prop :=
  Forall (λ '(dir, args, _), dir = workspace_dir c ∧ permitted c args) (commands tr) ∧
  match r with
  | Ok dir => dir = workspace_dir c ∧ checked_out c tr ∧ existsb (removes dir) tr = false
  | Err _ =>
      (∃ err, tr = [ev (MkdirAll (workspace_dir c)) (Some err)]) ∨
      (∃ x, last tr = Some (ev (RemoveAll (workspace_dir c)) x))
  end.

(** Every command runs in the job's directory and is one of those permitted, so
    nothing that git writes down depends on the credential; after an error the
    directory is gone; after a success it is there, with exactly the job's commit
    checked out. *)
Lemma prepareWorkspace_prepared c : post (prepareWorkspace c) [] (prepared c).
Proof.
  unfold prepareWorkspace, run_steps, checkout_commit, discard_workspace, git_run. go_post; simpl;
    (split; [repeat (apply Forall_cons; split; [split; [done|unfold permitted; tauto]|]); done|]).
  all: try (right; by eexists).
  - left. by eexists.
  - split_and!; [done| |done]. unfold checked_out. set_solver.
  - split_and!; [done| |done]. unfold checked_out. set_solver.
Qed.

(** A build log shows no credential: what is left of git's output has no
    occurrence of the token, not even one made by the replacement, and output
    without the token is not touched. *)
Lemma redact_hides s token :
  token ≠ "" → "*"%char ∉ bytes_of token → Contains (redact s token) token = false.
Proof.
  intros Ht Hstar. unfold redact. rewrite bool_decide_false by done.
  apply ReplaceAll_removes; [done|]. split; [done|]. by repeat constructor.
Qed.

Lemma redact_keeps s token : Contains s token = false → redact s token = s.
Proof. intros Hs. unfold redact. case_bool_decide; [done|]. by apply ReplaceAll_absent. Qed.
