(* ===== verification/Jobspec.v ===== *)
(** * The build definition of a repository (internal/jobspec/jobspec.go)

    gopkg.in/yaml.v3 is a parameter: a function from the file to the map under
    [jobs], or an error.  What Parse and Primary do with the map is theirs:
    both range over it, so both are modelled for every enumeration order. *)
From S2P Require Import Prelude.

(** [jobspec.Job]; [yaml:"-"] leaves Name empty in what yaml returns *)
Record SpecJob : Type := mkSpecJob {
  sj_Name : string;
  sj_Image : string;
  sj_Commands : list string;
  sj_Env : gmap string string;
  sj_Labels : list string
}.

Abbreviation Spec := (gmap string SpecJob).

Inductive spec_error : Type :=
| ErrYaml (msg : string)
| ErrNoJobs
| ErrNoCommands (name : string).

(** [err.Error()]; [Quote] is strconv.Quote. *)
Definition spec_error_string (Quote : string → string) (e : spec_error) : string :=
  match e with
  | ErrYaml msg => "parse forgerun.yml: " +:+ msg
  | ErrNoJobs => "forgerun.yml defines no jobs"
  | ErrNoCommands name => "job " +:+ Quote name +:+ " has no commands"
  end.

Definition named (name : string) (j : SpecJob) : SpecJob :=
  mkSpecJob name (sj_Image j) (sj_Commands j) (sj_Env j) (sj_Labels j).

(** [for name, j := range s.Jobs] *)
Fixpoint name_jobs (l : list (string * SpecJob)) (jobs : Spec) : result spec_error Spec :=
  match l with
  | [] => Ok jobs
  | (name, j) :: l =>
      if bool_decide (sj_Commands j = []) then Err (ErrNoCommands name)
      else name_jobs l (<[name := named name j]> jobs)
  end.

Section jobspec.
Context `{RangeOrder}.
Context (yaml_Unmarshal : string → result string Spec).

Definition Parse (data : string) : result spec_error Spec :=
  match yaml_Unmarshal data with
  | Err msg => Err (ErrYaml msg)
  | Ok jobs =>
      if bool_decide (size jobs = 0) then Err ErrNoJobs
      else name_jobs (range_order jobs) jobs
  end.

(** [names[0]] of an empty slice panics: [None]. *)
Definition Primary (jobs : Spec) : option SpecJob :=
  match jobs !! "test" with
  | Some j => Some j
  | None =>
      match merge_sort String.le ((range_order jobs).*1) with
      | [] => None
      | name :: _ => jobs !! name
      end
  end.

(** ** Parse *)

(** Every job named after its key. *)
Definition all_named (jobs : Spec) : Spec := map_imap (λ name j, Some (named name j)) jobs.

Lemma name_jobs_ok l jobs jobs' :
  NoDup l.*1 → (∀ name j, (name, j) ∈ l → jobs !! name = Some j) →
  name_jobs l jobs = Ok jobs' →
  Forall (λ kj, sj_Commands kj.2 ≠ []) l ∧
  ∀ name, jobs' !! name = (if decide (name ∈ l.*1) then named name <$> jobs !! name else jobs !! name).
Proof.
  revert jobs. induction l as [|[k j] l IH]; intros jobs Hnd Hl; cbn [name_jobs].
  { by intros [= <-]. }
  apply NoDup_cons in Hnd as [Hk Hnd]. case_bool_decide as Hc; [done|].
  intros Hok. apply IH in Hok as [Hall Hlook]; [|done|].
  - split; [by constructor|]. intros name. rewrite Hlook.
    destruct (decide (name = k)) as [->|Hne].
    + rewrite decide_False, decide_True by set_solver. rewrite lookup_insert_eq.
      by rewrite (Hl k j) by set_solver.
    + rewrite !lookup_insert_ne by done. repeat case_decide; set_solver.
  - intros name j' Hin. rewrite lookup_insert_ne; [apply Hl; set_solver|].
    intros <-. apply Hk. by apply (list_elem_of_fmap_2 fst _ (k, j')).
Qed.

Lemma name_jobs_err l jobs e :
  name_jobs l jobs = Err e → ∃ name j, (name, j) ∈ l ∧ sj_Commands j = [] ∧ e = ErrNoCommands name.
Proof.
  revert jobs. induction l as [|[k j] l IH]; intros jobs; simpl; [done|].
  case_bool_decide as Hc; [intros [= <-]; exists k, j; set_solver|].
  intros (name & j' & ? & ? & ?)%IH. exists name, j'. set_solver.
Qed.

Lemma range_order_nodup (jobs : Spec) : NoDup (range_order jobs).*1.
Proof. rewrite range_order_perm. apply NoDup_fst_map_to_list. Qed.

Lemma elem_of_range_names (jobs : Spec) name : name ∈ (range_order jobs).*1 ↔ is_Some (jobs !! name).
Proof.
  rewrite list_elem_of_fmap. split.
  - intros ([k j] & -> & Hin%elem_of_range_order). by eexists.
  - intros [j Hj]. exists (name, j). by rewrite elem_of_range_order.
Qed.

(** Whether a file is accepted, and what is made of it, does not depend on the
    order of the map; only which faulty job is named in the error does. *)
Lemma Parse_cases data jobs :
  yaml_Unmarshal data = Ok jobs →
  match Parse data with
  | Ok spec => jobs ≠ ∅ ∧ spec = all_named jobs ∧ (∀ name j, jobs !! name = Some j → sj_Commands j ≠ [])
  | Err (ErrYaml _) => False
  | Err ErrNoJobs => jobs = ∅
  | Err (ErrNoCommands name) => ∃ j, jobs !! name = Some j ∧ sj_Commands j = []
  end.
Proof.
  unfold Parse. intros ->. case_bool_decide as Hs; [by apply map_size_empty_inv|].
  destruct (name_jobs _ _) as [spec|e] eqn:E.
  - apply name_jobs_ok in E as [Hall Hlook]; [|apply range_order_nodup|by intros ?? ?%elem_of_range_order].
    split_and!.
    + intros ->. by rewrite map_size_empty in Hs.
    + apply map_eq. intros name. rewrite Hlook. unfold all_named. rewrite map_lookup_imap.
      destruct (jobs !! name) eqn:Hj; case_decide as Hin; try done.
      destruct Hin. apply elem_of_range_names. by eexists.
    + intros name j Hj. rewrite Forall_forall in Hall. apply (Hall (name, j)).
      by apply elem_of_range_order.
  - apply name_jobs_err in E as (name & j & Hin & Hc & ->). exists j.
    by apply elem_of_range_order in Hin.
Qed.

(** The build that runs is determined by the file: a file that parses has a
    primary job, which is the one called [test] or else the one with the least
    name, has its key as its name and at least one command; Primary never
    panics on what Parse returns. *)
Theorem Primary_correct (data : string) (spec : Spec) (Hok : Parse data = Ok spec) :
  ∃ j, Primary spec = Some j ∧ spec !! sj_Name j = Some j ∧ sj_Commands j ≠ [] ∧
       (is_Some (spec !! "test") → sj_Name j = "test") ∧
       (spec !! "test" = None → ∀ name, is_Some (spec !! name) → String.le (sj_Name j) name).
Proof.
  destruct (yaml_Unmarshal data) as [jobs|msg] eqn:Hy; [|unfold Parse in Hok; by rewrite Hy in Hok].
  pose proof (Parse_cases data jobs Hy) as Hp. rewrite Hok in Hp. destruct Hp as (Hne & -> & Hc).
  assert (∀ name j, all_named jobs !! name = Some j → sj_Name j = name ∧ sj_Commands j ≠ []) as Hnamed.
  { intros name j Hj. unfold all_named in Hj. rewrite map_lookup_imap in Hj.
    destruct (jobs !! name) as [j0|] eqn:Hj0; simplify_eq/=. split; [done|]. by eapply Hc. }
  unfold Primary. destruct (all_named jobs !! "test") as [j|] eqn:Ht.
  { destruct (Hnamed _ _ Ht) as [Hn Hcmd]. exists j. rewrite Hn. by split_and!. }
  pose proof (merge_sort_Permutation String.le (range_order (all_named jobs)).*1) as Hperm.
  pose proof (StronglySorted_merge_sort String.le (range_order (all_named jobs)).*1) as Hsort.
  destruct (merge_sort _ _) as [|name rest].
  { exfalso. apply Hne. apply map_empty. intros k. destruct (jobs !! k) as [j|] eqn:Hj; [|done].
    assert (k ∈ (range_order (all_named jobs)).*1) as Hin.
    { apply elem_of_range_names. unfold all_named. rewrite map_lookup_imap, Hj. by eexists. }
    rewrite <-Hperm in Hin. by apply elem_of_nil in Hin. }
  assert (is_Some (all_named jobs !! name)) as [j Hj].
  { apply elem_of_range_names. rewrite <-Hperm. by left. }
  destruct (Hnamed _ _ Hj) as [Hn Hcmd]. exists j. rewrite Hn. split_and!; try done.
  intros _ k Hk%elem_of_range_names. rewrite <-Hperm in Hk.
  apply elem_of_cons in Hk as [->|Hk]; [done|].
  apply StronglySorted_inv in Hsort as [_ Hall]. rewrite Forall_forall in Hall. by apply Hall.
Qed.
End jobspec.
