(* ===== verification/Executor.v ===== *)
(** * Running a job in a container (internal/executor)

    The Docker client is what the calls are made to; its replies are the
    environment's.  [ctx.Done()], the exit of the container and a failing wait
    race in a select: its outcome is a reply too.  The goroutine that copies the
    container's output is [stream_logs]; Execute starts it ([GoStreamLogs]) and
    waits for it ([AwaitLogs]).  [int64(req.CPUs * 1e9)] is a field of the
    request: floating-point arithmetic is not modelled. *)
From S2P Require Import Prelude GoLib GoText Prog Traces Jobspec.

Record ExecRequest : Type := mkExecRequest {
  er_JobID : string;      (* of [req.Job], the three fields that are used *)
  er_CommitSHA : string;
  er_Branch : string;
  er_Spec : SpecJob;
  er_Workspace : string;
  er_Timeout : Z;
  er_NanoCPUs : Z;
  er_MemoryMB : Z;
  er_Network : string
}.

Record ExecResult : Type := mkExecResult { ExitCode : Z; TimedOut : bool }.

(** [container.Config], [container.HostConfig] and the name *)
Record Container : Type := mkContainer {
  cc_Image : string;
  cc_Cmd : list string;
  cc_WorkingDir : string;
  cc_Env : list string;
  cc_Mounts : list (string * string); (* bind mounts: source, target *)
  cc_NetworkMode : string;
  cc_NanoCPUs : Z;
  cc_Memory : Z;
  cc_PidsLimit : Z;
  cc_SecurityOpt : list string;
  cc_CapDrop : list string;
  cc_AutoRemove : bool;
  cc_Name : string
}.

Inductive wait : Type :=
| WaitFailed (err : string)
| Exited (code : Z)
| DeadlineExceeded
| Cancelled (err : string).

Inductive LogLine : Type :=
| LogText (s : string)
| LogTimeout (timeout : Z).

Inductive DockerCall : Type → Type :=
| ImageList (ref : string) : DockerCall (result string nat)
| ImagePull (ref : string) : DockerCall (option string)
| DrainPull : DockerCall (option string)
| ContainerCreate (c : Container) : DockerCall (result string string)
| ContainerStart (id : string) : DockerCall (option string)
| GoStreamLogs (id : string) : DockerCall unit
| AwaitLogs : DockerCall unit
| AwaitContainer (id : string) : DockerCall wait
| ContainerRemove (id : string) : DockerCall (option string)
| ContainerLogs (id : string) : DockerCall (option string)
| StdCopy : DockerCall (option string)
| ExecCtxErr : DockerCall bool
| LogWrite (l : LogLine) : DockerCall unit.

(** [x * y] in int64 *)
Definition wrap64 (z : Z) : Z := ((z + 2 ^ 63) mod 2 ^ 64 - 2 ^ 63)%Z.

Definition script (commands : list string) : string :=
  "set -e" +:+ newline +:+ Join newline commands.

Definition ensureImage (ref : string) : Prog DockerCall (result string unit) :=
  r ← call (ImageList ref);
  match r with
  | Err e => mret (Err ("list images: " +:+ e))
  | Ok (S _) => mret (Ok tt)
  | Ok 0 =>
      _ ← call (LogWrite (LogText ("forgerun: pulling image " +:+ ref +:+ newline)));
      r ← call (ImagePull ref);
      match r with
      | Some e => mret (Err ("pull image " +:+ ref +:+ ": " +:+ e))
      | None =>
          r ← call DrainPull;
          mret match r with Some e => Err e | None => Ok tt end
      end
  end.

(** The goroutine that demultiplexes the container's output into the log. *)
Definition stream_logs (id : string) : Prog DockerCall unit :=
  r ← call (ContainerLogs id);
  match r with
  | Some e => call (LogWrite (LogText ("forgerun: cannot stream logs: " +:+ e +:+ newline)))
  | None =>
      r ← call StdCopy;
      match r with
      | None => mret tt
      | Some e =>
          stopped ← call ExecCtxErr;
          if stopped : bool then mret tt
          else call (LogWrite (LogText ("forgerun: log stream ended: " +:+ e +:+ newline)))
      end
  end.

Section execute.
Context `{RangeOrder}.

Definition container_env (req : ExecRequest) : list string :=
  ((λ kv, kv.1 +:+ "=" +:+ kv.2) <$> range_order (sj_Env (er_Spec req))) ++
  ["CI=true";
   "FORGERUN_JOB_ID=" +:+ er_JobID req;
   "FORGERUN_COMMIT=" +:+ er_CommitSHA req;
   "FORGERUN_BRANCH=" +:+ er_Branch req].

Definition container_of (req : ExecRequest) : Container :=
  mkContainer (sj_Image (er_Spec req)) ["/bin/sh"; "-c"; script (sj_Commands (er_Spec req))]
    "/workspace" (container_env req) [(er_Workspace req, "/workspace")] (er_Network req)
    (er_NanoCPUs req) (wrap64 (er_MemoryMB req * 1024 * 1024)) 512
    ["no-new-privileges"] ["ALL"] false ("forgerun-" +:+ er_JobID req).

(** From ContainerStart to the return, before the deferred removal. *)
Definition run_container (req : ExecRequest) (id : string) :
    Prog DockerCall (result string ExecResult) :=
  r ← call (ContainerStart id);
  match r with
  | Some e => mret (Err ("start container: " +:+ e))
  | None =>
      _ ← call (GoStreamLogs id);
      r ← call (AwaitContainer id);
      _ ← call AwaitLogs;
      match r with
      | WaitFailed e => mret (Err ("wait for container: " +:+ e))
      | Exited code => mret (Ok (mkExecResult code false))
      | DeadlineExceeded =>
          _ ← call (LogWrite (LogTimeout (er_Timeout req)));
          mret (Ok (mkExecResult (-1) true))
      | Cancelled e =>
          _ ← call (LogWrite (LogText (newline +:+ "forgerun: job stopped, killing container" +:+ newline)));
          mret (Err e)
      end
  end.

Definition Execute (req : ExecRequest) : Prog DockerCall (result string ExecResult) :=
  _ ←? ensureImage (sj_Image (er_Spec req));
  created ← call (ContainerCreate (container_of req));
  match created with
  | Err e => mret (Err ("create container: " +:+ e))
  | Ok id =>
      res ← run_container req id;
      _ ← call (ContainerRemove id);   (* deferred *)
      mret res
  end.

(** ** What executing a job does, whatever Docker answers *)

(** The containers made, with their ids. *)
Definition created_in (v : event DockerCall) : option (Container * result string string) :=
  match v with
  | existT _ (e, x) =>
      match e in DockerCall X return X → option (Container * result string string) with
      | ContainerCreate c => λ r, Some (c, r)
      | _ => λ _, None
      end x
  end.

Definition waited_in (v : event DockerCall) : option wait :=
  match v with
  | existT _ (e, x) =>
      match e in DockerCall X return X → option wait with AwaitContainer _ => Some | _ => λ _, None end x
  end.

(** What Execute promises its caller. *)
Definition executed (req : ExecRequest) (res : result string ExecResult)
    (tr : list (event DockerCall)) : Prop :=
  match omap created_in tr with
  | [] => is_ok res = false
  | [(c, r)] =>
      c = container_of req ∧
      match r with
      | Err _ => is_ok res = false
      | Ok id => ∃ x, last tr = Some (ev (ContainerRemove id) x)
      end
  | _ => False
  end ∧
  match omap waited_in tr with
  | [] => is_ok res = false
  | [Exited code] => res = Ok (mkExecResult code false)
  | [DeadlineExceeded] => res = Ok (mkExecResult (-1) true)
  | [_] => is_ok res = false
  | _ => False
  end.

(** At most one container is made, with the limits of [container_of]; once made
    it is removed, as the last thing, on every path; and the result is the
    container's own exit code, or a timeout, or an error, never one for
    another. *)
Theorem Execute_contained (req : ExecRequest) : post (Execute req) [] (executed req).
Proof.
  unfold Execute, ensureImage, run_container. go_post; unfold executed; simpl; split_and?; try done;
    by eexists.
Qed.
End execute.
