(* ===== verification/Agent.v ===== *)
(** * The runner agent (internal/runner/agent.go)

    The agent's programs are trees over [AgentCall]: HTTP requests to the
    control plane, the bookkeeping of the active job (an [activeJob] is known by
    its address), the host calls of the workspace, the log stream and the
    executor.  The goroutine that polls and executes and the one that sends
    heartbeats share the bookkeeping and nothing else; a theorem about one
    quantifies over all replies, and so over whatever the other one does.

    An error carries its text, since texts are reported and logged.  A request
    that cannot be built is a request that fails; logging is left out. *)
From S2P Require Import Prelude GoLib GoText Json JsonOut GoTime Http Prog Traces Models Config Workspace Jobspec Executor.
From Stdlib Require Import Ascii.

(** The error of [http.Client.Do], or the status code and the body. *)
Abbreviation HttpReply := (result string (Z * string)).

Inductive AgentCall : Type → Type :=
| Http (req : HttpRequest) : AgentCall HttpReply
| HostOp {X} (c : HostCall X) : AgentCall X
| NewActive (jobID : string) : AgentCall nat       (* [&activeJob{...}] with its context *)
| SetActive (p : nat) : AgentCall unit
| ClearActive (p : nat) : AgentCall unit
| CurrentJob : AgentCall (option (nat * string))   (* its address and id *)
| LoadAbandoned (p : nat) : AgentCall bool
| StoreAbandoned (p : nat) : AgentCall unit
| CancelJob (p : nat) : AgentCall unit
| StreamOpen (p : nat) : AgentCall unit            (* [newLogStreamer] under the job's context *)
| StreamWrite (s : string) : AgentCall unit
| StreamClose : AgentCall unit
| RunExecutor (req : ExecRequest) : AgentCall (result string ExecResult)
| CtxDone : AgentCall bool
| Sleep (d : Z) : AgentCall unit
| GoHeartbeat (id token : string) : AgentCall unit. (* [go a.heartbeatLoop(ctx)] *)

(** [models.Job] as it arrives, with the token that is embedded next to it. *)
Record jobDelivery : Type := mkDelivery {
  jd_ID : string;
  jd_Repository : string;
  jd_CloneURL : string;
  jd_CommitSHA : string;
  jd_Branch : string;
  jd_EventType : string;
  jd_ConfigRef : string;
  jd_Labels : slice;
  jd_Status : string;
  jd_RunnerID : option string;
  jd_Attempts : Z;
  jd_ExitCode : option Z;
  jd_Error : string;
  jd_CreatedAt : Z;
  jd_StartedAt : option Z;
  jd_CompletedAt : option Z;
  jd_CloneToken : string
}.

Definition zero_delivery : jobDelivery :=
  mkDelivery "" "" "" "" "" "" "" nil_slice "" None 0 None "" 0 None None "".

Definition delivery_fields : fields jobDelivery :=
  [("id", field jd_ID (λ x '(mkDelivery _ a b c d e f g h i j k l m n o p),
       mkDelivery x a b c d e f g h i j k l m n o p) dec_string);
   ("repository", field jd_Repository (λ x '(mkDelivery a _ b c d e f g h i j k l m n o p),
       mkDelivery a x b c d e f g h i j k l m n o p) dec_string);
   ("clone_url", field jd_CloneURL (λ x '(mkDelivery a b _ c d e f g h i j k l m n o p),
       mkDelivery a b x c d e f g h i j k l m n o p) dec_string);
   ("commit_sha", field jd_CommitSHA (λ x '(mkDelivery a b c _ d e f g h i j k l m n o p),
       mkDelivery a b c x d e f g h i j k l m n o p) dec_string);
   ("branch", field jd_Branch (λ x '(mkDelivery a b c d _ e f g h i j k l m n o p),
       mkDelivery a b c d x e f g h i j k l m n o p) dec_string);
   ("event_type", field jd_EventType (λ x '(mkDelivery a b c d e _ f g h i j k l m n o p),
       mkDelivery a b c d e x f g h i j k l m n o p) dec_string);
   ("config_ref", field jd_ConfigRef (λ x '(mkDelivery a b c d e f _ g h i j k l m n o p),
       mkDelivery a b c d e f x g h i j k l m n o p) dec_string);
   ("labels", field jd_Labels (λ x '(mkDelivery a b c d e f g _ h i j k l m n o p),
       mkDelivery a b c d e f g x h i j k l m n o p) dec_strings);
   ("status", field jd_Status (λ x '(mkDelivery a b c d e f g h _ i j k l m n o p),
       mkDelivery a b c d e f g h x i j k l m n o p) dec_string);
   ("runner_id", field jd_RunnerID (λ x '(mkDelivery a b c d e f g h i _ j k l m n o p),
       mkDelivery a b c d e f g h i x j k l m n o p) (dec_pointer "" dec_string));
   ("attempts", field jd_Attempts (λ x '(mkDelivery a b c d e f g h i j _ k l m n o p),
       mkDelivery a b c d e f g h i j x k l m n o p) dec_int);
   ("exit_code", field jd_ExitCode (λ x '(mkDelivery a b c d e f g h i j k _ l m n o p),
       mkDelivery a b c d e f g h i j k x l m n o p) (dec_pointer 0%Z dec_int));
   ("error", field jd_Error (λ x '(mkDelivery a b c d e f g h i j k l _ m n o p),
       mkDelivery a b c d e f g h i j k l x m n o p) dec_string);
   ("created_at", field jd_CreatedAt (λ x '(mkDelivery a b c d e f g h i j k l m _ n o p),
       mkDelivery a b c d e f g h i j k l m x n o p) dec_time);
   ("started_at", field jd_StartedAt (λ x '(mkDelivery a b c d e f g h i j k l m n _ o p),
       mkDelivery a b c d e f g h i j k l m n x o p) (dec_pointer 0%Z dec_time));
   ("completed_at", field jd_CompletedAt (λ x '(mkDelivery a b c d e f g h i j k l m n o _ p),
       mkDelivery a b c d e f g h i j k l m n o x p) (dec_pointer 0%Z dec_time));
   ("clone_token", field jd_CloneToken (λ x '(mkDelivery a b c d e f g h i j k l m n o p _),
       mkDelivery a b c d e f g h i j k l m n o p x) dec_string)].

(** What [json.Marshal] makes of the maps the agent sends: keys in order. *)
Definition result_body (status : JobStatus) (exitCode : Z) (errMsg : string) : string :=
  Marshal (JObj [("error", JStr errMsg); ("exit_code", JNum (Itoa exitCode));
                 ("status", JStr (job_status_string status))]).

Definition heartbeat_body (jobID : string) : string := Marshal (JObj [("job_id", JStr jobID)]).

Inductive agent_error : Type :=
| ErrHttp (text : string)
| ErrStatus (code : Z) (msg : string)
| ErrDecode.

(** How a goroutine's work ends: by returning, or by a panic. *)
Inductive ending : Type := Returned | Panicked.

(** ** The protocol *)

Section agent.
Context `{RangeOrder}.
Context (cfg : Settings) (GOARCH GOOS : string).
Context (yaml_Unmarshal : string → result string Spec) (Quote : string → string).

Definition register_body : string :=
  Marshal (JObj [("architecture", JStr GOARCH);
                 ("labels", JArr (map JStr (Split ","%char (cfg_RunnerLabels cfg))));
                 ("name", JStr (cfg_RunnerName cfg));
                 ("operating_system", JStr GOOS)]).

Definition register_reply_fields : fields (string * string) :=
  [("runner_id", field fst (λ x o, (x, o.2)) dec_string);
   ("token", field snd (λ x o, (o.1, x)) dec_string)].

(** The runner's id and token, which the agent keeps. *)
Definition register : Prog AgentCall (result agent_error (string * string)) :=
  r ← call (Http (mkHttp POST (cfg_ServerURL cfg +:+ "/api/v1/runners/register")
        [("Content-Type", "application/json");
         ("X-Registration-Token", cfg_RunnerRegistrationToken cfg)] (Some register_body) false));
  mret match r with
       | Err e => Err (ErrHttp e)
       | Ok (code, body) =>
           if negb (code =? 201)%Z then Err (ErrStatus code (excerpt body))
           else match DecodeReply (dec_struct register_reply_fields) ("", "") body with
                | (out, false) => Ok out
                | (_, true) => Err ErrDecode
                end
       end.

Section registered.
Context (id token : string).

Definition request (method path : string) (body : option string) (detached : bool) : HttpRequest :=
  mkHttp method (cfg_ServerURL cfg +:+ path)
    [("Authorization", "Bearer " +:+ token); ("X-Runner-ID", id); ("Content-Type", "application/json")]
    body detached.

(** [a.do] up to the decoding: the body of a reply below 300. *)
Definition do (method path : string) (body : option string) (detached : bool) :
    Prog AgentCall (result agent_error string) :=
  r ← call (Http (request method path body detached));
  mret match r with
       | Err e => Err (ErrHttp e)
       | Ok (code, body) => if (300 <=? code)%Z then Err (ErrStatus code (excerpt body)) else Ok body
       end.

Definition poll : Prog AgentCall (result agent_error (option jobDelivery)) :=
  r ← call (Http (request GET ("/api/v1/runners/" +:+ id +:+ "/job") None false));
  mret match r with
       | Err e => Err (ErrHttp e)
       | Ok (code, body) =>
           if (code =? 204)%Z then Ok None
           else if (code =? 200)%Z then
             match DecodeReply (dec_struct delivery_fields) zero_delivery body with
             | (d, false) => Ok (Some d)
             | (_, true) => Err ErrDecode
             end
           else Err (ErrStatus code (excerpt body))
       end.

(** [a.shipLogs]: the header list ends with the two that are set last. *)
Definition log_request (jobID : string) (seq : Z) (chunk : string) : HttpRequest :=
  mkHttp POST (cfg_ServerURL cfg +:+ "/api/v1/jobs/" +:+ jobID +:+ "/logs")
    [("Authorization", "Bearer " +:+ token); ("X-Runner-ID", id);
     ("Content-Type", "text/plain"); ("X-Log-Seq", Itoa seq)] (Some chunk) false.

Definition shipLogs (jobID : string) (seq : Z) (chunk : string) :
    Prog AgentCall (result agent_error unit) :=
  r ← call (Http (log_request jobID seq chunk));
  mret match r with
       | Err e => Err (ErrHttp e)
       | Ok (code, body) => if (300 <=? code)%Z then Err (ErrStatus code (excerpt body)) else Ok tt
       end.

Definition result_path (jobID : string) : string := "/api/v1/jobs/" +:+ jobID +:+ "/result".

Definition reportResult (jobID : string) (status : JobStatus) (exitCode : Z) (errMsg : string) :
    Prog AgentCall unit :=
  _ ← do POST (result_path jobID) (Some (result_body status exitCode errMsg)) true; mret tt.

(** ** Executing a job *)

(** [fmt.Fprintf(stream, "forgerun: %s: %v\n", ...)] and the rest of [fail] *)
Definition fail (jobID reason err : string) : Prog AgentCall unit :=
  _ ← call (StreamWrite ("forgerun: " +:+ reason +:+ ": " +:+ err +:+ newline));
  _ ← call StreamClose;
  reportResult jobID JobFailed (-1) (reason +:+ ": " +:+ err).

Definition abandon : Prog AgentCall unit :=
  _ ← call (StreamWrite (newline +:+ "forgerun: job cancelled by the control plane" +:+ newline));
  call StreamClose.

(** [jobspec.ParseFile], and the text of its error *)
Definition ParseFile (path : string) : Prog AgentCall (result string Spec) :=
  r ← call (HostOp (ReadFile path));
  mret match r with
       | Err e => Err e
       | Ok data =>
           match Parse yaml_Unmarshal data with
           | Ok spec => Ok spec
           | Err e => Err (spec_error_string Quote e)
           end
       end.

(** The deferred calls, last first. *)
Definition unwind (current : nat) (dir : option string) : Prog AgentCall unit :=
  _ ← match dir with
      | Some dir => _ ← call (HostOp (RemoveAll dir)); mret tt
      | None => mret tt
      end;
  _ ← call (ClearActive current);
  call (CancelJob current).

(** The outcome of a container: status, exit code and message. *)
Definition verdict (res : ExecResult) : JobStatus * Z * string :=
  if TimedOut res then (JobFailed, ExitCode res, "job exceeded timeout")
  else if negb (ExitCode res =? 0)%Z then (JobFailed, ExitCode res, "")
  else (JobSuccess, ExitCode res, "").

(** After the container: the lease is over, and the outcome is reported. *)
Definition conclude (current : nat) (d : jobDelivery) (res : result string ExecResult) :
    Prog AgentCall ending :=
  _ ← call (ClearActive current);
  abandoned ← call (LoadAbandoned current);
  if abandoned : bool then _ ← abandon; mret Returned
  else
    _ ← call StreamClose;
    match res with
    | Err e => _ ← reportResult (jd_ID d) JobFailed (-1) e; mret Returned
    | Ok res =>
        let '(status, code, msg) := verdict res in
        _ ← reportResult (jd_ID d) status code msg; mret Returned
    end.

(** From the checked-out workspace to the report. *)
Definition build (current : nat) (d : jobDelivery) (dir : string) : Prog AgentCall ending :=
  if (String.length (jd_CommitSHA d) <? 8)%nat then mret Panicked (* [job.CommitSHA[:8]] *)
  else
    _ ← call (StreamWrite ("forgerun: checked out " +:+ jd_Branch d +:+ " at " +:+
                string_take 8 (jd_CommitSHA d) +:+ newline));
    spec ← ParseFile (PathJoin [dir; jd_ConfigRef d]);
    match spec with
    | Err e => _ ← fail (jd_ID d) ("cannot read " +:+ jd_ConfigRef d) e; mret Returned
    | Ok spec =>
        match Primary spec with
        | None => mret Panicked
        | Some step =>
            let image := if bool_decide (sj_Image step = "") then cfg_DefaultImage cfg else sj_Image step in
            let step := mkSpecJob (sj_Name step) image (sj_Commands step) (sj_Env step) (sj_Labels step) in
            _ ← call (StreamWrite ("forgerun: running job " +:+ Quote (sj_Name step) +:+ " in " +:+
                        image +:+ newline +:+ newline));
            res ← call (RunExecutor (mkExecRequest (jd_ID d) (jd_CommitSHA d) (jd_Branch d) step dir
                     (cfg_JobTimeout cfg) (cfg_JobNanoCPUs cfg) (cfg_JobMemoryMB cfg)
                     (cfg_DockerNetwork cfg)));
            conclude current d res
        end
    end.

Definition execute (d : jobDelivery) : Prog AgentCall ending :=
  current ← call (NewActive (jd_ID d));
  _ ← call (SetActive current);
  r ← do POST ("/api/v1/jobs/" +:+ jd_ID d +:+ "/start") None false;
  match r with
  | Err _ => _ ← unwind current None; mret Returned
  | Ok _ =>
      _ ← call (StreamOpen current);
      r ← lift (λ X c, HostOp c)
            (prepareWorkspace (mkCheckout (cfg_WorkspaceRoot cfg) (jd_ID d) (jd_CloneURL d)
               (jd_CommitSHA d) (jd_Branch d) (jd_CloneToken d)));
      match r with
      | Err e =>
          abandoned ← call (LoadAbandoned current);
          _ ← (if abandoned : bool then abandon else fail (jd_ID d) "checkout failed" e);
          _ ← unwind current None; mret Returned
      | Ok dir =>
          how ← build current d dir;
          _ ← unwind current (Some dir); mret how
      end
  end.

(** ** Heartbeats and the main loop *)

Definition cancel_fields : fields bool := [("cancel", field (λ b, b) (λ x _, x) dec_bool)].

(** One turn of [heartbeatLoop] after the wait. *)
Definition beat_once : Prog AgentCall unit :=
  job ← call CurrentJob;
  let jobID := match job with Some (_, jobID) => jobID | None => "" end in
  r ← do POST ("/api/v1/runners/" +:+ id +:+ "/heartbeat") (Some (heartbeat_body jobID)) false;
  match r with
  | Err _ => mret tt
  | Ok body =>
      match DecodeReply (dec_struct cancel_fields) false body with
      | (_, true) => mret tt
      | (cancel, false) =>
          match job with
          | Some (p, _) =>
              if cancel : bool then _ ← call (StoreAbandoned p); call (CancelJob p) else mret tt
          | None => mret tt
          end
      end
  end.

(** [min(idle, 5s)] while a job runs, a third of the timeout otherwise *)
Definition beat_interval (busy : bool) : Z :=
  let idle := (cfg_HeartbeatTimeout cfg ÷ 3)%Z in
  if busy then Z.min idle (5 * Second) else idle.

Fixpoint heartbeatLoop (turns : nat) : Prog AgentCall unit :=
  match turns with
  | 0 => mret tt
  | S turns =>
      job ← call CurrentJob;
      _ ← call (Sleep (beat_interval (match job with Some _ => true | None => false end)));
      stop ← call CtxDone;
      if stop : bool then mret tt else _ ← beat_once; heartbeatLoop turns
  end.

(** [Agent.Run] after the registration, for a number of turns. *)
Fixpoint run_loop (turns : nat) : Prog AgentCall ending :=
  match turns with
  | 0 => mret Returned
  | S turns =>
      stop ← call CtxDone;
      if stop : bool then mret Returned
      else
        r ← poll;
        match r with
        | Err _ =>
            stop ← call CtxDone;
            if stop : bool then mret Returned
            else _ ← call (Sleep (3 * Second)); run_loop turns
        | Ok None => run_loop turns
        | Ok (Some d) =>
            how ← execute d;
            match how with Panicked => mret Panicked | Returned => run_loop turns end
        end
  end.
End registered.

(** [Agent.Run]: an error is that of the registration. *)
Definition Run (turns : nat) : Prog AgentCall (result agent_error ending) :=
  r ← register;
  match r with
  | Err e => mret (Err e)
  | Ok (id, token) =>
      _ ← call (GoHeartbeat id token);
      how ← run_loop id token turns; mret (Ok how)
  end.
End agent.
