(* ===== verification/Encode.v ===== *)
(** * Response bodies as bytes

    What json.NewEncoder(w).Encode makes of the values internal/api answers
    with: structs in the order of their fields (internal/models, runners.go),
    [omitempty] fields left out when they are empty, maps by key, a newline at
    the end.  A time is written in the zone of the server, [offset] seconds
    east of UTC; a value that cannot be marshalled (a year beyond 9999) leaves
    the body empty.  The decoders of the runner agent read these bodies back. *)
From S2P Require Import Prelude GoLib GoText Json JsonOut JsonCut GoTime Rfc3339 Http Models Store Webhook Api Agent.

Section encode.
(** The zone; [strconv.Quote]; the text of encoding/json's errors. *)
Context (offset : Z → Z) (Quote : string → string) (json_error : string).

(** ** Values *)

(** A TIMESTAMPTZ has microseconds, a [time.Time] nanoseconds. *)
Definition time_nanos (t : Z) : Z := t * 1000.

Definition time_json (t : Z) : option json :=
  JStr <$> MarshalRFC3339 (offset (time_nanos t)) (time_nanos t).

(** An [omitempty] field *)
Definition member_opt (key : string) (o : option json) : list (string * json) :=
  match o with Some v => [(key, v)] | None => [] end.
Definition nonempty (s : string) : option json := if bool_decide (s = "") then None else Some (JStr s).

(** A pointer to a time, nil or not, as an [omitempty] field *)
Definition time_opt (o : option Z) : option (option json) :=
  match o with None => Some None | Some t => Some <$> time_json t end.

Definition job_members (j : Job) : option (list (string * json)) :=
  created ← time_json (j_CreatedAt j);
  started ← time_opt (j_StartedAt j);
  completed ← time_opt (j_CompletedAt j);
  Some ([("id", JStr (j_ID j)); ("repository", JStr (j_Repository j)); ("clone_url", JStr (j_CloneURL j));
         ("commit_sha", JStr (j_CommitSHA j)); ("branch", JStr (j_Branch j));
         ("event_type", JStr (j_EventType j)); ("config_ref", JStr (j_ConfigRef j));
         ("labels", JArr (JStr <$> j_Labels j)); ("status", JStr (job_status_string (j_Status j)))] ++
        member_opt "runner_id" (JStr <$> j_RunnerID j) ++
        [("attempts", JNum (Itoa (j_Attempts j)))] ++
        member_opt "exit_code" ((JNum ∘ Itoa) <$> j_ExitCode j) ++
        member_opt "error" (nonempty (j_Error j)) ++
        [("created_at", created)] ++
        member_opt "started_at" started ++ member_opt "completed_at" completed).

Definition runner_status_string (s : RunnerStatus) : string :=
  match s with
  | RunnerIdle => "IDLE" | RunnerBusy => "BUSY" | RunnerOffline => "OFFLINE" | RunnerDraining => "DRAINING"
  end.

Definition runner_json (r : Runner) : option json :=
  seen ← time_json (r_LastHeartbeat r);
  assigned ← time_opt (r_LastAssigned r);
  created ← time_json (r_CreatedAt r);
  Some (JObj ([("id", JStr (r_ID r)); ("name", JStr (r_Name r));
               ("status", JStr (runner_status_string (r_Status r)));
               ("labels", match r_Labels r with Some l => JArr (JStr <$> l) | None => JNull end);
               ("architecture", JStr (r_Architecture r)); ("operating_system", JStr (r_OS r))] ++
              member_opt "current_job_id" (JStr <$> r_CurrentJobID r) ++
              [("last_heartbeat", seen)] ++ member_opt "last_assigned_at" assigned ++
              [("created_at", created)])).

(** [err.Error()] of ParseEvent *)
Definition event_error_string (e : event_error) : string :=
  match e with
  | ErrIgnored => "event ignored"
  | ErrDecodePush => "decode push payload: " +:+ json_error
  | ErrDecodePullRequest => "decode pull_request payload: " +:+ json_error
  | ErrInvalidRepository s => "invalid repository " +:+ Quote s
  | ErrInvalidCommit s => "invalid commit sha " +:+ Quote s
  | ErrCloneURL s => "clone url must be https, got " +:+ Quote s
  | ErrEmptyBranch => "empty branch"
  end.

(** ** Bodies *)

(** [json.NewEncoder(w).Encode(v)]; its error is dropped *)
Definition Encode (v : option json) : string :=
  match v with Some v => Marshal v +:+ newline | None => EmptyString end.

(** [registerResponse], [heartbeatResponse], and [jobDelivery] with its embedded
    job. *)
Definition registerResponse (runnerID token : string) : json :=
  JObj [("runner_id", JStr runnerID); ("token", JStr token)].

Definition heartbeatResponse (status : string) (cancel : bool) : json :=
  JObj [("status", JStr status); ("cancel", JBool cancel)].

Definition delivery_json (j : Job) (token : string) : option json :=
  l ← job_members j; Some (JObj (l ++ member_opt "clone_token" (nonempty token))).

Definition body_text (b : Body) : string :=
  match b with
  | BodyNone => EmptyString
  | BodyText s => s
  | BodyError msg => Encode (Some (JObj [("error", JStr msg)]))
  | BodyEventError e => Encode (Some (JObj [("error", JStr (event_error_string e))]))
  | BodyFields fs => Encode (Some (JObj (prod_map id JStr <$> fs)))
  | BodyJob j => Encode (JObj <$> job_members j)
  | BodyJobs l => Encode (l ← mapM job_members l; Some (JObj [("jobs", JArr (JObj <$> l))]))
  | BodyRunner r => Encode (runner_json r)
  | BodyRunners l => Encode (l ← mapM runner_json l; Some (JObj [("runners", JArr l)]))
  | BodyRegistered runnerID token => Encode (Some (registerResponse runnerID token))
  | BodyHeartbeat status cancel => Encode (Some (heartbeatResponse status cancel))
  | BodyDelivery j token => Encode (delivery_json j token)
  end.

(** What a client receives: no body in answer to HEAD. *)
Definition received (r : Request) (resp : Response) : Z * string :=
  (rs_code resp, if bool_decide (rq_Method r = "HEAD") then EmptyString else body_text (rs_body resp)).
End encode.

Example body_ex :
  body_text (λ _, 3600%Z) id "" (BodyDelivery
    (mkJob "j" "o/a" "https://x" "c" "b<" "push" "f.yml" [] JobRunning (Some "r") 1 None "" 1500000 None None) "t") =
  (let q := quote in
   "{" +:+ q +:+ "id" +:+ q +:+ ":" +:+ q +:+ "j" +:+ q +:+ "," +:+ q +:+ "repository" +:+ q +:+ ":" +:+ q +:+ "o/a" +:+ q +:+
   "," +:+ q +:+ "clone_url" +:+ q +:+ ":" +:+ q +:+ "https://x" +:+ q +:+ "," +:+ q +:+ "commit_sha" +:+ q +:+ ":" +:+ q +:+
   "c" +:+ q +:+ "," +:+ q +:+ "branch" +:+ q +:+ ":" +:+ q +:+ "b\u003c" +:+ q +:+ "," +:+ q +:+ "event_type" +:+ q +:+ ":" +:+
   q +:+ "push" +:+ q +:+ "," +:+ q +:+ "config_ref" +:+ q +:+ ":" +:+ q +:+ "f.yml" +:+ q +:+ "," +:+ q +:+ "labels" +:+ q +:+
   ":[]," +:+ q +:+ "status" +:+ q +:+ ":" +:+ q +:+ "RUNNING" +:+ q +:+ "," +:+ q +:+ "runner_id" +:+ q +:+ ":" +:+ q +:+ "r" +:+
   q +:+ "," +:+ q +:+ "attempts" +:+ q +:+ ":1," +:+ q +:+ "created_at" +:+ q +:+ ":" +:+ q +:+
   "1970-01-01T01:00:01.5+01:00" +:+ q +:+ "," +:+ q +:+ "clone_token" +:+ q +:+ ":" +:+ q +:+ "t" +:+ q +:+ "}" +:+ newline).
Proof. vm_compute. reflexivity. Qed.

(** ** An object that was encoded is decoded *)

Lemma encoded_decodes {A} (d : decoder A) zero n l :
  fits n (JObj l) → (Z.of_nat n ≤ max_depth)%Z →
  DecodeReply d zero (Encode (Some (JObj l))) = d (clean (JObj l)) zero.
Proof.
  intros Hf Hn. unfold DecodeReply, Decode, Encode. rewrite Nat2Z.id.
  set (b := Marshal (JObj l)).
  assert (string_take (slen (b +:+ newline)) (b +:+ newline) = b +:+ newline) as ->.
  { rewrite <-(string_app_nil_r (b +:+ newline)) at 2. apply string_take_app. }
  pose proof (value_Marshal n (JObj l) "" Hf Hn I) as Hv. rewrite string_app_nil_r in Hv. fold b in Hv.
  assert (first_value (b +:+ newline) = Some (clean (JObj l))) as ->; [|done].
  unfold first_value. rewrite <-(value_enough (fuel_for b + fuel_for (b +:+ newline))) by lia.
  rewrite (proj1 (value_extends newline _) 0%Z b (clean (JObj l)) ""); [done| |by right].
  by rewrite (value_enough (fuel_for b + _) 0 b) by lia.
Qed.

Lemma empty_decodes_not {A} (d : decoder A) zero : DecodeReply d zero (Encode None) = (zero, true).
Proof. done. Qed.

(** ** Storing the members of an object *)

Section members.
Context {A : Type} (fs : fields A).

Lemma dec_members_app l l' old :
  dec_members fs (l ++ l') old =
  let '(a, e) := dec_members fs l old in let '(a', e') := dec_members fs l' a in (a', e || e').
Proof.
  revert old. induction l as [|[k v] l IH]; intros old; simpl.
  { by destruct (dec_members fs l' old). }
  destruct (find_field fs k) as [d|]; [destruct (d v old) as [a e]|]; rewrite IH.
  - destruct (dec_members fs l a) as [a1 e1]. destruct (dec_members fs l' a1). by rewrite orb_assoc.
  - destruct (dec_members fs l old) as [a1 e1]. by destruct (dec_members fs l' a1).
Qed.

(** A member that is a field, stored without an error; one that may be absent. *)
Lemma dec_member {B} k (get : A → B) set d v l old b :
  find_field fs k = Some (field get set d) → d v (get old) = (b, false) →
  dec_members fs ((k, v) :: l) old = dec_members fs l (set b old).
Proof. intros Hk Hd. simpl. rewrite Hk. unfold field. rewrite Hd. by destruct (dec_members fs l _). Qed.

Lemma dec_optional {B} k (get : A → B) set d o l old b :
  find_field fs k = Some (field get set d) → set (get old) old = old →
  match o with Some v => d v (get old) | None => (get old, false) end = (b, false) →
  dec_members fs (member_opt k o ++ l) old = dec_members fs l (set b old).
Proof.
  intros Hk Hs Hd. destruct o as [v|]; [by eapply dec_member|]. injection Hd as <-. by rewrite Hs.
Qed.
End members.

Lemma dec_strings_back l :
  dec_strings (JArr (map clean (JStr <$> l))) nil_slice = (mkSlice (sanitize <$> l) (length l), false).
Proof.
  destruct l as [|x l]; [done|]. unfold dec_strings. cbn [fmap list_fmap map clean].
  assert (∀ l, dec_elems (map clean (JStr <$> l)) [] = (sanitize <$> l, false)) as Hl.
  { clear. induction l as [|x l IH]; [done|]. cbn. cbn in IH. by rewrite IH. }
  cbn [dec_elems dec_string default head tail nil_slice sl_back]. simpl in Hl. rewrite (Hl l).
  cbn [length]. by rewrite length_map, length_fmap.
Qed.

(** ** ASCII text is not changed *)

Definition ascii_text (s : string) : Prop := Forall (λ c, (byte_val c < 128)%Z) (bytes_of s).

Lemma sanitize_ascii s : ascii_text s → sanitize s = s.
Proof.
  unfold ascii_text, sanitize. induction s as [|c s IH]; [done|]. intros [Hc Hs]%Forall_cons.
  rewrite by_runes_ascii by done. by rewrite IH.
Qed.

Lemma ascii_text_app s s' : ascii_text s → ascii_text s' → ascii_text (s +:+ s').
Proof. unfold ascii_text. rewrite bytes_of_app. by apply Forall_app_2. Qed.

Lemma ascii_digit d : (0 ≤ d < 10)%Z → (byte_val (digit_byte d) < 128)%Z.
Proof. intros Hd. unfold digit_byte. rewrite byte_val_of; lia. Qed.

Lemma ascii_pad2 n : (0 ≤ n < 100)%Z → ascii_text (pad2 n).
Proof. intros Hn. repeat constructor; apply ascii_digit; Z.to_euclidean_division_equations; lia. Qed.

Lemma ascii_digits s : Forall (λ c, is_digit c = true) (bytes_of s) → ascii_text s.
Proof.
  intros Hs. eapply Forall_impl; [exact Hs|]. intros c. unfold is_digit, digit_value. intros Hc.
  destruct (andb _ _) eqn:E; [lia|done].
Qed.

Lemma ascii_rfc3339 off t s : MarshalRFC3339 off t = Some s → ascii_text s.
Proof.
  unfold MarshalRFC3339. set (local := (t + off * 1000000000)%Z).
  pose proof (civil_bounds (local / nanos_per_day)) as Hb. destruct (civil_from_days _) as [[y m] d].
  destruct Hb as [Hm Hd]. assert (daysIn m y ≤ 31)%Z by (unfold daysIn; repeat case_match; lia).
  destruct (orb _ _) eqn:Hok; [done|]. apply orb_false_iff in Hok as [[? ?]%orb_false_iff ?]. intros [= <-].
  assert (0 ≤ local mod nanos_per_day / 1000000000 < 86400)%Z as Hs.
  { unfold nanos_per_day. Z.to_euclidean_division_equations; lia. }
  set (secs := (local mod nanos_per_day / 1000000000)%Z) in *.
  repeat apply ascii_text_app; try (by repeat constructor);
    try (apply ascii_pad2; Z.to_euclidean_division_equations; lia).
  - unfold format_frac. case_match; [constructor|]. apply ascii_text_app; [by repeat constructor|].
    apply ascii_digits, frac_digits_digits. by apply Z.mod_pos_bound.
  - unfold format_zone. case_match; [by repeat constructor|]. repeat apply ascii_text_app.
    + case_match; by repeat constructor.
    + apply ascii_pad2. Z.to_euclidean_division_equations; lia.
    + by repeat constructor.
    + apply ascii_pad2. Z.to_euclidean_division_equations; lia.
Qed.

(** ** A delivery *)

Section delivery.
Context (offset : Z → Z) (Quote : string → string) (json_error : string).
Context (Hzone : ∀ t, (60 | offset t)%Z).

Lemma time_reads_back t v old :
  time_json offset t = Some v → dec_time (clean v) old = (time_nanos t, false).
Proof.
  unfold time_json. destruct (MarshalRFC3339 _ _) as [s|] eqn:E; [|done]. intros [= <-].
  cbn [clean]. rewrite (sanitize_ascii s) by by eapply ascii_rfc3339. unfold dec_time.
  by rewrite (rfc3339_reads_back _ _ _ (Hzone _) E).
Qed.

Lemma time_json_str t v : time_json offset t = Some v → ∃ s, v = JStr s.
Proof. unfold time_json. destruct (MarshalRFC3339 _ _); [|done]. intros [= <-]. by eexists. Qed.

Lemma time_opt_reads_back o v :
  time_opt offset o = Some v →
  match v with Some v => dec_pointer 0%Z dec_time (clean v) None | None => (None, false) end =
  (time_nanos <$> o, false).
Proof.
  unfold time_opt. destruct o as [t|]; [|by intros [= <-]].
  destruct (time_json offset t) as [x|] eqn:E; [|done]. intros [= <-].
  pose proof (time_reads_back t x 0%Z E) as Hx. apply time_json_str in E as [s ->].
  cbn [clean dec_pointer default] in *. by rewrite Hx.
Qed.

(** What the agent makes of a job and its token. *)
Definition delivery_of (j : Job) (token : string) : jobDelivery :=
  mkDelivery (sanitize (j_ID j)) (sanitize (j_Repository j)) (sanitize (j_CloneURL j))
    (sanitize (j_CommitSHA j)) (sanitize (j_Branch j)) (sanitize (j_EventType j)) (sanitize (j_ConfigRef j))
    (mkSlice (sanitize <$> j_Labels j) (length (j_Labels j))) (job_status_string (j_Status j))
    (sanitize <$> j_RunnerID j) (j_Attempts j) (j_ExitCode j) (sanitize (j_Error j))
    (time_nanos (j_CreatedAt j)) (time_nanos <$> j_StartedAt j) (time_nanos <$> j_CompletedAt j)
    (sanitize token).

(** The integers of a job are ints. *)
Definition ints_ok (j : Job) : Prop :=
  int64_ok (j_Attempts j) = true ∧ match j_ExitCode j with Some z => int64_ok z = true | None => True end.

Lemma time_opt_str o v : time_opt offset o = Some (Some v) → ∃ s, v = JStr s.
Proof.
  unfold time_opt. destruct o as [t|]; [|done]. destruct (time_json offset t) eqn:E; [|done].
  intros [= <-]. by eapply time_json_str.
Qed.

Lemma members_fit l : Forall (λ kv, fits 1 kv.2) l → fits 2 (JObj l).
Proof. intros Hl. by apply fits_members. Qed.

Lemma fits_opt k o : match o with Some v => fits 1 v | None => True end →
  Forall (λ kv, fits 1 kv.2) (member_opt k o).
Proof. destruct o; [|constructor]. by repeat constructor. Qed.

Lemma fits_nonempty k s : Forall (λ kv, fits 1 kv.2) (member_opt k (nonempty s)).
Proof. apply fits_opt. unfold nonempty. by case_bool_decide. Qed.

Lemma fits_labels l : fits 1 (JArr (JStr <$> l)).
Proof. apply fits_list. by apply Forall_fmap, Forall_true. Qed.

Lemma job_members_fit j l : ints_ok j → job_members offset j = Some l → Forall (λ kv, fits 1 kv.2) l.
Proof.
  intros [Ha He]. unfold job_members.
  destruct (time_json offset (j_CreatedAt j)) as [cr|] eqn:E1; [|done].
  destruct (time_opt offset (j_StartedAt j)) as [st|] eqn:E2; [|done].
  destruct (time_opt offset (j_CompletedAt j)) as [co|] eqn:E3; [|done].
  apply time_json_str in E1 as [? ->]. intros [= <-].
  repeat ((apply Forall_app; split) || (apply Forall_cons; split)); try done; try apply fits_labels.
  - apply fits_opt. by destruct (j_RunnerID j).
  - by exists (j_Attempts j).
  - apply fits_opt. destruct (j_ExitCode j) as [z|]; [by exists z|done].
  - apply fits_nonempty.
  - apply fits_opt. destruct st; [|done]. by apply time_opt_str in E2 as [? ->].
  - apply fits_opt. destruct co; [|done]. by apply time_opt_str in E3 as [? ->].
Qed.

Lemma clean_members l : map (λ '(k, v), (sanitize k, clean v)) l = prod_map sanitize clean <$> l.
Proof. by apply list_fmap_ext; intros ? []. Qed.

Lemma clean_opt k o : prod_map sanitize clean <$> member_opt k o = member_opt (sanitize k) (clean <$> o).
Proof. by destruct o. Qed.

(** The members of a delivery, read by the scanner. *)
Lemma delivery_clean j token cr st co :
  time_json offset (j_CreatedAt j) = Some cr → time_opt offset (j_StartedAt j) = Some st →
  time_opt offset (j_CompletedAt j) = Some co →
  ∃ l, job_members offset j = Some l ∧
  clean (JObj (l ++ member_opt "clone_token" (nonempty token))) =
  JObj (("id", JStr (sanitize (j_ID j))) :: ("repository", JStr (sanitize (j_Repository j))) ::
    ("clone_url", JStr (sanitize (j_CloneURL j))) :: ("commit_sha", JStr (sanitize (j_CommitSHA j))) ::
    ("branch", JStr (sanitize (j_Branch j))) :: ("event_type", JStr (sanitize (j_EventType j))) ::
    ("config_ref", JStr (sanitize (j_ConfigRef j))) :: ("labels", JArr (map clean (JStr <$> j_Labels j))) ::
    ("status", JStr (job_status_string (j_Status j))) ::
    member_opt "runner_id" ((JStr ∘ sanitize) <$> j_RunnerID j) ++
    ("attempts", JNum (Itoa (j_Attempts j))) ::
    member_opt "exit_code" ((JNum ∘ Itoa) <$> j_ExitCode j) ++
    member_opt "error" (clean <$> nonempty (j_Error j)) ++
    ("created_at", clean cr) ::
    member_opt "started_at" (clean <$> st) ++ member_opt "completed_at" (clean <$> co) ++
    member_opt "clone_token" (clean <$> nonempty token) ++ []).
Proof.
  intros E1 E2 E3. unfold job_members. rewrite E1, E2, E3. eexists. split; [reflexivity|].
  assert (sanitize (job_status_string (j_Status j)) = job_status_string (j_Status j)) as Hst by by destruct (j_Status j).
  destruct (j_RunnerID j), (j_ExitCode j), (nonempty (j_Error j)), st, co, (nonempty token);
    cbn -[sanitize]; rewrite Hst; reflexivity.
Qed.

(** A delivery is read back: what the agent decodes from the body the server
    sends is the job of the response, its strings as UTF-8, and the token. *)
Lemma delivery_reads_back j token :
  ints_ok j → job_members offset j ≠ None →
  DecodeReply (dec_struct delivery_fields) zero_delivery
    (body_text offset Quote json_error (BodyDelivery j token)) = (delivery_of j token, false).
Proof.
  intros Hints Hl. cbn [body_text]. unfold delivery_json. unfold job_members in Hl.
  destruct (time_json offset (j_CreatedAt j)) as [cr|] eqn:E1; [|done].
  destruct (time_opt offset (j_StartedAt j)) as [st|] eqn:E2; [|done].
  destruct (time_opt offset (j_CompletedAt j)) as [co|] eqn:E3; [|done]. clear Hl.
  destruct (delivery_clean j token cr st co E1 E2 E3) as (l & El & Ec). rewrite El.
  cbn [mbind option_bind]. rewrite (encoded_decodes _ _ 2), Ec; [|apply members_fit|done].
  2: { apply Forall_app. split; [by eapply job_members_fit|apply fits_nonempty]. }
  unfold dec_struct.
  do 7 (erewrite dec_member; [|reflexivity|reflexivity]).
  erewrite dec_member; [|reflexivity|apply dec_strings_back].
  erewrite dec_member; [|reflexivity|reflexivity].
  erewrite (dec_optional _ "runner_id" _ _ _ _ _ _ (sanitize <$> j_RunnerID j));
    [|reflexivity|reflexivity|by destruct (j_RunnerID j)].
  destruct Hints as [Ha He].
  erewrite dec_member; [|reflexivity|unfold dec_int; rewrite (Atoi_Itoa _ Ha); reflexivity].
  erewrite (dec_optional _ "exit_code" _ _ _ _ _ _ (j_ExitCode j)); [|reflexivity|reflexivity|].
  2: { destruct (j_ExitCode j) as [z|]; [|done]. cbn -[Itoa]. by rewrite (Atoi_Itoa _ He). }
  erewrite (dec_optional _ "error" _ _ _ _ _ _ (sanitize (j_Error j))); [|reflexivity|reflexivity|].
  2: { unfold nonempty. by case_bool_decide as Hj; [rewrite Hj|]. }
  erewrite dec_member; [|reflexivity|by apply time_reads_back].
  erewrite (dec_optional _ "started_at" _ _ _ _ _ _ (time_nanos <$> j_StartedAt j));
    [|reflexivity|reflexivity|].
  2: { apply time_opt_reads_back in E2. by destruct st. }
  erewrite (dec_optional _ "completed_at" _ _ _ _ _ _ (time_nanos <$> j_CompletedAt j));
    [|reflexivity|reflexivity|].
  2: { apply time_opt_reads_back in E3. by destruct co. }
  erewrite (dec_optional _ "clone_token" _ _ _ _ _ _ (sanitize token)); [|reflexivity|reflexivity|].
  2: { unfold nonempty. by case_bool_decide as Hj; [rewrite Hj|]. }
  reflexivity.
Qed.
End delivery.

(** ** The other replies the agent decodes *)

Lemma heartbeat_reads_back offset Quote json_error status cancel :
  DecodeReply (dec_struct cancel_fields) false
    (body_text offset Quote json_error (BodyHeartbeat status cancel)) = (cancel, false).
Proof. cbn [body_text]. unfold heartbeatResponse. by rewrite (encoded_decodes _ _ 1). Qed.

Lemma registered_reads_back offset Quote json_error runnerID token :
  DecodeReply (dec_struct register_reply_fields) ("", "")
    (body_text offset Quote json_error (BodyRegistered runnerID token)) =
  ((sanitize runnerID, sanitize token), false).
Proof. cbn [body_text]. unfold registerResponse. by rewrite (encoded_decodes _ _ 1). Qed.
