(* ===== verification/Middleware.v ===== *)
(** * What is written to a client, and what is logged (internal/api/middleware.go)

    A handler writes to an http.ResponseWriter: a status line goes out once,
    before the first byte of the body; a second WriteHeader is ignored by
    net/http.  [statusRecorder] wraps the writer and remembers the status for
    the log line of [withLogging]; [withRecovery] answers 500 in place of a
    handler that panicked.  [respond] is how a handler of Api writes its
    response. *)
From S2P Require Import Prelude GoLib Json JsonOut Http Prog Models Store Webhook Api Agent Encode.

(** ** Writers *)

Record Writer : Type := mkWriter {
  wr_header : gmap string string;
  wr_sent : option (Z * gmap string string);  (* status and header, once they are out *)
  wr_body : string
}.

Definition fresh_writer (header : gmap string string) : Writer := mkWriter header None "".

Inductive WriterCall : Type → Type :=
| HeaderSet (key value : string) : WriterCall unit
| WriteHeader (code : Z) : WriterCall unit
| WriteBody (s : string) : WriterCall unit.

Definition send_header (code : Z) (w : Writer) : Writer :=
  match wr_sent w with
  | Some _ => w                             (* superfluous: logged by net/http, ignored *)
  | None => mkWriter (wr_header w) (Some (code, wr_header w)) (wr_body w)
  end.

(** [statusRecorder]: a writer, and the status that is remembered. *)
Record statusRecorder : Type := mkRecorder { sr_writer : Writer; sr_status : Z }.

Definition recorder_handle (X : Type) (c : WriterCall X) (s : statusRecorder) : X * statusRecorder :=
  match c in WriterCall X return X * statusRecorder with
  | HeaderSet key value =>
      (tt, mkRecorder (mkWriter (<[key := value]> (wr_header (sr_writer s))) (wr_sent (sr_writer s))
             (wr_body (sr_writer s))) (sr_status s))
  | WriteHeader code => (tt, mkRecorder (send_header code (sr_writer s)) code)
  | WriteBody text =>
      let w := send_header 200 (sr_writer s) in
      (tt, mkRecorder (mkWriter (wr_header w) (wr_sent w) (wr_body w +:+ text)) (sr_status s))
  end.

(** ** The chain *)

Section chain.
Context (offset : Z → Z) (Quote : string → string) (json_error : string).

Definition body_bytes (b : Body) : string := body_text offset Quote json_error b.

(** [writeJSON]; [w.WriteHeader] alone for 202 and 204; [http.Error] and
    [handleGetJobLogs] write text, the latter with the status that is implied; a
    poll whose caller is gone writes nothing. *)
Definition respond (r : Response) : Prog WriterCall ending :=
  _ ← match rs_body r with
      | BodyNone => mret tt
      | BodyText _ => call (HeaderSet "Content-Type" "text/plain; charset=utf-8")
      | _ => call (HeaderSet "Content-Type" "application/json")
      end;
  _ ← match rs_body r with
      | BodyNone | BodyText _ =>
          if (rs_code r =? 200)%Z then mret tt else call (WriteHeader (rs_code r))
      | _ => call (WriteHeader (rs_code r))
      end;
  _ ← match rs_body r with BodyNone => mret tt | b => call (WriteBody (body_bytes b)) end;
  mret Returned.

(** A panic is recovered, and answered like an error. *)
Definition withRecovery (next : Prog WriterCall ending) : Prog WriterCall ending :=
  how ← next;
  match how with
  | Returned => mret Returned
  | Panicked => respond (mkResponse 500 (BodyError "internal error"))
  end.

(** What the client gets when the handler is done: 200 is implied. *)
Definition delivered (w : Writer) : Z * string := (from_option fst 200%Z (wr_sent w), wr_body w).

(** The status on the log line, and what the client gets. *)
Definition withLogging (header : gmap string string) (next : Prog WriterCall ending) : Z * (Z * string) :=
  let '(_, s) := run recorder_handle next (mkRecorder (fresh_writer header) 200) in
  (sr_status s, delivered (sr_writer s)).

(** ** What is logged is what is sent *)

Abbreviation exec_writer p s := (run recorder_handle p s).

(** The responses of Api go out as they are, and their status is logged. *)
Theorem response_is_sent_and_logged (header : gmap string string) (r : Response) :
  withLogging header (withRecovery (respond r)) =
  (rs_code r, (rs_code r, match rs_body r with BodyNone => "" | b => body_bytes b end)).
Proof.
  destruct r as [code b]. unfold withLogging, withRecovery, respond, body_bytes. cbn [rs_code rs_body].
  destruct b; rewrite ?run_bind; simpl; try done; by destruct (Z.eqb_spec code 200) as [->|].
Qed.

(** A handler that panics before anything is sent is answered 500, whatever it
    had set, and logged as such; once something was sent the client keeps that
    status, but the log line says 500. *)
Theorem panic_is_answered (header : gmap string string) (next : Prog WriterCall ending) (s : statusRecorder) :
  exec_writer next (mkRecorder (fresh_writer header) 200) = (Panicked, s) →
  withLogging header (withRecovery next) =
  (500%Z, (match wr_sent (sr_writer s) with Some (code, _) => code | None => 500%Z end,
           wr_body (sr_writer s) +:+ body_bytes (BodyError "internal error"))).
Proof.
  intros E. unfold withLogging, withRecovery. rewrite run_bind, E. unfold respond. cbn [rs_code rs_body].
  rewrite !run_bind. destruct s as [[h [[code h']|] b] st]; reflexivity.
Qed.
End chain.
