(* ===== verification/AgentSpec.v ===== *)
(** * What a runner does with a job, whatever happens to it

    Theorems about internal/runner/agent.go over all replies: of the control
    plane, of git and Docker, and of the heartbeat goroutine through the shared
    bookkeeping. *)
From S2P Require Import Prelude GoLib GoText Json JsonOut GoTime Http Prog Traces Models Config Workspace Jobspec Executor Agent.

(** ** Projections of a trace *)

Definition http_in (v : event AgentCall) : option (HttpRequest * HttpReply) :=
  match v with
  | existT _ (e, x) =>
      match e in AgentCall X return X → option (HttpRequest * HttpReply) with
      | Http req => λ r, Some (req, r)
      | _ => λ _, None
      end x
  end.

Definition host_in (v : event AgentCall) : option (event HostCall) :=
  match v with
  | existT _ (e, x) =>
      match e in AgentCall X return X → option (event HostCall) with
      | HostOp c => λ r, Some (ev c r)
      | _ => λ _, None
      end x
  end.

Definition abandoned_in (v : event AgentCall) : option bool :=
  match v with
  | existT _ (e, x) =>
      match e in AgentCall X return X → option bool with LoadAbandoned _ => Some | _ => λ _, None end x
  end.

Definition executor_in (v : event AgentCall) : option (result string ExecResult) :=
  match v with
  | existT _ (e, x) =>
      match e in AgentCall X return X → option (result string ExecResult) with
      | RunExecutor _ => Some
      | _ => λ _, None
      end x
  end.

(** What is done with the build: its definition is read, its container is run,
    and it is looked up whether the job was taken away. *)
Inductive mark : Type := MRead | MRan | MAsked (abandoned : bool).

Definition mark_in (v : event AgentCall) : option mark :=
  match v with
  | existT _ (e, x) =>
      match e in AgentCall X return X → option mark with
      | HostOp (ReadFile _) => λ _, Some MRead
      | RunExecutor _ => λ _, Some MRan
      | LoadAbandoned _ => λ b, Some (MAsked b)
      | _ => λ _, None
      end x
  end.

Definition reads (v : event HostCall) : bool :=
  match v with existT _ (e, _) => match e with ReadFile _ => true | _ => false end end.

Definition closes (v : event AgentCall) : bool :=
  match v with existT _ (e, _) => match e with StreamClose => true | _ => false end end.

(** A goroutine is cancelled, or marked so. *)
Definition touches (v : event AgentCall) : option nat :=
  match v with
  | existT _ (e, _) => match e with StoreAbandoned p | CancelJob p => Some p | _ => None end
  end.

Abbreviation hosted := (map (lift_event (λ X c, HostOp c))).

Lemma hosted_nothing {B} (f : event AgentCall → option B) tr :
  (∀ X (c : HostCall X) x, f (ev (HostOp c) x) = None) → omap f (hosted tr) = [].
Proof. intros Hf. induction tr as [|[X [c x]] tr IH]; [done|]. cbn. rewrite Hf. exact IH. Qed.

Lemma hosted_host tr : omap host_in (hosted tr) = tr.
Proof. induction tr as [|[X [c x]] tr IH]; [done|]. exact (f_equal (cons _) IH). Qed.

Lemma hosted_closes tr : existsb closes (hosted tr) = false.
Proof. induction tr as [|[X [c x]] tr IH]; [done|]. simpl. by rewrite IH. Qed.

Definition accepted (r : HttpReply) : bool :=
  match r with Ok (code, _) => (code <? 300)%Z | Err _ => false end.

Section spec.
Context `{RangeOrder} (cfg : Settings) (yaml_Unmarshal : string → result string Spec).
Context (Quote : string → string) (id token : string).

Definition start_request (d : jobDelivery) : HttpRequest :=
  request cfg id token POST ("/api/v1/jobs/" +:+ jd_ID d +:+ "/start") None false.

Definition result_request (jobID body : string) : HttpRequest :=
  request cfg id token POST (result_path jobID) (Some body) true.

Definition workspace_of (d : jobDelivery) : string :=
  PathJoin [cfg_WorkspaceRoot cfg; "forgerun-" +:+ jd_ID d].

(** The report that the run of a job calls for. *)
Definition due (body : string) (ran : list (result string ExecResult)) : Prop :=
  match ran with
  | [] => ∃ msg, body = result_body JobFailed (-1) msg
  | [Err e] => body = result_body JobFailed (-1) e
  | [Ok res] =>
      body = result_body (if decide (ExitCode res = 0%Z ∧ TimedOut res = false) then JobSuccess else JobFailed)
        (ExitCode res) (if TimedOut res then "job exceeded timeout" else "")
  | _ => False
  end.

(** It is looked up once whether the job was taken away: after the container, or
    after a checkout that failed; not when it was the build definition that
    could not be read. *)
Definition consulted (tr : list (event AgentCall)) : Prop :=
  match omap mark_in tr with
  | [MRead; MRan; MAsked _] | [MAsked _] | [MRead] => True
  | _ => False
  end.

(** The host is as it was: no directory was made, or the last thing done to the
    host was to remove it. *)
Definition cleaned (dir : string) (tr : list (event HostCall)) : Prop :=
  (∃ err, tr = [ev (MkdirAll dir) (Some err)]) ∨ (∃ x, last tr = Some (ev (RemoveAll dir) x)).

Definition obligations (d : jobDelivery) (how : ending) (tr : list (event AgentCall)) : Prop :=
  how = Returned ∧
  match omap http_in tr with
  | (req, reply) :: rest =>
      req = start_request d ∧
      if accepted reply then
        cleaned (workspace_of d) (omap host_in tr) ∧ existsb closes tr = true ∧ consulted tr ∧
        if existsb (λ b, b) (omap abandoned_in tr) then rest = []
        else ∃ body r, rest = [(result_request (jd_ID d) body, r)] ∧ due body (omap executor_in tr)
      else rest = [] ∧ omap host_in tr = [] ∧ omap executor_in tr = []
  | [] => False
  end.

Lemma reportResult_post jobID status code msg :
  post (reportResult cfg id token jobID status code msg) []
    (λ _ tr, ∃ r, tr = [ev (Http (result_request jobID (result_body status code msg))) r]).
Proof. unfold reportResult, do. go_post; by eexists. Qed.

Lemma fail_post jobID reason e :
  post (fail cfg id token jobID reason e) []
    (λ _ tr, ∃ s msg r, tr = [ev (StreamWrite s) tt; ev StreamClose tt;
                              ev (Http (result_request jobID (result_body JobFailed (-1) msg))) r]).
Proof.
  unfold fail. apply post_bind, post_call. intros []. apply post_bind, post_call. intros [].
  apply post_from_start. eapply post_mono; [apply reportResult_post|].
  intros [] tr (r & ->). by eexists _, _, r.
Qed.

Lemma abandon_post :
  post abandon [] (λ _ tr, ∃ s, tr = [ev (StreamWrite s) tt; ev StreamClose tt]).
Proof. unfold abandon. go_post. repeat match goal with x : unit |- _ => destruct x end. by eexists. Qed.

(** Preparing a workspace reads no file. *)
Lemma prepare_reads c : post (prepareWorkspace c) [] (λ _ tr, existsb reads tr = false).
Proof.
  unfold prepareWorkspace, discard_workspace, checkout_commit, git_run. cbn [run_steps].
  unfold discard_workspace, git_run. go_post; done.
Qed.

Lemma hosted_marks tr : existsb reads tr = false → omap mark_in (hosted tr) = [].
Proof.
  induction tr as [|[X [c x]] tr IH]; [done|]. simpl. intros [Hc Htr]%orb_false_iff.
  destruct c; try done; by apply IH.
Qed.

Lemma prepare_post c :
  post (lift (λ X c, HostOp c) (prepareWorkspace c)) []
    (λ r tr, ∃ tr', tr = hosted tr' ∧ prepared c r tr' ∧ existsb reads tr' = false).
Proof.
  apply (post_lift _ _ [] []). eapply post_mono; [apply post_and; [apply prepareWorkspace_prepared|apply prepare_reads]|].
  intros r tr [Hp Hr]. by exists tr.
Qed.

(** The report of a container is the one that is due. *)
Lemma verdict_due res status code msg :
  verdict res = (status, code, msg) → due (result_body status code msg) [Ok res].
Proof.
  unfold verdict, due. destruct res as [c [|]]; cbn; [|destruct (Z.eqb_spec c 0)]; cbn; intros [= <- <- <-];
    case_decide; naive_solver.
Qed.

Lemma Primary_total data spec : Parse yaml_Unmarshal data = Ok spec → Primary spec ≠ None.
Proof. intros Hok. destruct (Primary_correct _ _ _ Hok) as (j & -> & _). done. Qed.

(** What [build] owes: the stream closed and, unless the job was abandoned, the
    report that is due. *)
Definition built (jobID : string) (tr : list (event AgentCall)) : Prop :=
  existsb closes tr = true ∧ (∃ b, omap mark_in tr = [MRead; MRan; MAsked b] ∨ omap mark_in tr = [MRead]) ∧
  if existsb (λ b, b) (omap abandoned_in tr) then omap http_in tr = []
  else ∃ body r, omap http_in tr = [(result_request jobID body, r)] ∧ due body (omap executor_in tr).

Lemma build_built current d dir :
  8 ≤ String.length (jd_CommitSHA d) →
  post (build cfg yaml_Unmarshal Quote id token current d dir) []
    (λ how tr, how = Returned ∧ built (jd_ID d) tr).
Proof.
  intros Hsha. unfold build. rewrite (proj2 (Nat.ltb_ge _ _)) by done.
  apply post_bind, post_call. intros []. apply post_bind. unfold ParseFile.
  apply post_bind, post_call. intros file. apply post_ret. simpl app.
  destruct file as [data|e]; [destruct (Parse yaml_Unmarshal data) as [spec|e] eqn:Hparse|].
  2-3: eapply post_bind_start; [apply fail_post|]; intros [] tr (s & msg & r & ->);
       apply post_ret; split; [done|]; split; [done|]; split; [by exists false; right|]; simpl; by eauto.
  destruct (Primary spec) as [step|] eqn:Hstep; [|by apply Primary_total in Hparse].
  apply post_bind, post_call. intros []. apply post_bind, post_call. intros res.
  unfold conclude. apply post_bind, post_call. intros []. apply post_bind, post_call. intros [].
  - eapply post_bind_start; [apply abandon_post|]. intros [] tr (s & ->).
    apply post_ret. split; [done|]. split; [done|]. split; [by exists true; left|done].
  - apply post_bind, post_call. intros []. destruct res as [res|e].
    + destruct (verdict res) as [[status code] msg] eqn:Hv.
      eapply post_bind_start; [apply reportResult_post|]. intros [] tr (r & ->).
      apply post_ret. split; [done|]. split; [done|]. split; [by exists false; left|].
      simpl. eexists _, _. split; [done|]. by apply verdict_due.
    + eapply post_bind_start; [apply reportResult_post|]. intros [] tr (r & ->).
      apply post_ret. split; [done|]. split; [done|]. split; [by exists false; left|]. by eexists _, _.
Qed.

Lemma unwind_post current dir :
  post (unwind current dir) []
    (λ _ tr, tr = [ev (ClearActive current) tt; ev (CancelJob current) tt] ∧ dir = None ∨
             ∃ d x, dir = Some d ∧ tr = [ev (HostOp (RemoveAll d)) x; ev (ClearActive current) tt;
                                        ev (CancelJob current) tt]).
Proof.
  unfold unwind. destruct dir as [d|]; go_post;
    repeat match goal with x : unit |- _ => destruct x end; [right|by left]. by eexists _, _.
Qed.

(** Project a trace that is put together from pieces. *)
Ltac tally :=
  rewrite ?omap_app, ?existsb_app, ?hosted_host, ?hosted_closes, ?(hosted_nothing http_in),
    ?(hosted_nothing abandoned_in), ?(hosted_nothing executor_in) by done;
  simpl; rewrite ?app_nil_r.

Ltac tally_marks Hread :=
  unfold consulted; simpl;
  repeat change (list_omap _ _ mark_in ?l) with (omap mark_in l);
  rewrite ?omap_app, Hread; simpl; rewrite ?app_nil_r.

Lemma last_app_some {A} (l l' : list A) x : last l' = Some x → last (l ++ l') = Some x.
Proof. intros Hl. by rewrite last_app, Hl. Qed.

Lemma execute_obligations d :
  8 ≤ String.length (jd_CommitSHA d) →
  post (execute cfg yaml_Unmarshal Quote id token d) [] (obligations d).
Proof.
  intros Hsha. unfold execute. apply post_bind, post_call. intros p.
  apply post_bind, post_call. intros []. unfold do. apply post_bind, post_bind, post_call.
  intros reply. apply post_ret. simpl app. fold (start_request d).
  destruct (accepted reply) eqn:Hacc; unfold accepted in Hacc.
  2: { destruct reply as [[code body]|e]; [rewrite (proj2 (Z.leb_le 300 code)) by lia|].
       all: eapply post_bind_start; [apply unwind_post|].
       all: intros [] tr [[-> _]|(? & ? & ? & _)]; [|done]; apply post_ret; split; [done|]; simpl.
       - by rewrite Hacc.
       - done. }
  destruct reply as [[code body]|e]; [|done]. rewrite (proj2 (Z.leb_gt 300 code)) by lia.
  apply post_bind, post_call. intros []. eapply post_bind_start; [apply prepare_post|].
  intros r tr (tr1 & -> & [_ Hr] & Hread%hosted_marks). destruct r as [dir|e].
  - destruct Hr as (-> & _ & _). eapply post_bind_start; [by apply build_built|].
    intros how tr2 [-> (Hcl & (ask & Hmarks) & Hb)]. eapply post_bind_start; [apply unwind_post|].
    intros [] tr3 [[_ ?]|(d' & x & [= <-] & ->)]; [done|]. apply post_ret. split; [done|].
    tally. rewrite Hacc, Hcl.
    match goal with |- context [consulted ?t] =>
      assert (consulted t) as Hcons; [tally_marks Hread; by destruct Hmarks as [-> | ->]|] end.
    destruct (existsb (λ b, b) (omap abandoned_in tr2)).
    + rewrite Hb. split_and!; try done. right. eexists. by apply last_app_some.
    + destruct Hb as (b & r & -> & Hdue). split_and!; try done; [|simpl; by eauto].
      right. eexists. by apply last_app_some.
  - apply post_bind, post_call. intros [].
    + eapply post_bind_start; [apply abandon_post|]. intros [] tr2 (s & ->).
      eapply post_bind_start; [apply unwind_post|].
      intros [] tr3 [[-> _]|(? & ? & ? & _)]; [|done]. apply post_ret. split; [done|].
      tally. rewrite Hacc. split_and!; try done; by tally_marks Hread.
    + eapply post_bind_start; [apply fail_post|]. intros [] tr2 (s & msg & r & ->).
      eapply post_bind_start; [apply unwind_post|].
      intros [] tr3 [[-> _]|(? & ? & ? & _)]; [|done]. apply post_ret. split; [done|].
      tally. rewrite Hacc. split_and!; try done; [by tally_marks Hread|]. simpl. eexists _, _. split; [done|]. by eexists.
Qed.

(** A heartbeat stops a job only if the control plane said so in reply to that
    very heartbeat, which named that very job; it marks the job before it
    cancels it. *)
Lemma beat_once_post :
  post (beat_once cfg id token) [] (λ _ tr,
    omap touches tr = [] ∨
    ∃ p jobID req code body,
      tr = [ev CurrentJob (Some (p, jobID)); ev (Http req) (Ok (code, body));
            ev (StoreAbandoned p) tt; ev (CancelJob p) tt] ∧
      hq_Body req = Some (heartbeat_body jobID) ∧ (code < 300)%Z ∧
      DecodeReply (dec_struct cancel_fields) false body = (true, false)).
Proof.
  unfold beat_once, do. apply post_bind, post_call. intros job. apply post_bind, post_bind, post_call.
  intros reply. apply post_ret. simpl app. destruct reply as [[code body]|e]; [|by left].
  destruct (Z.leb_spec 300 code); [by left|].
  destruct (DecodeReply _ _ _) as [cancel []] eqn:Hdec; [by left|].
  destruct job as [[p jobID]|]; [|by left]. destruct cancel; [|by left].
  apply post_bind, post_call. intros []. apply post_call. intros []. right.
  by eexists p, jobID, _, code, body.
Qed.

(** C16. Every job a runner accepts comes to an end, whatever happens to it.  If
    the control plane does not confirm the start, nothing else is asked of
    anyone.  If it does, the job's directory is gone when the run is over and the
    log is closed.  After the container, or after a checkout that failed, the run
    looks up once whether the job was taken away; if it was, nothing is reported.
    Otherwise there is exactly one report: SUCCESS exactly if the container
    exited with 0 within its time, FAILED with the container's code, with the
    executor's error, or with the reason the build could not begin. *)
Theorem execute_correct (d : jobDelivery) (Hsha : 8 ≤ String.length (jd_CommitSHA d)) :
  post (execute cfg yaml_Unmarshal Quote id token d) [] (obligations d).
Proof. by apply execute_obligations. Qed.
End spec.
