(* ===== verification/Wire.v ===== *)
(** * Between the runner and the control plane

    The requests internal/runner/agent.go sends are the requests internal/api
    serves: they are routed to the handler they are meant for, authenticate as
    their runner, and their bodies decode to what was encoded.  [wire] is what
    net/http makes of a request on its way, for a server URL without a path and
    path segments without escapes. *)
From S2P Require Import Prelude GoLib GoText Sha256 Json JsonOut Http Prog Models Sql Redis World Tables Store Lifecycle.
From S2P Require Import Queue Outcome Webhook Api Auth JobApi Config Agent LogStream.
From Stdlib Require Import Ascii.

#[local] Arguments mbind : simpl never.

(** ** The request on the wire *)

Definition wire (base : string) (req : HttpRequest) : Request :=
  mkRequest (hq_Method req) (tail (Split "/"%char (TrimPrefix (hq_URL req) base)))
    (header_get (hq_Headers req)) (λ _, "") (default "" (hq_Body req)).

(** An identifier that is one path segment and needs no escaping. *)
Definition unreserved (c : ascii) : bool :=
  between 48 57 c || between 65 90 c || between 97 122 c || bool_decide (c = "-"%char).
Definition plain (id : string) : Prop :=
  id ≠ "" ∧ Forall (λ c, unreserved c = true) (bytes_of id).

Lemma plain_no_slash id : plain id → Forall (λ c, c ≠ "/"%char) (bytes_of id).
Proof. intros [_ Hid]. eapply Forall_impl; [done|]. intros c Hc ->. by vm_compute in Hc. Qed.

Section wire.
Context (acfg : Settings) (id token : string).

Lemma wire_job_path jobID op :
  plain jobID → tail (Split "/"%char (TrimPrefix
    (cfg_ServerURL acfg +:+ "/api/v1/jobs/" +:+ jobID +:+ "/" +:+ op) (cfg_ServerURL acfg))) =
  "api" :: "v1" :: "jobs" :: jobID :: Split "/"%char op.
Proof.
  intros Hid%plain_no_slash. rewrite TrimPrefix_app.
  change ("/api/v1/jobs/" +:+ jobID +:+ "/" +:+ op) with
    (String.String "/" ("api" +:+ String.String "/" ("v1" +:+ String.String "/" ("jobs" +:+
       String.String "/" (jobID +:+ String.String "/" op))))).
  cbn [Split]. destruct (ascii_dec "/" "/"); [|done]. cbn [tail].
  by rewrite !Split_app by (done || by repeat constructor).
Qed.

(** The identity the agent presents is the one the middleware reads. *)
Lemma wire_identity method path body detached jobID :
  id ≠ "" →
  let r := wire (cfg_ServerURL acfg) (request acfg id token method path body detached) in
  presented_id r jobID = id ∧ presented_token r = token ∧ rq_Header r "X-Runner-ID" = id.
Proof.
  intros Hid. unfold presented_id, presented_token, wire, request. cbn [rq_Header hq_Headers].
  change (header_get _ "X-Runner-ID") with id.
  change (header_get _ "Authorization") with ("Bearer " +:+ token).
  by rewrite decide_False, TrimPrefix_app by done.
Qed.

(** ** Results *)

Definition result_message (jobID : string) (status : JobStatus) (code : Z) (msg : string) : Request :=
  wire (cfg_ServerURL acfg)
    (request acfg id token POST (result_path jobID) (Some (result_body status code msg)) true).

Lemma result_routed {Q : Queue} cfg jobID status code msg :
  plain jobID →
  Routes cfg (result_message jobID status code msg) =
  withRunnerAuth (handleJobResult cfg) (result_message jobID status code msg) jobID.
Proof.
  intros Hid. pose proof (wire_job_path jobID "result" Hid) as Hp. unfold Routes, result_message, wire, request.
  cbn [rq_Path rq_Method hq_URL hq_Method]. unfold result_path.
  change ("/result") with ("/" +:+ "result"). rewrite Hp. simpl.
  destruct Hid as [Hne _]. by rewrite bool_decide_false.
Qed.

Lemma string_take_all n s : String.length s ≤ n → string_take n s = s.
Proof.
  revert n. induction s as [|c s IH]; intros [|n] Hn; simpl in *; try done; [lia|].
  by rewrite IH by lia.
Qed.

(** What the server decodes is what the agent encoded. *)
Lemma result_decodes status code msg :
  int64_ok code = true → (Z.of_nat (String.length (result_body status code msg)) ≤ 65536)%Z →
  Decode (dec_struct result_fields) (mkResult "" 0 "") 65536 (result_body status code msg) =
  (mkResult (job_status_string status) code (sanitize msg), false).
Proof.
  intros Hcode Hlen. unfold Decode. rewrite string_take_all by lia.
  unfold result_body. rewrite (first_value_Marshal 1); [|simpl; by eauto 6|done].
  cbn [clean map]. unfold dec_struct.
  change (sanitize "error") with "error". change (sanitize "exit_code") with "exit_code".
  change (sanitize "status") with "status".
  assert (sanitize (job_status_string status) = job_status_string status) as -> by by destruct status.
  cbn [dec_members].
  change (find_field result_fields "error") with
    (Some (field rt_Error (λ x q, mkResult (rt_Status q) (rt_ExitCode q) x) dec_string)).
  change (find_field result_fields "exit_code") with
    (Some (field rt_ExitCode (λ x q, mkResult (rt_Status q) x (rt_Error q)) dec_int)).
  change (find_field result_fields "status") with
    (Some (field rt_Status (λ x q, mkResult x (rt_ExitCode q) (rt_Error q)) dec_string)).
  unfold field, dec_int, dec_string. by rewrite Atoi_Itoa.
Qed.
End wire.

(** A message that is cut off does not decode. *)
Lemma cut_body (n : nat) s rest :
  n ≤ String.length (escape s) →
  first_value (string_take (10 + n) ("{" +:+ quoted "error" +:+ ":" +:+ quote +:+ escape s +:+ rest)) = None.
Proof.
  intros Hn.
  assert (string_take (10 + n) ("{" +:+ quoted "error" +:+ ":" +:+ quote +:+ escape s +:+ rest) =
    "{" +:+ quoted "error" +:+ ":" +:+ String.String dquote (string_take n (escape s))) as ->.
  { rewrite <-(string_take_short n (escape s) rest) by done. reflexivity. }
  unfold first_value. generalize (fuel_for ("{" +:+ quoted "error" +:+ ":" +:+ String.String dquote
    (string_take n (escape s)))). intros [|[|[|fuel]]]; try done.
  pose proof (scan_cut s n) as Hs. simpl. by rewrite Hs.
Qed.

Lemma long_result_decodes_not status code msg :
  (65526 ≤ Z.of_nat (String.length (escape msg)))%Z →
  (Decode (dec_struct result_fields) (mkResult "" 0 "") 65536 (result_body status code msg)).2 = true.
Proof.
  intros Hlong. unfold Decode, result_body.
  assert (Z.to_nat 65536 = 10 + Z.to_nat 65526) as -> by lia.
  set (rest := quote +:+ "," +:+ quoted "exit_code" +:+ ":" +:+ Itoa code +:+ "," +:+
    quoted "status" +:+ ":" +:+ quoted (job_status_string status) +:+ "}").
  assert (Marshal (JObj [("error", JStr msg); ("exit_code", JNum (Itoa code));
                 ("status", JStr (job_status_string status))]) =
    "{" +:+ quoted "error" +:+ ":" +:+ quote +:+ escape msg +:+ rest) as ->.
  { unfold rest. cbn [Marshal map Join]. unfold quoted at 2. rewrite !string_app_assoc. reflexivity. }
  by rewrite cut_body by lia.
Qed.

(** ** A result, from the runner to the table *)

Section delivered.
Context `{RangeOrder} {R : Type} `{Redis R} `{Queue}.
Context (acfg : Settings) (cfg : Config) (id token : string) (jobID : string).
Context (row : JobRow) (rrow : RunnerRow) (status : JobStatus) (code : Z) (msg : string) (w : World R).

(** The runner that holds the job, with the token it was issued at registration. *)
Definition assigned_to : Prop :=
  id ≠ "" ∧ token ≠ "" ∧
  db_jobs (w_db w) !! jobID = Some row ∧ j_RunnerID (jr_job row) = Some id ∧
  db_runners (w_db w) !! id = Some rrow ∧ rr_token_hash rrow = hashToken token.

Lemma result_authenticated :
  calm w → plain jobID → assigned_to →
  exec (Routes cfg (result_message acfg id token jobID status code msg)) w =
  exec (handleJobResult cfg (result_message acfg id token jobID status code msg) jobID) w.
Proof.
  intros Hc Hp (Hid & Ht & _ & _ & Hr & Hh). rewrite result_routed by done.
  apply withRunnerAuth_passes; [done|]. unfold credentials_ok, result_message.
  destruct (wire_identity acfg id token POST (result_path jobID) (Some (result_body status code msg))
    true jobID Hid) as (-> & -> & _). split_and!; [done..|]. by exists rrow.
Qed.

Lemma result_delivered :
  calm w → good (w_db w) → plain jobID → assigned_to → status = JobSuccess ∨ status = JobFailed →
  int4_ok code = true → text_ok (sanitize msg) = true →
  (Z.of_nat (String.length (result_body status code msg)) ≤ 65536)%Z →
  result_handled jobID id row rrow status code (sanitize msg) w
    (exec (Routes cfg (result_message acfg id token jobID status code msg)) w).
Proof.
  intros Hc Hg Hp Ha Hst Hcode Htext Hlen.
  rewrite result_authenticated by done. destruct Ha as (Hid & _ & Hrow & Hown & Hr & _).
  apply handleJobResult_handled; try done.
  - split; [|done]. apply result_decodes; [|done].
    unfold int4_ok, int64_ok, int4_min, int4_max, int64_min, int64_max in *. lia.
Qed.

(** C21. A result reaches the table.  What the agent sends when a build ends -
    the request [reportResult] builds, put on the wire, routed, authenticated
    and decoded by the server - has the effect the API gives a result: the job
    is stored with the status, exit code and error message the agent encoded
    (invalid UTF-8 replaced, as encoding/json does), or is refused when the
    state machine does not allow it. *)
Theorem result_reaches_the_store
    (Hc : calm w) (Hg : good (w_db w)) (Hp : plain jobID) (Ha : assigned_to)
    (Hst : status = JobSuccess ∨ status = JobFailed)
    (Hcode : int4_ok code = true) (Htext : text_ok (sanitize msg) = true)
    (Hlen : (Z.of_nat (String.length (result_body status code msg)) ≤ 65536)%Z) :
  result_handled jobID id row rrow status code (sanitize msg) w
    (exec (Routes cfg (result_message acfg id token jobID status code msg)) w).
Proof. by apply result_delivered. Qed.

(** A long error message is lost.  The server reads at most 64 KiB of a
    result, and the agent puts no bound on the error message it sends (git's
    output, for one, may be of any length): when the escaped message does not
    fit, the request is answered 400 and nothing changes, so the job stays in
    the state it was and its runner stays busy. *)
Theorem long_error_is_refused (Hc : calm w) (Hp : plain jobID) (Ha : assigned_to)
    (Hlong : (65526 ≤ Z.of_nat (String.length (escape msg)))%Z) :
  exec (Routes cfg (result_message acfg id token jobID status code msg)) w =
  (mkResponse 400 (BodyError "invalid JSON body"), w).
Proof.
  rewrite result_authenticated by done. destruct Ha as (Hid & _ & Hrow & Hown & _).
  unfold handleJobResult, ifOwner, runnerOwnsJob, GetJob. rewrite !run_bind, run_call. cbn [handle].
  rewrite do_sql_calm by done. simpl. rewrite Hrow, set_db_id. simpl.
  change (rq_Header _ "X-Runner-ID") with id. rewrite Hown, (bool_decide_true (Some id = Some id)) by done.
  change (rq_Body (result_message _ _ _ _ _ _ _)) with (result_body status code msg).
  pose proof (long_result_decodes_not status code msg Hlong) as Hd.
  by destruct (Decode _ _ _ _) as [rt []].
Qed.
End delivered.
