(* ===== verification/Cluster.v ===== *)
(** * The whole of ForgeRun: control plane, GitHub, people and runners

    The state is the world of the control plane, the threads of its processes,
    the goroutines of the runners ([client]s), and what containers have been run.
    A runner's HTTP request becomes a thread of the API, which runs call by call
    among all others; its reply travels back as bytes.  On the way a request
    may be lost, and a runner may give up waiting while the API goes on.

    Of a runner only its programs are fixed.  What git, Docker, the file system,
    the log stream and the bookkeeping it shares with its heartbeat answer is
    left open, so the states reached are those of any host and any interleaving
    of the runner's goroutines. *)
From S2P Require Import Prelude GoLib GoText Json Http Config Prog Models Sql Redis World Store Lifecycle Queue Scheduler.
From S2P Require Import Service Webhook Api System Workspace Jobspec Executor Agent Encode Wire.

Section cluster.
Context `{RangeOrder} {R : Type} `{Redis R}.
Context (Q : Queue) (Sch : Scheduler) (cfg : Config) (heartbeat : Z).
Context (offset : Z → Z) (Quote : string → string) (json_error : string).
Context (GOARCH GOOS : string) (yaml_Unmarshal : string → result string Spec).

(** ** Runners *)

(** What a goroutine of a runner does: the agent itself, its heartbeat, or the
    shipping of a log. *)
Inductive duty : Type :=
| DRun (turns : nat)
| DHeartbeat (id token : string) (turns : nat)
| DShip (id token jobID : string) (chunks : list (Z * string)).

Definition duty_prog (acfg : Settings) (d : duty) : Prog AgentCall unit :=
  match d with
  | DRun turns => _ ← Run acfg GOARCH GOOS yaml_Unmarshal Quote turns; mret tt
  | DHeartbeat id token turns => heartbeatLoop acfg id token turns
  | DShip id token jobID chunks =>
      foldr (λ '(seq, chunk) p, _ ← shipLogs acfg id token jobID seq chunk; p) (mret tt) chunks
  end.

(** A goroutine runs, or waits for the reply to a request. *)
Inductive activity : Type :=
| Running (p : Prog AgentCall unit)
| Waiting (req : HttpRequest) (p : Prog Call (string * Response)) (k : HttpReply → Prog AgentCall unit).

Record client : Type := mkClient { cl_cfg : Settings; cl_activity : activity }.

(** A container that has been run, and how it ended. *)
Definition container_run : Type := ExecRequest * result string ExecResult.

Record Cluster : Type := mkCluster {
  servers : list (Prog Call unit);
  clients : list client;
  cl_world : World R;
  cl_runs : list container_run
}.

(** Calls that neither send a request nor run a container nor start a
    goroutine. *)
Definition is_local {X} (e : AgentCall X) : bool :=
  match e with Http _ | RunExecutor _ | GoHeartbeat _ _ => false | _ => true end.

(** The exit code of a container is an int. *)
Definition exit_ok (r : result string ExecResult) : Prop :=
  match r with Ok res => int64_ok (ExitCode res) = true | Err _ => True end.

(** ** Outside *)

Definition routed (r : Request) : option endpoint :=
  let '(get, post) := path_endpoints (rq_Path r) in
  if is_get (rq_Method r) then get else if is_post (rq_Method r) then post else None.

(** The request reports the result [rt] of job [id]. *)
Definition reports (r : Request) (id : string) (rt : resultRequest) : Prop :=
  routed r = Some (EJobResult id) ∧
  Decode (dec_struct result_fields) (mkResult "" 0 "") 65536 (rq_Body r) = (rt, false).

Definition success : string := job_status_string JobSuccess.

(** Whoever is no runner does not report that a job has succeeded. *)
Definition outside (e : entry) : Prop :=
  match e with ERequest r => ∀ id rt, reports r id rt → rt_Status rt ≠ success | _ => True end.

(** ** Steps *)

Inductive cluster_step : relation Cluster :=
(* The processes of the control plane *)
| cl_spawn e ps cs w rs :
    outside e →
    cluster_step (mkCluster ps cs w rs) (mkCluster (ps ++ [entry_prog Q Sch cfg heartbeat e]) cs w rs)
| cl_serve ps cs w rs i p p' w' :
    ps !! i = Some p → prog_step handle p w = (p', w') →
    cluster_step (mkCluster ps cs w rs) (mkCluster (<[i := p']> ps) cs w' rs)
| cl_die ps cs w rs i : cluster_step (mkCluster ps cs w rs) (mkCluster (delete i ps) cs w rs)
| cl_env ps cs w rs w' :
    env_step w w' →
    cluster_step (mkCluster ps cs w rs) (mkCluster ps cs w' rs)
(* Runners come and go *)
| cl_join ps cs w rs acfg d :
    cluster_step (mkCluster ps cs w rs)
      (mkCluster ps (cs ++ [mkClient acfg (Running (duty_prog acfg d))]) w rs)
| cl_leave ps cs w rs i : cluster_step (mkCluster ps cs w rs) (mkCluster ps (delete i cs) w rs)
(* A request: sent, lost, served, answered, given up *)
| cl_send ps cs w rs i acfg req k :
    cs !! i = Some (mkClient acfg (Running (Vis (Http req) k))) →
    cluster_step (mkCluster ps cs w rs)
      (mkCluster ps
         (<[i := mkClient acfg (Waiting req (serve_http cfg (wire (cfg_ServerURL acfg) req)) k)]> cs) w rs)
| cl_lost ps cs w rs i acfg req k err :
    cs !! i = Some (mkClient acfg (Running (Vis (Http req) k))) →
    cluster_step (mkCluster ps cs w rs) (mkCluster ps (<[i := mkClient acfg (Running (k (Err err)))]> cs) w rs)
| cl_work ps cs w rs i acfg req p k p' w' :
    cs !! i = Some (mkClient acfg (Waiting req p k)) → prog_step handle p w = (p', w') →
    cluster_step (mkCluster ps cs w rs)
      (mkCluster ps (<[i := mkClient acfg (Waiting req p' k)]> cs) w' rs)
| cl_reply ps cs w rs i acfg req rid resp k :
    cs !! i = Some (mkClient acfg (Waiting req (Ret (rid, resp)) k)) →
    cluster_step (mkCluster ps cs w rs)
      (mkCluster ps (<[i := mkClient acfg (Running (k (Ok
         (received offset Quote json_error (wire (cfg_ServerURL acfg) req) resp))))]> cs) w rs)
| cl_give_up ps cs w rs i acfg req p k err :
    cs !! i = Some (mkClient acfg (Waiting req p k)) →
    cluster_step (mkCluster ps cs w rs)
      (mkCluster (ps ++ [_ ← p; mret tt]) (<[i := mkClient acfg (Running (k (Err err)))]> cs) w rs)
(* What happens on the runner's host *)
| cl_local ps cs w rs i acfg X (e : AgentCall X) (k : X → Prog AgentCall unit) x :
    cs !! i = Some (mkClient acfg (Running (Vis e k))) → is_local e = true →
    cluster_step (mkCluster ps cs w rs) (mkCluster ps (<[i := mkClient acfg (Running (k x))]> cs) w rs)
| cl_go ps cs w rs i acfg id token k turns :
    cs !! i = Some (mkClient acfg (Running (Vis (GoHeartbeat id token) k))) →
    cluster_step (mkCluster ps cs w rs)
      (mkCluster ps (<[i := mkClient acfg (Running (k tt))]> cs ++
         [mkClient acfg (Running (duty_prog acfg (DHeartbeat id token turns)))]) w rs)
| cl_run ps cs w rs i acfg req k res :
    cs !! i = Some (mkClient acfg (Running (Vis (RunExecutor req) k))) → exit_ok res →
    cluster_step (mkCluster ps cs w rs)
      (mkCluster ps (<[i := mkClient acfg (Running (k res))]> cs) w (rs ++ [(req, res)])).

Definition cluster_reachable : relation Cluster := rtc cluster_step.

(** Before any process has started: empty tables. *)
Definition cluster_initial (s : Cluster) : Prop :=
  servers s = [] ∧ clients s = [] ∧ cl_runs s = [] ∧ ∃ now, w_db (cl_world s) = empty_db now.
End cluster.
