(* ===== verification/Machine.v ===== *)
(** * A runner at work

    One runner and the control plane, executable: the runner's program runs call
    by call, its requests are served by internal/api, and the bookkeeping of the
    active job (agent.go: [activeJob], [setActive], [clearActive],
    [currentJob]) is the state its goroutines share.  What git and the file
    system answer is a parameter, and so is the outcome of a container.  Nothing
    is lost on the way, and the runner is not told to shut down.

    Every step of the machine is one of Cluster ([machine_reaches]), so that what
    is computed here are reachable states of the whole. *)
From S2P Require Import Prelude GoLib Json Http Config Prog Traces Models Sql Redis World Store Queue Scheduler.
From S2P Require Import Service Webhook Api System Workspace Jobspec Executor Agent Encode Wire Cluster.

(** ** The active job *)

(** [activeJob]; the context that [cancel] cancels is the job's own. *)
Record activeJob : Type := mkActive {
  aj_id : string;
  aj_abandoned : bool;
  aj_cancelled : bool
}.

(** The jobs that were made, by address, and [Agent.active]. *)
Record Book : Type := mkBook { bk_jobs : list activeJob; bk_active : option nat }.

Definition empty_book : Book := mkBook [] None.

Definition newActive (jobID : string) (b : Book) : nat * Book :=
  (length (bk_jobs b), mkBook (bk_jobs b ++ [mkActive jobID false false]) (bk_active b)).

Definition setActive (p : nat) (b : Book) : Book := mkBook (bk_jobs b) (Some p).

Definition clearActive (p : nat) (b : Book) : Book :=
  mkBook (bk_jobs b) (if decide (bk_active b = Some p) then None else bk_active b).

Definition currentJob (b : Book) : option (nat * string) :=
  p ← bk_active b; j ← bk_jobs b !! p; Some (p, aj_id j).

Definition abandoned_Load (p : nat) (b : Book) : bool := default false (aj_abandoned <$> bk_jobs b !! p).

Definition abandoned_Store (p : nat) (b : Book) : Book :=
  mkBook (alter (λ j, mkActive (aj_id j) true (aj_cancelled j)) p (bk_jobs b)) (bk_active b).

Definition cancel (p : nat) (b : Book) : Book :=
  mkBook (alter (λ j, mkActive (aj_id j) (aj_abandoned j) true) p (bk_jobs b)) (bk_active b).

(** ** The machine *)

Section machine.
Context `{RangeOrder} {R : Type} `{Redis R} `{Queue}.
Context (cfg : Config) (acfg : Settings).
Context (offset : Z → Z) (Quote : string → string) (json_error : string).
Context (host : ∀ X, HostCall X → X) (container : ExecRequest → result string ExecResult).

Record Machine : Type := mkMachine {
  m_world : World R;
  m_book : Book;
  m_runs : list container_run;
  m_hosted : list (Traces.event HostCall)  (* what was done on the runner's host, and its answers *)
}.

Definition on_book (b : Book) (m : Machine) : Machine := mkMachine (m_world m) b (m_runs m) (m_hosted m).

(** A request and its reply. *)
Definition round_trip (req : HttpRequest) (w : World R) : HttpReply * World R :=
  let r := wire (cfg_ServerURL acfg) req in
  let '(a, w') := exec (serve_http cfg r) w in
  (Ok (received offset Quote json_error r a.2), w').

Definition machine_handle (X : Type) (e : AgentCall X) (m : Machine) : X * Machine :=
  match e in AgentCall X return X * Machine with
  | Http req => let '(reply, w) := round_trip req (m_world m) in (reply, mkMachine w (m_book m) (m_runs m) (m_hosted m))
  | HostOp c => (host _ c, mkMachine (m_world m) (m_book m) (m_runs m) (m_hosted m ++ [ev c (host _ c)]))
  | NewActive jobID => let '(p, b) := newActive jobID (m_book m) in (p, on_book b m)
  | SetActive p => (tt, on_book (setActive p (m_book m)) m)
  | ClearActive p => (tt, on_book (clearActive p (m_book m)) m)
  | CurrentJob => (currentJob (m_book m), m)
  | LoadAbandoned p => (abandoned_Load p (m_book m), m)
  | StoreAbandoned p => (tt, on_book (abandoned_Store p (m_book m)) m)
  | CancelJob p => (tt, on_book (cancel p (m_book m)) m)
  | StreamOpen _ => (tt, m)
  | StreamWrite _ => (tt, m)
  | StreamClose => (tt, m)
  | RunExecutor req =>
      (container req, mkMachine (m_world m) (m_book m) (m_runs m ++ [(req, container req)]) (m_hosted m))
  | CtxDone => (false, m)
  | Sleep _ => (tt, m)
  | GoHeartbeat _ _ => (tt, m)
  end.

Abbreviation go p m := (run machine_handle p m).

(** ** Its steps are steps of the whole *)

Context (Sch : Scheduler) (heartbeat : Z) (GOARCH GOOS : string).
Context (yaml_Unmarshal : string → result string Spec).
Context (Hexit : ∀ req, exit_ok (container req)).

Abbreviation reaches := (cluster_reachable _ Sch cfg heartbeat offset Quote json_error GOARCH GOOS yaml_Unmarshal).
Abbreviation running p := (mkClient acfg (Running p)).

(** A request is served to its end, undisturbed. *)
Lemma work_reaches ps cs w rs i req p (k : HttpReply → Prog AgentCall unit) :
  cs !! i = Some (mkClient acfg (Waiting req p k)) →
  reaches (mkCluster ps cs w rs)
    (mkCluster ps (<[i := mkClient acfg (Waiting req (Ret (exec p w).1) k)]> cs) (exec p w).2 rs).
Proof.
  revert cs w. induction p as [a|X c p' IH]; intros cs w Hc.
  { simpl. rewrite list_insert_id by done. apply rtc_refl. }
  simpl. destruct (handle X c w) as [x w1] eqn:Eh. eapply rtc_l.
  { apply (cl_work _ _ _ _ _ _ _ _ _ _ ps cs w rs i acfg req _ k (p' x) w1 Hc). simpl. by rewrite Eh. }
  assert (i < length cs) as Hi by by eapply lookup_lt_Some.
  specialize (IH x (<[i := mkClient acfg (Waiting req (p' x) k)]> cs) w1).
  rewrite list_insert_insert_eq in IH. apply IH. by apply list_lookup_insert_eq.
Qed.

Lemma request_reaches ps cs w rs i req k reply w' :
  cs !! i = Some (running (Vis (Http req) k)) → round_trip req w = (reply, w') →
  reaches (mkCluster ps cs w rs) (mkCluster ps (<[i := running (k reply)]> cs) w' rs).
Proof.
  intros Hc. unfold round_trip. set (r := wire (cfg_ServerURL acfg) req).
  destruct (exec (serve_http cfg r) w) as [[rid resp] w1] eqn:E. intros [= <- <-].
  assert (i < length cs) as Hi by by eapply lookup_lt_Some.
  set (sent := <[i := mkClient acfg (Waiting req (serve_http cfg r) k)]> cs).
  assert (sent !! i = Some (mkClient acfg (Waiting req (serve_http cfg r) k))) as Hs by by apply list_lookup_insert_eq.
  eapply rtc_l; [by apply (cl_send _ _ _ _ _ _ _ _ _ _ ps cs w rs i acfg req k)|]. fold r. fold sent.
  pose proof (work_reaches ps sent w rs i req (serve_http cfg r) k Hs) as Hw. rewrite E in Hw.
  unfold sent in Hw. rewrite list_insert_insert_eq in Hw. etrans; [exact Hw|]. apply rtc_once.
  pose proof (cl_reply _ Sch cfg heartbeat offset Quote json_error GOARCH GOOS yaml_Unmarshal ps
    (<[i := mkClient acfg (Waiting req (Ret (rid, resp)) k)]> cs) w1 rs i acfg req rid resp k) as Hr.
  rewrite list_insert_insert_eq in Hr. apply Hr. by apply list_lookup_insert_eq.
Qed.

Lemma call_reaches ps cs m i X (e : AgentCall X) (k : X → Prog AgentCall unit) x m' :
  cs !! i = Some (running (Vis e k)) → machine_handle X e m = (x, m') →
  ∃ cs', reaches (mkCluster ps cs (m_world m) (m_runs m)) (mkCluster ps cs' (m_world m') (m_runs m')) ∧
    cs' !! i = Some (running (k x)).
Proof.
  intros Hc He. assert (i < length cs) as Hi by by eapply lookup_lt_Some.
  assert ((<[i := running (k x)]> cs) !! i = Some (running (k x))) as Hk by by apply list_lookup_insert_eq.
  destruct e as [req|Y c|?|?|?| |?|?|?|?|?| |req| |?|id token]; simpl in He.
  1: destruct (round_trip req (m_world m)) as [reply w] eqn:E; injection He as <- <-;
     eexists; split; [by eapply request_reaches|exact Hk].
  all: injection He as <- <-; simpl.
  12: eexists; split; [|exact Hk]; apply rtc_once; by apply cl_run.
  14: eexists; split; [apply rtc_once; by apply (cl_go _ _ _ _ _ _ _ _ _ _ ps cs _ _ i acfg id token k 0)
                      |by rewrite lookup_app_l by by rewrite length_insert].
  all: eexists; split; [|exact Hk]; apply rtc_once; by eapply cl_local.
Qed.

Lemma machine_reaches n ps cs m i p p' m' :
  cs !! i = Some (running p) → prog_steps machine_handle n p m = (p', m') →
  ∃ cs', reaches (mkCluster ps cs (m_world m) (m_runs m)) (mkCluster ps cs' (m_world m') (m_runs m')) ∧
    cs' !! i = Some (running p').
Proof.
  revert cs m p. induction n as [|n IH]; intros cs m p Hc Hs.
  { injection Hs as <- <-. exists cs. by split; [apply rtc_refl|]. }
  cbn [prog_steps] in Hs. destruct p as [[]|X e k]; simpl in Hs.
  { eapply IH; [exact Hc|exact Hs]. }
  destruct (machine_handle X e m) as [x m1] eqn:E.
  destruct (call_reaches ps cs m i X e k x m1 Hc E) as (cs1 & Hr1 & Hc1).
  destruct (IH cs1 m1 (k x) Hc1 Hs) as (cs2 & Hr2 & Hc2). exists cs2. split; [|done]. by etrans.
Qed.

(** A process of the control plane does its work, undisturbed. *)
Lemma serve_reaches ps cs w rs i p :
  ps !! i = Some p →
  reaches (mkCluster ps cs w rs) (mkCluster (<[i := Ret (exec p w).1]> ps) cs (exec p w).2 rs).
Proof.
  revert ps w. induction p as [a|X c k IH]; intros ps w Hp.
  { simpl. rewrite list_insert_id by done. apply rtc_refl. }
  simpl. destruct (handle X c w) as [x w1] eqn:Eh. eapply rtc_l.
  { apply (cl_serve _ _ _ _ _ _ _ _ _ _ ps cs w rs i _ (k x) w1 Hp). simpl. by rewrite Eh. }
  assert (i < length ps) as Hi by by eapply lookup_lt_Some.
  specialize (IH x (<[i := k x]> ps) w1). rewrite list_insert_insert_eq in IH. apply IH.
  by apply list_lookup_insert_eq.
Qed.

Lemma entry_reaches e ps cs w rs :
  outside e →
  ∃ ps', reaches (mkCluster ps cs w rs) (mkCluster ps' cs (exec (entry_prog _ Sch cfg heartbeat e) w).2 rs).
Proof.
  intros He. eexists. eapply rtc_l; [by apply cl_spawn|]. eapply (serve_reaches _ _ _ _ (length ps)).
  by rewrite lookup_app_r, Nat.sub_diag by done.
Qed.
End machine.
