(* ===== verification/Grants.v ===== *)
(** * Which statements create a job, and which make one succeed

    Two statements matter to what the table says of a build: the INSERT of a job
    and the UPDATE to SUCCESS.  All others are [ordinary]: a property of
    statements that holds of those holds of every call of the control plane as
    soon as it holds of [handleWebhook] and [handleJobResult].

    [grants J]: the only statement that sets a job to SUCCESS is one for a job
    in [J], with exit code 0 and no message.  Every program of the control plane
    respects it, a request for what it [reports]; and a statement that respects
    it only adds such rows.  [creates V] (Tables): the jobs that are inserted
    satisfy [V]; the control plane inserts those it was [delivered]. *)
From S2P Require Import Prelude GoLib Json Http Config Prog Models Sql Redis World Tables Store Queue Outcome Scheduler.
From S2P Require Import Service Webhook Api Auth Deliveries System Workspace Jobspec Executor Agent Encode Wire Cluster.

Definition grants (J : string → Prop) (X : Type) (s : SqlStmt X) : Prop :=
  match s with
  | UpdateStatus JobSuccess extra id _ => extra = SetCompleted 0 "" ∧ J id
  | _ => True
  end.

Abbreviation granted J p := (all_calls (sql_only (grants J)) p).

Lemma granted_mono (J J' : string → Prop) {A} (p : Prog Call A) :
  (∀ id, J id → J' id) → granted J p → granted J' p.
Proof.
  intros HJ. apply all_calls_impl. intros X [Y s|Y c| | | | |]; try done.
  destruct s; try done. simpl. by destruct to; naive_solver.
Qed.

(** ** Statements *)

(** A job that is SUCCESS: it says so with exit code 0 and without a message. *)
Definition passed (j : Job) : Prop := j_ExitCode j = Some 0%Z ∧ j_Error j = "".

Section exec.
Context `{RangeOrder}.

(** A row of SUCCESS was there before, or is one of those granted. *)
Lemma exec_sql_success J {X} (s : SqlStmt X) db id row :
  grants J X s → db_wf db → admissible X s →
  db_jobs (exec_sql s db).2 !! id = Some row → job_status row = JobSuccess →
  (∃ row0, db_jobs db !! id = Some row0 ∧ job_status row0 = JobSuccess ∧ jr_job row = jr_job row0) ∨
  (J id ∧ passed (jr_job row)).
Proof.
  intros HJ Hwf Hadm Hrow Hs.
  assert (db_jobs db !! id = Some row → (∃ row0, db_jobs db !! id = Some row0 ∧ job_status row0 = JobSuccess ∧
    jr_job row = jr_job row0) ∨ (J id ∧ passed (jr_job row))) as Hold by (left; by exists row).
  destruct s; cbn [exec_sql] in Hrow; try by apply Hold.
  - revert Hrow. unfold sql_insert_job. repeat (case_match; try apply Hold). simpl.
    rewrite lookup_insert_Some. intros [[<- <-]|[_ ?]]; [|by apply Hold].
    simpl in Hs. by rewrite Hadm in Hs.
  - revert Hrow. unfold sql_select_jobs. by case_match.
  - revert Hrow. unfold sql_update_status. destruct (negb _); [apply Hold|].
    destruct (db_jobs db !! id0) as [row0|] eqn:Hrow0; [|apply Hold]. case_decide; [|apply Hold].
    destruct (index_ok _ _ _); [|apply Hold]. simpl. rewrite lookup_insert_Some.
    intros [[<- <-]|[_ ?]]; [|by apply Hold]. right. simpl in Hs.
    assert (to = JobSuccess) as -> by by destruct extra. destruct HJ as [-> HJ]. by split.
  - revert Hrow. unfold sql_assign_tx, tx_assign_job, tx_busy_runner.
    destruct (db_jobs db !! jobID) as [row0|] eqn:Hrow0; [|apply Hold]. case_decide; [|apply Hold].
    cbv zeta. destruct (int4_ok (_ + 1)); [|apply Hold]. simpl. destruct (index_ok _ _ _); [|apply Hold].
    simpl. case_bool_decide; [|apply Hold]. destruct (db_runners _ !! runnerID); [|apply Hold].
    case_decide; [|apply Hold]. simpl. rewrite lookup_insert_Some. intros [[<- <-]|[_ ?]]; [done|by apply Hold].
  - revert Hrow. unfold sql_append_logs. destruct (negb _); [apply Hold|].
    destruct (db_jobs db !! id0) as [row0|] eqn:Hrow0; [|apply Hold]. case_match; [|apply Hold]. simpl.
    rewrite lookup_insert_Some. intros [[<- <-]|[_ ?]]; [|by apply Hold]. left. by exists row0.
  - revert Hrow. unfold sql_insert_runner. repeat (case_match; try apply Hold).
  - revert Hrow. unfold sql_heartbeat. case_match; apply Hold.
  - revert Hrow. unfold sql_release_runner. repeat (case_match; try apply Hold).
Qed.
End exec.

(** ** Programs *)

Definition ordinary {X} (s : SqlStmt X) : Prop :=
  match s with InsertJob _ => False | UpdateStatus JobSuccess _ _ _ => False | _ => True end.

Section walk.
Context `{RangeOrder} {R : Type} `{Redis R}.
Context (Q : Queue) (view : World R → qstate) `{!QueueOk Q view} (Sch : Scheduler) (cfg : Config) (heartbeat : Z).
Context (P : ∀ X, SqlStmt X → Prop) (HP : ∀ X (s : SqlStmt X), ordinary s → P X s).

Abbreviation sends p := (all_calls (sql_only P) p).

Lemma queue_call_sends {A} (p : Prog Call A) : all_calls queue_call p → sends p.
Proof. apply all_calls_impl. by intros X []. Qed.

(** Walk a program down to its calls. *)
Ltac go_sends :=
  unfold leaseLost, newToken, go_report, CompleteJob, StartJob, RequeueJob, Store.CancelJob, AssignJob, transition,
    release_if_held, releaseRunner, CreateJob, GetJob, ListJobs, GetLogs, AppendLogs, RegisterRunner, GetRunner,
    RunnerTokenHash, ListRunners, Store.Heartbeat, IdleRunners, ReapOfflineRunners, Ping in *;
  go_calls; try done; try (by apply HP);
  try (apply queue_call_sends;
       first [apply queue_calls_enqueue|apply queue_calls_dequeue|apply queue_calls_ack|apply queue_calls_requeue
             |apply queue_calls_recover|apply queue_calls_dispatch|apply queue_calls_receive|apply queue_calls_ping]).

Lemma sends_withRunnerAuth next r id : sends (next r id) → sends (withRunnerAuth next r id).
Proof. intros Hn. unfold withRunnerAuth. go_sends. Qed.

Lemma sends_ifOwner r id next : sends next → sends (ifOwner r id next).
Proof. intros Hn. unfold ifOwner, runnerOwnsJob. go_sends. Qed.

(** An authentic delivery leads to one INSERT. *)
Lemma sends_handleWebhook r :
  (∀ id e, delivers cfg r e → P _ (InsertJob (job_of_event id e))) → sends (handleWebhook cfg r).
Proof.
  intros Hr. unfold handleWebhook. destruct (ReadAll 1048576 (rq_Body r)) as [body|] eqn:Hbody; [|done].
  unfold ReadAll in Hbody. destruct (Z.leb_spec (Z.of_nat (String.length (rq_Body r))) 1048576) as [Hs|]; [|done].
  injection Hbody as <-. destruct (VerifySignature _ _ _) as [[]|] eqn:Hv; [|done].
  apply VerifySignature_authentic in Hv. destruct (ParseEvent _ _) as [e|e] eqn:He; [|by destruct e].
  assert (delivers cfg r e) as Hd by done. go_sends. by apply (Hr _ _ Hd).
Qed.

Section request.
Context (r : Request) (Hhook : sends (handleWebhook cfg r)).
Context (Hresult : ∀ id, routed r = Some (EJobResult id) → sends (handleJobResult cfg r id)).

Lemma sends_endpoint e : routed r = Some e → sends (handle_endpoint cfg e r).
Proof.
  intros Hroute. destruct e; cbn [handle_endpoint]; try apply sends_withRunnerAuth; auto;
    unfold handleReady, handleRegister, handleHeartbeat, handlePollJob, handleListRunners,
      handleGetRunner, handleListJobs, handleGetJob, handleGetJobLogs, handleCancelJob, handleJobStart,
      handleJobLogs; try apply sends_ifOwner; try by go_sends.
Qed.

Lemma sends_serve_http : sends (serve_http cfg r).
Proof.
  unfold serve_http, withRequestID. go_sends.
  unfold Routes. destruct (path_endpoints (rq_Path r)) as [get post] eqn:Hp.
  destruct (if is_get (rq_Method r) then get else if is_post (rq_Method r) then post else None) as [e|] eqn:He.
  - apply sends_endpoint. unfold routed. by rewrite Hp.
  - destruct get, post; exact I.
Qed.
End request.

Lemma sends_assign id : sends (assign heartbeat id).
Proof. unfold assign, requeue. go_sends. Qed.

Lemma sends_serve n : sends (serve heartbeat n).
Proof.
  unfold serve. apply all_calls_bind; [apply queue_call_sends, queue_calls_recover|]. intros _.
  induction n as [|n IH]; [done|]. cbn [serve_loop]. apply all_calls_bind.
  - unfold serve_body. go_sends. apply sends_assign.
  - by intros [].
Qed.

Lemma sends_reap : sends (reap_body heartbeat).
Proof.
  unfold reap_body. go_sends. induction (range_order _) as [|[r id] l IH]; [done|]. cbn [reap_each]. go_sends.
Qed.

(** A thread of the control plane. *)
Lemma sends_entry e :
  match e with ERequest r => sends (serve_http cfg r) | _ => True end → sends (entry_prog Q Sch cfg heartbeat e).
Proof.
  destruct e as [r|n|]; cbn [entry_prog]; intros Hr; [|apply sends_serve|apply sends_reap].
  by apply all_calls_bind.
Qed.
End walk.

Section programs.
Context `{RangeOrder} {R : Type} `{Redis R}.
Context (Q : Queue) (view : World R → qstate) `{!QueueOk Q view} (Sch : Scheduler) (cfg : Config) (heartbeat : Z).

(** *** A job that succeeds *)

Lemma grants_ordinary J X (s : SqlStmt X) : ordinary s → grants J X s.
Proof. destruct s; try done. simpl. by destruct to. Qed.

Lemma granted_handleJobResult J r id :
  (∀ rt, reports r id rt → rt_Status rt = success → J id ∧ rt = mkResult success 0 "") →
  routed r = Some (EJobResult id) → granted J (handleJobResult cfg r id).
Proof.
  intros Hr Hroute. apply (sends_ifOwner _ (grants_ordinary J)).
  destruct (Decode (dec_struct result_fields) (mkResult "" 0 "") 65536 (rq_Body r)) as [rt []] eqn:Hd; [done|].
  specialize (Hr rt (conj Hroute Hd)). destruct (ParseJobStatus (rt_Status rt)) as [st|] eqn:Hst; [|done].
  apply ParseJobStatus_ok in Hst. unfold CompleteJob, transition, release_if_held, releaseRunner, GetJob, go_report.
  go_calls; try done. simpl. destruct st; try done. destruct (Hr Hst) as [HJ ->]. by split.
Qed.

Lemma granted_serve_http J r :
  (∀ id rt, reports r id rt → rt_Status rt = success → J id ∧ rt = mkResult success 0 "") →
  granted J (serve_http cfg r).
Proof.
  intros Hr. apply (sends_serve_http Q view cfg _ (grants_ordinary J)).
  - by apply (sends_handleWebhook Q view cfg _ (grants_ordinary J)).
  - intros id Hroute. apply granted_handleJobResult; [|done]. intros rt. apply Hr.
Qed.

Lemma granted_entry J e : outside e → granted J (entry_prog Q Sch cfg heartbeat e).
Proof.
  intros Ho. apply (sends_entry Q view Sch cfg heartbeat _ (grants_ordinary J)). destruct e as [r|n|]; [|done..].
  apply granted_serve_http. intros id rt Hr Hs. by destruct (Ho id rt Hr).
Qed.

(** *** A job that is created *)

(** Some delivery that is signed with the webhook's secret describes it. *)
Definition authorized (j : Job) : Prop := ∃ r e, delivers cfg r e ∧ j = job_of_event (j_ID j) e.

Lemma creates_ordinary V X (s : SqlStmt X) : ordinary s → creates V X s.
Proof. by destruct s. Qed.

Lemma created_handleJobResult V r id : all_calls (sql_only (creates V)) (handleJobResult cfg r id).
Proof.
  apply (sends_ifOwner _ (creates_ordinary V)).
  destruct (Decode _ _ _ _) as [rt []]; [done|]. destruct (ParseJobStatus (rt_Status rt)); [|done].
  unfold CompleteJob, transition, release_if_held, releaseRunner, GetJob, go_report. by go_calls.
Qed.

Lemma authorized_entry e : all_calls (sql_only (creates authorized)) (entry_prog Q Sch cfg heartbeat e).
Proof.
  apply (sends_entry Q view Sch cfg heartbeat _ (creates_ordinary authorized)). destruct e as [r|n|]; [|done..].
  apply (sends_serve_http Q view cfg _ (creates_ordinary authorized)).
  - apply (sends_handleWebhook Q view cfg _ (creates_ordinary authorized)). intros id e Hd. by exists r, e.
  - intros id _. apply created_handleJobResult.
Qed.

Lemma created_reap V : all_calls (sql_only (creates V)) (reap_body heartbeat).
Proof. by apply (sends_reap Q view heartbeat _ (creates_ordinary V)). Qed.
End programs.
