(* ===== verification/Origin.v ===== *)
(** * Where jobs come from

    A job is only ever created by a delivery that is signed with the webhook's
    secret, and its row keeps what that delivery said: invariants of System about
    the columns that no UPDATE touches. *)
From S2P Require Import Prelude GoLib Json Prog Models Sql Redis World Tables Store Lifecycle Queue Scheduler Service.
From S2P Require Import Webhook Api Auth Deliveries System Grants.

(** ** Runs that create what they may *)

Section created.
Context `{RangeOrder} {R : Type} `{Redis R} (V : Job → Prop).

Abbreviation creating p := (all_calls (sql_only (creates V)) p).

Lemma handle_created X (c : Call X) (w : World R) :
  sql_only admissible X c → sql_only (creates V) X c →
  all_created V (w_db w) → all_created V (w_db (handle X c w).2).
Proof.
  intros Hadm HV. set (T := λ db db', all_created V db → all_created V db').
  assert (Reflexive T) by by intros db Hdb.
  apply (handle_db (λ X s, admissible X s ∧ creates V X s) T).
  - intros Y s db [Ha Hc] Hdb. by eapply all_created_next; [apply exec_sql_next|].
  - destruct c; try done; by split.
Qed.

Lemma run_created {A} (p : Prog Call A) (w : World R) :
  safe p → creating p → all_created V (w_db w) → all_created V (w_db (exec p w).2).
Proof.
  revert w. induction p as [a|X c k IH]; intros w; [done|]. intros [Ha Hk] [Hc Hk'] Hw. simpl.
  pose proof (handle_created X c w Ha Hc Hw) as Hw'. destruct (handle X c w) as [x w']. by apply IH.
Qed.

Lemma prog_step_created (p p' : Prog Call unit) (w w' : World R) :
  safe p → creating p → prog_step handle p w = (p', w') → all_created V (w_db w) →
  creating p' ∧ all_created V (w_db w').
Proof.
  destruct p as [u|X c k]; simpl; [by intros _ _ [= <- <-]|]. intros [Ha _] [Hc Hk] E Hw.
  pose proof (handle_created X c w Ha Hc Hw) as Hw'. destruct (handle X c w) as [x w1].
  injection E as <- <-. by split.
Qed.
End created.

(** ** The system *)

Section system.
Context `{RangeOrder} {R : Type} `{Redis R}.
Context (Q : Queue) (Sch : Scheduler) (cfg : Config) (heartbeat : Z).
Context (view : World R → qstate) `{!QueueOk Q view}.

Definition sys_created (s : Sys (R := R)) : Prop :=
  Forall (λ p, all_calls (sql_only (creates (authorized cfg))) p) (threads s) ∧
  all_created (authorized cfg) (w_db (world s)).

Lemma sys_step_created s s' :
  sys_step Q Sch cfg heartbeat s s' → sys_ok s → sys_created s → sys_created s'.
Proof.
  intros Hstep [Hsafe _] [Hts Hdb]. unfold threads_safe, sys_created in *.
  destruct Hstep as [ts w e|ts w i p p' w' Hp Hs|ts w i|ts w w' He]; simpl in *.
  - split; [|done]. apply Forall_app. split; [done|]. apply Forall_singleton. by eapply authorized_entry.
  - destruct (prog_step_created (authorized cfg) p p' w w') as [Hp' Hdb']; try done;
      [by eapply Forall_lookup_1 in Hsafe|by eapply Forall_lookup_1 in Hts|].
    split; [|done]. by apply Forall_insert.
  - split; [|done]. by apply Forall_delete.
  - split; [done|]. by destruct He.
Qed.

Lemma reachable_created s0 s : initial s0 → reachable Q Sch cfg heartbeat s0 s → sys_created s.
Proof.
  intros Hi Hr. pose proof (initial_ok s0 Hi) as Hok.
  assert (sys_created s0) as Hc.
  { destruct Hi as [Ht [now Hdb]]. split; [by rewrite Ht|]. rewrite Hdb. intros id row. simpl. by rewrite lookup_empty. }
  clear Hi. induction Hr as [|s s1 s2 Hs _ IH]; [done|].
  apply IH; [by eapply (sys_step_ok Q Sch cfg heartbeat view)|by eapply sys_step_created].
Qed.
End system.

Section theorems.
Context `{RangeOrder} {R : Type} `{Redis R}.
Context (Q : Queue) (Sch : Scheduler) (cfg : Config) (heartbeat : Z) (view : World R → qstate).

(** C14. Every job comes from GitHub and is fit to be built.  In every reachable
    state, whatever is sent to the API and whatever fails, each row of the job
    table was described by a delivery whose body carries a valid signature under
    the configured secret; its repository has the form owner/name, its commit is
    forty lower-case hexadecimal digits, its clone URL is https, its branch is
    not empty, it was a push or a pull request, it is built from forgerun.yml,
    and it asks for the labels linux and docker. *)
Theorem every_job_was_delivered (s0 s : Sys (R := R)) (id : string) (row : JobRow)
    (HQ : QueueOk Q view) (Hi : initial s0) (Hr : reachable Q Sch cfg heartbeat s0 s)
    (Hrow : db_jobs (w_db (world s)) !! id = Some row) :
  let j := jr_job row in
  (∃ body signature eventType e,
     authentic (GitHubWebhookSecret cfg) body signature ∧ ParseEvent eventType body = Ok e ∧
     described j = described (job_of_event id e)) ∧
  (∃ owner name, j_Repository j = owner +:+ "/" +:+ name) ∧
  String.length (j_CommitSHA j) = 40 ∧ Forall lower_hex (bytes_of (j_CommitSHA j)) ∧
  (∃ rest, j_CloneURL j = "https://" +:+ rest) ∧ j_Branch j ≠ "" ∧
  (j_EventType j = "push" ∨ j_EventType j = "pull_request") ∧
  j_ConfigRef j = "forgerun.yml" ∧ j_Labels j = ["linux"; "docker"].
Proof.
  cbv zeta. destruct (reachable_ok Q Sch cfg heartbeat view s0 s Hr (initial_ok s0 Hi)) as [[_ Hwf] _].
  destruct (reachable_created Q Sch cfg heartbeat view s0 s Hi Hr) as [_ Hall].
  destruct (Hall id row Hrow) as (j & (r & e & [_ Hs He] & Hj) & Hd).
  pose proof (wf_job_id _ Hwf _ _ Hrow) as Hid.
  assert (j_ID j = id) as Hjid by (unfold described in Hd; congruence). rewrite Hjid in Hj. subst j.
  pose proof (ParseEvent_accepts _ _ _ He) as ([Hrep [Hlen Hhex] Hurl Hbr] & Het & Hkind).
  split; [by exists (rq_Body r), (rq_Header r "X-Hub-Signature-256"), (rq_Header r "X-GitHub-Event"), e|].
  unfold described, index_key in Hd. injection Hd as _ -> -> Hev -> -> -> ->. simpl in *.
  split_and!; try done. rewrite Hev, Het. destruct Hkind as [(p & _ & -> & _)|(p & _ & -> & _)]; auto.
Qed.
End theorems.
