(* ===== verification/Operations.v ===== *)
(** * Complete operations keep the two tables in agreement

    The methods of the store that serve a request or the scheduler, and the
    ticks of the reaper, in any order.  [ReapOfflineRunners] by itself takes a
    runner's job from it without touching the job; only the tick that requeues
    the orphans makes the tables agree again, so the tick is the operation. *)
From S2P Require Import Prelude Prog Models Sql Redis World Tables Store Lifecycle Queue Outcome Scheduler Service.
From S2P Require Import Webhook Api System Grants Origin.

Section operations.
Context `{RangeOrder} {R : Type} `{Redis R} (Q : Queue).

Inductive operation : Type :=
| OMethod (m : method)
| OReap (heartbeat : Z).

Definition operation_prog (o : operation) : Prog Call unit :=
  match o with
  | OMethod m => _ ← method_prog m; mret tt
  | OReap heartbeat => reap_body heartbeat
  end.

(** A job has an id. *)
Definition operation_ok (o : operation) : Prop :=
  match o with
  | OMethod m => method_ok m ∧ match m with MCreate j => j_ID j ≠ "" | _ => True end
  | OReap _ => True
  end.

Fixpoint run_operations (os : list operation) : Prog Call unit :=
  match os with
  | [] => mret tt
  | o :: os => _ ← operation_prog o; run_operations os
  end.

Context (view : World R → qstate) `{!QueueOk Q view}.

(** No job is called "", which is what the reaper takes for no job. *)
Definition named_job_row (j : Job) : Prop := j_ID j ≠ "".

Lemma created_method V m :
  match m with MCreate j => V j | _ => True end → all_calls (sql_only (creates V)) (method_prog m).
Proof.
  intros HV. destruct m; cbn [method_prog];
    unfold CreateJob, AssignJob, StartJob, CompleteJob, RequeueJob, Store.CancelJob, AppendLogs, RegisterRunner,
      Store.Heartbeat, transition, release_if_held, releaseRunner, GetJob; by go_calls.
Qed.

Lemma operation_created o :
  operation_ok o → safe (operation_prog o) ∧ all_calls (sql_only (creates named_job_row)) (operation_prog o).
Proof.
  destruct o as [m|hb]; cbn [operation_prog operation_ok].
  - intros [Hok Hid]. split; (apply all_calls_bind; [|done]); [by apply safe_method|].
    apply created_method. by destruct m.
  - intros _. split; [by eapply safe_reap_body|by eapply created_reap].
Qed.

Lemma no_empty_id db : db_wf db → all_created named_job_row db ↔ db_jobs db !! "" = None.
Proof.
  intros Hwf. split.
  - intros Ha. destruct (db_jobs db !! "") as [row|] eqn:Hrow; [|done].
    destruct (Ha _ _ Hrow) as (j & Hj & Hd). pose proof (wf_job_id _ Hwf _ _ Hrow) as Hid.
    destruct Hj. unfold described in Hd. congruence.
  - intros Hn id row Hrow. exists (jr_job row). split; [|done]. unfold named_job_row.
    rewrite (wf_job_id _ Hwf _ _ Hrow). by intros ->; congruence.
Qed.

Lemma operation_good o (w : World R) :
  operation_ok o → calm w → good (w_db w) → db_jobs (w_db w) !! "" = None →
  let w' := (exec (operation_prog o) w).2 in calm w' ∧ good (w_db w') ∧ db_jobs (w_db w') !! "" = None.
Proof.
  intros Hok Hc Hg Hn. cbv zeta. destruct (operation_created o Hok) as [Hs Hcr].
  split; [by apply exec_calm|].
  assert (good (w_db (exec (operation_prog o) w).2)) as Hg'.
  { destruct o as [m|hb]; cbn [operation_prog].
    - rewrite run_bind. destruct Hok as [Hok _]. destruct (method_good m w Hok Hc Hg) as [Hm _].
      by destruct (exec (method_prog m) w).
    - pose proof (reap_good Q view hb w _ Hc Hg Hn) as Hr. done. }
  split; [done|]. apply (no_empty_id _ (proj1 Hg')). apply (run_created named_job_row); [done..|].
  by apply (no_empty_id _ (proj1 Hg)).
Qed.
End operations.

Section theorems.
Context `{RangeOrder} {R : Type} `{Redis R} (Q : Queue) (view : World R → qstate).

(** C6. The two tables never disagree about who owns a job as long as operations
    are not interleaved and no call fails: whatever the sequence of creations,
    assignments, starts, results, requeues, cancellations, logs, registrations,
    heartbeats, and ticks of the reaper with any timeout, and whatever each of
    them returns, a job is ASSIGNED or RUNNING on a runner exactly when that
    runner is BUSY with that job, and the tables stay well formed. *)
Theorem operations_keep_agreement (w : World R) (os : list operation)
    (HQ : QueueOk Q view) (Hok : Forall operation_ok os) (Hc : calm w)
    (Hg : good (w_db w)) (Hn : db_jobs (w_db w) !! "" = None) :
  let db := w_db (exec (run_operations Q os) w).2 in
  db_wf db ∧
  (∀ id row r, db_jobs db !! id = Some row → j_RunnerID (jr_job row) = Some r →
     (job_status row = JobAssigned ∨ job_status row = JobRunning) →
     ∃ rrow, db_runners db !! r = Some rrow ∧ r_Status (rr_runner rrow) = RunnerBusy ∧
       r_CurrentJobID (rr_runner rrow) = Some id) ∧
  (∀ r rrow, db_runners db !! r = Some rrow → r_Status (rr_runner rrow) = RunnerBusy →
     ∃ id row, r_CurrentJobID (rr_runner rrow) = Some id ∧ db_jobs db !! id = Some row ∧
       j_RunnerID (jr_job row) = Some r ∧ (job_status row = JobAssigned ∨ job_status row = JobRunning)).
Proof.
  cbv zeta. assert (good (w_db (exec (run_operations Q os) w).2)) as [Hwf [Hj Hr]].
  { revert w Hc Hg Hn. induction Hok as [|o os Ho _ IH]; intros w Hc Hg Hn; [done|]. cbn [run_operations].
    rewrite run_bind. destruct (operation_good Q view o w Ho Hc Hg Hn) as (Hc' & Hg' & Hn').
    destruct (exec (operation_prog Q o) w) as [[] w']. by apply IH. }
  split_and!; [done| |].
  - intros id row r Hrow Hid Hst. eapply Hj; [done| |done]. by destruct Hst as [-> | ->].
  - intros r rrow Hrr Hb. destruct (proj1 (wf_runner _ Hwf _ _ Hrr) Hb) as [id Hid].
    destruct (Hr _ _ _ Hrr Hid) as (row & Hrow & Hh & Hown). exists id, row. split_and!; try done.
    destruct (job_status row); try done; auto.
Qed.
End theorems.
