(* ===== verification/Polls.v ===== *)
(** * What a runner that polls for work is told

    [answers_poll]: a delivery that a runner decodes from a reply to its poll is
    a job of the table, with the commit of that job.  It holds of every reply
    internal/api can produce, however the request is interleaved with others. *)
From S2P Require Import Prelude GoLib GoText Json JsonOut Http Config Prog Rely Models Sql Redis World Tables Typed Store.
From S2P Require Import Queue Outcome Scheduler Service Webhook Api System Workspace Jobspec Executor Agent Encode Wire Cluster.
From Stdlib Require Import Ascii.

(** ** Paths *)

Section paths.
Context (acfg : Settings).

Lemma wire_path path method hs body det :
  rq_Path (wire (cfg_ServerURL acfg) (mkHttp method (cfg_ServerURL acfg +:+ path) hs body det)) =
  tail (Split "/"%char path).
Proof. unfold wire. cbn [rq_Path hq_URL]. by rewrite TrimPrefix_app. Qed.

(** A path with one variable segment, or none: whatever is put there. *)
Lemma split_segments (a b c x d : string) :
  Forall (λ c, c ≠ "/"%char) (bytes_of a) → Forall (λ c, c ≠ "/"%char) (bytes_of b) →
  Forall (λ c, c ≠ "/"%char) (bytes_of c) → Forall (λ c, c ≠ "/"%char) (bytes_of d) →
  tail (Split "/"%char ("/" +:+ a +:+ "/" +:+ b +:+ "/" +:+ c +:+ "/" +:+ x +:+ "/" +:+ d)) =
  a :: b :: c :: Split "/"%char x ++ [d].
Proof.
  intros Ha Hb Hc Hd.
  change ("/" +:+ a +:+ "/" +:+ b +:+ "/" +:+ c +:+ "/" +:+ x +:+ "/" +:+ d) with
    (String.String "/" (a +:+ String.String "/" (b +:+ String.String "/" (c +:+ String.String "/"
      (x +:+ String.String "/" d))))).
  cbn [Split]. destruct (ascii_dec "/" "/"); [|done]. cbn [tail].
  by rewrite !Split_app, Split_sep, (Split_none _ d) by done.
Qed.
End paths.

(** ** Polls *)

Section polls.
Context `{RangeOrder} {R : Type} `{Redis R}.
Context (Q : Queue) (view : World R → qstate) `{!QueueOk Q view} (cfg : Config).
Context (offset : Z → Z) (Quote : string → string) (json_error : string).
Context (Hzone : ∀ t, (60 | offset t)%Z).

Definition poll_request (acfg : Settings) (id token : string) : HttpRequest :=
  request acfg id token GET ("/api/v1/runners/" +:+ id +:+ "/job") None false.

(** The job is in the table, under this commit. *)
Definition known (db : DB) (id commit : string) : Prop :=
  ∃ row, db_jobs db !! id = Some row ∧ j_CommitSHA (jr_job row) = commit.

Lemma known_evolves db db' id commit : db_evolves db db' → known db id commit → known db' id commit.
Proof.
  intros Hev (row & Hrow & Hc). destruct (evolves_jobs _ _ Hev _ _ Hrow) as (row' & Hrow' & Hr).
  exists row'. split; [done|]. pose proof (ev_identity _ _ Hr) as E. unfold job_identity, index_key in E.
  injection E. intros. congruence.
Qed.

Definition answers_poll (acfg : Settings) (db : DB) (req : HttpRequest) (reply : HttpReply) : Prop :=
  ∀ id token body d,
    req = poll_request acfg id token → reply = Ok (200%Z, body) →
    DecodeReply (dec_struct delivery_fields) zero_delivery body = (d, false) →
    known db (jd_ID d) (jd_CommitSHA d).

(** *** The API, among others *)

Definition db_inv (w : World R) : Prop := db_wf (w_db w) ∧ db_typed (w_db w).
Definition db_later : relation (World R) := λ w w', db_evolves (w_db w) (w_db w').

#[export] Instance db_later_preorder : PreOrder db_later.
Proof. split; [intros w; unfold db_later; reflexivity|]. intros w1 w2 w3. unfold db_later. by etrans. Qed.

Abbreviation rely := (Rely.safe handle db_later db_later db_inv).

Lemma call_keeps {X} (c : Call X) (w : World R) :
  sql_only admissible _ c → db_inv w → keeps handle db_later db_inv c w.
Proof.
  intros Hc [Hwf Hty]. unfold keeps, db_inv, db_later.
  pose proof (safe_step (call c) w (conj Hc (λ _, I)) Hwf) as [Hwf' Hev]. rewrite run_call in *.
  split; [split|]; [done| |done].
  by apply handle_typed.
Qed.

(** What a program of admissible calls ends with, whatever it is answered. *)
Fixpoint ends {A} (P : A → Prop) (p : Prog Call A) : Prop :=
  match p with Ret a => P a | Vis e k => ∀ x, ends P (k x) end.

Lemma rely_static {A} (P : A → Prop) (p : Prog Call A) w :
  safe p → ends P p → rely p w (λ a _, P a).
Proof.
  revert w. induction p as [a|X e k IH]; intros w Hs Hp w' Hw Hi; [done|].
  destruct Hs as [He Hk]. split; [by apply call_keeps|]. by apply IH.
Qed.

Lemma ends_any {A} (p : Prog Call A) : ends (λ _, True) p.
Proof. by induction p. Qed.

Lemma ends_bind {A B} (P : B → Prop) (p : Prog Call A) (f : A → Prog Call B) :
  (∀ a, ends P (f a)) → ends P (p ≫= f).
Proof. intros Hf. induction p as [a|X e k IH]; [apply Hf|]. intros x. apply IH. Qed.

(** A job as it was read from its row. *)
Definition read (db : DB) (j : Job) : Prop :=
  ∃ row, db_jobs db !! j_ID j = Some row ∧ job_identity (jr_job row) = job_identity j ∧ job_typed j.

Definition polled (resp : Response) (w : World R) : Prop :=
  rs_code resp = 200%Z →
  rs_body resp = BodyNone ∨ ∃ j token, rs_body resp = BodyDelivery j token ∧ read (w_db w) j.

Lemma read_later w w' j : db_later w w' → read (w_db w) j → read (w_db w') j.
Proof.
  intros Hev (row & Hrow & Hid & Ht). destruct (evolves_jobs _ _ Hev _ _ Hrow) as (row' & Hrow' & Hr).
  exists row'. split_and!; [done| |done]. by rewrite (ev_identity _ _ Hr).
Qed.

Lemma rely_GetJob id w :
  rely (GetJob id) w (λ r w', match r with Ok j => read (w_db w') j | Err _ => True end).
Proof.
  unfold GetJob. apply safe_bind; [apply _|]. apply safe_call. intros w1 Hw1 Hi.
  split; [by apply call_keeps|]. intros w2 Hw2 _. cbn [handle] in *.
  apply safe_ret. intros w3 Hw3 _.
  destruct (do_sql_cases (SelectJob id) w1) as [[-> E]|[-> E]]; [|done]. simpl in *.
  destruct (db_jobs (w_db w1) !! id) as [row|] eqn:Hrow; [|done]. simpl.
  destruct Hi as [Hwf Hty]. assert (read (w_db w1) (jr_job row)) as Hread.
  { exists row. rewrite (wf_job_id _ Hwf _ _ Hrow). split_and!; [done..|].
    by apply (typed_jobs _ Hty _ _ Hrow). }
  eapply read_later; [|exact Hread]. unfold db_later in *. rewrite E in Hw2. by etrans.
Qed.

Lemma rely_ends {A} (P : A → Prop) (Q' : A → World R → Prop) (p : Prog Call A) w :
  safe p → ends P p → (∀ a w', P a → Q' a w') → rely p w Q'.
Proof.
  intros Hs Hp HQ. eapply safe_weaken; [by apply rely_static|]. intros a w' _. apply HQ.
Qed.

Lemma rely_handlePollJob r id w : rely (handlePollJob r id) w polled.
Proof.
  unfold handlePollJob. apply safe_bind; [apply _|]. eapply safe_weaken.
  { apply (rely_static (λ _, True)); [eauto with calls|apply ends_any]. }
  intros [jobID|e] w1 _ _.
  - apply safe_bind; [apply _|]. eapply safe_weaken; [apply rely_GetJob|].
    intros [j|e] w2 _ Hj; [|by apply safe_ret].
    apply safe_bind; [apply _|]. apply safe_call. intros w3 Hw3 Hi3. split; [by apply call_keeps|].
    intros w4 Hw4 _. apply safe_ret. intros w5 Hw5 _ _. right. eexists _, _. split; [done|].
    eapply read_later; [exact Hw5|]. eapply read_later; [exact Hw4|]. by eapply read_later.
  - apply (rely_ends (λ resp, rs_code resp = 200%Z → rs_body resp = BodyNone)).
    + go_calls; done.
    + destruct (is_empty e); [done|]. apply ends_bind. by intros [].
    + intros resp w' Hr Hc. left. by apply Hr.
Qed.

Lemma rely_withRunnerAuth r id w : rely (withRunnerAuth handlePollJob r id) w polled.
Proof.
  unfold withRunnerAuth. destruct (orb _ _); [by apply safe_ret|]. apply safe_bind; [apply _|].
  eapply safe_weaken.
  { apply (rely_static (λ _, True)); [eauto with calls|apply ends_any]. }
  intros [want|e] w1 _ _; [|by apply safe_ret]. destruct (negb _); [by apply safe_ret|]. apply rely_handlePollJob.
Qed.

(** The path of a poll leads to the mailbox of a runner, or nowhere. *)
Lemma routed_poll acfg id token :
  let r := wire (cfg_ServerURL acfg) (poll_request acfg id token) in
  rq_Method r = GET ∧
  ((∃ x, path_endpoints (rq_Path r) = (Some (EPollJob x), None)) ∨ path_endpoints (rq_Path r) = (None, None)).
Proof.
  cbv zeta. split; [done|]. unfold poll_request, request. rewrite wire_path.
  change ("/api/v1/runners/" +:+ id +:+ "/job") with
    ("/" +:+ "api" +:+ "/" +:+ "v1" +:+ "/" +:+ "runners" +:+ "/" +:+ id +:+ "/" +:+ "job").
  rewrite split_segments by by repeat constructor.
  pose proof (Split_nonempty "/" id). destruct (Split "/" id) as [|x [|y l]]; [done| |].
  - simpl. case_bool_decide; [by right|left]. by eexists.
  - right. by destruct l as [|? [|]].
Qed.

Lemma rely_poll acfg id token w :
  rely (serve_http cfg (wire (cfg_ServerURL acfg) (poll_request acfg id token))) w (λ a w', polled a.2 w').
Proof.
  unfold serve_http, withRequestID. apply safe_bind; [apply _|].
  eapply safe_weaken.
  { apply (rely_static (λ _, True)); [by case_decide|apply ends_any]. }
  intros rid w1 _ _. apply safe_bind; [apply _|]. eapply safe_weaken.
  - destruct (routed_poll acfg id token) as [Hm Hp]. unfold Routes. rewrite Hm.
    destruct Hp as [[x ->]| ->]; [apply rely_withRunnerAuth|].
    apply (safe_ret _ _ _ _ _ _ polled). by intros w2 _ _ ?.
  - intros resp w2 _ Hp. apply safe_ret. intros w3 Hw3 _ Hc. simpl in *.
    destruct (Hp Hc) as [Hn|(j & t & Hj & Hr)]; [by left|]. right. exists j, t. split; [done|]. by eapply read_later.
Qed.

(** *** The reply, decoded *)

Lemma int4_int64 z : int4_ok z = true → int64_ok z = true.
Proof. unfold int4_ok, int64_ok, int4_min, int4_max, int64_min, int64_max. lia. Qed.

Lemma polled_answers acfg id token w resp :
  let req := poll_request acfg id token in
  polled resp w →
  answers_poll acfg (w_db w) req (Ok (received offset Quote json_error (wire (cfg_ServerURL acfg) req) resp)).
Proof.
  cbv zeta. intros Hp id' token' body d _ E Hd. injection E as Hcode <-.
  destruct (Hp Hcode) as [E|(j & t & E & row & Hrow & Hid & Ht)]; rewrite E in Hd; [done|].
  change (bool_decide _) with false in Hd. cbv iota in Hd. destruct (job_members offset j) as [l|] eqn:Hl.
  - rewrite delivery_reads_back in Hd; [|done| |by rewrite Hl].
    2: { split; [apply int4_int64, Ht|]. pose proof (jt_exit _ Ht) as Hx.
         destruct (j_ExitCode j); [by apply int4_int64|done]. }
    injection Hd as <-. cbn [jd_ID jd_CommitSHA delivery_of]. pose proof (jt_text _ Ht) as Htext.
    rewrite !sanitize_text by by apply (job_text_all _ _ Htext); set_solver.
    exists row. split; [done|]. unfold job_identity, index_key in Hid. congruence.
  - cbn [body_text] in Hd. unfold delivery_json in Hd. by rewrite Hl in Hd.
Qed.
End polls.
