(* ===== verification/Honesty.v ===== *)
(** * What a runner reports

    A runner reports success only for a job it has run in a container, on the
    commit it was told, that exited with 0 in time; and what it was told is what
    the control plane knows ([answers_poll]).  Everything else it sends reports
    no success at all: [harmless].  Stated and proved as honesty (Asks), over
    all replies of the API, the host and the bookkeeping. *)
From S2P Require Import Prelude GoLib GoText Json JsonOut JsonCut Http Config Prog Traces Rely Asks Models Sql Redis World.
From S2P Require Import Tables Typed Store Queue Outcome Scheduler Service Webhook Api System Workspace Jobspec Executor.
From S2P Require Import Agent Encode AgentSpec Wire Cluster Grants Polls.
From Stdlib Require Import Ascii.

(** ** What is known *)

(** The tables, and the containers that have been run. *)
Definition facts : Type := DB * list container_run.

Definition later : relation facts := λ f f', db_evolves f.1 f'.1 ∧ f.2 ⊆ f'.2.

#[export] Instance later_preorder : PreOrder later.
Proof.
  split; [by intros f; split|]. intros f1 f2 f3 [H1 H2] [H3 H4]. split; [by etrans|by etrans].
Qed.

(** A container ran for the job, on its commit, and exited with 0 in time. *)
Definition built_ok (f : facts) (id : string) : Prop :=
  ∃ row req, db_jobs f.1 !! id = Some row ∧ (req, Ok (mkExecResult 0 false)) ∈ f.2 ∧
    er_JobID req = id ∧ er_CommitSHA req = j_CommitSHA (jr_job row).

Lemma built_ok_later f f' id : later f f' → built_ok f id → built_ok f' id.
Proof.
  intros [Hev Hr] (row & req & Hrow & Hreq & Hid & Hc).
  destruct (known_evolves _ _ id (j_CommitSHA (jr_job row)) Hev) as (row' & Hrow' & Hc'); [by exists row|].
  exists row', req. split_and!; [done|by apply Hr|done|by rewrite Hc'].
Qed.

(** ** What a runner asks for *)

Section runner.
Context `{RangeOrder} (acfg : Settings) (GOARCH GOOS : string).
Context (yaml_Unmarshal : string → result string Spec) (Quote : string → string).

Abbreviation on_wire req := (wire (cfg_ServerURL acfg) req).

(** Success is reported for a job that was built, and as such. *)
Definition truthful (f : facts) (r : Request) : Prop :=
  ∀ id rt, reports r id rt → rt_Status rt = success → built_ok f id ∧ rt = mkResult success 0 "".

Definition may (X : Type) (e : AgentCall X) (f : facts) : Prop :=
  match e with Http req => truthful f (on_wire req) | _ => True end.

Definition answers (X : Type) (e : AgentCall X) (x : X) (f : facts) : Prop :=
  match e in AgentCall X return X → Prop with
  | Http req => λ reply, answers_poll acfg f.1 req reply
  | RunExecutor req => λ res, (req, res) ∈ f.2 ∧ exit_ok res
  | _ => λ _, True
  end x.

Abbreviation honest := (Asks.honest later may answers).

(** No report of success at all. *)
Definition harmless (X : Type) (e : AgentCall X) : Prop :=
  match e with
  | Http req => ∀ id rt, reports (on_wire req) id rt → rt_Status rt ≠ success
  | _ => True
  end.

Lemma honest_harmless {A} (p : Prog AgentCall A) f :
  all_calls harmless p → honest p f (λ _ f', later f f').
Proof.
  intros Hp. apply (honest_since _ _ _ harmless); [|done]. intros X [req|Y c|?|?|?| |?|?|?|?|?| |?| |?|? ?] f1; try done.
  intros Hh id rt Hr Hs. by destruct (Hh id rt Hr).
Qed.

(** *** Where its requests lead *)

Lemma agent_path method hs body det kind x op :
  Forall (λ c, c ≠ "/"%char) (bytes_of kind) → Forall (λ c, c ≠ "/"%char) (bytes_of op) →
  rq_Path (on_wire (mkHttp method (cfg_ServerURL acfg +:+ "/api/v1/" +:+ kind +:+ "/" +:+ x +:+ "/" +:+ op) hs body det)) =
  "api" :: "v1" :: kind :: Split "/"%char x ++ [op].
Proof.
  intros Hk Ho. rewrite wire_path.
  change ("/api/v1/" +:+ kind +:+ "/" +:+ x +:+ "/" +:+ op) with
    ("/" +:+ "api" +:+ "/" +:+ "v1" +:+ "/" +:+ kind +:+ "/" +:+ x +:+ "/" +:+ op).
  by rewrite split_segments by (done || by repeat constructor).
Qed.

(** A request to the resource [x] reports a result only if it is for that job's. *)
Lemma reports_segment r kind x op id rt :
  rq_Path r = "api" :: "v1" :: kind :: Split "/"%char x ++ [op] →
  (kind, op) ∈ [("runners", "job"); ("runners", "heartbeat"); ("jobs", "start"); ("jobs", "logs");
                ("jobs", "result")] →
  reports r id rt → op = "result" ∧ x = id.
Proof.
  intros Hp Hk [Hr _]. unfold routed in Hr. rewrite Hp in Hr.
  pose proof (Split_nonempty "/" x). destruct (Split "/" x) as [|y [|z l]] eqn:Hx; [done| |].
  - apply Split_one in Hx as ->. set_unfold in Hk.
    destruct Hk as [[= -> ->]|[[= -> ->]|[[= -> ->]|[[= -> ->]|[[= -> ->]|[]]]]]]; cbn in Hr;
      (case_bool_decide; [by repeat case_match|]); by repeat (case_match; simplify_eq/=).
  - exfalso. set_unfold in Hk.
    destruct Hk as [[= -> ->]|[[= -> ->]|[[= -> ->]|[[= -> ->]|[[= -> ->]|[]]]]]];
      destruct l as [|? [|]]; cbn in Hr; by repeat case_match.
Qed.
(** *** What it reports *)

(** A result that decodes has the status that was sent, also when it was cut. *)
Lemma result_status status code msg rt :
  int64_ok code = true →
  Decode (dec_struct result_fields) (mkResult "" 0 "") 65536 (result_body status code msg) = (rt, false) →
  rt_Status rt = job_status_string status.
Proof.
  intros Hc. unfold Decode. destruct (first_value _) as [v|] eqn:Hv; [|done].
  apply (object_cut 1) in Hv as ->; [|simpl; by eauto 6|done]. cbn [clean map]. unfold dec_struct.
  change (sanitize "error") with "error". change (sanitize "exit_code") with "exit_code".
  change (sanitize "status") with "status".
  assert (sanitize (job_status_string status) = job_status_string status) as -> by by destruct status.
  cbn [dec_members].
  change (find_field result_fields "error") with
    (Some (field rt_Error (λ x q, mkResult (rt_Status q) (rt_ExitCode q) x) dec_string)).
  change (find_field result_fields "exit_code") with
    (Some (field rt_ExitCode (λ x q, mkResult (rt_Status q) x (rt_Error q)) dec_int)).
  change (find_field result_fields "status") with
    (Some (field rt_Status (λ x q, mkResult x (rt_ExitCode q) (rt_Error q)) dec_string)).
  unfold field, dec_string. cbn -[dec_int]. destruct (dec_int _ _) as [n b]. simpl. by intros [= <- _].
Qed.

Lemma success_decodes :
  Decode (dec_struct result_fields) (mkResult "" 0 "") 65536 (result_body JobSuccess 0 "") =
  (mkResult success 0 "", false).
Proof. vm_compute. reflexivity. Qed.

Section registered.
Context (id token : string).

Lemma agent_harmless method body det kind x op :
  (kind, op) ∈ [("runners", "job"); ("runners", "heartbeat"); ("jobs", "start"); ("jobs", "logs")] →
  harmless _ (Http (request acfg id token method ("/api/v1/" +:+ kind +:+ "/" +:+ x +:+ "/" +:+ op) body det)).
Proof.
  intros Hk jid rt Hr _. assert (op ≠ "result" ∧ (kind = "runners" ∨ kind = "jobs")) as [Ho Hkind].
  { set_unfold in Hk. naive_solver. }
  eapply (reports_segment _ kind x op) in Hr as [? _]; [done| |].
  - apply agent_path; [by destruct Hkind as [-> | ->]; repeat constructor|].
    set_unfold in Hk. destruct Hk as [[= -> ->]|[[= -> ->]|[[= -> ->]|[[= -> ->]|[]]]]]; by repeat constructor.
  - set_solver.
Qed.

Lemma result_reports jobID status code msg jid rt :
  reports (on_wire (result_request acfg id token jobID (result_body status code msg))) jid rt →
  jid = jobID ∧
  Decode (dec_struct result_fields) (mkResult "" 0 "") 65536 (result_body status code msg) = (rt, false).
Proof.
  intros Hr. split; [|apply Hr]. symmetry.
  eapply (reports_segment _ "jobs" jobID "result"); [|set_solver|exact Hr].
  apply (agent_path _ _ _ _ "jobs" jobID "result"); by repeat constructor.
Qed.

Lemma result_harmless jobID status code msg :
  status ≠ JobSuccess → int64_ok code = true →
  harmless _ (Http (result_request acfg id token jobID (result_body status code msg))).
Proof.
  intros Hs Hc jid rt [_ Hd]%result_reports. apply result_status in Hd as ->; [|done]. by destruct status.
Qed.

Lemma success_truthful f jobID :
  built_ok f jobID → truthful f (on_wire (result_request acfg id token jobID (result_body JobSuccess 0 ""))).
Proof.
  intros Hb jid rt [-> Hd]%result_reports _. rewrite success_decodes in Hd. by injection Hd as <-.
Qed.

(** *** Its programs *)

Lemma harmless_do method body det kind x op :
  (kind, op) ∈ [("runners", "job"); ("runners", "heartbeat"); ("jobs", "start"); ("jobs", "logs")] →
  all_calls harmless (do acfg id token method ("/api/v1/" +:+ kind +:+ "/" +:+ x +:+ "/" +:+ op) body det).
Proof.
  intros Hk. unfold do. apply all_calls_bind; [|done]. apply all_calls_call. by apply agent_harmless.
Qed.

Lemma harmless_poll : all_calls harmless (poll acfg id token).
Proof.
  unfold poll. apply all_calls_bind; [|done]. apply all_calls_call.
  apply (agent_harmless _ _ _ "runners" id "job"). set_solver.
Qed.

Lemma harmless_reportResult jobID status code msg :
  status ≠ JobSuccess → int64_ok code = true →
  all_calls harmless (reportResult acfg id token jobID status code msg).
Proof.
  intros Hs Hc. unfold reportResult, do. go_calls. by apply result_harmless.
Qed.

Lemma harmless_start jobID : all_calls harmless (do acfg id token POST ("/api/v1/jobs/" +:+ jobID +:+ "/start") None false).
Proof. apply (harmless_do _ _ _ "jobs" jobID "start"). set_solver. Qed.

Lemma harmless_fail jobID reason e : all_calls harmless (fail acfg id token jobID reason e).
Proof. unfold fail. go_calls; try done. by apply harmless_reportResult. Qed.

Lemma harmless_abandon : all_calls harmless abandon.
Proof. unfold abandon. by go_calls. Qed.

Lemma harmless_unwind current dir : all_calls harmless (unwind current dir).
Proof. unfold unwind. by go_calls. Qed.

Lemma harmless_ParseFile path : all_calls harmless (ParseFile yaml_Unmarshal Quote path).
Proof. unfold ParseFile. by go_calls. Qed.

Lemma harmless_lift {A} (p : Prog HostCall A) : all_calls harmless (lift (λ X c, HostOp c) p).
Proof. by induction p. Qed.

Lemma harmless_heartbeatLoop turns : all_calls harmless (heartbeatLoop acfg id token turns).
Proof.
  induction turns as [|n IH]; [done|]. cbn [heartbeatLoop]. unfold beat_once. go_calls; try done.
  all: apply (harmless_do _ _ _ "runners" id "heartbeat"); set_solver.
Qed.

Lemma harmless_shipLogs jobID seq chunk : all_calls harmless (shipLogs acfg id token jobID seq chunk).
Proof.
  unfold shipLogs. apply all_calls_bind; [|done]. apply all_calls_call. intros jid rt Hr _.
  eapply (reports_segment _ "jobs" jobID "logs") in Hr as [? _]; [done| |set_solver].
  apply (agent_path _ _ _ _ "jobs" jobID "logs"); by repeat constructor.
Qed.
End registered.

Lemma harmless_register : all_calls harmless (register acfg GOARCH GOOS).
Proof.
  unfold register. apply all_calls_bind; [|done]. apply all_calls_call. intros jid rt [Hr _] _.
  unfold routed in Hr. rewrite wire_path in Hr. by vm_compute in Hr.
Qed.

(** *** Honesty *)

Lemma honest_then {A B} (p : Prog AgentCall A) (g : A → Prog AgentCall B) f Q :
  all_calls harmless p → (∀ a f', later f f' → honest (g a) f' Q) → honest (p ≫= g) f Q.
Proof.
  intros Hp Hg. apply honest_bind; [apply _|]. eapply honest_mono; [by apply honest_harmless|]. intros a. apply Hg.
Qed.

Lemma honest_end {A} (p : Prog AgentCall A) f : all_calls harmless p → honest p f (λ _ _, True).
Proof. intros Hp. eapply honest_mono; [by apply honest_harmless|done]. Qed.

Section working.
Context (id token : string).

(** The job a delivery speaks of. *)
Definition delivered (d : jobDelivery) (f : facts) : Prop := known f.1 (jd_ID d) (jd_CommitSHA d).

Lemma delivered_later d f f' : later f f' → delivered d f → delivered d f'.
Proof. intros [Hev _]. by apply known_evolves. Qed.

Lemma verdict_success res code msg :
  verdict res = (JobSuccess, code, msg) → res = mkExecResult 0 false ∧ code = 0%Z ∧ msg = "".
Proof.
  destruct res as [c []]; unfold verdict; cbn; [done|]. destruct (Z.eqb_spec c 0) as [->|]; [|done]. by intros [= <- <-].
Qed.

Lemma verdict_code res status code msg :
  int64_ok (ExitCode res) = true → verdict res = (status, code, msg) → int64_ok code = true.
Proof. unfold verdict. intros Hc. by repeat case_match; intros [= <- <- <-]. Qed.

Lemma honest_success jobID f :
  built_ok f jobID → honest (reportResult acfg id token jobID JobSuccess 0 "") f (λ _ _, True).
Proof.
  intros Hb. unfold reportResult, do. apply honest_bind; [apply _|]. apply honest_bind; [apply _|].
  apply honest_call. intros f1 H1. split; [by apply success_truthful; eapply built_ok_later|].
  intros reply f2 f3 _ _ _. by repeat (apply honest_ret; intros ? _).
Qed.

Lemma honest_build current d dir f :
  delivered d f → honest (build acfg yaml_Unmarshal Quote id token current d dir) f (λ _ _, True).
Proof.
  intros Hd. unfold build. case_match; [done|]. apply honest_then; [done|]. intros _ f1 H1.
  apply honest_then; [apply harmless_ParseFile|]. intros [spec|e] f2 H2.
  2: { apply honest_end. go_calls. apply harmless_fail. }
  destruct (Primary spec) as [step|]; [|done]. apply honest_then; [done|]. intros _ f3 H3.
  apply honest_bind; [apply _|]. apply honest_call. intros f4 H4. split; [done|].
  intros res f5 f6 H5 [Hran Hcode] H6. unfold conclude. apply honest_then; [done|]. intros _ f7 H7.
  apply honest_then; [done|]. intros abandoned f8 H8. destruct abandoned.
  { apply honest_end. go_calls. apply harmless_abandon. }
  apply honest_then; [done|]. intros _ f9 H9. destruct res as [res|e].
  2: { apply honest_end. go_calls. by apply harmless_reportResult. }
  destruct (verdict res) as [[status code] msg] eqn:Hv. pose proof (verdict_code _ _ _ _ Hcode Hv) as Hc.
  destruct (decide (status = JobSuccess)) as [->|Hs].
  2: { apply honest_end. go_calls. by apply harmless_reportResult. }
  apply verdict_success in Hv as (-> & -> & ->). apply honest_bind; [apply _|].
  eapply honest_mono; [|by intros [] f10 _; apply honest_end].
  assert (later f5 f9) as H59 by (do 3 (etrans; [eassumption|]); done).
  assert (later f f5) as H15 by (do 4 (etrans; [eassumption|]); done).
  apply honest_success. apply (built_ok_later f5); [done|].
  destruct (delivered_later _ _ _ H15 Hd) as (row & Hrow & Hsha). by eexists row, _.
Qed.

Lemma honest_execute d f :
  delivered d f → honest (execute acfg yaml_Unmarshal Quote id token d) f (λ _ _, True).
Proof.
  intros Hd. unfold execute. apply honest_then; [done|]. intros p f1 H1.
  apply honest_then; [done|]. intros _ f2 H2. apply honest_then; [apply harmless_start|]. intros [?|?] f3 H3.
  2: { apply honest_end. go_calls. apply harmless_unwind. }
  apply honest_then; [done|]. intros _ f4 H4. apply honest_then; [apply harmless_lift|]. intros [dir|e] f5 H5.
  - apply honest_bind; [apply _|]. eapply honest_mono.
    + apply honest_build. eapply delivered_later; [|exact Hd]. do 4 (etrans; [eassumption|]); done.
    + intros how f6 _. apply honest_end. go_calls. apply harmless_unwind.
  - apply honest_end. go_calls; try apply harmless_abandon; try apply harmless_fail; try apply harmless_unwind; done.
Qed.

Lemma honest_poll f :
  honest (poll acfg id token) f (λ r f', match r with Ok (Some d) => delivered d f' | _ => True end).
Proof.
  unfold poll. apply honest_bind; [apply _|]. apply honest_call. intros f1 H1. split.
  { intros jid rt Hr Hs. by destruct (agent_harmless id token GET None false "runners" id "job" ltac:(set_solver) jid rt). }
  intros reply f2 f3 H2 Ha H3. apply honest_ret. intros f4 H4. destruct reply as [[code body]|e]; [|done].
  destruct (code =? 204)%Z; [done|]. destruct (Z.eqb_spec code 200) as [->|]; [|done].
  destruct (DecodeReply _ _ _) as [d []] eqn:Hdec; [done|].
  apply (delivered_later _ f2); [by trans f3|]. by eapply Ha.
Qed.

Lemma honest_run_loop turns f : honest (run_loop acfg yaml_Unmarshal Quote id token turns) f (λ _ _, True).
Proof.
  revert f. induction turns as [|n IH]; intros f; [done|]. cbn [run_loop].
  apply honest_then; [done|]. intros [] f1 H1; [done|].
  apply honest_bind; [apply _|]. eapply honest_mono; [apply honest_poll|]. intros [[d|]|e] f2 Hd; [|apply IH|].
  - apply honest_bind; [apply _|]. eapply honest_mono; [by apply honest_execute|]. intros [] f3 _; [apply IH|done].
  - apply honest_then; [done|]. intros [] f3 H3; [done|]. apply honest_then; [done|]. intros _ f4 H4. apply IH.
Qed.
End working.

Lemma honest_duty d f : honest (duty_prog Quote GOARCH GOOS yaml_Unmarshal acfg d) f (λ _ _, True).
Proof.
  destruct d as [turns|id token turns|id token jobID chunks]; cbn [duty_prog].
  - apply honest_bind; [apply _|]. eapply honest_mono; [|by intros r f1 _; apply honest_end].
    unfold Run. apply honest_then; [apply harmless_register|]. intros [[id token]|e] f1 H1; [|by apply honest_end].
    apply honest_then; [done|]. intros _ f2 H2. apply honest_bind; [apply _|].
    eapply honest_mono; [apply honest_run_loop|]. intros how f3 _. by apply honest_end.
  - apply honest_end, harmless_heartbeatLoop.
  - apply honest_end. induction chunks as [|[seq chunk] l IH]; [done|]. cbn [foldr]. go_calls. apply harmless_shipLogs.
Qed.
End runner.
