(* ===== verification/ClusterSpec.v ===== *)
(** * Green means built

    A job is SUCCESS only if a container ran for that job, on the commit of that
    job, and ended with exit code 0 - whatever runners, requests, schedulers,
    crashes and losses there have been, and whatever happened on the hosts.

    The proof composes two halves over the steps of Cluster: a runner reports
    success only after such a container (Honesty), and the control plane lets
    only such a report make a job SUCCESS (Grants), provided that what a runner
    is told about its job is true (Polls). *)
From S2P Require Import Prelude GoLib Json Http Config Prog Rely Asks Models Sql Redis World Tables Typed Store Lifecycle.
From S2P Require Import Queue Outcome Scheduler Service Webhook Api System Workspace Jobspec Executor.
From S2P Require Import Agent Encode Wire Cluster Grants Polls Honesty.

Section cluster.
Context `{RangeOrder} {R : Type} `{Redis R}.
Context (Q : Queue) (view : World R → qstate) `{!QueueOk Q view} (Sch : Scheduler) (cfg : Config) (heartbeat : Z).
Context (offset : Z → Z) (Quote : string → string) (json_error : string).
Context (GOARCH GOOS : string) (yaml_Unmarshal : string → result string Spec).
Context (Hzone : ∀ t, (60 | offset t)%Z).

Abbreviation rely := (Rely.safe handle db_later db_later db_inv).
Abbreviation honest acfg := (Asks.honest later (may acfg) (answers acfg)).
Abbreviation step := (cluster_step Q Sch cfg heartbeat offset Quote json_error GOARCH GOOS yaml_Unmarshal).

(** ** The invariant *)

Definition facts_of (w : World R) (rs : list container_run) : facts := (w_db w, rs).

(** Every job that is SUCCESS was built, and says so. *)
Definition green (w : World R) (rs : list container_run) : Prop :=
  ∀ id row, db_jobs (w_db w) !! id = Some row → job_status row = JobSuccess →
    built_ok (facts_of w rs) id ∧ passed (jr_job row).

(** A thread of the control plane makes only such jobs SUCCESS. *)
Definition thread_ok {A} (w : World R) (rs : list container_run) (p : Prog Call A) : Prop :=
  safe p ∧ granted (built_ok (facts_of w rs)) p.

Definition reply_of (acfg : Settings) (req : HttpRequest) (resp : Response) : HttpReply :=
  Ok (received offset Quote json_error (wire (cfg_ServerURL acfg) req) resp).

Definition client_ok (w : World R) (rs : list container_run) (c : client) : Prop :=
  let '(mkClient acfg a) := c in
  match a with
  | Running p => honest acfg p (facts_of w rs) (λ _ _, True)
  | Waiting req p k =>
      thread_ok w rs p ∧
      rely p w (λ a w', answers_poll acfg (w_db w') req (reply_of acfg req a.2)) ∧
      ∀ reply f, later (facts_of w rs) f → answers_poll acfg f.1 req reply → honest acfg (k reply) f (λ _ _, True)
  end.

Definition cluster_ok (s : Cluster (R := R)) : Prop :=
  db_inv (cl_world s) ∧ green (cl_world s) (cl_runs s) ∧
  Forall (thread_ok (A := unit) (cl_world s) (cl_runs s)) (servers s) ∧
  Forall (client_ok (cl_world s) (cl_runs s)) (clients s).

(** *** What is fine stays fine *)

Definition world_later (w w' : World R) (rs rs' : list container_run) : Prop :=
  db_later w w' ∧ rs ⊆ rs'.

Lemma facts_later w w' rs rs' : world_later w w' rs rs' → later (facts_of w rs) (facts_of w' rs').
Proof. done. Qed.

Lemma thread_ok_later {A} w w' rs rs' (p : Prog Call A) :
  world_later w w' rs rs' → thread_ok w rs p → thread_ok w' rs' p.
Proof.
  intros Hl [Hs Hg]. split; [done|]. eapply granted_mono; [|exact Hg]. intros id. by apply built_ok_later.
Qed.

Lemma client_ok_later w w' rs rs' c : world_later w w' rs rs' → client_ok w rs c → client_ok w' rs' c.
Proof.
  intros Hl. destruct c as [acfg [p|req p k]]; cbn [client_ok].
  - apply honest_later; [apply _|by apply facts_later].
  - intros (Hp & Hr & Hk). split_and!.
    + by eapply thread_ok_later.
    + eapply safe_later; [apply _| |exact Hr]. apply Hl.
    + intros reply f Hf. apply Hk. etrans; [by apply facts_later|done].
Qed.

Lemma later_ok w w' rs rs' ps cs :
  world_later w w' rs rs' → Forall (thread_ok (A := unit) w rs) ps → Forall (client_ok w rs) cs →
  Forall (thread_ok (A := unit) w' rs') ps ∧ Forall (client_ok w' rs') cs.
Proof.
  intros Hl Hp Hc. split; (eapply Forall_impl; [eassumption|]); intros x;
    [by apply thread_ok_later|by apply client_ok_later].
Qed.

Lemma world_later_refl w rs : world_later w w rs rs.
Proof. by split. Qed.

(** *** A call of the control plane *)

Lemma call_green {X} (c : Call X) w rs :
  sql_only admissible _ c → sql_only (grants (built_ok (facts_of w rs))) _ c → db_inv w → green w rs →
  db_inv (handle _ c w).2 ∧ world_later w (handle _ c w).2 rs rs ∧ green (handle _ c w).2 rs.
Proof.
  intros Ha Hg Hi Hgreen. destruct (call_keeps c w Ha Hi) as [Hi' Hl]. split_and!; [done|by split|].
  intros id row Hrow Hs.
  set (P := λ Y (s : SqlStmt Y), admissible _ s ∧ grants (built_ok (facts_of w rs)) _ s).
  set (T := λ db db', db_wf db → ∀ row, db_jobs db' !! id = Some row → job_status row = JobSuccess →
    (∃ row0, db_jobs db !! id = Some row0 ∧ job_status row0 = JobSuccess ∧ jr_job row = jr_job row0) ∨
    (built_ok (facts_of w rs) id ∧ passed (jr_job row))).
  assert (Reflexive T) by (intros db _ row' ? ?; left; by exists row').
  assert (T (w_db w) (w_db (handle _ c w).2)) as HT.
  { apply (handle_db P T); [|by destruct c]. intros Y s db [? ?] Hwf row'. by apply exec_sql_success. }
  assert (built_ok (facts_of w rs) id ∧ passed (jr_job row)) as [Hb Hp].
  { destruct (HT (proj1 Hi) row Hrow Hs) as [(row0 & Hrow0 & Hs0 & E)|]; [|done].
    destruct (Hgreen _ _ Hrow0 Hs0) as [? ?]. by rewrite E. }
  split; [|done]. by eapply built_ok_later; [by apply facts_later|].
Qed.

Lemma thread_step {A} (p p' : Prog Call A) w w' rs :
  thread_ok w rs p → prog_step handle p w = (p', w') → db_inv w → green w rs →
  db_inv w' ∧ world_later w w' rs rs ∧ green w' rs ∧ thread_ok w' rs p'.
Proof.
  intros Hok Hs Hi Hg. destruct p as [a|X c k]; simpl in Hs.
  { injection Hs as <- <-. by split_and!; [|apply world_later_refl|..]. }
  destruct Hok as [[Hc Hk] [Hgc Hgk]]. destruct (call_green c w rs Hc Hgc Hi Hg) as (Hi' & Hl & Hg').
  destruct (handle X c w) as [x w1]. injection Hs as <- <-. simpl in *. split_and!; [done..|].
  eapply thread_ok_later; [exact Hl|]. by split.
Qed.

Lemma rely_step {A} (p p' : Prog Call A) w w' Q' :
  rely p w Q' → prog_step handle p w = (p', w') → db_inv w → rely p' w' Q'.
Proof.
  intros Hp Hs Hi. destruct p as [a|X c k]; simpl in Hs; [by injection Hs as <- <-|].
  destruct (Hp w) as [_ Hk]; [by unfold db_later|done|]. destruct (handle X c w) as [x w1]. by injection Hs as <- <-.
Qed.

(** *** A request *)

Lemma rely_request acfg req w :
  rely (serve_http cfg (wire (cfg_ServerURL acfg) req)) w
    (λ a w', answers_poll acfg (w_db w') req (reply_of acfg req a.2)).
Proof.
  set (id := header_get (hq_Headers req) "X-Runner-ID").
  set (token := TrimPrefix (header_get (hq_Headers req) "Authorization") "Bearer ").
  destruct (decide (req = poll_request acfg id token)) as [E|Hn].
  - clearbody id token. subst req. eapply safe_weaken; [by eapply rely_poll|]. intros a w' _ Hp. by eapply polled_answers.
  - eapply safe_weaken.
    + apply (rely_static (λ _, True)); [by eapply safe_serve_http|apply ends_any].
    + intros a w' _ _ id' token' body d E. exfalso. apply Hn. rewrite E. f_equal; unfold id, token; rewrite E; [done|].
      symmetry. apply (TrimPrefix_app "Bearer ").
Qed.

Lemma request_ok acfg req w rs :
  may acfg _ (Http req) (facts_of w rs) → thread_ok w rs (serve_http cfg (wire (cfg_ServerURL acfg) req)).
Proof. intros Hm. split; [by eapply safe_serve_http|]. by eapply granted_serve_http. Qed.

(** No reply has come: nothing is claimed. *)
Lemma no_answer acfg db req e : answers_poll acfg db req (Err e).
Proof. by intros id token body d _. Qed.

Lemma env_ok (w w' : World R) :
  env_step w w' → db_inv w → db_inv w' ∧ db_later w w' ∧ db_jobs (w_db w') = db_jobs (w_db w).
Proof.
  intros He [Hwf Hty]. destruct (env_step_ok w w' He Hwf) as [Hwf' Hev].
  by destruct He; (split; [split; [done|]|]; [by destruct Hty; split|]).
Qed.

(** *** The steps *)

Lemma clients_update w rs cs i c :
  Forall (client_ok w rs) cs → client_ok w rs c → Forall (client_ok w rs) (<[i := c]> cs).
Proof. intros. by apply Forall_insert. Qed.

Lemma running_next acfg X (e : AgentCall X) (k : X → Prog AgentCall unit) w rs x :
  client_ok w rs (mkClient acfg (Running (Vis e k))) → answers acfg _ e x (facts_of w rs) →
  client_ok w rs (mkClient acfg (Running (k x))).
Proof. intros Hc Ha. destruct (Hc (facts_of w rs)) as [_ Hk]; [done|]. by apply Hk. Qed.

(** The same tables and containers, one thread or client changed. *)
Lemma client_step ps cs w rs i c :
  cluster_ok (mkCluster ps cs w rs) → client_ok w rs c → cluster_ok (mkCluster ps (<[i := c]> cs) w rs).
Proof. intros (Hi & Hg & Hps & Hcs) Hc. by split_and!; [..|apply clients_update]. Qed.

Lemma client_at ps cs w rs i c : cluster_ok (mkCluster ps cs w rs) → cs !! i = Some c → client_ok w rs c.
Proof. intros (_ & _ & _ & Hcs). by apply Forall_lookup_1. Qed.

Lemma entry_ok e w rs : outside e → thread_ok w rs (entry_prog Q Sch cfg heartbeat e).
Proof. intros He. split; [by eapply safe_entry|by eapply granted_entry]. Qed.

Lemma joined_ok w rs acfg d :
  client_ok w rs (mkClient acfg (Running (duty_prog Quote GOARCH GOOS yaml_Unmarshal acfg d))).
Proof. apply honest_duty. Qed.

Lemma step_cluster_ok s s' : step s s' → cluster_ok s → cluster_ok s'.
Proof.
  intros Hs Hok. pose proof Hok as (Hi & Hg & Hps & Hcs).
  destruct Hs as [e ps cs w rs He|ps cs w rs i p p' w' Hp Hs|ps cs w rs i|ps cs w rs w' He
    |ps cs w rs acfg d|ps cs w rs i|ps cs w rs i acfg req k Hc|ps cs w rs i acfg req k err Hc
    |ps cs w rs i acfg req p k p' w' Hc Hs|ps cs w rs i acfg req rid resp k Hc|ps cs w rs i acfg req p k err Hc
    |ps cs w rs i acfg X e k x Hc Hl|ps cs w rs i acfg id token k turns Hc|ps cs w rs i acfg req k res Hc Hx];
    simpl in Hi, Hg, Hps, Hcs; try pose proof (client_at _ _ _ _ _ _ Hok Hc) as Hci.
  - split_and!; [done..| |done]. apply Forall_app. split; [done|]. apply Forall_singleton. by apply entry_ok.
  - destruct (thread_step p p' w w' rs) as (Hi' & Hl & Hg' & Hp'); [by eapply Forall_lookup_1|done..|].
    destruct (later_ok _ _ _ _ _ _ Hl Hps Hcs) as [Hps' Hcs']. split_and!; [done..| |done]. by apply Forall_insert.
  - split_and!; [done..| |done]. by apply Forall_delete.
  - destruct (env_ok w w' He Hi) as (Hi' & Hl & Hj).
    assert (world_later w w' rs rs) as Hwl by by split.
    destruct (later_ok _ _ _ _ _ _ Hwl Hps Hcs) as [Hps' Hcs']. split_and!; try done.
    intros id row Hrow Hs. simpl in *. rewrite Hj in Hrow. destruct (Hg id row Hrow Hs) as [Hb ?]. split; [|done].
    eapply built_ok_later; [by apply facts_later|exact Hb].
  - split_and!; [done..|]. apply Forall_app. split; [done|]. apply Forall_singleton, joined_ok.
  - split_and!; [done..|]. by apply Forall_delete.
  - destruct (Hci (facts_of w rs)) as [Hm Hk]; [done|]. apply client_step; [done|]. split_and!.
    + by apply request_ok.
    + apply rely_request.
    + intros reply f Hf Ha. by apply Hk.
  - apply client_step; [done|]. apply (running_next _ _ _ k _ _ (Err err) Hci), no_answer.
  - destruct Hci as (Hp & Hr & Hk). destruct (thread_step p p' w w' rs Hp Hs Hi Hg) as (Hi' & Hl & Hg' & Hp').
    destruct (later_ok _ _ _ _ _ _ Hl Hps Hcs) as [Hps' Hcs']. split_and!; [done..|]. apply clients_update; [done|].
    split_and!; [done|by eapply rely_step|]. intros reply f Hf. apply Hk. by etrans; [apply facts_later|].
  - destruct Hci as (_ & Hr & Hk). apply client_step; [done|]. apply Hk; [done|]. by apply (Hr w).
  - destruct Hci as (Hp & _ & Hk). split_and!; [done..| |].
    + apply Forall_app. split; [done|]. apply Forall_singleton. destruct Hp. split; by apply all_calls_bind.
    + apply clients_update; [done|]. apply Hk; [done|]. apply no_answer.
  - apply client_step; [done|]. apply (running_next _ _ _ k _ _ x Hci). by destruct e.
  - split_and!; [done..|]. apply Forall_app. split; [|by apply Forall_singleton, joined_ok].
    apply clients_update; [done|]. by apply (running_next _ _ _ k _ _ tt Hci).
  - assert (world_later w w rs (rs ++ [(req, res)])) as Hl by (split; [done|set_solver]).
    destruct (later_ok _ _ _ _ _ _ Hl Hps Hcs) as [Hps' Hcs']. split_and!; [done| |done|].
    + intros id row Hrow Hs. destruct (Hg id row Hrow Hs) as [Hb Hp]. split; [|done].
      by eapply built_ok_later; [apply facts_later|].
    + apply clients_update; [done|]. apply (running_next _ _ (RunExecutor req) k).
      * by eapply client_ok_later.
      * split; [set_solver|done].
Qed.

(** ** The invariant holds *)

Lemma cluster_initial_ok s : cluster_initial s → cluster_ok s.
Proof.
  destruct s as [ps cs w rs]. intros (Hp & Hc & Hr & now & Hdb). simpl in *. subst. unfold cluster_ok, db_inv, green. simpl.
  rewrite Hdb. by split_and!.
Qed.

Lemma reachable_cluster_ok s0 s :
  cluster_initial s0 →
  cluster_reachable Q Sch cfg heartbeat offset Quote json_error GOARCH GOOS yaml_Unmarshal s0 s → cluster_ok s.
Proof. intros Hi Hr. apply cluster_initial_ok in Hi. induction Hr; eauto using step_cluster_ok. Qed.
End cluster.

Section theorems.
Context `{RangeOrder} {R : Type} `{Redis R}.
Context (Q : Queue) (view : World R → qstate) (Sch : Scheduler) (cfg : Config) (heartbeat : Z).
Context (offset : Z → Z) (Quote : string → string) (json_error : string).
Context (GOARCH GOOS : string) (yaml_Unmarshal : string → result string Spec).

(** C1. Green means built.  A job whose status is SUCCESS was built: a container
    has been run for that job, on the commit of that job, and it exited with 0
    within its time; and the row says so, with exit code 0 and no error.  This
    holds in every state that any number of runners, requests, schedulers and
    reapers can reach, interleaved call by call, whatever is lost, crashes or
    times out, whatever git, Docker and the file systems of the runners do, as
    long as nobody but a runner reports success. *)
Theorem green_means_built (s0 s : Cluster (R := R)) (id : string) (row : JobRow)
    (HQ : QueueOk Q view) (Hzone : ∀ t, (60 | offset t)%Z) (Hi : cluster_initial s0)
    (Hr : cluster_reachable Q Sch cfg heartbeat offset Quote json_error GOARCH GOOS yaml_Unmarshal s0 s)
    (Hrow : db_jobs (w_db (cl_world s)) !! id = Some row) (Hs : job_status row = JobSuccess) :
  (∃ req, (req, Ok (mkExecResult 0 false)) ∈ cl_runs s ∧
     er_JobID req = id ∧ er_CommitSHA req = j_CommitSHA (jr_job row)) ∧
  j_ExitCode (jr_job row) = Some 0%Z ∧ j_Error (jr_job row) = "".
Proof.
  pose proof (reachable_cluster_ok Q view Sch cfg heartbeat offset Quote json_error GOARCH GOOS yaml_Unmarshal
    Hzone s0 s Hi Hr) as (_ & Hg & _).
  destruct (Hg id row Hrow Hs) as [(row' & req & Hrow' & Hreq & Hid & Hc) Hp]. simpl in *. split; [|done].
  exists req. split_and!; [done..|]. by simplify_eq.
Qed.
End theorems.
