(* ===== verification/MachineSpec.v ===== *)
(** * What a runner and the control plane do together

    End-to-end theorems on the machine (Machine): a job that is polled arrives as
    it is stored, a job that was finished stops its container at the next
    heartbeat and is not reported, and a job that is handed out is built and its
    outcome stored. *)
From S2P Require Import Prelude GoLib GoText Sha256 Json JsonOut JsonCut Http Config Prog Models Sql Redis World Tables Typed Store.
From S2P Require Import Lifecycle Queue Outcome Scheduler Service Webhook Api Auth System JobApi Workspace Jobspec Executor.
From S2P Require Import Traces Agent AgentSpec Encode Wire Cluster Machine Polls.
From Stdlib Require Import Ascii.

#[local] Arguments mbind : simpl never.

(** ** Requests of a registered runner *)

Section requests.
Context `{RangeOrder} {R : Type} `{Redis R} `{Queue}.
Context (cfg : Config) (acfg : Settings) (id token : string).

(** The world after a request was given its identifier. *)
Definition numbered (w : World R) : World R :=
  mkWorld (w_db w) (w_redis w) (w_faults w) (tail (w_uuids w)) (w_rand w) (w_tokens w) (w_ctx w) (w_reports w).

Lemma served_numbered r (w : World R) :
  rq_Header r "X-Request-ID" = "" →
  exec (serve_http cfg r) w =
  (default "" (head (w_uuids w)), (exec (Routes cfg r) (numbered w)).1, (exec (Routes cfg r) (numbered w)).2).
Proof.
  intros Hh. unfold serve_http, withRequestID. rewrite decide_True by done. rewrite run_bind, run_call.
  cbn [handle]. fold (numbered w). rewrite run_bind. by destruct (exec (Routes cfg r) (numbered w)).
Qed.

(** The runner and the token it was issued at registration. *)
Definition enrolled (db : DB) : Prop :=
  id ≠ "" ∧ token ≠ "" ∧ ∃ rrow, db_runners db !! id = Some rrow ∧ rr_token_hash rrow = hashToken token.

(** It passes the middleware, on its own routes and on those of a job. *)
Lemma authenticated next method path body det x (w : World R) :
  calm w → enrolled (w_db w) →
  let r := wire (cfg_ServerURL acfg) (request acfg id token method path body det) in
  exec (withRunnerAuth next r x) w = exec (next r x) w.
Proof.
  cbv zeta. intros Hc (Hid & Ht & rrow & Hr & Hh). apply withRunnerAuth_passes; [done|]. unfold credentials_ok.
  destruct (wire_identity acfg id token method path body det x Hid) as (-> & -> & _). split_and!; [done..|].
  by exists rrow.
Qed.

Lemma wire_runner_path method body det op :
  plain id → Forall (λ c, c ≠ "/"%char) (bytes_of op) →
  rq_Path (wire (cfg_ServerURL acfg) (request acfg id token method ("/api/v1/runners/" +:+ id +:+ "/" +:+ op) body det)) =
  ["api"; "v1"; "runners"; id; op].
Proof.
  intros Hp%plain_no_slash Hop. unfold request. rewrite wire_path.
  change ("/api/v1/runners/" +:+ id +:+ "/" +:+ op) with
    ("/" +:+ "api" +:+ "/" +:+ "v1" +:+ "/" +:+ "runners" +:+ "/" +:+ id +:+ "/" +:+ op).
  rewrite split_segments by (done || by repeat constructor). by rewrite (Split_none _ id).
Qed.

Lemma wire_jobs_path jobID method body det op :
  plain jobID → Forall (λ c, c ≠ "/"%char) (bytes_of op) →
  rq_Path (wire (cfg_ServerURL acfg) (request acfg id token method ("/api/v1/jobs/" +:+ jobID +:+ "/" +:+ op) body det)) =
  ["api"; "v1"; "jobs"; jobID; op].
Proof.
  intros Hp%plain_no_slash Hop. unfold request. rewrite wire_path.
  change ("/api/v1/jobs/" +:+ jobID +:+ "/" +:+ op) with
    ("/" +:+ "api" +:+ "/" +:+ "v1" +:+ "/" +:+ "jobs" +:+ "/" +:+ jobID +:+ "/" +:+ op).
  rewrite split_segments by (done || by repeat constructor). by rewrite (Split_none _ jobID).
Qed.

Lemma routed_poll_request :
  plain id → let r := wire (cfg_ServerURL acfg) (poll_request acfg id token) in
  Routes cfg r = withRunnerAuth handlePollJob r id.
Proof.
  intros Hp. cbv zeta. set (r := wire _ _).
  assert (rq_Path r = ["api"; "v1"; "runners"; id; "job"]) as Hpath
    by (apply (wire_runner_path GET None false "job"); done || by repeat constructor).
  unfold Routes. rewrite Hpath. simpl.
  rewrite bool_decide_false by apply Hp. done.
Qed.

Definition beat_request (jobID : string) : HttpRequest :=
  request acfg id token POST ("/api/v1/runners/" +:+ id +:+ "/heartbeat") (Some (heartbeat_body jobID)) false.

Lemma routed_beat_request jobID :
  plain id → let r := wire (cfg_ServerURL acfg) (beat_request jobID) in
  Routes cfg r = withRunnerAuth handleHeartbeat r id.
Proof.
  intros Hp. cbv zeta. set (r := wire _ _).
  assert (rq_Path r = ["api"; "v1"; "runners"; id; "heartbeat"]) as Hpath
    by (apply (wire_runner_path POST _ false "heartbeat"); done || by repeat constructor).
  unfold Routes. rewrite Hpath. simpl.
  rewrite bool_decide_false by apply Hp. done.
Qed.

Definition start_request (jobID : string) : HttpRequest :=
  request acfg id token POST ("/api/v1/jobs/" +:+ jobID +:+ "/start") None false.

Lemma routed_start_request jobID :
  plain jobID → let r := wire (cfg_ServerURL acfg) (start_request jobID) in
  Routes cfg r = withRunnerAuth (handleJobStart cfg) r jobID.
Proof.
  intros Hp. cbv zeta. set (r := wire _ _).
  assert (rq_Path r = ["api"; "v1"; "jobs"; jobID; "start"]) as Hpath
    by (apply (wire_jobs_path jobID POST None false "start"); done || by repeat constructor).
  unfold Routes. rewrite Hpath. simpl.
  rewrite bool_decide_false by apply Hp. done.
Qed.

(** A heartbeat names the job that was put in it. *)
Lemma plain_ascii s : plain s → ascii_text s.
Proof.
  intros [_ Hs]. eapply Forall_impl; [exact Hs|]. intros c. unfold unreserved, between.
  destruct (decide (byte_val c < 128)%Z) as [|Hn]; [done|]. rewrite bool_decide_false by by intros ->.
  rewrite !orb_true_iff, !andb_true_iff, !Z.leb_le. intros Hc. exfalso. naive_solver lia.
Qed.

Lemma beat_names jobID :
  plain jobID → (Z.of_nat (String.length (heartbeat_body jobID)) ≤ 4096)%Z →
  named_job (wire (cfg_ServerURL acfg) (beat_request jobID)) = jobID.
Proof.
  intros Hp Hlen. unfold named_job. change (rq_Body _) with (heartbeat_body jobID). unfold Decode. rewrite string_take_all by lia. unfold heartbeat_body.
  rewrite (first_value_Marshal 1); [|done|done]. cbn [clean map].
  change (sanitize "job_id") with "job_id". rewrite (sanitize_ascii jobID) by by apply plain_ascii. done.
Qed.
End requests.

(** ** The machine *)

Section machine.
Context `{RangeOrder} {R : Type} `{Redis R} `{Queue}.
Context (view : World R → qstate) `{!QueueOk _ view} (cfg : Config) (acfg : Settings) (id token : string).
Context (offset : Z → Z) (Quote : string → string) (json_error : string).
Context (host : ∀ X, HostCall X → X) (container : ExecRequest → result string ExecResult).

Abbreviation go p m := (run (machine_handle cfg acfg offset Quote json_error host container) p m).

(** One call of a program, and then the rest. *)
Lemma go_call {X A} (e : AgentCall X) (f : X → Prog AgentCall A) m :
  go (x ← call e; f x) m =
  let '(x, m') := machine_handle cfg acfg offset Quote json_error host container X e m in go (f x) m'.
Proof. rewrite run_bind, run_call. by destruct (machine_handle _ _ _ _ _ _ _ X e m). Qed.

Lemma round_trip_served req (w w' : World R) resp :
  rq_Header (wire (cfg_ServerURL acfg) req) "X-Request-ID" = "" →
  exec (Routes cfg (wire (cfg_ServerURL acfg) req)) (numbered w) = (resp, w') →
  round_trip cfg acfg offset Quote json_error req w =
  (Ok (received offset Quote json_error (wire (cfg_ServerURL acfg) req) resp), w').
Proof. intros Hh E. unfold round_trip. rewrite served_numbered by done. by rewrite E. Qed.

Lemma received_body r resp :
  rq_Method r ≠ "HEAD" →
  received offset Quote json_error r resp = (rs_code resp, body_text offset Quote json_error (rs_body resp)).
Proof. intros Hm. unfold received. by rewrite bool_decide_false. Qed.

(** *** A job that is polled *)

(** The job as it is stored, with the token that was minted. *)
Definition as_stored (j : Job) (clone_token : string) : jobDelivery :=
  mkDelivery (j_ID j) (j_Repository j) (j_CloneURL j) (j_CommitSHA j) (j_Branch j) (j_EventType j) (j_ConfigRef j)
    (mkSlice (j_Labels j) (length (j_Labels j))) (job_status_string (j_Status j)) (j_RunnerID j) (j_Attempts j)
    (j_ExitCode j) (j_Error j) (time_nanos (j_CreatedAt j)) (time_nanos <$> j_StartedAt j)
    (time_nanos <$> j_CompletedAt j) (sanitize clone_token).

Lemma sanitize_all (l : list string) : (∀ s, s ∈ l → text_ok s = true) → sanitize <$> l = l.
Proof.
  induction l as [|s l IH]; intros Hl; [done|]. cbn [fmap list_fmap].
  rewrite sanitize_text by (apply Hl; left). f_equal. apply IH. intros x Hx. apply Hl. by right.
Qed.

Lemma as_stored_typed j t : job_typed j → delivery_of j t = as_stored j t.
Proof.
  intros Hj. pose proof (job_text_all j) as Ht. pose proof (jt_text _ Hj) as Htext.
  assert (∀ s, s ∈ [j_ID j; j_Repository j; j_CloneURL j; j_CommitSHA j; j_Branch j; j_EventType j; j_ConfigRef j]
    ++ j_Labels j → sanitize s = s) as Hs by (intros s Hin; apply sanitize_text; by apply Ht).
  unfold delivery_of, as_stored.
  rewrite (Hs (j_ID j)), (Hs (j_Repository j)), (Hs (j_CloneURL j)), (Hs (j_CommitSHA j)), (Hs (j_Branch j)),
    (Hs (j_EventType j)), (Hs (j_ConfigRef j)) by set_solver.
  rewrite (sanitize_text (j_Error j)) by apply (jt_error _ Hj).
  rewrite sanitize_all by (intros s Hin; apply Ht; [done|]; apply elem_of_app; by right).
  pose proof (jt_runner _ Hj) as Hr. destruct (j_RunnerID j) as [r|]; [|done]. simpl. by rewrite sanitize_text.
Qed.

Lemma ints_typed j : job_typed j → ints_ok j.
Proof.
  intros Hj. split; [by apply int4_int64, (jt_attempts _ Hj)|]. pose proof (jt_exit _ Hj) as Hx.
  destruct (j_ExitCode j); [by apply int4_int64|done].
Qed.

Lemma poll_delivers jobID box row m :
  (∀ t, (60 | offset t)%Z) → calm (m_world m) → db_typed (w_db (m_world m)) → plain id →
  enrolled id token (w_db (m_world m)) → mailbox (view (m_world m)) id = box ++ [jobID] →
  db_jobs (w_db (m_world m)) !! jobID = Some row → job_members offset (jr_job row) ≠ None →
  ∃ t w', go (poll acfg id token) m = (Ok (Some (as_stored (jr_job row) t)), mkMachine w' (m_book m) (m_runs m) (m_hosted m)) ∧
    calm w' ∧ w_db w' = w_db (m_world m) ∧ mailbox (view w') id = box.
Proof.
  intros Hzone Hc Hty Hp Hreg Hbox Hrow Htimes. destruct m as [w b rs hs]. simpl in *.
  destruct (typed_jobs _ Hty _ _ Hrow) as [_ [Hj _]].
  set (r := wire (cfg_ServerURL acfg) (poll_request acfg id token)).
  assert (mailbox (view (numbered w)) id = box ++ [jobID]) as Hbox'.
  { rewrite <-Hbox. apply mailbox_proper; [|done]. by apply view_redis. }
  destruct (handlePollJob_delivers view r id jobID box row (numbered w) Hc Hbox' Hrow)
    as (w' & E & Hc' & Hd' & _ & Hb').
  set (t := (default ("", false) (head (w_tokens (numbered w)))).1) in *. exists t, w'.
  split; [|done]. unfold poll. fold (poll_request acfg id token).
  rewrite (round_trip_served (poll_request acfg id token) w w' (mkResponse 200 (BodyDelivery (jr_job row) t))); [|done|].
  2: { rewrite routed_poll_request by done.
       etrans; [by apply (authenticated acfg id token handlePollJob GET ("/api/v1/runners/" +:+ id +:+ "/job") None false)|].
       exact E. }
  rewrite received_body by done. cbn [rs_code rs_body]. cbv beta iota zeta.
  change (200 =? 204)%Z with false. change (200 =? 200)%Z with true. cbv beta iota zeta.
  rewrite delivery_reads_back; [|done|by apply ints_typed|done]. by rewrite as_stored_typed.
Qed.

(** *** A job that has been finished *)

(** The job that is being executed, in the bookkeeping. *)
Definition executing (b : Book) (p : nat) (jobID : string) : Prop :=
  bk_active b = Some p ∧ ∃ aj, bk_jobs b !! p = Some aj ∧ aj_id aj = jobID.

Lemma executing_current b p jobID : executing b p jobID → currentJob b = Some (p, jobID).
Proof. intros (Ha & aj & Hp & <-). unfold currentJob. rewrite Ha. unfold mbind, option_bind. by rewrite Hp. Qed.

Definition stopped (p : nat) (b : Book) : Book := cancel p (abandoned_Store p b).

Lemma stopped_job b p jobID :
  executing b p jobID → bk_jobs (stopped p b) !! p = Some (mkActive jobID true true) ∧ bk_active (stopped p b) = Some p.
Proof.
  intros (Ha & aj & Hp & <-). unfold stopped, cancel, abandoned_Store. simpl.
  by rewrite !list_lookup_alter_eq, Hp.
Qed.

Lemma beat_stops p jobID row m :
  calm (m_world m) → db_wf (w_db (m_world m)) → plain id → plain jobID → enrolled id token (w_db (m_world m)) →
  (Z.of_nat (String.length (heartbeat_body jobID)) ≤ 4096)%Z → executing (m_book m) p jobID →
  db_jobs (w_db (m_world m)) !! jobID = Some row → Terminal (job_status row) = true →
  ∃ w', go (beat_once acfg id token) m = (tt, mkMachine w' (stopped p (m_book m)) (m_runs m) (m_hosted m)).
Proof.
  intros Hc Hwf Hp Hpj Hreg Hlen Hex Hrow Hfin. destruct m as [w b rs hs]. simpl in *.
  set (r := wire (cfg_ServerURL acfg) (beat_request acfg id token jobID)).
  pose proof (beat_names acfg id token jobID Hpj Hlen) as Hname. fold r in Hname.
  assert ((exec (handleHeartbeat r id) (numbered w)).1 = mkResponse 200 (BodyHeartbeat "ok" true)) as Hresp.
  { destruct Hreg as (_ & _ & rrow & Hr & _). apply (handleHeartbeat_finished r id row); try done.
    - by rewrite Hname.
    - rewrite Hname. apply Hpj. }
  destruct (exec (handleHeartbeat r id) (numbered w)) as [resp w'] eqn:E. simpl in Hresp. subst resp. exists w'.
  unfold beat_once. rewrite (executing_current _ _ _ Hex).
  fold (beat_request acfg id token jobID).
  rewrite (round_trip_served (beat_request acfg id token jobID) w w' (mkResponse 200 (BodyHeartbeat "ok" true))); [|done|].
  2: { rewrite routed_beat_request by done.
       etrans; [by apply (authenticated acfg id token handleHeartbeat POST ("/api/v1/runners/" +:+ id +:+ "/heartbeat"))|].
       exact E. }
  rewrite received_body by done. cbn [rs_code rs_body]. cbv beta iota zeta.
  change (300 <=? 200)%Z with false. cbv beta iota zeta. by rewrite heartbeat_reads_back.
Qed.

(** The end of a run: what comes after the container, and the deferred calls. *)
Definition ending_of (p : nat) (d : jobDelivery) (dir : string) (res : result string ExecResult) :
    Prog AgentCall ending :=
  how ← conclude acfg id token p d res; _ ← unwind p (Some dir); mret how.

(** The deferred calls: the workspace is removed, if there is one. *)
Lemma unwound p dir w bs act rs hs :
  act = None ∨ act = Some p →
  go (unwind p dir) (mkMachine w (mkBook bs act) rs hs) =
  (tt, mkMachine w (mkBook (alter (λ j, mkActive (aj_id j) (aj_abandoned j) true) p bs) None) rs
         (hs ++ match dir with Some dir => [ev (RemoveAll dir) (host _ (RemoveAll dir))] | None => [] end)).
Proof.
  intros Hact. assert (clearActive p (mkBook bs act) = mkBook bs None) as E.
  { unfold clearActive. simpl. by destruct Hact as [-> | ->]; case_decide. }
  set (m' := λ hs', on_book (clearActive p (mkBook bs act)) (mkMachine w (mkBook bs act) rs hs')).
  destruct dir as [dir|].
  - transitivity (tt, on_book (cancel p (clearActive p (mkBook bs act)))
      (m' (hs ++ [ev (RemoveAll dir) (host _ (RemoveAll dir))]))); [reflexivity|]. unfold m'. by rewrite E.
  - transitivity (tt, on_book (cancel p (clearActive p (mkBook bs act))) (m' hs)); [reflexivity|].
    unfold m'. by rewrite E, app_nil_r.
Qed.

(** What is left of a job that was abandoned: nothing is sent, and its workspace
    is removed. *)
Lemma conclude_abandoned p d res m jobID ab :
  bk_jobs (m_book m) !! p = Some (mkActive jobID true ab) → bk_active (m_book m) = Some p →
  go (conclude acfg id token p d res) m =
  (Returned, mkMachine (m_world m) (mkBook (bk_jobs (m_book m)) None) (m_runs m) (m_hosted m)).
Proof.
  intros Hp Ha. unfold conclude. rewrite !run_bind, !run_call. cbn [machine_handle].
  rewrite !run_bind, !run_call. cbn [machine_handle on_book m_book].
  unfold abandoned_Load, clearActive. cbn [bk_jobs bk_active]. by rewrite Hp, Ha, decide_True.
Qed.

Lemma ending_abandoned p d dir res m jobID ab :
  bk_jobs (m_book m) !! p = Some (mkActive jobID true ab) → bk_active (m_book m) = Some p →
  ∃ bs, go (ending_of p d dir res) m =
    (Returned, mkMachine (m_world m) (mkBook bs None) (m_runs m)
       (m_hosted m ++ [ev (RemoveAll dir) (host _ (RemoveAll dir))])).
Proof.
  intros Hp Ha. unfold ending_of. rewrite run_bind, (conclude_abandoned p d res m jobID ab Hp Ha).
  rewrite run_bind, unwound by by left. by eexists.
Qed.

(** *** A job that is built *)

(** The host by itself, and what is done to it. *)
Definition host_alone {A} (p : Prog HostCall A) : A * list (Traces.event HostCall) :=
  (run_trace (λ X c (_ : unit), (host X c, tt)) p tt).1.
Definition on_host {A} (p : Prog HostCall A) : A := (host_alone p).1.

Lemma go_lift {A} (p : Prog HostCall A) w b rs hs :
  go (lift (λ X c, HostOp c) p) (mkMachine w b rs hs) =
  (on_host p, mkMachine w b rs (hs ++ (host_alone p).2)).
Proof.
  revert hs. induction p as [a|X c k IH]; intros hs.
  { unfold on_host, host_alone. simpl. by rewrite app_nil_r. }
  etrans; [exact (IH (host X c) (hs ++ [ev c (host X c)]))|]. unfold on_host, host_alone. simpl.
  destruct (run_trace _ (k (host X c)) tt) as [[a tr] []]. simpl. by rewrite <-app_assoc.
Qed.

Lemma start_accepted jobID row m :
  calm (m_world m) → good (w_db (m_world m)) → plain jobID → enrolled id token (w_db (m_world m)) →
  db_jobs (w_db (m_world m)) !! jobID = Some row → job_status row = JobAssigned → j_RunnerID (jr_job row) = Some id →
  ∃ body w', go (do acfg id token POST ("/api/v1/jobs/" +:+ jobID +:+ "/start") None false) m =
      (Ok body, mkMachine w' (m_book m) (m_runs m) (m_hosted m)) ∧
    calm w' ∧ good (w_db w') ∧
    w_db w' = Spec.put_job jobID (running (w_db (m_world m)) row) (w_db (m_world m)).
Proof.
  intros Hc Hg Hp Hreg Hrow Hst Hown. destruct m as [w b rs hs]. simpl in *.
  set (r := wire (cfg_ServerURL acfg) (start_request acfg id token jobID)).
  destruct (handleJobStart_starts cfg r jobID id row (numbered w) Hc Hg Hrow Hst Hown eq_refl)
    as (w' & E & Hc' & Hg' & _ & Hd').
  eexists _, w'. split; [|by split_and!]. unfold do. fold (start_request acfg id token jobID).
  rewrite (round_trip_served (start_request acfg id token jobID) w w' (mkResponse 200 (BodyFields [("status", "RUNNING")])));
    [|done|].
  2: { rewrite routed_start_request by done.
       etrans; [by apply (authenticated acfg id token (handleJobStart cfg) POST ("/api/v1/jobs/" +:+ jobID +:+ "/start"))|].
       exact E. }
  rewrite received_body by done. cbn [rs_code rs_body]. cbv beta iota zeta.
  change (300 <=? 200)%Z with false. reflexivity.
Qed.

Lemma result_body_short status code msg :
  msg = "" ∨ msg = "job exceeded timeout" → (Z.of_nat (String.length (result_body status code msg)) ≤ 65536)%Z.
Proof.
  intros Hm. pose proof (Itoa_length code) as Hl. unfold result_body. cbn [Marshal map Join].
  rewrite !string_length_append.
  assert (String.length (quoted (job_status_string status)) ≤ 11) by by destruct status; vm_compute; lia.
  assert (String.length (quoted msg) ≤ 22) by by destruct Hm as [-> | ->]; vm_compute; lia.
  repeat match goal with |- context [String.length (quoted ?s)] =>
    lazymatch s with msg => fail | job_status_string _ => fail | _ => idtac end;
    let n := eval vm_compute in (String.length (quoted s)) in change (String.length (quoted s)) with n end.
  repeat match goal with |- context [String.length ?s] =>
    lazymatch s with quoted _ => fail | Itoa _ => fail | _ => idtac end;
    let n := eval vm_compute in (String.length s) in change (String.length s) with n end.
  lia.
Qed.

(** A report that fits: an INT, text without a zero byte, and at most 64 KiB. *)
Record reportable (status : JobStatus) (code : Z) (msg : string) : Prop := {
  rp_code : int4_ok code = true;
  rp_text : text_ok (sanitize msg) = true;
  rp_size : (Z.of_nat (String.length (result_body status code msg)) ≤ 65536)%Z
}.

Lemma report_stored jobID row rrow status code msg m :
  calm (m_world m) → good (w_db (m_world m)) → plain jobID →
  assigned_to id token jobID row rrow (m_world m) → status = JobSuccess ∨ status = JobFailed →
  reportable status code msg →
  ∃ w', go (reportResult acfg id token jobID status code msg) m =
      (tt, mkMachine w' (m_book m) (m_runs m) (m_hosted m)) ∧
    ∃ resp, result_handled jobID id row rrow status code (sanitize msg) (numbered (m_world m)) (resp, w').
Proof.
  intros Hc Hg Hp Ha Hst [Hcode Htext Hsize]. destruct m as [w b rs hs]. simpl in *.
  pose proof (result_delivered acfg cfg id token jobID row rrow status code msg (numbered w) Hc Hg Hp Ha Hst Hcode
    Htext Hsize) as Hr. unfold result_message in Hr.
  destruct (exec (Routes cfg _) (numbered w)) as [resp w'] eqn:E. exists w'. split; [|by exists resp].
  unfold reportResult, do. by rewrite (round_trip_served _ w w' resp (eq_refl : rq_Header (result_message acfg id token jobID status code msg) "X-Request-ID" = "") E).
Qed.

Lemma fail_stored jobID row rrow reason err m :
  calm (m_world m) → good (w_db (m_world m)) → plain jobID →
  assigned_to id token jobID row rrow (m_world m) → reportable JobFailed (-1) (reason +:+ ": " +:+ err) →
  ∃ w', go (fail acfg id token jobID reason err) m = (tt, mkMachine w' (m_book m) (m_runs m) (m_hosted m)) ∧
    ∃ resp, result_handled jobID id row rrow JobFailed (-1) (sanitize (reason +:+ ": " +:+ err))
      (numbered (m_world m)) (resp, w').
Proof.
  intros Hc Hg Hp Ha Hrep. unfold fail. rewrite run_bind, run_call. cbn [machine_handle].
  rewrite run_bind, run_call. cbn [machine_handle]. apply report_stored; auto.
Qed.

Section build.
Context (yaml_Unmarshal : string → result string Spec) (jobID : string) (row : JobRow).

(** What the checkout is asked for, with whatever clone token there is. *)
Definition checkout_of (t : string) : checkout :=
  mkCheckout (cfg_WorkspaceRoot acfg) (j_ID (jr_job row)) (j_CloneURL (jr_job row)) (j_CommitSHA (jr_job row))
    (j_Branch (jr_job row)) t.

(** The build definition in the workspace, or why there is none. *)
Definition definition_in (dir : string) : result string Spec :=
  match host _ (ReadFile (PathJoin [dir; j_ConfigRef (jr_job row)])) with
  | Err e => Err e
  | Ok data => match Parse yaml_Unmarshal data with Ok spec => Ok spec | Err e => Err (spec_error_string Quote e) end
  end.

(** What is asked of Docker for a step of the build. *)
Definition asked (dir : string) (step : SpecJob) : ExecRequest :=
  mkExecRequest (j_ID (jr_job row)) (j_CommitSHA (jr_job row)) (j_Branch (jr_job row))
    (mkSpecJob (sj_Name step) (if decide (sj_Image step = "") then cfg_DefaultImage acfg else sj_Image step)
       (sj_Commands step) (sj_Env step) (sj_Labels step)) dir
    (cfg_JobTimeout acfg) (cfg_JobNanoCPUs acfg) (cfg_JobMemoryMB acfg) (cfg_DockerNetwork acfg).

(** What a build in [dir] comes to: the containers that run, and the status, exit
    code and message. *)
Inductive build_course (dir : string) : list container_run → JobStatus → Z → string → Prop :=
| course_unreadable e :
    definition_in dir = Err e →
    build_course dir [] JobFailed (-1) ("cannot read " +:+ j_ConfigRef (jr_job row) +:+ ": " +:+ e)
| course_executor spec step e :
    definition_in dir = Ok spec → Primary spec = Some step → container (asked dir step) = Err e →
    build_course dir [(asked dir step, Err e)] JobFailed (-1) e
| course_ran spec step res :
    definition_in dir = Ok spec → Primary spec = Some step → container (asked dir step) = Ok res →
    build_course dir [(asked dir step, Ok res)]
      (if decide (ExitCode res = 0%Z ∧ TimedOut res = false) then JobSuccess else JobFailed)
      (ExitCode res) (if TimedOut res then "job exceeded timeout" else "").

(** What a run comes to. *)
Inductive course : list container_run → JobStatus → Z → string → Prop :=
| course_checkout e :
    (∀ t, on_host (prepareWorkspace (checkout_of t)) = Err e) →
    course [] JobFailed (-1) ("checkout failed: " +:+ e)
| course_build dir runs status code msg :
    (∀ t, on_host (prepareWorkspace (checkout_of t)) = Ok dir) →
    build_course dir runs status code msg → course runs status code msg.

(** Every run comes to something, as long as what git says does not depend on
    the token. *)
Lemma course_total :
  (∀ t t', on_host (prepareWorkspace (checkout_of t)) = on_host (prepareWorkspace (checkout_of t'))) →
  ∃ runs status code msg, course runs status code msg.
Proof.
  intros Ht. destruct (on_host (prepareWorkspace (checkout_of ""))) as [dir|e] eqn:E.
  2: { eexists _, _, _, _. apply course_checkout. intros t. by rewrite (Ht t ""). }
  assert (∃ runs status code msg, build_course dir runs status code msg) as (runs & st & code & msg & Hb).
  { destruct (definition_in dir) as [spec|e] eqn:Ed; [|by eexists _, _, _, _; apply course_unreadable].
    assert (∃ step, Primary spec = Some step) as [step Hs].
    { unfold definition_in in Ed. destruct (host _ _) as [data|]; [|done].
      destruct (Parse yaml_Unmarshal data) as [spec'|] eqn:Hp; [|done]. injection Ed as ->.
      destruct (Primary_correct _ _ _ Hp) as (step & -> & _). by exists step. }
    destruct (container (asked dir step)) as [res|e] eqn:Ec; eexists _, _, _, _;
      [by eapply course_ran|by eapply course_executor]. }
  eexists _, _, _, _. eapply course_build; [|exact Hb]. intros t. by rewrite (Ht t "").
Qed.

Lemma build_course_status dir runs status code msg :
  build_course dir runs status code msg → status = JobSuccess ∨ status = JobFailed.
Proof. intros []; [by right..|]. case_decide; [by left|by right]. Qed.

Lemma course_status runs status code msg : course runs status code msg → status = JobSuccess ∨ status = JobFailed.
Proof. intros []; [by right|by eapply build_course_status]. Qed.

Lemma verdict_course res :
  verdict res = (if decide (ExitCode res = 0%Z ∧ TimedOut res = false) then JobSuccess else JobFailed,
    ExitCode res, if TimedOut res then "job exceeded timeout" else "").
Proof.
  unfold verdict. destruct res as [c []]; cbn; [by rewrite decide_False by naive_solver|].
  destruct (Z.eqb_spec c 0); cbn; [by rewrite decide_True by done|by rewrite decide_False by naive_solver].
Qed.

Context (Hp : plain jobID) (Hid : j_ID (jr_job row) = jobID).
Context (Hcommit : 8 ≤ String.length (j_CommitSHA (jr_job row))).
(** After the container. *)
Lemma conclude_reports status code msg p t res rrow row' m :
  reportable status code msg →
  (status, code, msg) = match res with Ok res => verdict res | Err e => (JobFailed, (-1)%Z, e) end →
  status = JobSuccess ∨ status = JobFailed →
  calm (m_world m) → good (w_db (m_world m)) → assigned_to id token jobID row' rrow (m_world m) →
  bk_active (m_book m) = Some p → abandoned_Load p (m_book m) = false →
  ∃ w', go (conclude acfg id token p (as_stored (jr_job row) t) res) m =
      (Returned, mkMachine w' (mkBook (bk_jobs (m_book m)) None) (m_runs m) (m_hosted m)) ∧
    ∃ resp, result_handled jobID id row' rrow status code (sanitize msg) (numbered (m_world m)) (resp, w').
Proof.
  intros Hrep Hv Hst Hc Hg Ha Hact Hab. destruct m as [w b rs hs]. cbn [m_world m_book m_runs m_hosted] in *.
  set (b' := mkBook (bk_jobs b) None).
  destruct (report_stored jobID row' rrow status code msg (mkMachine w b' rs hs)) as (w' & Hr & Hh); [done..|].
  exists w'. split; [|exact Hh]. unfold conclude. rewrite run_bind, run_call.
  cbn [machine_handle on_book m_book m_world m_runs m_hosted].
  assert (clearActive p b = b') as -> by (unfold clearActive; by rewrite Hact, decide_True).
  rewrite run_bind, run_call. cbn [machine_handle on_book m_book m_world m_runs m_hosted].
  change (abandoned_Load p b') with (abandoned_Load p b). rewrite Hab. rewrite run_bind, run_call.
  cbn [machine_handle]. change (jd_ID (as_stored (jr_job row) t)) with (j_ID (jr_job row)). rewrite Hid.
  destruct res as [res|e]; [rewrite <-Hv|injection Hv as -> -> ->]; cbv beta iota zeta;
    rewrite run_bind; change (on_book b' _) with (mkMachine w b' rs hs); by rewrite Hr.
Qed.

(** From the workspace to the report. *)
Lemma build_reports runs status code msg p t dir rrow row' m :
  build_course dir runs status code msg → reportable status code msg →
  calm (m_world m) → good (w_db (m_world m)) → assigned_to id token jobID row' rrow (m_world m) →
  bk_active (m_book m) = Some p → abandoned_Load p (m_book m) = false →
  ∃ w' act h, go (build acfg yaml_Unmarshal Quote id token p (as_stored (jr_job row) t) dir) m =
      (Returned, mkMachine w' (mkBook (bk_jobs (m_book m)) act) (m_runs m ++ runs) (m_hosted m ++ h)) ∧
    (act = None ∨ act = Some p) ∧
    ∃ resp, result_handled jobID id row' rrow status code (sanitize msg) (numbered (m_world m)) (resp, w').
Proof.
  intros Hcourse Hrep Hc Hg Ha Hact Hab. destruct m as [w b rs hs]. cbn [m_world m_book m_runs m_hosted] in *.
  set (d := as_stored (jr_job row) t). set (path := PathJoin [dir; j_ConfigRef (jr_job row)]).
  set (h := [ev (ReadFile path) (host _ (ReadFile path))]).
  assert (go (build acfg yaml_Unmarshal Quote id token p d dir) (mkMachine w b rs hs) =
    match definition_in dir with
    | Err e => go (_ ← fail acfg id token jobID ("cannot read " +:+ j_ConfigRef (jr_job row)) e; mret Returned)
                 (mkMachine w b rs (hs ++ h))
    | Ok spec =>
        match Primary spec with
        | None => (Panicked, mkMachine w b rs (hs ++ h))
        | Some step => go (conclude acfg id token p d (container (asked dir step)))
            (mkMachine w b (rs ++ [(asked dir step, container (asked dir step))]) (hs ++ h))
        end
    end) as ->.
  { unfold build. change (jd_CommitSHA d) with (j_CommitSHA (jr_job row)). rewrite (proj2 (Nat.ltb_ge _ _)) by done.
    rewrite run_bind, run_call. cbn [machine_handle]. rewrite run_bind. unfold ParseFile.
    rewrite run_bind, run_call. cbn [machine_handle m_world m_book m_runs m_hosted].
    change (jd_ConfigRef d) with (j_ConfigRef (jr_job row)). fold path. rewrite run_ret.
    unfold definition_in. fold path. fold h. change (jd_ID d) with (j_ID (jr_job row)). rewrite Hid.
    destruct (host _ (ReadFile path)) as [data|e] eqn:Ef; [|done].
    destruct (Parse yaml_Unmarshal data) as [spec|e]; [|done]. destruct (Primary spec) as [step|]; [|done].
    cbv zeta. rewrite run_bind, run_call. cbn [machine_handle]. rewrite run_bind, run_call.
    cbn [machine_handle m_world m_book m_runs m_hosted]. unfold asked. rewrite Hid.
    by case_bool_decide; [rewrite decide_True|rewrite decide_False]. }
  destruct Hcourse as [e Hd|spec step e Hd Hs Hx|spec step res Hd Hs Hx]; rewrite Hd; try rewrite Hs, Hx.
  - destruct (fail_stored jobID row' rrow ("cannot read " +:+ j_ConfigRef (jr_job row)) e
      (mkMachine w b rs (hs ++ h))) as (w' & E & Hh); [done..| |].
    { by rewrite string_app_assoc. }
    exists w', (Some p), h. split; [|split; [by right|]].
    + rewrite run_bind, E, run_ret, app_nil_r. cbn [m_book m_runs m_hosted]. by destruct b; simpl in *; subst.
    + rewrite string_app_assoc in Hh. exact Hh.
  - destruct (conclude_reports JobFailed (-1) e p t (Err e) rrow row' (mkMachine w b (rs ++ [(asked dir step, Err e)]) (hs ++ h)))
      as (w' & E & Hh); [done|done|by right|done..|].
    exists w', None, h. split; [exact E|]. split; [by left|exact Hh].
  - destruct (conclude_reports (if decide (ExitCode res = 0%Z ∧ TimedOut res = false) then JobSuccess else JobFailed)
      (ExitCode res) (if TimedOut res then "job exceeded timeout" else "") p t (Ok res) rrow row'
      (mkMachine w b (rs ++ [(asked dir step, Ok res)]) (hs ++ h)))
      as (w' & E & Hh); [exact Hrep|by rewrite verdict_course|by case_decide; [left|right]|done..|].
    exists w', None, h. split; [exact E|]. split; [by left|exact Hh].
Qed.

(** The whole of a job: started, checked out, built, reported, cleaned up. *)
Lemma execute_follows runs status code msg t rrow m :
  course runs status code msg → reportable status code msg →
  calm (m_world m) → good (w_db (m_world m)) → enrolled id token (w_db (m_world m)) →
  db_jobs (w_db (m_world m)) !! jobID = Some row → job_status row = JobAssigned → j_RunnerID (jr_job row) = Some id →
  db_runners (w_db (m_world m)) !! id = Some rrow →
  ∃ w1 w' bs h resp,
    go (execute acfg yaml_Unmarshal Quote id token (as_stored (jr_job row) t)) m =
      (Returned, mkMachine w' (mkBook bs None) (m_runs m ++ runs) (m_hosted m ++ h)) ∧
    cleaned (PathJoin [cfg_WorkspaceRoot acfg; "forgerun-" +:+ jobID]) h ∧
    result_handled jobID id (running (w_db (m_world m)) row) rrow status code (sanitize msg) w1 (resp, w').
Proof.
  intros Hcourse Hrep Hc Hg Hreg Hrow Hst Hown Hrr. destruct m as [w b rs hs]. cbn [m_world m_book m_runs m_hosted] in *.
  set (d := as_stored (jr_job row) t). set (p := length (bk_jobs b)).
  set (b1 := mkBook (bk_jobs b ++ [mkActive jobID false false]) (Some p)).
  destruct (start_accepted jobID row (mkMachine w b1 rs hs)) as (body & w1 & Estart & Hc1 & Hg1 & Hd1); [done..|].
  set (row1 := running (w_db w) row). simpl in Hd1. fold row1 in Hd1.
  assert (db_jobs (w_db w1) !! jobID = Some row1 ∧ db_runners (w_db w1) = db_runners (w_db w)) as [Hrow1 Hrun1].
  { rewrite Hd1. simpl. by rewrite lookup_insert_eq. }
  assert (assigned_to id token jobID row1 rrow w1) as Ha.
  { destruct Hreg as (? & ? & rrow' & Hr & ?). split_and!; try done; [by rewrite Hrun1|congruence]. }
  assert (abandoned_Load p b1 = false) as Hab.
  { unfold abandoned_Load, b1, p. cbn [bk_jobs]. by rewrite lookup_app_r, Nat.sub_diag by done. }
  pose proof (post_run (λ X c (_ : unit), (host X c, tt)) (prepareWorkspace (checkout_of (sanitize t))) [] _ tt
    (prepareWorkspace_prepared (checkout_of (sanitize t)))) as Hprep.
  set (h1 := (host_alone (prepareWorkspace (checkout_of (sanitize t)))).2).
  assert (prepared (checkout_of (sanitize t)) (on_host (prepareWorkspace (checkout_of (sanitize t)))) h1) as [_ Hp1].
  { unfold on_host, h1, host_alone. by destruct (run_trace _ _ tt) as [[a tr] []]. }
  assert (go (execute acfg yaml_Unmarshal Quote id token d) (mkMachine w b rs hs) =
    match on_host (prepareWorkspace (checkout_of (sanitize t))) with
    | Err e => go (_ ← fail acfg id token jobID "checkout failed" e; _ ← unwind p None; mret Returned)
                 (mkMachine w1 b1 rs (hs ++ h1))
    | Ok dir => go (how ← build acfg yaml_Unmarshal Quote id token p d dir; _ ← unwind p (Some dir); mret how)
                  (mkMachine w1 b1 rs (hs ++ h1))
    end) as ->.
  { unfold execute. rewrite run_bind, run_call. cbn [machine_handle m_book newActive].
    change (jd_ID d) with (j_ID (jr_job row)). rewrite Hid. rewrite run_bind, run_call. cbn [machine_handle].
    change (on_book _ _) with (mkMachine w b1 rs hs). rewrite run_bind, Estart. cbv beta iota zeta.
    rewrite run_bind, run_call. cbn [machine_handle m_book m_runs m_hosted]. rewrite run_bind, go_lift.
    change (jd_CloneURL d) with (j_CloneURL (jr_job row)). change (jd_CommitSHA d) with (j_CommitSHA (jr_job row)).
    change (jd_Branch d) with (j_Branch (jr_job row)). change (jd_CloneToken d) with (sanitize t).
    rewrite <-Hid. fold (checkout_of (sanitize t)). rewrite Hid. fold p h1.
    destruct (on_host _) as [dir|e]; [done|]. rewrite run_bind, run_call.
    cbn [machine_handle m_book]. by rewrite Hab. }
  destruct Hcourse as [e He|dir runs status code msg He Hb]; rewrite He in *.
  - destruct (fail_stored jobID row1 rrow "checkout failed" e (mkMachine w1 b1 rs (hs ++ h1)))
      as (w' & E & resp & Hh); [done..|].
    rewrite run_bind, E, run_bind. cbn [m_book m_runs m_hosted]. unfold b1. rewrite unwound by by right.
    rewrite !app_nil_r. exists (numbered w1). eexists w', _, h1, resp. split; [done|]. split; [|exact Hh].
    unfold workspace_dir in Hp1. simpl in Hp1. by rewrite Hid in Hp1.
  - destruct (build_reports runs status code msg p t dir rrow row1 (mkMachine w1 b1 rs (hs ++ h1)))
      as (w' & act & h2 & E & Hact & resp & Hh); [done..|].
    fold d in E. rewrite run_bind, E, run_bind. cbn [m_book m_runs m_hosted]. rewrite unwound by done.
    rewrite <-!app_assoc. exists (numbered w1). eexists w', _, _, resp. split; [done|]. split; [|exact Hh].
    right. destruct Hp1 as (-> & _). unfold workspace_dir. simpl. rewrite Hid. eexists.
    rewrite !last_app. reflexivity.
Qed.
End build.
End machine.

Section theorems.
Context `{RangeOrder} {R : Type} `{Redis R}.
Context (Q : Queue) (view : World R → qstate) (cfg : Config) (acfg : Settings) (id token : string).
Context (offset : Z → Z) (Quote : string → string) (json_error : string).
Context (host : ∀ X, HostCall X → X) (container : ExecRequest → result string ExecResult).

Abbreviation go p m := (run (machine_handle cfg acfg offset Quote json_error host container) p m).

(** C12. A job that is handed out arrives as it is stored.  When a registered
    runner polls and its mailbox holds a job, then what the agent decodes from
    the bytes of the reply is the row of that job, field by field - text, labels,
    runner, attempts, exit code, instants - with the clone token that was minted
    for it, and the job is gone from the mailbox. *)
Theorem polled_job_is_the_stored_job (jobID : string) (box : list string) (row : JobRow) (m : Machine (R := R))
    (HQ : QueueOk Q view) (Hzone : ∀ t, (60 | offset t)%Z)
    (Hc : calm (m_world m)) (Hty : db_typed (w_db (m_world m))) (Hp : plain id)
    (Hreg : enrolled id token (w_db (m_world m))) (Hbox : mailbox (view (m_world m)) id = box ++ [jobID])
    (Hrow : db_jobs (w_db (m_world m)) !! jobID = Some row) (Htimes : job_members offset (jr_job row) ≠ None) :
  ∃ t, let '(r, m') := go (poll acfg id token) m in
    r = Ok (Some (as_stored (jr_job row) t)) ∧ mailbox (view (m_world m')) id = box ∧
    w_db (m_world m') = w_db (m_world m).
Proof.
  destruct (poll_delivers view cfg acfg id token offset Quote json_error host container jobID box row m)
    as (t & w' & E & _ & Hd & Hb); [done..|]. exists t. by rewrite E.
Qed.

(** C5. Cancelling a build stops it.  Once a job is finished - cancelled, or taken
    from its runner and finished elsewhere - then whatever happens in the whole
    system from then on, the first heartbeat of a runner that is still executing
    it marks the job abandoned and cancels its context, which stops the
    container; and whatever the container then comes to, nothing is reported, the
    workspace is removed and the runner is free for the next job. *)
Theorem finished_job_stops_its_build (Sch : Scheduler) (hb : Z) (s0 s1 s2 : Sys (R := R)) (jobID : string) (p : nat)
    (row : JobRow) (b : Book) (rs : list container_run) (hs : list (Traces.event HostCall))
    (d : jobDelivery) (dir : string) (res : result string ExecResult)
    (HQ : QueueOk Q view) (Hi : initial s0)
    (Hr : reachable Q Sch cfg hb s0 s1) (Hr' : reachable Q Sch cfg hb s1 s2)
    (Hrow : db_jobs (w_db (world s1)) !! jobID = Some row) (Hfin : Terminal (job_status row) = true)
    (Hc : calm (world s2)) (Hp : plain id) (Hpj : plain jobID) (Hreg : enrolled id token (w_db (world s2)))
    (Hlen : (Z.of_nat (String.length (heartbeat_body jobID)) ≤ 4096)%Z) (Hex : executing b p jobID) :
  let '(_, m1) := go (beat_once acfg id token) (mkMachine (world s2) b rs hs) in
  bk_jobs (m_book m1) !! p = Some (mkActive jobID true true) ∧
  let '(how, m2) := go (how ← conclude acfg id token p d res; _ ← unwind p (Some dir); mret how) m1 in
  how = Returned ∧ m_world m2 = m_world m1 ∧ m_runs m2 = m_runs m1 ∧ bk_active (m_book m2) = None ∧
  ∃ err, m_hosted m2 = m_hosted m1 ++ [ev (RemoveAll dir) err].
Proof.
  destruct (reachable_from_initial Q Sch cfg hb view s0 s1 s2 Hi Hr Hr') as [_ Hev].
  destruct (reachable_from_initial Q Sch cfg hb view s0 s2 s2 Hi) as [Hwf _];
    [by unfold reachable in *; etrans|apply rtc_refl|].
  destruct (evolves_jobs _ _ Hev _ _ Hrow) as (row' & Hrow' & [_ Ht _ _ _ _]).
  destruct (beat_stops cfg acfg id token offset Quote json_error host container p jobID row'
    (mkMachine (world s2) b rs hs)) as (w' & E); [done..|by rewrite Ht|]. rewrite E.
  destruct (stopped_job b p jobID Hex) as [Hjob Hact]. split; [done|].
  destruct (ending_abandoned cfg acfg id token offset Quote json_error host container p d dir res
    (mkMachine w' (stopped p b) rs hs) jobID true) as [bs E2]; [done..|].
  unfold ending_of in E2. cbn [m_world m_book m_runs m_hosted]. rewrite E2. split_and!; try done. by eexists.
Qed.

Lemma turn_builds (yaml_Unmarshal : string → result string Spec) (jobID : string) (box : list string)
    (row : JobRow) (m : Machine (R := R)) (runs : list container_run) (status : JobStatus) (code : Z) (msg : string)
    (HQ : QueueOk Q view) (Hzone : ∀ t, (60 | offset t)%Z)
    (Hc : calm (m_world m)) (Hg : good (w_db (m_world m))) (Hty : db_typed (w_db (m_world m)))
    (Hp : plain id) (Hpj : plain jobID) (Hreg : enrolled id token (w_db (m_world m)))
    (Hbox : mailbox (view (m_world m)) id = box ++ [jobID])
    (Hrow : db_jobs (w_db (m_world m)) !! jobID = Some row) (Hst : job_status row = JobAssigned)
    (Hown : j_RunnerID (jr_job row) = Some id) (Htimes : job_members offset (jr_job row) ≠ None)
    (Hcommit : 8 ≤ String.length (j_CommitSHA (jr_job row)))
    (Hcourse : course acfg Quote host container yaml_Unmarshal row runs status code msg)
    (Hrep : reportable status code msg) :
  let '(how, m') := go (run_loop acfg yaml_Unmarshal Quote id token 1) m in
  how = Returned ∧ bk_active (m_book m') = None ∧ m_runs m' = m_runs m ++ runs ∧
  (∃ h, m_hosted m' = m_hosted m ++ h ∧ cleaned (PathJoin [cfg_WorkspaceRoot acfg; "forgerun-" +:+ jobID]) h) ∧
  (∃ row', db_jobs (w_db (m_world m')) !! jobID = Some row' ∧ job_status row' = status ∧
     j_ExitCode (jr_job row') = Some code ∧ j_Error (jr_job row') = sanitize msg) ∧
  (∃ rrow', db_runners (w_db (m_world m')) !! id = Some rrow' ∧ r_Status (rr_runner rrow') = RunnerIdle ∧
     r_CurrentJobID (rr_runner rrow') = None).
Proof.
  destruct (poll_delivers view cfg acfg id token offset Quote json_error host container jobID box row m)
    as (t & w1 & Epoll & Hc1 & Hd1 & _); [done..|].
  pose proof Hreg as (_ & _ & rrow & Hrr & _). pose proof (wf_job_id _ (proj1 Hg) _ _ Hrow) as Hid.
  destruct (execute_follows cfg acfg id token offset Quote json_error host container yaml_Unmarshal jobID row
    Hpj Hid Hcommit runs status code msg t rrow (mkMachine w1 (m_book m) (m_runs m) (m_hosted m)))
    as (w2 & w' & bs & h & resp & Eexec & Hclean & Hh); cbn [m_world] in *; rewrite ?Hd1 in *; [done..|].
  cbn [run_loop]. rewrite run_bind, run_call. cbn [machine_handle]. rewrite run_bind, Epoll. cbv beta iota zeta.
  rewrite run_bind, Eexec. cbv beta iota zeta. rewrite run_ret. cbn [m_book m_runs m_hosted m_world].
  split; [done|]. split; [done|]. split; [done|]. split; [by exists h|]. unfold result_handled in Hh.
  assert (CanTransitionTo (job_status (running (w_db (m_world m)) row)) status = true) as Hcan
    by by apply course_status in Hcourse as [-> | ->].
  rewrite Hcan in Hh. destruct Hh as (_ & _ & Hjobs & Hrun & _). split.
  - eexists. by rewrite Hjobs, lookup_insert_eq.
  - eexists. by split; [exact Hrun|].
Qed.

(** C7. A job that is assigned is built and its outcome is stored, whatever the
    host, the build definition and the container do.  When a runner polls for
    the job it was assigned, one turn of its loop takes the job from ASSIGNED to
    the end ([course]): a checkout that fails, a build definition that cannot be
    read or parsed, and a container that cannot be run make it FAILED with -1
    and the reason; otherwise one container runs, on the job's commit, with the
    commands of the step that forgerun.yml names and the image, limits and
    timeout of the settings, and the job is SUCCESS exactly if it exited with 0
    in time and FAILED otherwise, with its exit code.  The row says so, the
    workspace is gone, and the runner is IDLE again and executes nothing.  The
    one condition is that the report fits into what the server reads and the
    table holds. *)
Theorem assigned_job_is_built (yaml_Unmarshal : string → result string Spec) (jobID : string) (box : list string)
    (row : JobRow) (m : Machine (R := R)) (runs : list container_run) (status : JobStatus) (code : Z) (msg : string)
    (HQ : QueueOk Q view) (Hzone : ∀ t, (60 | offset t)%Z)
    (Hc : calm (m_world m)) (Hg : good (w_db (m_world m))) (Hty : db_typed (w_db (m_world m)))
    (Hp : plain id) (Hpj : plain jobID) (Hreg : enrolled id token (w_db (m_world m)))
    (Hbox : mailbox (view (m_world m)) id = box ++ [jobID])
    (Hrow : db_jobs (w_db (m_world m)) !! jobID = Some row) (Hst : job_status row = JobAssigned)
    (Hown : j_RunnerID (jr_job row) = Some id) (Htimes : job_members offset (jr_job row) ≠ None)
    (Hcommit : 8 ≤ String.length (j_CommitSHA (jr_job row)))
    (Hcourse : course acfg Quote host container yaml_Unmarshal row runs status code msg)
    (Hrep : reportable status code msg) :
  let '(how, m') := go (run_loop acfg yaml_Unmarshal Quote id token 1) m in
  how = Returned ∧ bk_active (m_book m') = None ∧ m_runs m' = m_runs m ++ runs ∧
  (∃ h, m_hosted m' = m_hosted m ++ h ∧ cleaned (PathJoin [cfg_WorkspaceRoot acfg; "forgerun-" +:+ jobID]) h) ∧
  (∃ row', db_jobs (w_db (m_world m')) !! jobID = Some row' ∧ job_status row' = status ∧
     j_ExitCode (jr_job row') = Some code ∧ j_Error (jr_job row') = sanitize msg) ∧
  (∃ rrow', db_runners (w_db (m_world m')) !! id = Some rrow' ∧ r_Status (rr_runner rrow') = RunnerIdle ∧
     r_CurrentJobID (rr_runner rrow') = None).
Proof. by apply (turn_builds yaml_Unmarshal jobID box row). Qed.
End theorems.
