(* ===== verification/EndToEnd.v ===== *)
(** * From a push to its verdict

    Everything together, on a quiet system: GitHub delivers a push, the API
    stores and queues a job, the scheduler gives it to the runner, the runner
    fetches it, builds it in a container and reports, and the API stores the
    outcome.  The theorem is the composition of the components' own lemmas. *)
From S2P Require Import Prelude GoLib GoText Sha256 Json JsonOut Http Config Prog Models Sql Redis World Tables Typed Store.
From S2P Require Import Lifecycle Queue Outcome Scheduler Service Webhook Api Auth Deliveries System JobApi Workspace Jobspec.
From S2P Require Import Executor Agent Encode Wire Cluster Machine MachineSpec.

#[local] Arguments mbind : simpl never.

Section endtoend.
Context `{RangeOrder} {R : Type} `{Redis R}.
Context (Q : Queue) (view : World R → qstate) `{!QueueOk Q view} (Sch : Scheduler) `{!SchedulerOk Sch}.
Context (cfg : Config) (heartbeat : Z).

(** *** The delivery *)

(** GitHub's request is for the webhook, and carries no request id. *)
Record to_webhook (r : Request) : Prop := {
  tw_path : rq_Path r = ["webhooks"; "github"];
  tw_method : rq_Method r = "POST";
  tw_id : rq_Header r "X-Request-ID" = ""
}.

(** The id the job will have: the second that is drawn. *)
Definition job_id (w : World R) : string := next_uuid (numbered w).

(** A push for which nothing is being built yet. *)
Record new_push (r : Request) (e : Event) (w : World R) : Prop := {
  np_delivers : delivers cfg r e;
  np_none id row : ¬ unfinished (w_db w) e id row;
  np_fresh : db_jobs (w_db w) !! job_id w = None;
  np_text : job_text_ok (job_of_event (job_id w) e) = true
}.

Lemma delivered_world r e w :
  calm w → good (w_db w) → to_webhook r → new_push r e w →
  let w1 := (exec (serve_http cfg r) w).2 in
  calm w1 ∧ good (w_db w1) ∧ w_db w1 = Spec.put_job (job_id w) (created (db_now (w_db w)) (job_id w) e) (w_db w) ∧
  view w1 ≡ Fifo.enqueue (job_id w) (view w).
Proof.
  intros Hc Hg [Hp Hm Hh] [Hd Hn Hf Ht]. cbv zeta. rewrite served_numbered by done. cbn [snd].
  assert (Routes cfg r = handleWebhook cfg r) as -> by (unfold Routes; by rewrite Hp, Hm).
  destruct (delivery_queued Q cfg view r e (numbered w) Hc Hd Hn Hf Ht) as (Hq & Hc1 & Hnow).
  destruct (safe_step (handleWebhook cfg r) (numbered w)) as [Hwf1 _]; [by eapply safe_handleWebhook|apply Hg|].
  destruct (exec (handleWebhook cfg r) (numbered w)) as [resp w1]. destruct Hq as (_ & Hj & Hr & Hv & _). simpl in *.
  assert (w_db w1 = Spec.put_job (job_id w) (created (db_now (w_db w)) (job_id w) e) (w_db w)) as Hdb.
  { destruct (w_db w1) as [jobs runners now]. simpl in *. by subst. }
  split_and!; [done| |done|].
  - split; [done|]. rewrite Hdb. apply agree_put_free_job; [apply Hg|done|]. intros row Hrow. unfold job_id in *.
    by rewrite Hf in Hrow.
  - rewrite Hv. by assert (view (numbered w) ≡ view w) as -> by (by apply view_redis).
Qed.

(** *** The scheduler *)

(** Nothing else is waiting. *)
Record quiet (w : World R) (id : string) : Prop := {
  qt_pending : pending (view w) = [];
  qt_inflight : inflight (view w) = [];
  qt_mailbox : mailbox (view w) id = []
}.

(** The runner can take the job, and no other runner is free. *)
Record the_runner (w : World R) (job : Job) (id : string) (rrow : RunnerRow) : Prop := {
  tr_usable : usable heartbeat (w_db w) id rrow;
  tr_takes : can_take job (rr_runner rrow);
  tr_only r' rrow' : usable heartbeat (w_db w) r' rrow' → r' = id
}.

Lemma placed_world r e w id rrow :
  calm w → w_ctx w = [] → good (w_db w) → to_webhook r → new_push r e w → quiet w id →
  the_runner w (job_of_event (job_id w) e) id rrow →
  let w2 := (exec (serve heartbeat 1) (exec (serve_http cfg r) w).2).2 in
  let row := created (db_now (w_db w)) (job_id w) e in
  calm w2 ∧ good (w_db w2) ∧ db_jobs (w_db w2) !! job_id w = Some (Spec.assigned id row) ∧
  db_runners (w_db w2) !! id = Some (Spec.busied (db_now (w_db w)) (job_id w) rrow) ∧
  mailbox (view w2) id = [job_id w].
Proof.
  intros Hc Hctx Hg Hr Hp [Hpend Hinf Hbox] [Huse Htake Honly]. cbv zeta.
  destruct (delivered_world r e w Hc Hg Hr Hp) as (Hc1 & Hg1 & Hd1 & Hv1).
  pose proof (exec_ctx (serve_http cfg r) w Hctx) as Hctx1.
  set (w1 := (exec (serve_http cfg r) w).2) in *. set (row := created (db_now (w_db w)) (job_id w) e) in *.
  assert (∀ r' rr', usable heartbeat (w_db w1) r' rr' ↔ usable heartbeat (w_db w) r' rr') as Hus
    by (intros r' rr'; unfold usable; by rewrite Hd1).
  assert (db_jobs (w_db w1) !! job_id w = Some row) as Hrow by (rewrite Hd1; simpl; by rewrite lookup_insert_eq).
  destruct (serve_brings Q view heartbeat w1 (job_id w) id row rrow) as (Hc2 & Hd2 & Hm2); try done.
  - apply Hg1.
  - rewrite Hv1. simpl. by rewrite Hpend.
  - rewrite Hv1. simpl. by rewrite Hinf.
  - by apply Hus.
  - intros r' rr' Hu%Hus. by eapply Honly.
  - assert (mailbox (view w1) id = []) as Hbox1 by by rewrite Hv1.
    destruct (safe_step (serve heartbeat 1) w1) as [Hwf2 _]; [by eapply safe_serve|apply Hg1|].
    assert (db_runners (w_db w1) !! id = Some rrow ∧ r_Status (rr_runner rrow) = RunnerIdle) as [Hrr Hidle].
    { destruct (proj2 (Hus id rrow) Huse) as [? [? _]]. done. }
    pose proof (good_assign (job_id w) id (w_db w1) Hg1) as Hag.
    rewrite (spec_assign_ok _ _ _ row rrow) in Hag by done. cbn [snd] in Hag.
    rewrite Hbox1 in Hm2. split_and!; [done| | | |done].
    + split; [done|]. by rewrite Hd2.
    + rewrite Hd2. simpl. by rewrite lookup_insert_eq.
    + rewrite Hd2. simpl. rewrite lookup_insert_eq. by rewrite Hd1.
Qed.
End endtoend.

(** ** The whole way *)

Section theorems.
Context `{RangeOrder} {R : Type} `{Redis R}.
Context (Q : Queue) (view : World R → qstate) (Sch : Scheduler) (cfg : Config) (heartbeat : Z).
Context (acfg : Settings) (id token : string).
Context (offset : Z → Z) (Quote : string → string) (json_error : string).
Context (host : ∀ X, HostCall X → X) (container : ExecRequest → result string ExecResult).
Context (yaml_Unmarshal : string → result string Spec).

(** The commands on the host succeed, whatever clone token there is, and the build
    definition that was checked out names a step; every container of the job ends
    like this. *)
Record works (jobID : string) (row : JobRow) (dir data : string) (spec : Spec) (step : SpecJob) (res : ExecResult) :
    Prop := {
  works_checkout t : on_host host (prepareWorkspace (checkout_of acfg row t)) = Ok dir;
  works_file : host _ (ReadFile (PathJoin [dir; j_ConfigRef (jr_job row)])) = Ok data;
  works_spec : Parse yaml_Unmarshal data = Ok spec;
  works_step : Primary spec = Some step;
  works_container req : er_JobID req = jobID → container req = Ok res;
  works_exit : int4_ok (ExitCode res) = true
}.

(** The row of a job whose container came to [res]. *)
Definition completed_with (res : ExecResult) (row : JobRow) : Prop :=
  (job_status row = JobSuccess ∨ job_status row = JobFailed) ∧
  (job_status row = JobSuccess ↔ ExitCode res = 0%Z ∧ TimedOut res = false) ∧
  j_ExitCode (jr_job row) = Some (ExitCode res) ∧
  j_Error (jr_job row) = if TimedOut res then "job exceeded timeout" else "".

Lemma works_course jobID row dir data spec step res :
  j_ID (jr_job row) = jobID → works jobID row dir data spec step res →
  course acfg Quote host container yaml_Unmarshal row [(asked acfg row dir step, Ok res)]
    (if decide (ExitCode res = 0%Z ∧ TimedOut res = false) then JobSuccess else JobFailed)
    (ExitCode res) (if TimedOut res then "job exceeded timeout" else "").
Proof.
  intros Hid [Hco Hf Hs Hst Hx _]. eapply course_build; [exact Hco|]. eapply course_ran; [|exact Hst|by apply Hx].
  unfold definition_in. by rewrite Hf, Hs.
Qed.

Lemma works_reportable res :
  int4_ok (ExitCode res) = true →
  reportable (if decide (ExitCode res = 0%Z ∧ TimedOut res = false) then JobSuccess else JobFailed)
    (ExitCode res) (if TimedOut res then "job exceeded timeout" else "").
Proof.
  intros Hx. split; [done|by destruct (TimedOut res); vm_compute|]. apply result_body_short.
  by destruct (TimedOut res); auto.
Qed.

(** A push is valid: its commit has forty characters. *)
Lemma delivered_commit r e : delivers cfg r e → String.length (e_CommitSHA e) = 40.
Proof.
  intros [_ _ He]. by apply ParseEvent_accepts in He as [[_ [Hl _] _ _] _].
Qed.

(** C2. A push is built.  When an authentic push of a commit arrives on a quiet
    system with one free runner that has the labels, then after the delivery,
    one iteration of the scheduler and one turn of the runner - and nothing
    failing on the way - the job of that push is finished: one container has run
    for it, on the commit that was pushed, with the commands of its build
    definition, and the row is SUCCESS or FAILED, SUCCESS exactly if that
    container exited with 0 in time, with its exit code and the message of a
    timeout if there was one; the runner is IDLE again. *)
Theorem push_is_built (r : Request) (e : Event) (w : World R) (rrow : RunnerRow)
    (dir data : string) (spec : Spec) (step : SpecJob) (res : ExecResult)
    (HQ : QueueOk Q view) (HS : SchedulerOk Sch) (Hzone : ∀ t, (60 | offset t)%Z)
    (Hc : calm w) (Hctx : w_ctx w = []) (Hg : good (w_db w)) (Hty : db_typed (w_db w))
    (Hr : to_webhook r) (Hnew : new_push cfg r e w) (Hquiet : quiet view w id)
    (Hrunner : the_runner heartbeat w (job_of_event (job_id w) e) id rrow)
    (Hid : plain id) (Hjob : plain (job_id w)) (Htoken : token ≠ "" ∧ rr_token_hash rrow = hashToken token)
    (Htime : time_json offset (db_now (w_db w)) ≠ None)
    (Hworks : works (job_id w) (created (db_now (w_db w)) (job_id w) e)
      dir data spec step res) :
  let w2 := (exec (serve heartbeat 1) (exec (serve_http cfg r) w).2).2 in
  let '(how, m) := run (machine_handle cfg acfg offset Quote json_error host container)
    (run_loop acfg yaml_Unmarshal Quote id token 1) (mkMachine w2 empty_book [] []) in
  how = Returned ∧
  (∃ req, m_runs m = [(req, Ok res)] ∧ er_JobID req = job_id w ∧ er_CommitSHA req = e_CommitSHA e ∧
     sj_Commands (er_Spec req) = sj_Commands step) ∧
  (∃ row, db_jobs (w_db (m_world m)) !! job_id w = Some row ∧ completed_with res row) ∧
  (∃ rrow', db_runners (w_db (m_world m)) !! id = Some rrow' ∧ r_Status (rr_runner rrow') = RunnerIdle ∧
     r_CurrentJobID (rr_runner rrow') = None).
Proof.
  destruct (placed_world Q view Sch cfg heartbeat r e w id rrow Hc Hctx Hg Hr Hnew Hquiet Hrunner)
    as (Hc2 & Hg2 & Hrow2 & Hrr2 & Hbox2). cbv zeta.
  pose proof (run_typed (serve heartbeat 1) _ (run_typed (serve_http cfg r) w Hty)) as Hty2.
  set (w2 := (exec (serve heartbeat 1) (exec (serve_http cfg r) w).2).2) in *.
  set (row := created (db_now (w_db w)) (job_id w) e) in *.
  pose proof (delivered_commit r e (np_delivers _ _ _ _ Hnew)) as Hcommit.
  assert (works (job_id w) (Spec.assigned id row) dir data spec step res) as Hworks' by (destruct Hworks; by split).
  assert (enrolled id token (w_db w2)) as Hreg.
  { destruct Htoken. split; [apply Hid|]. split; [done|]. by eexists. }
  assert (job_members offset (jr_job (Spec.assigned id row)) ≠ None) as Htimes.
  { unfold job_members. simpl. by destruct (time_json offset (db_now (w_db w))). }
  pose proof (turn_builds Q view cfg acfg id token offset Quote json_error host container yaml_Unmarshal (job_id w) []
    (Spec.assigned id row) (mkMachine w2 empty_book [] []) _ _ _ _ HQ Hzone Hc2 Hg2 Hty2
    Hid Hjob Hreg Hbox2 Hrow2 eq_refl eq_refl Htimes ltac:(simpl; lia)
    (works_course (job_id w) (Spec.assigned id row) dir data spec step res eq_refl Hworks')
    (works_reportable res (works_exit _ _ _ _ _ _ _ Hworks))) as Hturn.
  revert Hturn. destruct (run (machine_handle _ _ _ _ _ _ _) _ _) as [how m].
  intros (Hhow & _ & Hruns & _ & (row' & Hrow' & Hst & Hcode & Hmsg) & Hrrow).
  split_and!; [done| | |done].
  - eexists. split; [exact Hruns|]. done.
  - exists row'. split; [done|]. unfold completed_with. rewrite Hst, Hcode, Hmsg. split_and!; [|split| |].
    + case_decide; auto.
    + by case_decide.
    + intros Hok. by rewrite decide_True.
    + done.
    + by destruct (TimedOut res); vm_compute.
Qed.
End theorems.
