(* ===== verification/Commands.v ===== *)
(** * The scheduler and the runner as processes

    cmd/scheduler/main.go and cmd/runner/main.go from their settings to their
    exit code, the flags of the runner (package flag), and the level of
    internal/logging.  The output of the log is left out.  cmd/api/main.go is in
    Startup. *)
From S2P Require Import Prelude GoLib GoText Prog Traces Config Models Sql Redis World Store Queue Scheduler Service.
From S2P Require Import Workspace Jobspec Executor Agent.
From Stdlib Require Import Ascii.

(** ** internal/logging *)

Inductive level : Type := LevelDebug | LevelInfo | LevelWarn | LevelError.

Definition severity (l : level) : Z :=
  match l with LevelDebug => -4 | LevelInfo => 0 | LevelWarn => 4 | LevelError => 8 end.

(** The level of [logging.New].  Only ASCII letters have one of d, e, b, u, g, w,
    a, r, n, o as their lower case, so [lower] decides the cases as
    [strings.ToLower] does. *)
Definition log_level (name : string) : level :=
  if decide (lower name = "debug") then LevelDebug
  else if decide (lower name = "warn") then LevelWarn
  else if decide (lower name = "error") then LevelError
  else LevelInfo.

(** Whether the handler writes a record. *)
Definition enabled (name : string) (l : level) : bool := (severity (log_level name) <=? severity l)%Z.

(** ** The flags of the runner *)

Inductive flag : Type := FlagServer | FlagName | FlagLabels.

Definition flag_name (f : flag) : string :=
  match f with FlagServer => "server" | FlagName => "name" | FlagLabels => "labels" end.

Definition find_flag (name : string) : option flag :=
  if decide (name = "server") then Some FlagServer
  else if decide (name = "name") then Some FlagName
  else if decide (name = "labels") then Some FlagLabels
  else None.

(** [flag.StringVar(&cfg.ServerURL, ...)] and the others: set the field. *)
Definition set_flag (f : flag) (v : string) (c : Settings) : Settings := {|
  cfg_DatabaseURL := cfg_DatabaseURL c;
  cfg_RedisURL := cfg_RedisURL c;
  cfg_ServerPort := cfg_ServerPort c;
  cfg_ServerURL := match f with FlagServer => v | _ => cfg_ServerURL c end;
  cfg_RunnerName := match f with FlagName => v | _ => cfg_RunnerName c end;
  cfg_RunnerLabels := match f with FlagLabels => v | _ => cfg_RunnerLabels c end;
  cfg_GitHubWebhookSecret := cfg_GitHubWebhookSecret c;
  cfg_GitHubToken := cfg_GitHubToken c;
  cfg_GitHubAppID := cfg_GitHubAppID c;
  cfg_GitHubAppPrivateKey := cfg_GitHubAppPrivateKey c;
  cfg_GitHubAppPrivateKeyPath := cfg_GitHubAppPrivateKeyPath c;
  cfg_RunnerRegistrationToken := cfg_RunnerRegistrationToken c;
  cfg_JobTimeout := cfg_JobTimeout c;
  cfg_HeartbeatTimeout := cfg_HeartbeatTimeout c;
  cfg_DockerNetwork := cfg_DockerNetwork c;
  cfg_DefaultImage := cfg_DefaultImage c;
  cfg_WorkspaceRoot := cfg_WorkspaceRoot c;
  cfg_JobNanoCPUs := cfg_JobNanoCPUs c;
  cfg_JobMemoryMB := cfg_JobMemoryMB c;
  cfg_LogLevel := cfg_LogLevel c
|}.

(** Package flag: what an argument is.  [FName] is what follows the dashes. *)
Inductive argument : Type := FEnd | FName (name : string).

Definition classify (arg : string) : argument :=
  match arg with
  | String.String "-" (String.String "-" EmptyString) => FEnd
  | String.String "-" (String.String "-" name) => FName name
  | String.String "-" (String.String c name) => FName (String.String c name)
  | _ => FEnd
  end.

Definition bad_syntax (name : string) : bool :=
  match name with
  | EmptyString => true
  | String.String c _ => bool_decide (c = "-"%char) || bool_decide (c = "="%char)
  end.

(** [name=value], at the first equals sign *)
Fixpoint cut_equals (s : string) : string * option string :=
  match s with
  | EmptyString => (EmptyString, None)
  | String.String c s =>
      if decide (c = "="%char) then (EmptyString, Some s)
      else let '(n, v) := cut_equals s in (String.String c n, v)
  end.

(** [flag.Parse]: the settings, or the code the process exits with. *)
Fixpoint parse_flags (args : list string) (c : Settings) : Z + Settings :=
  match args with
  | [] => inr c
  | arg :: args =>
      match classify arg with
      | FEnd => inr c
      | FName name =>
          if bad_syntax name then inl 2%Z
          else
            let '(name, value) := cut_equals name in
            match find_flag name with
            | None => inl (if bool_decide (name = "help") || bool_decide (name = "h") then 0%Z else 2%Z)
            | Some f =>
                match value, args with
                | Some v, _ => parse_flags args (set_flag f v c)
                | None, v :: args => parse_flags args (set_flag f v c)
                | None, [] => inl 2%Z
                end
            end
      end
  end.

(** *** Flags as a user writes them *)

Inductive style : Type := Spaced (dashes : bool) | Joined (dashes : bool). (* two dashes, or one *)

Definition dashed (two : bool) (s : string) : string := if two then "--" +:+ s else "-" +:+ s.

Definition write_flag (st : style) (f : flag) (v : string) : list string :=
  match st with
  | Spaced two => [dashed two (flag_name f); v]
  | Joined two => [dashed two (flag_name f +:+ "=" +:+ v)]
  end.

Lemma cut_name f : cut_equals (flag_name f) = (flag_name f, None).
Proof. by destruct f. Qed.

Lemma cut_assignment f v : cut_equals (flag_name f +:+ "=" +:+ v) = (flag_name f, Some v).
Proof. by destruct f. Qed.

Lemma find_flag_name f : find_flag (flag_name f) = Some f.
Proof. by destruct f. Qed.

Lemma classify_flag two f rest : classify (dashed two (flag_name f +:+ rest)) = FName (flag_name f +:+ rest).
Proof. by destruct two, f. Qed.

Lemma flag_syntax f rest : bad_syntax (flag_name f +:+ rest) = false.
Proof. by destruct f. Qed.

Lemma parse_written st f v args c :
  parse_flags (write_flag st f v ++ args) c = parse_flags args (set_flag f v c).
Proof.
  destruct st as [two|two]; cbn [write_flag app parse_flags].
  - rewrite <-(string_app_nil_r (flag_name f)), classify_flag, flag_syntax, string_app_nil_r, cut_name.
    by rewrite find_flag_name.
  - by rewrite classify_flag, flag_syntax, cut_assignment, find_flag_name.
Qed.

(** Flags override the environment, each in any of the four ways package flag
    reads, in the order they are given; the value may be anything, also empty or
    with a dash.  All other settings stay what Load made of them. *)
Theorem flags_override_settings (flags : list (style * flag * string)) (c : Settings) :
  let c' := foldl (λ c '(_, f, v), set_flag f v c) c flags in
  parse_flags (concat ((λ '(st, f, v), write_flag st f v) <$> flags)) c = inr c' ∧
  cfg_RunnerRegistrationToken c' = cfg_RunnerRegistrationToken c ∧ cfg_WorkspaceRoot c' = cfg_WorkspaceRoot c ∧
  cfg_DockerNetwork c' = cfg_DockerNetwork c ∧ cfg_JobTimeout c' = cfg_JobTimeout c ∧
  cfg_HeartbeatTimeout c' = cfg_HeartbeatTimeout c.
Proof.
  cbv zeta. split.
  - revert c. induction flags as [|[[st f] v] flags IH]; intros c; [done|]. cbn [fmap list_fmap concat foldl].
    rewrite parse_written. apply IH.
  - revert c. induction flags as [|[[st f] v] flags IH]; intros c; [done|]. cbn [foldl].
    destruct (IH (set_flag f v c)) as (-> & -> & -> & -> & ->). done.
Qed.

(** ** cmd/runner *)

Inductive RunnerCall : Type → Type :=
| Ag {X} (c : AgentCall X) : RunnerCall X
| NewDockerClient : RunnerCall (option string)
| DockerPing : RunnerCall (option string).

(** [executor.NewDocker] *)
Definition NewDocker : Prog RunnerCall (result string unit) :=
  r ← call NewDockerClient;
  mret match r with Some e => Err ("connect to docker: " +:+ e) | None => Ok tt end.

Section runner.
Context `{RangeOrder}.
Context (GOARCH GOOS : string) (yaml_Unmarshal : string → result string Spec) (Quote : string → string).

(** The exit code; a panic is 2. *)
Definition runner_main (loaded : Settings) (args : list string) (turns : nat) : Prog RunnerCall Z :=
  match parse_flags args loaded with
  | inl code => mret code
  | inr cfg =>
      r ← NewDocker;
      match r with
      | Err _ => mret 1%Z
      | Ok _ =>
          r ← call DockerPing;
          match r with
          | Some _ => mret 1%Z
          | None =>
              r ← lift (λ X c, Ag c) (Run cfg GOARCH GOOS yaml_Unmarshal Quote turns);
              mret match r with Err _ => 1%Z | Ok Returned => 0%Z | Ok Panicked => 2%Z end
          end
      end
  end.
End runner.

(** ** cmd/scheduler *)

Inductive SchedulerCall : Type → Type :=
| Ctl {X} (c : Call X) : SchedulerCall X
| PgxNew (url : string) : SchedulerCall (option string)
| PgxPing : SchedulerCall (option string)
| RedisParseURL (url : string) : SchedulerCall (option string)
| GoReapLoop (heartbeat : Z) : SchedulerCall unit.

(** [store.New] *)
Definition store_New (url : string) : Prog SchedulerCall (result string unit) :=
  r ← call (PgxNew url);
  match r with
  | Some e => mret (Err ("connect postgres: " +:+ e))
  | None => r ← call PgxPing; mret match r with Some e => Err ("ping postgres: " +:+ e) | None => Ok tt end
  end.

(** [queue.NewRedis]: the URL is parsed, nothing is connected to. *)
Definition NewRedis (url : string) : Prog SchedulerCall (result string unit) :=
  r ← call (RedisParseURL url);
  mret match r with Some e => Err ("parse REDIS_URL: " +:+ e) | None => Ok tt end.

Section scheduler.
Context `{RangeOrder} `{Queue, Scheduler}.

(** [Service.Run] *)
Definition service_Run (heartbeat : Z) (iterations : nat) : Prog SchedulerCall unit :=
  _ ← lift (λ X c, Ctl c) Recover;
  _ ← call (GoReapLoop heartbeat);
  lift (λ X c, Ctl c) (serve_loop heartbeat iterations).

Definition scheduler_main (cfg : Settings) (iterations : nat) : Prog SchedulerCall Z :=
  match Validate cfg with
  | Err _ => mret 1%Z
  | Ok _ =>
      r ← store_New (cfg_DatabaseURL cfg);
      match r with
      | Err _ => mret 1%Z
      | Ok _ =>
          r ← NewRedis (cfg_RedisURL cfg);
          match r with
          | Err _ => mret 1%Z
          | Ok _ => _ ← service_Run (cfg_HeartbeatTimeout cfg) iterations; mret 0%Z
          end
      end
  end.

(** The goroutine of the reaper, for a number of ticks.  [time.NewTicker] panics
    when its interval is not positive. *)
Fixpoint reap_ticks (heartbeat : Z) (ticks : nat) : Prog Call ending :=
  match ticks with
  | 0 => mret Returned
  | S ticks =>
      stop ← call CtxErr;
      if stop : bool then mret Returned else _ ← reap_body heartbeat; reap_ticks heartbeat ticks
  end.

Definition reapLoop (heartbeat : Z) (ticks : nat) : Prog Call ending :=
  if (heartbeat ÷ 2 <=? 0)%Z then mret Panicked else reap_ticks heartbeat ticks.
End scheduler.

(** *** What the scheduler does, whatever it is answered *)

(** The database or the queue is used, or the reaper is started. *)
Definition works_on (v : event SchedulerCall) : bool :=
  match v with existT _ (e, _) => match e with Ctl _ | GoReapLoop _ => true | _ => false end end.

(** The connections the process makes first. *)
Definition connected (cfg : Settings) : list (event SchedulerCall) :=
  [ev (PgxNew (cfg_DatabaseURL cfg)) None; ev PgxPing None; ev (RedisParseURL (cfg_RedisURL cfg)) None].

Section process.
Context `{RangeOrder} `{Queue, Scheduler}.

Lemma post_any {E : Type → Type} {A} (p : Prog E A) tr : post p tr (λ _ tr', ∃ rest, tr' = tr ++ rest).
Proof.
  revert tr. induction p as [a|X e k IH]; intros tr; [by exists []; rewrite app_nil_r|]. intros x.
  eapply post_mono; [apply IH|]. intros a tr' [rest ->]. eexists. by rewrite <-app_assoc.
Qed.

(** The scheduler exits with 1 without touching the database or the queue, or it
    has its three connections and then serves until it is stopped, and exits
    with 0. *)
Theorem scheduler_main_correct (cfg : Settings) (iterations : nat) :
  post (scheduler_main cfg iterations) [] (λ code tr,
    (code = 1%Z ∧ existsb works_on tr = false) ∨ (code = 0%Z ∧ ∃ rest, tr = connected cfg ++ rest)).
Proof.
  unfold scheduler_main. destruct (Validate cfg); [|by left].
  apply post_bind. unfold store_New. apply post_bind, post_call. intros [e|]; [by left|].
  apply post_bind, post_call. intros [e|]; [by left|]. simpl. intros [e|]; [by left|].
  apply post_bind. eapply post_mono; [apply post_any|]. intros [] tr [rest ->]. right. split; [done|].
  by exists rest.
Qed.

Lemma ticker_interval heartbeat : (heartbeat ÷ 2 <=? 0)%Z = (heartbeat <? 2)%Z.
Proof.
  apply Bool.eq_iff_eq_true. rewrite Z.leb_le, Z.ltb_lt.
  destruct (Z.lt_ge_cases heartbeat 0) as [Hn|Hp].
  - assert (heartbeat ÷ 2 ≤ 0)%Z by (rewrite <-(Z.opp_involutive heartbeat), Z.quot_opp_l by done;
      pose proof (Z.quot_pos (- heartbeat) 2); lia). lia.
  - rewrite Z.quot_div_nonneg by lia. pose proof (Z.div_mod heartbeat 2). pose proof (Z.mod_pos_bound heartbeat 2). lia.
Qed.

(** The reaper panics at once, and takes the scheduler with it, exactly when the
    heartbeat timeout is below two nanoseconds; otherwise it never does. *)
Theorem reaper_panics_exactly (heartbeat : Z) (ticks : nat) :
  post (reapLoop heartbeat ticks) [] (λ how _, how = if (heartbeat <? 2)%Z then Panicked else Returned).
Proof.
  unfold reapLoop. rewrite ticker_interval. destruct (heartbeat <? 2)%Z; [done|].
  generalize (@nil (event Call)). induction ticks as [|n IH]; intros tr; [done|]. cbn [reap_ticks].
  apply post_bind, post_call. intros []; [done|]. apply post_bind. eapply post_mono; [apply post_any|].
  intros [] tr' _. apply IH.
Qed.
End process.

(** HEARTBEAT_TIMEOUT=0 passes the validation and crashes the scheduler. *)
Example zero_heartbeat_crashes `{RangeOrder} `{Queue} ticks :
  let getenv key := if bool_decide (key = "HEARTBEAT_TIMEOUT") then "0" else "" in
  let cfg := Load getenv None "/tmp" (λ _, None) in
  Validate cfg = Ok tt ∧ reapLoop (cfg_HeartbeatTimeout cfg) ticks = mret Panicked.
Proof. by split; vm_compute. Qed.
