(* ===== verification/Output.v ===== *)
(** * A build's output, from the container to the table

    Three components in a row: the chunks internal/runner/logstream.go makes,
    the requests internal/runner/agent.go ships them with, and what
    internal/api/jobs.go and internal/store/store.go do with each. *)
From S2P Require Import Prelude GoLib GoText Sha256 Json JsonOut Http Prog Models Sql Redis World Tables Store Lifecycle.
From S2P Require Import Queue Outcome Webhook Api Auth JobApi Config Agent LogStream Wire.

#[local] Arguments mbind : simpl never.

Section output.
Context `{RangeOrder} {R : Type} `{Redis R} `{Queue}.
Context (acfg : Settings) (cfg : Config) (id token : string) (jobID : string).

Definition log_message (seq : Z) (chunk : string) : Request :=
  wire (cfg_ServerURL acfg) (log_request acfg id token jobID seq chunk).

Lemma log_routed seq chunk :
  plain jobID →
  Routes cfg (log_message seq chunk) = withRunnerAuth handleJobLogs (log_message seq chunk) jobID.
Proof.
  intros Hid. pose proof (wire_job_path acfg jobID "logs" Hid) as Hp. unfold Routes, log_message, wire, log_request.
  cbn [rq_Path rq_Method hq_URL hq_Method]. change ("/logs") with ("/" +:+ "logs"). rewrite Hp. simpl.
  destruct Hid as [Hne _]. by rewrite bool_decide_false.
Qed.

(** The server takes the chunk. *)
Definition storable (chunk : string) : Prop :=
  text_ok chunk = true ∧ (Z.of_nat (String.length chunk) ≤ 1048576)%Z.

(** One chunk. *)
Lemma log_appended (row : JobRow) (rrow : RunnerRow) seq chunk (w : World R) :
  calm w → db_wf (w_db w) → plain jobID → assigned_to id token jobID row rrow w →
  (0 < seq)%Z → int4_ok seq = true → storable chunk →
  exec (Routes cfg (log_message seq chunk)) w =
  (mkResponse 202 BodyNone, set_db (Spec.append jobID seq chunk (w_db w)).2 w).
Proof.
  intros Hc Hwf Hp (Hid & Ht & Hrow & Hown & Hr & Hh) Hseq Hint [Htext Hlen]. rewrite log_routed by done.
  assert (rq_Header (log_message seq chunk) "X-Runner-ID" = id) as E1 by done.
  assert (rq_Header (log_message seq chunk) "Authorization" = "Bearer " +:+ token) as E2 by done.
  assert (rq_Header (log_message seq chunk) "X-Log-Seq" = Itoa seq) as E3 by done.
  assert (rq_Body (log_message seq chunk) = chunk) as E4 by done.
  revert E1 E2 E3 E4. generalize (log_message seq chunk). intros r E1 E2 E3 E4.
  rewrite withRunnerAuth_passes; [|done|].
  2: { unfold credentials_ok, presented_id, presented_token. rewrite E1, E2, decide_False, TrimPrefix_app by done.
       split_and!; [done..|]. by exists rrow. }
  unfold handleJobLogs, ifOwner, runnerOwnsJob, GetJob. rewrite !run_bind, run_call. cbn [handle].
  rewrite do_sql_calm by done. simpl. rewrite Hrow, set_db_id. simpl.
  rewrite E1, E3, E4, Hown, (bool_decide_true (Some id = Some id)) by done.
  rewrite Atoi_Itoa
    by (unfold int4_ok, int64_ok, int4_min, int4_max, int64_min, int64_max in *; lia).
  rewrite (proj2 (Z.leb_gt _ _)) by done. unfold ReadAll. rewrite (proj2 (Z.leb_le _ _)) by done.
  rewrite run_bind, (implements_AppendLogs jobID seq chunk w Hc Hwf).
  unfold Spec.append. rewrite Hint, Htext, Hrow. done.
Qed.

(** The chunks, in the order they were sent. *)
Definition ship (chunks : list (Z * string)) (w : World R) : World R :=
  foldl (λ w nc, (exec (Routes cfg (log_message nc.1 nc.2)) w).2) w chunks.

Lemma ship_appends chunks n L (row : JobRow) (rrow : RunnerRow) (w : World R) :
  calm w → db_wf (w_db w) → plain jobID → assigned_to id token jobID row rrow w →
  jr_logs row = L → jr_log_seq row = n → (0 ≤ n)%Z →
  (n + Z.of_nat (length chunks) ≤ int4_max)%Z →
  chunks.*1 = seqZ (n + 1) (Z.of_nat (length chunks)) → Forall (storable ∘ snd) chunks →
  logs_of (w_db (ship chunks w)) jobID =
    Some (L +:+ concat_strings chunks.*2, n + Z.of_nat (length chunks))%Z.
Proof.
  revert n L row w. induction chunks as [|[m c] chunks IH];
    intros n L row w Hc Hwf Hp Ha HL Hn Hpos Hmax Hnum Hall.
  - destruct Ha as (_ & _ & Hrow & _). unfold logs_of. simpl. rewrite Hrow. simpl.
    by rewrite HL, Hn, string_app_nil_r, Z.add_0_r.
  - apply Forall_cons in Hall as [Hst Hall].
    cbn [length] in *. rewrite Nat2Z.inj_succ, seqZ_cons in Hnum by lia.
    injection Hnum as -> Hnum. rewrite Z.pred_succ in Hnum.
    assert (int4_ok (n + 1) = true) as Hint by (unfold int4_ok, int4_min; lia).
    change (ship ((n + 1, c)%Z :: chunks) w) with (ship chunks (exec (Routes cfg (log_message (n + 1) c)) w).2).
    pose proof (log_appended row rrow (n + 1) c w Hc Hwf Hp Ha) as E.
    rewrite E by (done || lia). cbn [snd].
    destruct (safe_step (AppendLogs jobID (n + 1) c) w) as [Hwf' _]; [apply safe_AppendLogs; lia|done|].
    rewrite (implements_AppendLogs jobID (n + 1) c w Hc Hwf) in Hwf'. cbn [snd] in Hwf'.
    unfold Spec.append in *. destruct Ha as (Hid & Ht & Hrow & Hown & Hr & Hh).
    change (storable c) in Hst. destruct Hst as [Htext _]. rewrite Hint, Htext, Hrow, Hn, (proj2 (Z.ltb_lt n (n + 1))) in Hwf' |- * by lia.
    cbn [andb snd] in *.
    rewrite (IH (n + 1)%Z (L +:+ c) (mkJobRow (jr_job row) (jr_logs row +:+ c) (n + 1))); try done.
    + unfold concat_strings. cbn [fmap list_fmap snd foldr]. rewrite string_app_assoc. do 2 f_equal. lia.
    + split_and!; try done. simpl. by rewrite lookup_insert_eq.
    + simpl. by rewrite HL.
    + lia.
    + lia.
Qed.

(** C17. No output is lost on the way.  However the build's goroutine and the
    ticker interleave, once the stream is closed and its chunks have been
    shipped - and nothing fails, and each chunk is text of at most a megabyte -
    the log stored for the job is exactly what the build wrote, in order, and
    its counter is the number of chunks. *)
Theorem output_reaches_the_store (ps : list string) (turns : nat) tick s
    (row : JobRow) (rrow : RunnerRow) (w : World R)
    (Hreach : rtc stream_step (stream_start ps turns) ([mret tt; tick], s))
    (Hc : calm w) (Hwf : db_wf (w_db w)) (Hp : plain jobID) (Ha : assigned_to id token jobID row rrow w)
    (Hfresh : jr_logs row = "" ∧ jr_log_seq row = 0%Z)
    (Hcount : (Z.of_nat (length (ls_sent s)) ≤ int4_max)%Z)
    (Hall : Forall (storable ∘ snd) (ls_sent s)) :
  logs_of (w_db (ship (ls_sent s) w)) jobID =
    Some (concat_strings ps, Z.of_nat (length (ls_sent s))).
Proof.
  destruct (stream_complete ps turns tick s Hreach) as [Hout Hnum]. destruct Hfresh as [HL Hn].
  rewrite (ship_appends (ls_sent s) 0 "" row rrow w) by (done || lia). by rewrite Hout.
Qed.
End output.
