(* ===== verification/Witnesses.v ===== *)
(** * The theorems at concrete states

    Each theorem with hypotheses is applied once, at a state of Scenario (or a
    variation of one), so that its hypotheses are seen to hold there. *)
From S2P Require Import Prelude GoLib Sha256 Json Prog Models Sql Redis World Tables Typed Store Lifecycle Queue Outcome Scheduler Service Webhook Api Auth Deliveries System JobApi Origin Operations Scenario.

#[local] Existing Instances key_order gmap_redis.

Abbreviation moment evs := (world (play evs boot)).

(** The tables of a moment agree. *)
Ltac good_moment := split; [apply played_wf|apply agree_check_ok; vm_compute; reflexivity].

(** Something is found in a concrete table. *)
Ltac found := vm_compute; reflexivity.

(** The rows of a moment, by id. *)
Definition job_of (w : World (gmap string (list string))) (id : string) : JobRow :=
  default (mkJobRow (mkJob "" "" "" "" "" "" "" [] JobQueued None 0 None "" 0 None None) "" 0)
    (db_jobs (w_db w) !! id).
Definition runner_row (w : World (gmap string (list string))) (id : string) : RunnerRow :=
  default (mkRunnerRow (mkRunner "" "" RunnerIdle None "" "" None 0 None 0) "")
    (db_runners (w_db w) !! id).

(** ** Lifecycle *)

Lemma AssignJob_all_or_nothing_witness :
  let w := moment queued in
  let '(r, w') := exec (AssignJob "job-a" "runner-1") w in
  (w_db w' = w_db w ∧ r ≠ Ok tt) ∨
  ∃ row rrow,
    db_jobs (w_db w) !! "job-a" = Some row ∧ job_status row = JobQueued ∧
    db_runners (w_db w) !! "runner-1" = Some rrow ∧ r_Status (rr_runner rrow) = RunnerIdle ∧
    db_jobs (w_db w') = <["job-a" := Spec.assigned "runner-1" row]> (db_jobs (w_db w)) ∧
    db_runners (w_db w') =
      <["runner-1" := Spec.busied (db_now (w_db w)) "job-a" rrow]> (db_runners (w_db w)).
Proof. apply AssignJob_all_or_nothing. apply played_wf. Defined.

(** The reply to the first delivery is lost, so it is repeated. *)
Definition faulty : World _ := set_faults [FReplyLost] (moment started).
Definition deliveries : list (Z * string) := [(1%Z, "one "); (1%Z, "one "); (2%Z, "two")].

Lemma AppendLogs_exactly_once_witness :
  ∃ n, logs_of (w_db (exec (deliver "job-a" deliveries) faulty).2) "job-a" = Some ("one two", n).
Proof.
  apply (AppendLogs_exactly_once faulty "job-a" ["one "; "two"] deliveries); [found|].
  assert ((exec (deliver "job-a" deliveries) faulty).1 = [false; true; true]) as -> by found.
  apply alo_again, alo_next, alo_next, alo_done.
Defined.

(** A running job with output, and a second runner. *)
Definition logged : list event :=
  started ++ [Spawn (ERequest (logs_request "job-a" "1" "building")); Finish 4;
    Answers ["runner-2"] [Some "fedcba9876543210fedcba9876543210"];
    Spawn (ERequest register_request); Finish 5].

Lemma second_attempt_output_is_dropped_witness :
  let w := moment logged in
  let '(r, w') := exec (second_attempt "job-a" "runner-2" "again") w in
  r = Ok tt ∧ logs_of (w_db w') "job-a" = logs_of (w_db w) "job-a" ∧
  (∃ row', db_jobs (w_db w') !! "job-a" = Some row' ∧ job_status row' = JobRunning ∧
           j_RunnerID (jr_job row') = Some "runner-2").
Proof.
  apply (second_attempt_output_is_dropped (moment logged) "job-a" "runner-2" "again"
    (job_of (moment logged) "job-a") (runner_row (moment logged) "runner-2"));
    [found|apply played_wf|found|found|by vm_compute|found|found|found|found].
Defined.

(** ** Queue *)

Definition operations : list qop :=
  [OEnqueue "x"; ODequeue; ODispatch "runner-1" "x"; OReceive "runner-1"; ORequeue "x"; ORecover].

Lemma RedisQueue_refines_Fifo_witness :
  let w := moment queued in
  let '(replies, w') := exec (@run_qops RedisQueue_impl operations) w in
  replies = (spec_qops operations (redis_view w)).1 ∧
  redis_view w' ≡ (spec_qops operations (redis_view w)).2 ∧ frame w w'.
Proof. apply RedisQueue_refines_Fifo; [apply gmap_redis_ok|reflexivity]. Defined.

Lemma Dequeue_loses_nothing_witness :
  let w := moment queued in
  let '(r, w') := exec RedisQueue.Dequeue w in
  jobs_in (redis_view w') ≡ₚ jobs_in (redis_view w) ∧
  ∀ id, r = Ok id → id ∈ inflight (redis_view w').
Proof. apply Dequeue_loses_nothing, gmap_redis_ok. Defined.

(** A scheduler took job-a and died; the next one's connection breaks. *)
Definition dequeued : World _ := (exec RedisQueue.Dequeue (moment queued)).2.

Lemma Recover_can_lose_a_job_witness :
  let '(r, w') := exec RedisQueue.Recover (set_faults [FNone; FNone; FLost] dequeued) in
  r = Err ErrRedis ∧ jobs_in (redis_view w') = [].
Proof.
  apply (Recover_can_lose_a_job (set_faults [FNone; FNone; FLost] dequeued) "job-a");
    [apply gmap_redis_ok|reflexivity|found|found].
Defined.

(** ** Scheduler *)

Definition candidate (id : string) (assigned : option Z) : Runner :=
  mkRunner id id RunnerIdle (Some ["linux"; "docker"]) "amd64" "linux" None 0 assigned 0.
Definition some_job : Job :=
  mkJob "j" "octo/app" "https://github.com/octo/app.git" sha_a "main" "push" "forgerun.yml" ["linux"]
    JobQueued None 0 None "" 0 None None.

Lemma Schedule_order_independent_witness :
  @Schedule CapabilityScheduler some_job [candidate "a" (Some 5%Z); candidate "b" None] =
  @Schedule CapabilityScheduler some_job [candidate "b" None; candidate "a" (Some 5%Z)].
Proof.
  apply Schedule_order_independent; [apply perm_swap|].
  intros a b Ha Hb _ _ Hne. set_unfold. destruct Ha as [->|[->|[]]], Hb as [->|[->|[]]]; try done;
    [by right|by left].
Defined.

(** ** Scheduling service *)

Abbreviation do_assign := (@assign RedisQueue_impl CapabilityScheduler heartbeat).

Lemma assign_correct_witness :
  let w := moment queued in
  let '(_, w') := exec (do_assign "job-a") w in
  match db_jobs (w_db w) !! "job-a" with
  | Some row =>
      if decide (job_status row = JobQueued) then
        (∃ r rrow,
          usable heartbeat (w_db w) r rrow ∧ can_take (jr_job row) (rr_runner rrow) ∧
          db_jobs (w_db w') = <["job-a" := Spec.assigned r row]> (db_jobs (w_db w)) ∧
          db_runners (w_db w') =
            <[r := Spec.busied (db_now (w_db w)) "job-a" rrow]> (db_runners (w_db w)) ∧
          redis_view w' ≡ Fifo.ack "job-a" (Fifo.dispatch r "job-a" (redis_view w))) ∨
        (w_db w' = w_db w ∧ redis_view w' ≡ Fifo.requeue "job-a" (redis_view w) ∧
          (j_Attempts (jr_job row) = int4_max ∨
           ∀ r rrow, usable heartbeat (w_db w) r rrow → ¬ can_take (jr_job row) (rr_runner rrow)))
      else w_db w' = w_db w ∧ redis_view w' ≡ Fifo.ack "job-a" (redis_view w)
  | None => w_db w' = w_db w ∧ redis_view w' ≡ Fifo.ack "job-a" (redis_view w)
  end.
Proof.
  apply (assign_correct RedisQueue_impl redis_view);
    [apply gmap_redis_queue|apply CapabilityScheduler_ok|found|apply played_wf].
Defined.

Lemma lost_read_drops_queued_job_witness :
  let w := set_faults [FLost] dequeued in
  let '(_, w') := exec (do_assign "job-a") w in
  db_jobs (w_db w') !! "job-a" = Some (job_of w "job-a") ∧ "job-a" ∉ jobs_in (redis_view w').
Proof.
  assert (jobs_in (redis_view (set_faults [FLost] dequeued)) = ["job-a"]) as Hj by found.
  apply (lost_read_drops_queued_job RedisQueue_impl redis_view);
    [apply gmap_redis_queue|reflexivity|found|found| |].
  - rewrite Hj. apply NoDup_singleton.
  - assert (inflight (redis_view (set_faults [FLost] dequeued)) = ["job-a"]) as -> by found. by left.
Defined.

(** The scheduler has just taken the id. *)
Definition taken : World _ := set_redis (w_redis dequeued) (moment queued).

Lemma usable_found w id :
  match db_runners (w_db w) !! id with
  | Some rrow => bool_decide (is_idle_live (db_now (w_db w)) (whole_seconds heartbeat) (rr_runner rrow))
  | None => false
  end = true → usable heartbeat (w_db w) id (runner_row w id).
Proof.
  unfold usable, runner_row. destruct (db_runners (w_db w) !! id); [|done].
  by intros Hu%bool_decide_eq_true.
Qed.

Lemma can_take_found j r : eligible j r = true → can_take j r.
Proof. apply eligible_true. Qed.

Lemma crash_after_assignment_strands_job_witness :
  let w1 := (prog_steps handle 4 (do_assign "job-a") taken).2 in
  let w2 := (exec (@serve RedisQueue_impl CapabilityScheduler heartbeat 1) w1).2 in
  (∃ r row', db_jobs (w_db w2) !! "job-a" = Some row' ∧ job_status row' = JobAssigned ∧
    j_RunnerID (jr_job row') = Some r ∧ mailbox (redis_view w2) r = mailbox (redis_view taken) r) ∧
  jobs_in (redis_view w2) = [].
Proof.
  assert (r_ID (rr_runner (runner_row taken "runner-1")) = "runner-1") as Hid by found.
  apply (crash_after_assignment_strands_job RedisQueue_impl redis_view heartbeat taken "job-a"
    (job_of taken "job-a") (runner_row taken "runner-1"));
    [apply gmap_redis_queue|apply CapabilityScheduler_ok|found|found|apply (played_wf queued)|found
    |found|by vm_compute| |apply can_take_found; found|found|found].
  rewrite Hid. apply usable_found. found.
Defined.

(** The runner has been silent for a minute. *)
Definition silent : list event := started ++ [Tick 60000000].

Lemma reap_rescues_witness :
  let w := moment silent in
  let secs := whole_seconds heartbeat in
  let '(_, w') := exec (@reap_body RedisQueue_impl heartbeat _) w in
  good (w_db w') ∧
  (∀ r, db_runners (w_db w') !! r =
    (λ rrow, if decide (is_stale (db_now (w_db w)) secs rrow) then knock_out rrow else rrow)
      <$> db_runners (w_db w) !! r) ∧
  (∀ id row, db_jobs (w_db w) !! id = Some row → abandoned heartbeat (w_db w) id →
    db_jobs (w_db w') !! id = Some (requeued (db_now (w_db w)) row)) ∧
  (∀ id, ¬ abandoned heartbeat (w_db w) id → db_jobs (w_db w') !! id = db_jobs (w_db w) !! id) ∧
  inflight (redis_view w') = inflight (redis_view w) ∧
  ∃ ids, pending (redis_view w') = ids ++ pending (redis_view w) ∧
    ∀ id, id ∈ ids ↔ abandoned heartbeat (w_db w) id.
Proof.
  apply (reap_rescues RedisQueue_impl redis_view); [apply gmap_redis_queue|found|good_moment|found].
Defined.

Lemma serve_drains_witness :
  let '(_, w') := exec (@serve_loop RedisQueue_impl CapabilityScheduler heartbeat 1) (moment queued) in
  pending (redis_view w') = [] ∧ ∀ id, id ∈ ["job-a"] → placed (w_db w') (redis_view w') id.
Proof.
  apply (serve_drains RedisQueue_impl redis_view heartbeat (moment queued) ["job-a"] ["runner-1"]);
    [apply gmap_redis_queue|apply CapabilityScheduler_ok|found|found|apply played_wf|found|].
  split; [apply NoDup_singleton..|simpl; lia| |].
  - intros id ->%list_elem_of_singleton. exists (job_of (moment queued) "job-a").
    split; [found|]. split; [found|by vm_compute].
  - intros r ->%list_elem_of_singleton. exists (runner_row (moment queued) "runner-1").
    split; [apply usable_found; found|]. intros id row ->%list_elem_of_singleton Hrow.
    assert (db_jobs (w_db (moment queued)) !! "job-a" = Some (job_of (moment queued) "job-a")) as Hj
      by found.
    rewrite Hj in Hrow. apply (inj Some) in Hrow as <-. apply can_take_found. found.
Defined.

(** ** Webhooks *)

Definition event_a : Event :=
  mkEvent "octo/app" "https://github.com/octo/app.git" sha_a "main" "push" 0.
Definition body_a : string := json_text (push_body sha_a).

Lemma ParseEvent_accepts_witness :
  event_ok event_a ∧ e_EventType event_a = "push" ∧
  ((∃ p, Unmarshal (dec_struct push_fields) zero_push body_a = Some p ∧ "push" = "push" ∧
      p_Deleted p = false ∧ p_Ref p = "refs/heads/" +:+ e_Branch event_a ∧ event_a = push_event p) ∨
   (∃ p, Unmarshal (dec_struct pull_fields) zero_pull body_a = Some p ∧ "push" = "pull_request" ∧
      pr_Action p ∈ ["opened"; "synchronize"; "reopened"] ∧ event_a = pull_event p)).
Proof. apply (ParseEvent_accepts "push" body_a event_a). found. Defined.

Lemma delivers_a : delivers cfg (push_request sha_a) event_a.
Proof.
  split; [by vm_compute| |found].
  split; [done|]. exists (hex_encode (hmac_sha256 (octets (GitHubWebhookSecret cfg)) (octets body_a))).
  split; found.
Qed.

Definition unsigned_request : Request :=
  request ["webhooks"; "github"] [("X-GitHub-Event", "push"); ("X-Hub-Signature-256", "sha256=00")]
    (push_body sha_a).

Lemma unsigned_delivery_does_nothing_witness :
  @handleWebhook RedisQueue_impl cfg unsigned_request =
  mret (mkResponse 401 (BodyError "invalid signature")).
Proof.
  apply (unsigned_delivery_does_nothing RedisQueue_impl cfg unsigned_request). right.
  intros (_ & hex & Hh & Hl). change (rq_Header unsigned_request "X-Hub-Signature-256") with "sha256=00" in Hh.
  change "sha256=00" with ("sha256=" +:+ "00") in Hh. apply string_app_inj_l in Hh as <-.
  apply (f_equal String.length) in Hl. by vm_compute in Hl.
Defined.

Lemma redelivery_creates_nothing_witness :
  let w := moment queued in
  let '(resp, w') := exec (@handleWebhook RedisQueue_impl cfg (push_request sha_a)) w in
  w_db w' = w_db w ∧ w_redis w' = w_redis w ∧
  (calm w → job_text_ok (job_of_event (next_uuid w) event_a) = true →
   resp = mkResponse 200 (BodyFields [("status", "duplicate")])).
Proof.
  apply (redelivery_creates_nothing RedisQueue_impl cfg (push_request sha_a) event_a "job-a"
    (job_of (moment queued) "job-a") (moment queued));
    [apply delivers_a|split; [found|split; found]|found].
Defined.

(** The runner is registered, no job yet. *)
Definition registered : list event :=
  [Answers ["runner-1"; "job-a"] [Some token_bytes]; Spawn (ERequest register_request); Finish 0].

Lemma nothing_unfinished id row : ¬ unfinished (w_db (moment registered)) event_a id row.
Proof.
  intros (Hrow & _). assert (db_jobs (w_db (moment registered)) = ∅) as E by found.
  rewrite E in Hrow. clear E. exact (lookup_empty_Some _ _ Hrow).
Qed.

Lemma delivery_queues_one_job_witness :
  let w := moment registered in
  let '(resp, w') := exec (@handleWebhook RedisQueue_impl cfg (push_request sha_a)) w in
  resp = mkResponse 202 (BodyFields [("job_id", next_uuid w); ("status", "QUEUED")]) ∧
  db_jobs (w_db w') =
    <[next_uuid w := created (db_now (w_db w)) (next_uuid w) event_a]> (db_jobs (w_db w)) ∧
  db_runners (w_db w') = db_runners (w_db w) ∧
  redis_view w' ≡ Fifo.enqueue (next_uuid w) (redis_view w) ∧
  w_reports w' = w_reports w ++ [mkStatusPost (e_Repository event_a) (e_CommitSHA event_a) "pending"
    "queued by forgerun" (ServerURL cfg +:+ "/api/v1/jobs/" +:+ next_uuid w +:+ "/logs")].
Proof.
  apply (delivery_queues_one_job RedisQueue_impl cfg redis_view);
    [apply gmap_redis_queue|found|apply delivers_a|apply nothing_unfinished|found|found].
Defined.

Lemma enqueue_failure_strands_job_witness :
  let w := set_faults [FNone; FLost] (moment registered) in
  let '(resp, w') := exec (@handleWebhook RedisQueue_impl cfg (push_request sha_a)) w in
  resp = mkResponse 500 (BodyError "cannot enqueue job") ∧
  unfinished (w_db w') event_a (next_uuid w) (created (db_now (w_db w)) (next_uuid w) event_a) ∧
  w_redis w' = w_redis w.
Proof.
  apply (enqueue_failure_strands_job cfg);
    [apply gmap_redis_ok|found|apply delivers_a|apply nothing_unfinished|found|found].
Defined.

(** ** Authorisation *)

Lemma job_found w id row :
  db_jobs (w_db w) !! id = Some row → row = job_of w id.
Proof. unfold job_of. by intros ->. Qed.

Lemma only_the_owner_touches_a_job_witness :
  let w := moment queued in
  let '(resp, w') :=
    exec (@handle_endpoint RedisQueue_impl cfg (EJobStart "job-a") (job_request "job-a" "start" "")) w in
  (rs_code resp = 401%Z ∨ rs_code resp = 403%Z) ∧ same w w'.
Proof.
  apply (only_the_owner_touches_a_job cfg _ "job-a"); [by left|].
  intros (row & Hrow%job_found & Hid).
  assert (j_RunnerID (jr_job (job_of (moment queued) "job-a")) = None) as E by found.
  rewrite Hrow, E in Hid. discriminate Hid.
Defined.

Definition intruder : Request :=
  request ["api"; "v1"; "runners"; "register"] [("X-Registration-Token", "guess")] "{'name': 'x'}".

Lemma register_requires_token_witness :
  handleRegister cfg intruder = mret (mkResponse 401 (BodyError "invalid registration token")).
Proof. apply register_requires_token. by vm_compute. Defined.

(** job-a waits in the mailbox of runner-1; runner-2 has credentials of its own. *)
Definition two_runners : list event :=
  queued ++ [Spawn (EScheduler 1); Finish 2;
    Answers ["runner-2"] [Some "fedcba9876543210fedcba9876543210"];
    Spawn (ERequest register_request); Finish 3].

Definition foreign_poll : Request :=
  mkRequest "GET" ["api"; "v1"; "runners"; "runner-1"; "job"]
    (header [("X-Runner-ID", "runner-2");
             ("Authorization", "Bearer " +:+ base64_encode (octets "fedcba9876543210fedcba9876543210"))])
    (λ _, "") "".

Lemma poll_reads_the_mailbox_of_the_url_witness :
  let w := moment two_runners in
  let '(resp, w') := exec (@handle_endpoint RedisQueue_impl cfg (EPollJob "runner-1") foreign_poll) w in
  (∃ token, resp = mkResponse 200 (BodyDelivery (jr_job (job_of w "job-a")) token)) ∧
  mailbox (redis_view w') "runner-1" = [].
Proof.
  apply (poll_reads_the_mailbox_of_the_url cfg redis_view foreign_poll "runner-1" "job-a" []
    (job_of (moment two_runners) "job-a") (moment two_runners));
    [apply gmap_redis_queue|found| |by vm_compute|found|found].
  split; [by vm_compute|]. split; [by vm_compute|].
  exists (runner_row (moment two_runners) "runner-2"). split; found.
Defined.

(** ** Jobs over HTTP *)

Lemma heartbeat_correct_witness :
  let w := moment queued in
  exec (handleHeartbeat (heartbeat_request "") "runner-1") w =
  match db_runners (w_db w) !! "runner-1" with
  | None => (mkResponse 404 (BodyError "unknown runner"), w)
  | Some row =>
      (mkResponse 200 (BodyHeartbeat "ok" (told_to_cancel (w_db w) (heartbeat_request "") "runner-1")),
       set_db (set_runners (<["runner-1" := beat (db_now (w_db w)) row]> (db_runners (w_db w)))
         (w_db w)) w)
  end.
Proof. apply heartbeat_correct; [found|apply played_wf]. Defined.

(** The job is cancelled while it runs; time passes. *)
Definition cancelled_run : list event :=
  started ++ [Spawn (ERequest (job_request "job-a" "cancel" "")); Finish 4].

Definition busy_heartbeat : Request := heartbeat_request "{'job_id': 'job-a'}".

Lemma finished_job_is_abandoned_witness :
  (exec (handleHeartbeat busy_heartbeat "runner-1")
    (world (play [Tick 5000000] (play cancelled_run boot)))).1 =
  mkResponse 200 (BodyHeartbeat "ok" true).
Proof.
  apply (finished_job_is_abandoned RedisQueue_impl CapabilityScheduler cfg heartbeat redis_view boot
    (play cancelled_run boot) (play [Tick 5000000] (play cancelled_run boot)) "job-a" "runner-1"
    (job_of (moment cancelled_run) "job-a") busy_heartbeat);
    [apply gmap_redis_queue|apply boot_initial|apply play_reachable|apply play_reachable|found|found
    |found| |found|done].
  exists (runner_row (world (play [Tick 5000000] (play cancelled_run boot))) "runner-1"). found.
Defined.

Lemma cancel_correct_witness :
  let w := moment started in
  let '(resp, w') := exec (handleCancelJob "job-a") w in
  match db_jobs (w_db w) !! "job-a" with
  | None => resp = mkResponse 404 (BodyError "job not found") ∧ w' = w
  | Some row =>
      if Terminal (job_status row) then rs_code resp = 409%Z ∧ w' = w
      else
        resp = mkResponse 200 (BodyFields [("status", "CANCELLED")]) ∧ good (w_db w') ∧
        db_jobs (w_db w') = <["job-a" := cancelled (w_db w) row]> (db_jobs (w_db w)) ∧
        (∀ r rrow, j_RunnerID (jr_job row) = Some r → db_runners (w_db w) !! r = Some rrow →
           db_runners (w_db w') !! r = Some (release rrow))
  end.
Proof. apply cancel_correct; [found|good_moment]. Defined.

Lemma list_returns_newest_witness :
  ∃ listed rest,
    (exec (handleListJobs (request [] [] "")) (moment queued)).1 = mkResponse 200 (BodyJobs listed) ∧
    length listed ≤ 500 ∧
    listed ++ rest ≡ₚ (jr_job ∘ snd) <$> map_to_list (db_jobs (w_db (moment queued))) ∧
    StronglySorted created_desc listed ∧
    ∀ j j', j ∈ listed → j' ∈ rest → created_desc j j'.
Proof. apply list_returns_newest. found. Defined.

(** ** The whole system *)

Lemma one_unfinished_job_per_commit_witness : "job-a" = "job-a".
Proof.
  apply (one_unfinished_job_per_commit RedisQueue_impl CapabilityScheduler cfg heartbeat redis_view boot
    (play started boot) "job-a" "job-a" (job_of (moment started) "job-a")
    (job_of (moment started) "job-a"));
    [apply gmap_redis_queue|apply boot_initial|apply play_reachable|found..].
Defined.

Lemma jobs_only_move_forward_witness :
  let s1 := play queued boot in
  (∀ s id row', sys_step RedisQueue_impl CapabilityScheduler cfg heartbeat s1 s →
     db_jobs (w_db (world s)) !! id = Some row' →
     match db_jobs (w_db (world s1)) !! id with
     | None => job_status row' = JobQueued
     | Some row => job_status row' = job_status row ∨ job_step (job_status row) (job_status row')
     end) ∧
  (∀ id row, db_jobs (w_db (world s1)) !! id = Some row →
     ∃ row', db_jobs (w_db (world (play half_finished s1))) !! id = Some row' ∧
       (job_status row = JobSuccess ∨ job_status row = JobFailed ∨ job_status row = JobCancelled →
        jr_job row' = jr_job row) ∧
       job_identity (jr_job row') = job_identity (jr_job row) ∧
       (j_Attempts (jr_job row) ≤ j_Attempts (jr_job row'))%Z ∧
       ∃ tail, jr_logs row' = jr_logs row +:+ tail).
Proof.
  apply (jobs_only_move_forward RedisQueue_impl CapabilityScheduler cfg heartbeat redis_view boot
    (play queued boot));
    [apply gmap_redis_queue|apply boot_initial|apply play_reachable|apply play_reachable].
Defined.

Lemma rows_are_consistent_witness :
  let db := w_db (moment given_another) in
  (∀ id row, db_jobs db !! id = Some row →
     j_ID (jr_job row) = id ∧ job_wf (db_runners db) (jr_job row)) ∧
  (∀ r rrow, db_runners db !! r = Some rrow →
     r_ID (rr_runner rrow) = r ∧ runner_wf (rr_runner rrow)).
Proof.
  apply (rows_are_consistent RedisQueue_impl CapabilityScheduler cfg heartbeat redis_view boot
    (play given_another boot)); [apply gmap_redis_queue|apply boot_initial|apply play_reachable].
Defined.

(** A run whose runner falls silent, and another that finishes. *)
Lemma operations_keep_agreement_witness :
  let db := w_db (exec (run_operations RedisQueue_impl
    [OMethod (MAssign "job-a" "runner-1"); OMethod (MStart "job-a"); OReap 0; OMethod (MHeartbeat "runner-1");
     OMethod (MAssign "job-a" "runner-1"); OMethod (MStart "job-a"); OMethod (MAppend "job-a" 1 "hi")])
    (moment queued)).2 in
  db_wf db ∧
  (∀ id row r, db_jobs db !! id = Some row → j_RunnerID (jr_job row) = Some r →
     (job_status row = JobAssigned ∨ job_status row = JobRunning) →
     ∃ rrow, db_runners db !! r = Some rrow ∧ r_Status (rr_runner rrow) = RunnerBusy ∧
       r_CurrentJobID (rr_runner rrow) = Some id) ∧
  (∀ r rrow, db_runners db !! r = Some rrow → r_Status (rr_runner rrow) = RunnerBusy →
     ∃ id row, r_CurrentJobID (rr_runner rrow) = Some id ∧ db_jobs db !! id = Some row ∧
       j_RunnerID (jr_job row) = Some r ∧ (job_status row = JobAssigned ∨ job_status row = JobRunning)).
Proof.
  apply (operations_keep_agreement RedisQueue_impl redis_view).
  - apply gmap_redis_queue.
  - repeat constructor.
  - reflexivity.
  - good_moment.
  - found.
Defined.

Lemma every_job_was_delivered_witness :
  let j := jr_job (job_of (moment queued) "job-a") in
  (∃ body signature eventType e,
     authentic (GitHubWebhookSecret cfg) body signature ∧ ParseEvent eventType body = Ok e ∧
     described j = described (job_of_event "job-a" e)) ∧
  (∃ owner name, j_Repository j = owner +:+ "/" +:+ name) ∧
  String.length (j_CommitSHA j) = 40 ∧ Forall lower_hex (bytes_of (j_CommitSHA j)) ∧
  (∃ rest, j_CloneURL j = "https://" +:+ rest) ∧ j_Branch j ≠ "" ∧
  (j_EventType j = "push" ∨ j_EventType j = "pull_request") ∧
  j_ConfigRef j = "forgerun.yml" ∧ j_Labels j = ["linux"; "docker"].
Proof.
  apply (every_job_was_delivered RedisQueue_impl CapabilityScheduler cfg heartbeat redis_view boot
    (play queued boot)); [apply gmap_redis_queue|apply boot_initial|apply play_reachable|found].
Defined.
