(* ===== verification/RunnerWitnesses.v ===== *)
(** * The theorems about the runner, the GitHub client and the migrations at
      concrete states *)
From S2P Require Import Prelude GoLib GoText Sha256 Json JsonOut GoTime Http Jwt Config Prog Traces Rely.
From S2P Require Import Models Sql Redis World Tables Store Lifecycle Queue Outcome Service Webhook Api Auth JobApi Scenario.
From S2P Require Import LogStream Workspace Jobspec Executor Agent AgentSpec Wire Output Github GithubSpec Migrate Startup.
From S2P Require Import Witnesses.

From Stdlib Require Import Ascii.

#[local] Existing Instances key_order gmap_redis.

(** ** The log stream *)

(** The ticker fires while the build writes; Close sends the rest. *)
Definition stream_schedule : list (nat * bool) :=
  [(0, true); (1, true); (1, true); (1, true); (1, true); (0, true); (1, true); (1, true)] ++
  replicate 8 (0, true).

Definition drained : logStreamer :=
  mkStreamer "" false 2 true OnceDone false [(1%Z, "build"); (2%Z, " ok")] "build ok".

Lemma Close_sends_everything_witness :
  (∃ tick' s', rtc stream_step ([mret tt; mret tt], drained) ([mret tt; tick'], s')) ∧
  (mret tt = (mret tt : Prog StreamCall unit) →
     concat_strings (ls_sent drained).*2 = concat_strings ["build"; " ok"] ∧
     (ls_sent drained).*1 = seqZ 1 (Z.of_nat (length (ls_sent drained)))).
Proof.
  apply (Close_sends_everything ["build"; " ok"] 1 (mret tt) (mret tt) drained).
  apply (stream_play_reachable stream_schedule). vm_compute. reflexivity.
Defined.

(** ** The agent *)

Definition agent_settings : Settings :=
  Load (λ key, if bool_decide (key = "FORGERUN_SERVER_URL") then "https://ci.example" else "") None "/tmp"
    (λ _, None).

Definition job_delivered : jobDelivery :=
  mkDelivery "job-a" "octo/app" "https://github.com/octo/app.git" sha_a "main" "push" "forgerun.yml"
    nil_slice "ASSIGNED" (Some "runner-1") 1 None "" 0 None None "ghs_clone".

Lemma execute_correct_witness :
  post (execute agent_settings (λ _, Ok ∅) id "runner-1" Scenario.token job_delivered) []
    (obligations agent_settings "runner-1" Scenario.token job_delivered).
Proof. apply execute_correct. vm_compute. lia. Defined.

Lemma plain_job_a : plain "job-a".
Proof. split; [done|]. repeat constructor. Qed.

Lemma runner_1_holds_job_a :
  assigned_to "runner-1" Scenario.token "job-a" (job_of (moment started) "job-a")
    (runner_row (moment started) "runner-1") (moment started).
Proof. split_and!; [by vm_compute|by vm_compute|found..]. Qed.

Lemma output_reaches_the_store_witness :
  let w := moment started in
  logs_of (w_db (@ship _ _ _ RedisQueue_impl agent_settings Scenario.cfg "runner-1" Scenario.token "job-a"
    (ls_sent drained) w)) "job-a" = Some (concat_strings ["build"; " ok"], 2%Z).
Proof.
  apply (output_reaches_the_store agent_settings Scenario.cfg "runner-1" Scenario.token "job-a"
    ["build"; " ok"] 1 (mret tt) drained (job_of (moment started) "job-a")
    (runner_row (moment started) "runner-1") (moment started)).
  - apply (stream_play_reachable stream_schedule). vm_compute. reflexivity.
  - found.
  - apply played_wf.
  - apply plain_job_a.
  - apply runner_1_holds_job_a.
  - split; found.
  - done.
  - repeat constructor; done.
Defined.

(** The build failed, and its output is not all UTF-8. *)
Definition failure_text : string := "exit <2> " +:+ of_bytes [byte_of 255].

Lemma result_reaches_the_store_witness :
  let w := moment started in
  result_handled "job-a" "runner-1" (job_of w "job-a") (runner_row w "runner-1") JobFailed 2
    (sanitize failure_text) w
    (exec (@Routes RedisQueue_impl Scenario.cfg
       (result_message agent_settings "runner-1" Scenario.token "job-a" JobFailed 2 failure_text)) w).
Proof.
  apply (result_reaches_the_store agent_settings Scenario.cfg "runner-1" Scenario.token "job-a");
    [found|good_moment|apply plain_job_a|apply runner_1_holds_job_a|by right|found|found|].
  apply Z.leb_le. found.
Defined.

(** Git printed 64 KiB. *)
Fixpoint dashes (n : nat) : string := match n with O => "" | S n => String.String "-"%char (dashes n) end.

Lemma escape_dashes n : String.length (escape (dashes n)) = n.
Proof.
  unfold escape. induction n as [|n IH]; [done|]. cbn [dashes]. rewrite by_runes_ascii by done.
  rewrite string_length_append, IH. done.
Qed.

Lemma long_error_is_refused_witness :
  let w := moment started in
  exec (@Routes RedisQueue_impl Scenario.cfg
    (result_message agent_settings "runner-1" Scenario.token "job-a" JobFailed (-1)
       (dashes (Z.to_nat 65536)))) w =
  (mkResponse 400 (BodyError "invalid JSON body"), w).
Proof.
  apply (long_error_is_refused agent_settings Scenario.cfg "runner-1" Scenario.token "job-a"
    (job_of (moment started) "job-a") (runner_row (moment started) "runner-1"));
    [found|apply plain_job_a|apply runner_1_holds_job_a|].
  rewrite escape_dashes. lia.
Defined.

(** ** The GitHub App *)

(** Any working key will do; this one keeps the arithmetic short. *)
Definition short_key : PrivateKey := mkKey (2 ^ 1024) 1 1.

Lemma short_key_ok : key_ok short_key.
Proof.
  split; [done|]. intros m Hm. unfold short_key in *. cbn [pk_N pk_E pk_D] in *.
  rewrite !Zpow_facts.Zpow_mod_correct, !Z.pow_1_r by done. rewrite (Z.mod_small m) by done. by apply Z.mod_small.
Qed.

(** 2024-01-01T00:00:00Z *)
Definition new_year : Z := 1704067200 * 1000000000.

Lemma appJWT_accepted_witness :
  (∃ jwt, appJWT (λ _, true) short_key "12345" new_year = Ok jwt) ∧
  ∀ jwt, appJWT (λ _, true) short_key "12345" new_year = Ok jwt →
    accepts (pk_N short_key) (pk_E short_key) "12345" (1704067200 - 60) jwt = true.
Proof.
  destruct (appJWT_accepted (λ _, true) "12345" new_year) with (key := short_key)
    (now' := (1704067200 - 60)%Z) as [H1 H2].
  - repeat constructor.
  - reflexivity.
  - vm_compute. by split.
  - split; [apply H1, short_key_ok|exact H2].
Defined.

(** *** A clone token, twice *)

Definition app : AppClient := mkApp "12345" short_key api_github.

Definition answer_lookup : GhReply :=
  Ok (mkHttpResponse 200 (λ _, "") (Marshal (JObj [("id", JNum "42")]))).
Definition answer_token : GhReply :=
  Ok (mkHttpResponse 201 (λ _, "")
    (Marshal (JObj [("token", JStr "ghs_clone"); ("expires_at", JStr "2024-01-01T01:00:00Z")]))).

(** GitHub: the first request of the day is answered 502. *)
Definition network (l : list (HttpRequest * GhReply)) (req : HttpRequest) : GhReply :=
  match l with
  | [] => Ok (mkHttpResponse 502 (λ _, "") "bad gateway")
  | _ => if HasSuffix (hq_URL req) "/installation" then answer_lookup else answer_token
  end.

Definition new_client : GhWorld := mkGh ∅ ∅ new_year [] network (λ _, false).

Inductive gh_action : Type := Start (t : gh_task) | Turn (i : nat).

Definition gh_act (a : gh_action) (st : list thread * GhWorld) : list thread * GhWorld :=
  let '(ts, w) := st in
  match a with
  | Start t => (ts ++ [mkThread t w (run_task (λ _, None) (λ _, true) app t)], w)
  | Turn i =>
      match ts !! i with
      | Some th =>
          (<[i := mkThread (th_task th) (th_start th) (prog_step gh_handle (th_prog th) w).1]> ts,
           (prog_step gh_handle (th_prog th) w).2)
      | None => st
      end
  end.

Lemma gh_act_reaches w0 acts st :
  client_reaches (λ _, None) (λ _, true) app w0 st →
  client_reaches (λ _, None) (λ _, true) app w0 (foldl (λ st a, gh_act a st) st acts).
Proof.
  revert st. induction acts as [|a acts IH]; intros st Hr; [done|]. simpl. apply IH.
  unfold client_reaches in *. etrans; [exact Hr|]. destruct st as [ts w]. destruct a as [t|i]; simpl.
  - apply rtc_once, step_spawn.
  - destruct (ts !! i) eqn:Hth; [|apply rtc_refl]. by apply rtc_once, step_run.
Qed.

(** The first call looks the installation up and mints; the second one, started
    meanwhile, finds the token in the cache. *)
Definition two_clones : list gh_action :=
  [Start (CloneTask "octo/app")] ++ replicate 11 (Turn 0) ++ [Start (CloneTask "octo/app"); Turn 1; Turn 1].

Definition clone_state : list thread * GhWorld := foldl (λ st a, gh_act a st) ([], new_client) two_clones.

Lemma clone_state_reached : client_reaches (λ _, None) (λ _, true) app new_client clone_state.
Proof. unfold clone_state. apply gh_act_reaches. apply rtc_refl. Qed.

Lemma second_clone :
  match clone_state.1 !! 1 with
  | Some th => th_task th = CloneTask "octo/app" ∧ th_prog th = Ret (Ok "ghs_clone")
  | None => False
  end.
Proof. vm_compute. by split. Qed.

Lemma clone_token_is_scoped_witness :
  (∃ th, clone_state.1 !! 1 = Some th ∧
     good_token (λ _, None) (λ _, true) app (th_start th) clone_state.2 "octo/app" clonePerms "ghs_clone") ∧
  (∀ req r, (req, r) ∈ gw_log clone_state.2 →
     legitimate (λ _, None) (λ _, true) app (gw_log clone_state.2) req).
Proof.
  pose proof clone_state_reached as Hr. pose proof second_clone as Hs. revert Hr Hs.
  generalize clone_state. intros [ts w] Hr Hs. cbn [fst snd] in *.
  destruct (clone_token_is_scoped (λ _, None) (λ _, true) app new_client w ts) as [H1 H2];
    [by split|reflexivity|exact Hr|]. split; [|exact H2].
  destruct (ts !! 1) as [th|] eqn:Hth; [|done]. exists th. split; [done|].
  exact (H1 1 th "octo/app" "ghs_clone" Hth (proj1 Hs) (proj2 Hs)).
Defined.

(** ** Migrations *)

(** What the repository's two migrations do to the tables, and undo. *)
Inductive tables : Type := NoTables | Tables | TablesWithSequence.

Definition run_sql (body : string) (s : tables) : option tables :=
  if decide (body = "create") then Some (match s with NoTables => Tables | s => s end)
  else if decide (body = "add") then match s with NoTables => None | _ => Some TablesWithSequence end
  else if decide (body = "drop column") then match s with NoTables => None | _ => Some Tables end
  else if decide (body = "drop") then Some NoTables else None.

(** The names of migrations/, with a summary of each file. *)
Definition directory : list (string * string) :=
  [("0001_init.down.sql", "drop"); ("0001_init.sql", "create");
   ("0002_log_sequence.down.sql", "drop column"); ("0002_log_sequence.sql", "add")].

Example upMigrations_ex : upMigrations directory = ["0001_init.sql"; "0002_log_sequence.sql"].
Proof. reflexivity. Qed.

Definition newest_first (vs : gset string) : list string := reverse (merge_sort bytes_le (base.elements vs)).

Lemma directory_names : NoDup (map fst directory).
Proof. apply (bool_decide_unpack _). by vm_compute. Qed.

(** The second migration is pending; the connection breaks when it commits. *)
Definition half_migrated : MigWorld (S := tables) :=
  mkMig (mkMigDB (Some {["0001_init.sql"]}) Tables) None
    [FNone; FNone; FNone; FNone; FNone; FNone; FReplyLost].

Lemma half_migrated_at : at_version directory run_sql NoTables 1 (mw_db half_migrated).
Proof. split; [apply Nat.leb_le; found|left; found|found]. Qed.

Lemma Migrate_correct_witness :
  (∀ k, ∃ m, 1 ≤ m ∧ at_version directory run_sql NoTables m
     (mw_db (prog_steps (mig_handle run_sql newest_first) k (Migrate.Migrate directory) half_migrated).2)) ∧
  ((run (mig_handle run_sql newest_first) (Migrate.Migrate directory) half_migrated).1 = Ok tt →
     at_version directory run_sql NoTables (length (upMigrations directory))
       (mw_db (run (mig_handle run_sql newest_first) (Migrate.Migrate directory) half_migrated).2)) ∧
  (mw_faults half_migrated = [] → is_Some (replay directory run_sql (upMigrations directory) NoTables) →
     (run (mig_handle run_sql newest_first) (Migrate.Migrate directory) half_migrated).1 = Ok tt).
Proof. apply Migrate_correct; [apply directory_names|apply half_migrated_at]. Defined.

Lemma Rollback_correct_witness :
  let w := mkMig (mw_db half_migrated) None [] in
  (∀ k, ∃ m, 1 - Z.to_nat 1 ≤ m ∧ at_version directory run_sql NoTables m
     (mw_db (prog_steps (mig_handle run_sql newest_first) k (Rollback directory 1) w).2)) ∧
  ((run (mig_handle run_sql newest_first) (Rollback directory 1) w).1 = Ok tt →
     at_version directory run_sql NoTables (1 - Z.to_nat 1)
       (mw_db (run (mig_handle run_sql newest_first) (Rollback directory 1) w).2)) ∧
  (mw_faults w = [] → (run (mig_handle run_sql newest_first) (Rollback directory 1) w).1 = Ok tt).
Proof.
  apply Rollback_correct.
  - apply directory_names.
  - intros [|[|i]] v [= <-]; eexists; (split; [by vm_compute|]);
      intros body s s' Hb Hs He; vm_compute in Hb, Hs; injection Hb as <-; injection Hs as <-;
      vm_compute in He; injection He as <-; reflexivity.
  - intros n. destruct (le_lt_dec 2 n) as [Hn|Hn].
    + rewrite take_ge by exact Hn. by vm_compute.
    + destruct n as [|[|n]]; [by vm_compute..|lia].
  - apply half_migrated_at.
  - done.
Defined.

(** ** Start-up *)

Definition api_settings : Settings := Load (λ _, "") None "/tmp" (λ _, None).

Definition booting : BootWorld (S := tables) :=
  mkBoot (mkMig (mw_db half_migrated) None []) None [].

(** Sixty calls on, the server is up (and has been told to stop). *)
Lemma serves_only_migrated_witness :
  let boot := boot_handle run_sql newest_first in
  let main := api_main directory api_settings (λ _, None) (λ _, None) (λ _, Err "no key") Err 0 in
  bw_serving (prog_steps boot 60 main booting).2 ≠ None ∧
  at_version directory run_sql NoTables (length (upMigrations directory))
    (mw_db (bw_mig (prog_steps boot 60 main booting).2)).
Proof.
  assert (bw_serving (prog_steps (boot_handle run_sql newest_first) 60
    (api_main directory api_settings (λ _, None) (λ _, None) (λ _, Err "no key") Err 0) booting).2 ≠ None) as Hup.
  { by vm_compute. }
  split; [exact Hup|]. apply serves_only_migrated; [apply directory_names| |done|done|exact Hup].
  exists 1. apply half_migrated_at.
Defined.
