(* ===== verification/ClusterWitnesses.v ===== *)
(** * The theorems about the whole, at a concrete run

    A runner joins and registers, a push is delivered and scheduled, the runner
    polls, builds in a container that exits with 0, and reports. *)
From S2P Require Import Prelude GoLib Sha256 Json Http Config Prog Traces AgentSpec Models Sql Redis World Tables Typed Store Lifecycle Queue.
From S2P Require Import Outcome Scheduler Service Webhook Api Auth System Scenario Workspace Jobspec Executor Agent Encode Wire.
From S2P Require Import Deliveries Cluster Machine ClusterSpec MachineSpec EndToEnd Witnesses.

#[local] Existing Instances key_order gmap_redis RedisQueue_impl CapabilityScheduler.

(** ** A runner's host *)

Definition runner_settings : Settings :=
  Load (λ key, if bool_decide (key = "RUNNER_REGISTRATION_TOKEN") then "join"
               else if bool_decide (key = "RUNNER_LABELS") then "linux,docker" else "")
    (Some "builder") "/tmp" (λ _, None).

(** Every command succeeds; the build definition is a file. *)
Definition fine_host (X : Type) (c : HostCall X) : X :=
  match c with
  | MkdirAll _ => None
  | Exec _ _ => ("", None)
  | RemoveAll _ => None
  | ReadFile _ => Ok "jobs"
  end.

Definition yaml_jobs (_ : string) : result string Spec :=
  Ok {[ "test" := mkSpecJob "" "golang:1.22" ["go test ./..."] ∅ [] ]}.

Definition green_container (_ : ExecRequest) : result string ExecResult := Ok (mkExecResult 0 false).

Lemma green_container_exit req : exit_ok (green_container req).
Proof. done. Qed.

(** ** The run *)

Abbreviation machine := (Machine (R := gmap string (list string))).
Abbreviation whole := (Cluster (R := gmap string (list string))).
Abbreviation handle_machine :=
  (machine_handle Scenario.cfg runner_settings (λ _, 0%Z) id "" fine_host green_container).
Abbreviation reaches :=
  (@cluster_reachable _ _ _ RedisQueue_impl CapabilityScheduler Scenario.cfg heartbeat (λ _, 0%Z) id "" "amd64" "linux"
     yaml_jobs).

Definition supplied : World (gmap string (list string)) :=
  mkWorld (empty_db 0) ∅ [] ["request-1"; "runner-1"; "job-a"; "request-2"; "request-3"; "request-4"] [Some token_bytes] [] [] [].

Definition agent_main : Prog AgentCall unit :=
  duty_prog id "amd64" "linux" yaml_jobs runner_settings (DRun 1).

(** The agent has registered; its next call starts the heartbeat. *)
Definition joined : Prog AgentCall unit * machine :=
  prog_steps handle_machine 1 agent_main (mkMachine supplied empty_book [] []).

Definition serving (e : entry) (w : World (gmap string (list string))) : World (gmap string (list string)) :=
  (exec (entry_prog RedisQueue_impl CapabilityScheduler Scenario.cfg heartbeat e) w).2.

(** The push arrives and is placed. *)
Definition place (m : machine) : machine :=
  mkMachine (serving (EScheduler 1) (serving (ERequest (push_request sha_a)) (m_world m))) (m_book m) (m_runs m) (m_hosted m).

(** The agent goes on to its end. *)
Definition finished : Prog AgentCall unit * machine := prog_steps handle_machine 60 joined.1 (place joined.2).

Definition whole_start : whole := mkCluster [] [] supplied [].

Lemma push_is_outside sha : outside (ERequest (push_request sha)).
Proof. intros job rt [Hr _]. by vm_compute in Hr. Qed.

Lemma run_reached p1 m1 p2 m2 :
  prog_steps handle_machine 1 agent_main (mkMachine supplied empty_book [] []) = (p1, m1) →
  prog_steps handle_machine 60 p1 (place m1) = (p2, m2) →
  ∃ ps cs, reaches whole_start (mkCluster ps cs (m_world m2) (m_runs m2)).
Proof.
  intros E1 E2. set (c := mkClient runner_settings (Running agent_main)).
  destruct (machine_reaches Scenario.cfg runner_settings (λ _, 0%Z) id "" fine_host green_container
    CapabilityScheduler heartbeat "amd64" "linux" yaml_jobs green_container_exit 1 [] [c]
    (mkMachine supplied empty_book [] []) 0 agent_main p1 m1) as (cs1 & R1 & C1); [done|exact E1|].
  destruct (entry_reaches Scenario.cfg (λ _, 0%Z) id "" CapabilityScheduler heartbeat "amd64" "linux" yaml_jobs
    (ERequest (push_request sha_a)) [] cs1 (m_world m1) (m_runs m1)) as (ps1 & R2); [apply push_is_outside|].
  destruct (entry_reaches Scenario.cfg (λ _, 0%Z) id "" CapabilityScheduler heartbeat "amd64" "linux" yaml_jobs
    (EScheduler 1) ps1 cs1 (serving (ERequest (push_request sha_a)) (m_world m1)) (m_runs m1)) as (ps2 & R3); [done|].
  destruct (machine_reaches Scenario.cfg runner_settings (λ _, 0%Z) id "" fine_host green_container
    CapabilityScheduler heartbeat "amd64" "linux" yaml_jobs green_container_exit 60 ps2 cs1 (place m1) 0 p1 p2 m2 C1 E2)
    as (cs2 & R4 & _).
  exists ps2, cs2. eapply rtc_l; [apply (cl_join _ _ _ _ _ _ _ _ _ _ [] [] supplied [] runner_settings (DRun 1))|].
  etrans; [exact R1|]. etrans; [exact R2|]. etrans; [exact R3|exact R4].
Qed.

Lemma finished_reached :
  ∃ ps cs, reaches whole_start (mkCluster ps cs (m_world finished.2) (m_runs finished.2)).
Proof. apply (run_reached joined.1 joined.2 finished.1 finished.2); apply surjective_pairing. Qed.

Definition is_green (w : World (gmap string (list string))) (id : string) : bool :=
  match db_jobs (w_db w) !! id with
  | Some row => bool_decide (job_status row = JobSuccess)
  | None => false
  end.

Lemma is_green_row w jobID : is_green w jobID = true → ∃ row, db_jobs (w_db w) !! jobID = Some row ∧ job_status row = JobSuccess.
Proof. unfold is_green. destruct (db_jobs (w_db w) !! jobID) as [row|]; [|done]. intros Hs%bool_decide_eq_true. by exists row. Qed.

Lemma finished_green : is_green (m_world finished.2) "job-a" = true.
Proof. vm_compute. reflexivity. Qed.

Lemma green_reached :
  ∃ (s : whole) row, reaches whole_start s ∧ db_jobs (w_db (cl_world s)) !! "job-a" = Some row ∧ job_status row = JobSuccess.
Proof.
  destruct finished_reached as (ps & cs & Hr). pose proof finished_green as Hg. revert Hr Hg.
  generalize finished. intros [p [w b rs hs]] Hr Hg. apply is_green_row in Hg as (row & Hrow & Hs).
  by exists (mkCluster ps cs w rs), row.
Qed.

Lemma green_means_built_witness :
  ∃ (s : whole) row, job_status row = JobSuccess ∧ db_jobs (w_db (cl_world s)) !! "job-a" = Some row ∧
  (∃ req, (req, Ok (mkExecResult 0 false)) ∈ cl_runs s ∧
     er_JobID req = "job-a" ∧ er_CommitSHA req = j_CommitSHA (jr_job row)) ∧
  j_ExitCode (jr_job row) = Some 0%Z ∧ j_Error (jr_job row) = "".
Proof.
  destruct green_reached as (s & row & Hr & Hrow & Hs). exists s, row. split; [exact Hs|]. split; [exact Hrow|].
  apply (green_means_built RedisQueue_impl redis_view CapabilityScheduler Scenario.cfg heartbeat (λ _, 0%Z) id ""
    "amd64" "linux" yaml_jobs whole_start s "job-a" row).
  - apply _.
  - intros _. apply Z.divide_0_r.
  - split; [reflexivity|]. split; [reflexivity|]. split; [reflexivity|]. by exists 0%Z.
  - exact Hr.
  - exact Hrow.
  - exact Hs.
Defined.

(** ** The machine *)

(** job-a is assigned to runner-1 and is in its mailbox. *)
Definition handed_out : list event := queued ++ [Spawn (EScheduler 1); Finish 2].

Lemma plain_id c n : plain (String.String c n) ↔ Forall (λ c, unreserved c = true) (bytes_of (String.String c n)).
Proof. split; [by intros [_ H]|by split]. Qed.

Ltac plain_ok := apply plain_id; repeat constructor.

Lemma runner_1_enrolled evs :
  (∃ rrow, db_runners (w_db (moment evs)) !! "runner-1" = Some rrow ∧ rr_token_hash rrow = hashToken Scenario.token) →
  enrolled "runner-1" Scenario.token (w_db (moment evs)).
Proof. intros Hr. split; [done|]. split; [by vm_compute|exact Hr]. Qed.

Lemma moment_typed evs : db_typed (w_db (moment evs)).
Proof. eapply reachable_typed; [apply boot_initial|apply play_reachable]. Qed.

Lemma runner_1_known evs hash :
  (rr_token_hash <$> db_runners (w_db (moment evs)) !! "runner-1") = Some hash → hash = hashToken Scenario.token →
  ∃ rrow, db_runners (w_db (moment evs)) !! "runner-1" = Some rrow ∧ rr_token_hash rrow = hashToken Scenario.token.
Proof. intros (rrow & Hrow & Hh)%fmap_Some E. exists rrow. split; [exact Hrow|]. rewrite <-E. symmetry. exact Hh. Qed.

Definition waiting : machine := mkMachine (moment handed_out) empty_book [] [].

Abbreviation go p m := (run handle_machine p m).

Lemma polled_job_is_the_stored_job_witness :
  ∃ t, let '(r, m') := go (poll runner_settings "runner-1" Scenario.token) waiting in
    r = Ok (Some (as_stored (jr_job (job_of (moment handed_out) "job-a")) t)) ∧
    mailbox (redis_view (m_world m')) "runner-1" = [] ∧ w_db (m_world m') = w_db (m_world waiting).
Proof.
  apply (polled_job_is_the_stored_job RedisQueue_impl redis_view Scenario.cfg runner_settings "runner-1" Scenario.token
    (λ _, 0%Z) id "" fine_host green_container "job-a" [] (job_of (moment handed_out) "job-a") waiting).
  - apply _.
  - intros _. apply Z.divide_0_r.
  - found.
  - apply moment_typed.
  - plain_ok.
  - apply runner_1_enrolled. eapply runner_1_known; [found|found].
  - found.
  - found.
  - by vm_compute.
Defined.

Lemma finished_job_stops_its_build_witness :
  let b := mkBook [mkActive "job-a" false false] (Some 0) in
  let d := as_stored (jr_job (job_of (moment cancelled_run) "job-a")) "" in
  let '(_, m1) := go (beat_once runner_settings "runner-1" Scenario.token)
    (mkMachine (world (play [Tick 5000000] (play cancelled_run boot))) b [] []) in
  bk_jobs (m_book m1) !! 0 = Some (mkActive "job-a" true true) ∧
  let '(how, m2) := go (how ← conclude runner_settings "runner-1" Scenario.token 0 d (Ok (mkExecResult 137 false));
    _ ← unwind 0 (Some "/tmp/forgerun-job-a"); mret how) m1 in
  how = Returned ∧ m_world m2 = m_world m1 ∧ m_runs m2 = m_runs m1 ∧ bk_active (m_book m2) = None ∧
  ∃ err, m_hosted m2 = m_hosted m1 ++ [Traces.ev (RemoveAll "/tmp/forgerun-job-a") err].
Proof.
  apply (finished_job_stops_its_build RedisQueue_impl redis_view Scenario.cfg runner_settings "runner-1" Scenario.token
    (λ _, 0%Z) id "" fine_host green_container CapabilityScheduler heartbeat boot (play cancelled_run boot)
    (play [Tick 5000000] (play cancelled_run boot)) "job-a" 0 (job_of (moment cancelled_run) "job-a")).
  - apply _.
  - apply boot_initial.
  - apply play_reachable.
  - apply play_reachable.
  - found.
  - found.
  - found.
  - plain_ok.
  - plain_ok.
  - split; [done|]. split; [done|]. exists (runner_row (world (play [Tick 5000000] (play cancelled_run boot))) "runner-1").
    split; found.
  - by vm_compute.
  - split; [reflexivity|]. by eexists.
Defined.

Lemma runner_works :
  works runner_settings fine_host green_container yaml_jobs "job-a" (job_of (moment handed_out) "job-a")
    "/tmp/forgerun-job-a" "jobs" {[ "test" := named "test" (mkSpecJob "" "golang:1.22" ["go test ./..."] ∅ []) ]}
    (named "test" (mkSpecJob "" "golang:1.22" ["go test ./..."] ∅ [])) (mkExecResult 0 false).
Proof.
  assert (jr_job (job_of (moment handed_out) "job-a") =
    mkJob "job-a" "octo/app" "https://github.com/octo/app.git" sha_a "main" "push" "forgerun.yml" ["linux"; "docker"]
      JobAssigned (Some "runner-1") 1 None "" 0 None None) as E by found.
  by split; rewrite ?E.
Qed.

Definition build_request : ExecRequest :=
  asked runner_settings (job_of (moment handed_out) "job-a") "/tmp/forgerun-job-a"
    (named "test" (mkSpecJob "" "golang:1.22" ["go test ./..."] ∅ [])).

Lemma assigned_job_is_built_witness :
  let '(how, m') := go (run_loop runner_settings yaml_jobs id "runner-1" Scenario.token 1) waiting in
  how = Returned ∧ bk_active (m_book m') = None ∧ m_runs m' = [(build_request, Ok (mkExecResult 0 false))] ∧
  (∃ h, m_hosted m' = h ∧ cleaned "/tmp/forgerun-job-a" h) ∧
  (∃ row', db_jobs (w_db (m_world m')) !! "job-a" = Some row' ∧ job_status row' = JobSuccess ∧
     j_ExitCode (jr_job row') = Some 0%Z ∧ j_Error (jr_job row') = "") ∧
  (∃ rrow', db_runners (w_db (m_world m')) !! "runner-1" = Some rrow' ∧ r_Status (rr_runner rrow') = RunnerIdle ∧
     r_CurrentJobID (rr_runner rrow') = None).
Proof.
  apply (assigned_job_is_built RedisQueue_impl redis_view Scenario.cfg runner_settings "runner-1" Scenario.token
    (λ _, 0%Z) id "" fine_host green_container yaml_jobs "job-a" [] (job_of (moment handed_out) "job-a") waiting
    [(build_request, Ok (mkExecResult 0 false))] JobSuccess 0 "").
  - apply _.
  - intros _. apply Z.divide_0_r.
  - found.
  - good_moment.
  - apply moment_typed.
  - plain_ok.
  - plain_ok.
  - apply runner_1_enrolled. eapply runner_1_known; [found|found].
  - found.
  - found.
  - found.
  - found.
  - by vm_compute.
  - apply Nat.leb_le. found.
  - eapply (works_course _ _ _ _ _ "job-a"); [found|apply runner_works].
  - by apply (works_reportable (mkExecResult 0 false)).
Defined.

(** ** A push *)

(** The runner has registered; nothing else has happened. *)
Definition before_push : list event :=
  [Answers ["runner-1"; "request-1"; "job-a"] [Some token_bytes]; Spawn (ERequest register_request); Finish 0].

(** GitHub's own request. *)
Definition github_push : Request :=
  mkRequest "POST" ["webhooks"; "github"]
    (λ n, if decide (n = "X-Request-ID") then "" else rq_Header (push_request sha_a) n) (λ _, "")
    (rq_Body (push_request sha_a)).

Lemma github_push_delivers : delivers Scenario.cfg github_push event_a.
Proof. destruct delivers_a as [Hs Hsig He]. split; [exact Hs|exact Hsig|exact He]. Qed.

Lemma before_push_empty : db_jobs (w_db (moment before_push)) = ∅.
Proof. found. Qed.

Lemma github_push_new : new_push Scenario.cfg github_push event_a (moment before_push).
Proof.
  split.
  - apply github_push_delivers.
  - intros k row (Hrow & _). rewrite before_push_empty in Hrow. exact (lookup_empty_Some _ _ Hrow).
  - rewrite before_push_empty. apply lookup_empty.
  - found.
Qed.

Definition builder : RunnerRow := runner_row (moment before_push) "runner-1".

Lemma before_push_runners : db_runners (w_db (moment before_push)) = {[ "runner-1" := builder ]}.
Proof. found. Qed.

Lemma builder_usable : usable heartbeat (w_db (moment before_push)) "runner-1" builder.
Proof. apply usable_found; found. Qed.

Lemma builder_is_the_runner :
  the_runner heartbeat (moment before_push) (job_of_event (job_id (moment before_push)) event_a) "runner-1" builder.
Proof.
  split.
  - apply builder_usable.
  - apply can_take_found. found.
  - intros r rr [Hr _]. rewrite before_push_runners in Hr. by apply lookup_singleton_Some in Hr as [<- _].
Qed.

Definition go_step : SpecJob := named "test" (mkSpecJob "" "golang:1.22" ["go test ./..."] ∅ []).

Lemma push_works :
  works runner_settings fine_host green_container yaml_jobs (job_id (moment before_push))
    (created (db_now (w_db (moment before_push))) (job_id (moment before_push)) event_a)
    "/tmp/forgerun-job-a" "jobs" {[ "test" := go_step ]} go_step (mkExecResult 0 false).
Proof.
  assert (job_id (moment before_push) = "job-a") as -> by found.
  by split.
Qed.

Lemma push_is_built_witness :
  let w := moment before_push in
  let w2 := (exec (serve heartbeat 1) (exec (serve_http Scenario.cfg github_push) w).2).2 in
  let '(how, m) := go (run_loop runner_settings yaml_jobs id "runner-1" Scenario.token 1) (mkMachine w2 empty_book [] []) in
  how = Returned ∧
  (∃ req, m_runs m = [(req, Ok (mkExecResult 0 false))] ∧ er_JobID req = job_id w ∧ er_CommitSHA req = sha_a ∧
     sj_Commands (er_Spec req) = ["go test ./..."]) ∧
  (∃ row, db_jobs (w_db (m_world m)) !! job_id w = Some row ∧ completed_with (mkExecResult 0 false) row) ∧
  (∃ rrow', db_runners (w_db (m_world m)) !! "runner-1" = Some rrow' ∧ r_Status (rr_runner rrow') = RunnerIdle ∧
     r_CurrentJobID (rr_runner rrow') = None).
Proof.
  apply (push_is_built RedisQueue_impl redis_view CapabilityScheduler Scenario.cfg heartbeat runner_settings "runner-1"
    Scenario.token (λ _, 0%Z) id "" fine_host green_container yaml_jobs github_push event_a (moment before_push) builder
    "/tmp/forgerun-job-a" "jobs" {[ "test" := go_step ]} go_step (mkExecResult 0 false)).
  - apply _.
  - apply _.
  - intros _. apply Z.divide_0_r.
  - found.
  - found.
  - good_moment.
  - apply moment_typed.
  - split; reflexivity.
  - apply github_push_new.
  - split; found.
  - apply builder_is_the_runner.
  - plain_ok.
  - assert (job_id (moment before_push) = "job-a") as -> by found. plain_ok.
  - split; [by vm_compute|found].
  - by vm_compute.
  - apply push_works.
Defined.
